(* ===== verification/_CoqProject ===== *)
-Q . S2P
Prelude.v
GoTypes.v
Event.v
Command.v
Errors.v
Fixtures.v
ErrorText.v
CommandCheck.v
Registry.v
EventStoreSpec.v
MemStore.v
AggregateBase.v
AggregateStore.v
Snapshots.v
CommandHandler.v
Match.v
Context.v
Repo.v
Wrappers.v
VersionRepo.v
CacheRepo.v
Projector.v
Graceful.v
Outbox.v
LocalBus.v
Lock.v
Handlers.v
Tracing.v
Mocks.v
Http.v
Testing.v
RepoAcceptance.v
EventStoreAcceptance.v
EventBusAcceptance.v
OutboxAcceptance.v
Benchmarks.v
Scheduler.v
Mongo.v
MongoStoreV2.v
MongoStoreV2Spec.v
MongoStoreV2Laws.v
MongoStoreV2Demo.v
SnapshotsDemo.v
MongoStoreV1.v
MongoStoreV1Spec.v
MongoStoreV1Laws.v
MongoRepo.v
MongoRepoSpec.v
MongoOutbox.v
MongoOutboxSpec.v
TransactionalOutbox.v
Recorder.v
ModelStore.v
Codec.v
BsonUUID.v
CodecAcceptance.v
Namespace.v
DomainModel.v
NamespaceOutbox.v
RemoteBus.v
KafkaBus.v
RedisBus.v
NatsBus.v
GcpBus.v
EventScheduler.v
Todo.v
TodoDemo.v
TodoService.v
TodoServiceSpec.v
TodoServiceDemo.v
GuestList.v
DomainInit.v
GuestListService.v
GuestListDemo.v
AcceptanceDemo.v
BusAcceptanceDemo.v
