(* ===== verification/Prelude.v ===== *)
(** * Event Horizon: a verification library

    A model of [looplab/eventhorizon], a CQRS and event sourcing toolkit for
    Go, and theorems that say what its parts do.  Definitions are translated
    from the Go sources under [src/]; they are executable, keep the names of the
    source where those are free, and are composed the way the code composes
    them.

    ** The program

    A command reaches a command handler ([commandhandler/bus] routes it by type,
    middlewares wrap it), which checks it ([command_check.go]), loads the
    aggregate from an aggregate store, lets it handle the command and saves it
    ([commandhandler/aggregate]).  The event sourced aggregate store
    ([aggregatestore/events]) rebuilds an aggregate by replaying its events from
    an event store and saves the events the aggregate appended, under optimistic
    concurrency; the model store ([aggregatestore/model]) keeps aggregates in a
    repository instead.  Event stores are in memory ([eventstore/memory]) or in
    MongoDB, with a document per aggregate ([eventstore/mongodb]) or per event
    ([eventstore/mongodb_v2]).  Stored events go through an outbox
    ([outbox/memory], [outbox/mongodb]) or an event bus ([eventbus/local], or over
    Kafka, Redis, NATS or Google Pub/Sub) to event handlers; the projector handler ([eventhandler/projector]) keeps read
    models in a repository ([repo/memory], [repo/mongodb], wrapped by
    [repo/cache] and [repo/version]).

    ** Files

    - [Prelude]: 64-bit integers, the monad [prog] of stateful programs with
      errors and panics, loops, list lemmas, the hint databases.
    - [GoTypes]: UUIDs, times, dynamic values, the heap of shared maps,
      contexts.  [Event], [Command], [Errors]: the values of [event.go],
      [command.go] and all error types, with [errors.Is].
    - [CommandCheck] ([command_check.go]), [Registry] ([registry.go] and the four
      global registries), [Match] ([matcher.go], [compare.go]), [Context]
      ([context.go], [namespace/context.go], [repo/version/context.go]),
      [Codec] ([codec/json], [codec/bson]), [BsonUUID] ([codec/bson/uuid.go]),
      [ErrorText] (the [Error] methods of
      all error types).
    - [EventStoreSpec]: the interfaces of [eventstore.go] as records of
      operations, and [EventStoreLaws], the contract of an event store: an
      abstract stream of events per aggregate.  [MemStore]:
      [eventstore/memory], with its instance of the contract.  [Recorder]:
      [eventstore/recorder], over any event store.
    - [AggregateBase], [AggregateStore]: [aggregatestore/events].  The store is
      proved against [EventStoreLaws] and [AggregateLaws], the contract of an
      aggregate; [agg D] packs a domain [D] with the base it embeds and has the
      contract for every [Domain].  [Snapshots]: what snapshot stores promise,
      and that loading through them is loading.  [ModelStore]:
      [aggregatestore/model].
    - [CommandHandler]: [commandhandler/aggregate], [commandhandler/bus],
      [middleware.go] and the validation middleware.  [Lock]:
      [middleware/commandhandler/lock].  [Scheduler]:
      [middleware/commandhandler/scheduler].
    - [Repo]: [repo.go], [repo/memory], and [RepoLaws], the contract of a
      repository (an abstract finite map); [VersionRepo], [CacheRepo]: the
      wrapping repositories.  The cache is itself an instance of [RepoLaws].
    - [Wrappers]: stores that keep something beside the store they wrap keep its
      contract.  [Tracing] ([tracing]) and [Recorder] are such stores.
    - [Http]: [httputils], with what it uses of [net/http].
    - [Projector]: [eventhandler/projector], against [RepoLaws].  [Handlers]:
      [eventhandler.go], sagas, the waiter, the event handler middlewares.
    - [Outbox] ([outbox/memory]), [Graceful] ([graceful.go] of both outboxes),
      [LocalBus] ([eventbus/local]), [Namespace]
      ([namespace/eventstore.go], [namespace/repo.go]), [NamespaceOutbox]
      ([namespace/outbox.go]).
    - [RemoteBus]: what the four remote buses share; [KafkaBus], [RedisBus],
      [NatsBus], [GcpBus]: [eventbus/kafka], [redis], [nats] and [gcp].
      [EventScheduler]: [middleware/eventhandler/scheduler].
    - [Mongo]: what the code relies on of MongoDB, as records of operations on a
      collection and on a client with sessions and the classes of their
      documented behaviour, [CollectionLaws] and [SessionLaws];
      [mongoutils].  Each MongoDB component is a file with the model and a file
      with its theorems, proved for every collection with those laws:
      [MongoStoreV2], [MongoStoreV2Spec] (with the store's concrete inputs in
      [MongoStoreV2Demo]), [MongoStoreV1], [MongoStoreV1Spec], [MongoRepo],
      [MongoRepoSpec], [MongoOutbox], [MongoOutboxSpec].  The MongoDB repository
      is an instance of [RepoLaws] and both event stores of [EventStoreLaws]
      ([MongoStoreV2Laws], [MongoStoreV1Laws]), so what is proved of the clients
      of repositories and of event stores holds for them.
      [TransactionalOutbox]: the outbox as the handler in the transaction of the
      event store's [Save].
    - [DomainModel]: what the example domains share: signatures of events, and
      [CommandSpec], the contract of a domain whose commands have an abstract
      effect, from which the command handler's behaviour follows end to end.
      [Todo]: [examples/todomvc/backend/domains/todo].  [GuestList]:
      [examples/guestlist/domains/guestlist], with its saga and projectors.
      Both are clients of all of the above.  [TodoService], [TodoServiceSpec]:
      the todo backend, from HTTP requests to queries; [GuestListService]: the
      guest list with its set-up, its command bus and its saga.  [DomainInit]: what
      the domains and the mocks register when they are loaded.
    - [Mocks] ([mocks]), [Testing] ([testing.T]) and the shared test suites as
      programs over any implementation: [EventStoreAcceptance]
      ([eventstore/acceptance_testing.go], [maintenance_testing.go]),
      [RepoAcceptance], [CodecAcceptance], [EventBusAcceptance],
      [OutboxAcceptance] ([acceptance_testing.go] of each), [Benchmarks] (the load
      test and the benchmarks, but for the time they take).
    - [Fixtures] and the files whose names end in [Demo]: concrete inputs, at
      which the theorems are applied.

    ** How Go is modelled

    A method is a program over the state its receiver and arguments reach:
    [prog E S A] is [S -> outcome E A * S], with outcomes [Ok], [Err] (a
    returned error) and [Panic].  [map[string]T] and [map[uuid.UUID]T] are
    finite maps; where the code ranges over a map, the order is an argument.
    Interfaces are records of operations or classes, with optional interfaces
    as optional components.  A nil pointer or interface is [None], and a call on
    it panics.  Slices of interface values have [option] elements.  Event
    metadata maps are references into a heap, so that the sharing done by
    [WithMetadata] is visible.

    [int] is kept in [Z] with every addition wrapped at 64 bits ([iadd],
    [isub]); theorems that need it assume [is_int] of the versions involved.
    What MongoDB adds ([$inc]) is not wrapped: the database refuses it.
    Times are [Z] (nanoseconds); the current time, sleeps and new UUIDs are
    arguments.  A mutex-protected body is one atomic step; where the code lets go
    of the lock ([MemStore.Save], [CacheRepo.cache_Find],
    [Namespace.lookup_or_create]) the steps are separate definitions, and
    goroutines are step relations or sequences of steps ([Lock], [LocalBus],
    [Handlers.Waiter], [Scheduler], [EventScheduler]).  Local buses of one group
    share the group's channels ([LocalBus.Buses]).  A test that sleeps or waits is
    given a schedule: what the other goroutines do at each of its waits
    ([EventBusAcceptance]).  The goroutine of a remote
    bus's handler is a state machine whose turns can be interleaved with anything
    ([KafkaBus.runs], [RedisBus.runs]).

    Third-party and foreign code is a parameter: [copier.Copy], the JSON and
    BSON encoders, gzip, UUID text, codecs, the text of errors, cron expressions,
    MongoDB and the brokers.
    The hypotheses about them are stated where they are used, and the witnesses
    instantiate them with concrete functions: a collection that is a finite map,
    a client whose transactions restore the state they started from.  A filter
    is a predicate on documents and an update a function; the laws are for the
    states in which the server answers; a transaction whose callback fails
    leaves the database as it was, and its callback may be run several times.
    What is behind a cursor or a change stream is the list of what reading it
    gives, each a document or a failure to decode it, and the error that ended
    it.  The client of a broker is a record of the calls the bus makes; what a
    theorem needs of the broker is a class: [RedisBus.GroupLaws] (a group is given
    a message once), [NatsBus.SubjectLaws] (wildcards in subjects).

    ** What the theorems show

    - Write side, in memory: [MemStore.save_optimistic_concurrency],
      [save_preserves_invariant], [save_validates_batch],
      [save_load_roundtrip]; [AggregateStore.Load_replays_stream],
      [Save_then_Load_agree], [Save_second_writer_conflicts];
      [CommandHandler.aggregate_handler_commits], [aggregate_handler_rejects];
      [Snapshots.snapshots_transparent];
      and for the example domains, all of it composed,
      [Todo.todo_handler_end_to_end] and
      [GuestList.guestlist_handler_end_to_end].
    - Whole services: [todo_service_end_to_end] (the answers to POSTed commands
      and to the queries that follow the delivery of their events, deleted lists
      included),
      [guest_list_never_overbooked] (whatever clients send and however events are
      delivered), [SetupDomain_routes_commands], [Setup_routes_commands],
      [todo_init_registers], [guest_init_registers].
    - Write side, in MongoDB: the store with one document per event appends a
      batch at the aggregate's version and the next global positions and
      changes no other document ([MongoSave_appends]), refuses every other ([MongoSave_conflict]), is
      atomic ([MongoSave_atomic]), stays well formed whatever it is given
      ([MongoSave_invariant]) and loads what it saved
      ([MongoSave_Load_roundtrip], [MongoLoad_history], [MongoSnapshot_roundtrip]),
      also under maintenance ([MongoReplace_spec], [MongoRenameEvent_all]);
      the one with a document per aggregate is exact in the same sense
      ([MongoV1Save_exact]).  With the outbox as its handler, events are stored if
      and only if they are queued ([stored_events_are_queued],
      [refused_events_are_not_queued]).
    - One contract: the in-memory store, both MongoDB stores and the recording,
      tracing and namespaced stores around them are instances of
      [EventStoreLaws], of [EventStoreRefuses] (what a store refuses) and of
      [KeepsDetails] (dates, data and metadata) where they are; every such store
      passes the shared acceptance test ([event_store_acceptance_passes]), as
      every repository ([repo_acceptance_passes]) and codec
      ([event_codec_acceptance_passes], [command_codec_acceptance_passes]) passes
      its own; the event stores also run the benchmark without an error
      ([store_benchmark_passes]).  The local bus and the in-memory outbox pass theirs under concrete
      schedules ([BusAcceptanceDemo]).
    - Where the stores depart from what they mean to do:
      [save_without_version_check], [LoadFrom_leaves_nil_slots],
      [RenameEvent_erases_other_events], [Save_handler_failure_keeps_events];
      [MongoClear_stops_saves], [MongoLoad_truncated], [MongoV1LoadFrom_slots],
      [MongoV1RenameEvent_first_only].
    - Read side: [Projector.HandleEvent_at_least_once] (delivery with
      repetitions gives the same model), [HandleEvent_projects_next],
      [HandleEvent_old_and_future_events];
      [Todo.Project_agrees_with_ApplyEvent], [recreated_list_stays_removed];
      [GuestList.guest_list_counts].
    - Delivery: [Outbox.processOutboxEvent_at_least_once],
      [processFullOutbox_drains]; for the MongoDB outbox, whose records several
      processes share, [MongoOutbox_at_least_once],
      [MongoOutbox_taken_left_alone], [MongoOutbox_queues_and_delivers],
      [MongoOutbox_sweep_drains], [MongoOutbox_sweep_stops],
      [Graceful.graceful_bounds];
      [LocalBus.handlers_take_published_in_order],
      [undecodable_payload_stops_handler], [closing_one_bus_stops_the_others];
      [Handlers.Waiter.listener_gets_first_match];
      over brokers, [KafkaBus.kafka_handles_in_order],
      [kafka_retries_until_handled] and [kafka_bad_message_blocks],
      [RedisBus.redis_tries_once], [NatsBus.nats_acknowledges], and what is
      subscribed to, [nats_subscription_covers], [GcpBus.gcp_filter_selects]
      (the text of a filter, read by the syntax of the filter language),
      [gcp_filter_names_not_escaped], [gcp_refuses_filter];
      [EventScheduler.schedule_delivers_rounds],
      [failed_handler_blocks_schedules];
      [GuestList.saga_first_come_first_served].
    - Concurrency and time of commands: [Lock.lock_mutual_exclusion],
      [lock_middleware_releases]; [Scheduler.scheduled_commands_accounted] (each
      command ends once, the handler runs for exactly those that are executed,
      and a command stays persisted until it ended, over restarts),
      [Load_restores_commands]; and what untidy use does,
      [Load_while_waiting_executes_twice], [same_ID_shares_persisted_entry],
      [CancelCommand_twice_panics].
    - Repositories: the instances of [RepoLaws]; [MongoRepo_roundtrip],
      [MongoRepo_Save_keeps_omitted_fields], [MongoRepo_iter_forgets_errors];
      [CacheRepo.cache_stays_coherent], [cache_Find_race_leaves_stale_entry],
      [VersionRepo.version_Find_min_version], [version_Find_retries],
      [Namespace.namespaces_isolated].
    - Aggregates: [AggregateBase.AppendEvent_preserves_base_ok],
      [snapshot_strategies_spec] (thresholds and the range of integers),
      [Todo.reachable_items_ok], [GuestList.invitation_accepted_or_declined],
      [ModelStore.model_Save_then_events].
    - The rest: [CommandCheck.CheckCommand_spec],
      [Context.CopyContext_copies_registered_values],
      [Codec.event_codec_roundtrip], [BsonUUID.bson_UUID_roundtrip], [Recorder.recorder_watches],
      [NamespaceOutbox.ns_outbox_isolated],
      [AddHandler_misses_other_namespaces],
      [ErrorText.error_text_tells_cause], [Tracing.traced_spans_nested],
      [tracing_context_carried], [Http.CommandHandler_answers],
      [QueryHandler_answers], [websocket_in_order], and the lemmas on registries,
      matching and comparison in their files.

    ** Bounds and fuel

    [VersionRepo.find_loop] takes fuel, for its unbounded retry loop;
    [version_Find_retries] says which fuel is enough and what the loop then
    returns.  The goroutine of the MongoDB outbox
    ([MongoOutbox.runPeriodicallyUntilCancelled]) runs for the list of rounds it
    is given, the rounds before its context ends; so do those of the in-memory
    outbox and that of a Pub/Sub handler ([GcpBus.handle]).  Kafka's bounded loops count down from the code's
    bounds.  The projector's single retry
    is the number of retries left.  All other loops are structural over the list
    the code ranges over.

    ** Not modelled

    The wiring in the example applications' [main] (it connects to its services
    and waits for a signal; the parts it wires are modelled), the tracer it
    connects to, log lines, and what brokers and servers do between the calls
    (redelivery, partitions).  What connects to MongoDB by URI is a parameter.
    Aliases, getters and interface declarations have no definition of their own. *)

From stdpp Require Import base gmap strings list numbers option pretty.
From Stdlib Require Import Lia ZArith.

Declare Scope go_scope.
Delimit Scope go_scope with go.
Open Scope go_scope.
Open Scope Z_scope.

Create HintDb go.
Create Rewrite HintDb len.
Create Rewrite HintDb go_ctx.
Create Rewrite HintDb go_event.

(** ** Machine integers

    Go's [int] is the 64-bit two's complement integer of the platforms the
    repository is built for.  Values are kept as [Z]; every arithmetic
    operation the source performs goes through [wrap64]. *)

Definition MaxInt : Z := 2 ^ 63 - 1.

Definition MinInt : Z := - 2 ^ 63.

Definition wrap64 (z : Z) : Z := (z + 2 ^ 63) mod 2 ^ 64 - 2 ^ 63.

Definition iadd (a b : Z) : Z := wrap64 (a + b).

Definition isub (a b : Z) : Z := wrap64 (a - b).

(** The values an [int] can hold. *)
Definition is_int (z : Z) : Prop := MinInt <= z <= MaxInt.

(** Length of a slice as an [int]. *)
Definition len {A} (l : list A) : Z := Z.of_nat (length l).

Lemma wrap64_id z : is_int z -> wrap64 z = z.
Proof.
  unfold is_int, MinInt, MaxInt, wrap64. intros H.
  rewrite Z.mod_small; lia.
Qed.

Lemma wrap64_range z : is_int (wrap64 z).
Proof.
  unfold is_int, MinInt, MaxInt, wrap64.
  pose proof (Z.mod_pos_bound (z + 2 ^ 63) (2 ^ 64) ltac:(lia)). lia.
Qed.

Lemma wrap64_add_l a b : wrap64 (wrap64 a + b) = wrap64 (a + b).
Proof.
  unfold wrap64.
  replace ((a + 2 ^ 63) mod 2 ^ 64 - 2 ^ 63 + b + 2 ^ 63)
    with ((a + 2 ^ 63) mod 2 ^ 64 + b) by lia.
  rewrite Zplus_mod_idemp_l. do 2 f_equal. lia.
Qed.

Lemma wrap64_add_r a b : wrap64 (a + wrap64 b) = wrap64 (a + b).
Proof. rewrite Z.add_comm, wrap64_add_l. f_equal. lia. Qed.

Lemma iadd_id a b : is_int (a + b) -> iadd a b = a + b.
Proof. apply wrap64_id. Qed.

Lemma isub_id a b : is_int (a - b) -> isub a b = a - b.
Proof. apply wrap64_id. Qed.

Lemma len_nonneg {A} (l : list A) : 0 <= len l.
Proof. unfold len. lia. Qed.

Lemma len_app {A} (l k : list A) : len (l ++ k) = len l + len k.
Proof. unfold len. rewrite length_app. lia. Qed.

Lemma len_cons {A} (x : A) l : len (x :: l) = 1 + len l.
Proof. unfold len. simpl. lia. Qed.

Lemma len_nil {A} : len (@nil A) = 0.
Proof. reflexivity. Qed.

Lemma len_fmap {A B} (f : A -> B) l : len (f <$> l) = len l.
Proof. unfold len. by rewrite length_fmap. Qed.

Lemma len_insert {A} (l : list A) i x : len (<[i := x]> l) = len l.
Proof. unfold len. by rewrite length_insert. Qed.

Lemma len_0 {A} (l : list A) : len l = 0 -> l = [].
Proof. destruct l; [done|]. unfold len. simpl. lia. Qed.

#[export] Hint Rewrite @len_app @len_cons @len_nil @len_fmap @len_insert : len.
#[export] Hint Resolve wrap64_range : go.

(** Arithmetic side conditions about [is_int] and lengths. *)
Ltac pose_len l :=
  lazymatch goal with
  | _ : 0 <= len l |- _ => fail
  | _ => pose proof (len_nonneg l)
  end.

Ltac int_lia :=
  autorewrite with len in *;
  repeat match goal with
  | |- context [len ?l] => pose_len l
  | _ : context [len ?l] |- _ => pose_len l
  end;
  unfold is_int, MinInt, MaxInt in *; lia.

(** ** Outcomes and the state monad

    A Go call either returns normally, returns a non-nil [error], or panics.
    State changes made before an error or a panic stay: [prog] threads the
    state through all three outcomes. *)

Inductive outcome (E A : Type) : Type :=
| Ok (a : A)
| Err (e : E)
| Panic (msg : string).
Arguments Ok {E A} a.
Arguments Err {E A} e.
Arguments Panic {E A} msg.

Definition prog (E S A : Type) : Type := S -> outcome E A * S.

Section Prog.
Context {E S : Type}.

Definition ret {A} (a : A) : prog E S A := fun s => (Ok a, s).

Definition throw {A} (e : E) : prog E S A := fun s => (Err e, s).

Definition panic {A} (msg : string) : prog E S A := fun s => (Panic msg, s).

Definition bind {A B} (m : prog E S A) (f : A -> prog E S B) : prog E S B :=
  fun s =>
    match m s with
    | (Ok a, s') => f a s'
    | (Err e, s') => (Err e, s')
    | (Panic p, s') => (Panic p, s')
    end.

Definition gets {A} (f : S -> A) : prog E S A := fun s => (Ok (f s), s).

Definition modify (f : S -> S) : prog E S unit := fun s => (Ok tt, f s).

(** [v, err := m()]: the error becomes a value the caller inspects. *)
Definition attempt {A} (m : prog E S A) : prog E S (A + E) :=
  fun s =>
    match m s with
    | (Ok a, s') => (Ok (inl a), s')
    | (Err e, s') => (Ok (inr e), s')
    | (Panic p, s') => (Panic p, s')
    end.

(** A computation that does not touch the state. *)
Definition lift {A} (o : outcome E A) : prog E S A := fun s => (o, s).

(** Method call on an interface or pointer value: a nil receiver panics. *)
Definition deref {A} (o : option A) : prog E S A :=
  match o with
  | Some a => ret a
  | None => panic "nil pointer dereference"
  end.

(** [for _, x := range l { if err := f(x); err != nil { return err } }] *)
Fixpoint for_range {A} (l : list A) (f : A -> prog E S unit) : prog E S unit :=
  match l with
  | [] => ret tt
  | x :: l' => bind (f x) (fun _ => for_range l' f)
  end.

Lemma bind_ok {A B} (m : prog E S A) (f : A -> prog E S B) s s' a :
  m s = (Ok a, s') -> bind m f s = f a s'.
Proof. unfold bind. by intros ->. Qed.

Lemma bind_err {A B} (m : prog E S A) (f : A -> prog E S B) s s' e :
  m s = (Err e, s') -> bind m f s = (Err e, s').
Proof. unfold bind. by intros ->. Qed.

Lemma bind_panic {A B} (m : prog E S A) (f : A -> prog E S B) s s' p :
  m s = (Panic p, s') -> bind m f s = (Panic p, s').
Proof. unfold bind. by intros ->. Qed.

(** To evaluate an outcome without normalising the state it leaves. *)
Lemma run_eq {A} (m : prog E S A) s o : (m s).1 = o -> m s = (o, (m s).2).
Proof. intros <-. by destruct (m s). Qed.

Lemma bind_assoc {A B C} (m : prog E S A) (f : A -> prog E S B)
    (g : B -> prog E S C) s :
  bind (bind m f) g s = bind m (fun a => bind (f a) g) s.
Proof. unfold bind. by destruct (m s) as [[] ?]. Qed.

(** A successful [bind] decomposes into its two successful halves. *)
Lemma bind_inv_ok {A B} (m : prog E S A) (f : A -> prog E S B) s s'' b :
  bind m f s = (Ok b, s'') ->
  exists a s', m s = (Ok a, s') /\ f a s' = (Ok b, s'').
Proof. unfold bind. destruct (m s) as [[a| |] s']; naive_solver. Qed.

Lemma attempt_ok {A} (m : prog E S A) s s' a :
  m s = (Ok a, s') -> attempt m s = (Ok (inl a), s').
Proof. unfold attempt. by intros ->. Qed.

Lemma attempt_err {A} (m : prog E S A) s s' e :
  m s = (Err e, s') -> attempt m s = (Ok (inr e), s').
Proof. unfold attempt. by intros ->. Qed.

(** Loop rule: an invariant indexed by the elements already handled. *)
Lemma for_range_inv {A} (f : A -> prog E S unit) (I : list A -> S -> Prop)
    (l : list A) s :
  I [] s ->
  (forall done x rest s0, l = done ++ x :: rest -> I done s0 ->
     exists s1, f x s0 = (Ok tt, s1) /\ I (done ++ [x]) s1) ->
  exists s', for_range l f s = (Ok tt, s') /\ I l s'.
Proof.
  intros HI Hstep.
  cut (forall rest d s0, l = d ++ rest -> I d s0 ->
         exists s', for_range rest f s0 = (Ok tt, s') /\ I l s').
  { intros H. by apply (H l [] s). }
  induction rest as [|x rest IH]; intros d s0 Hl Hd.
  - rewrite app_nil_r in Hl. subst. by exists s0.
  - destruct (Hstep d x rest s0 Hl Hd) as (s1 & Hf & Hs1).
    destruct (IH (d ++ [x]) s1) as (s' & Hr & HI'); [by rewrite <- app_assoc|done|].
    exists s'. split; [|done]. simpl. unfold bind. by rewrite Hf.
Qed.

End Prog.

Notation "'let!' x ':=' m 'in' k" := (bind m (fun x => k))
  (at level 10, x pattern, m at level 100, k at level 200)
  : go_scope.
Notation "'do!' m 'in' k" := (bind m (fun _ => k))
  (at level 10, m at level 100, k at level 200)
  : go_scope.

(** Running a component inside a bigger state. *)
Section Zoom.
Context {E S T : Type}.

Definition zoom {A} (get : S -> T) (put : T -> S -> S) (m : prog E T A)
  : prog E S A :=
  fun s => let '(o, t) := m (get s) in (o, put t s).

End Zoom.

Definition zoom_fst {E S T A} (m : prog E S A) : prog E (S * T) A :=
  zoom fst (fun s st => (s, snd st)) m.

Definition zoom_snd {E S T A} (m : prog E T A) : prog E (S * T) A :=
  zoom snd (fun t st => (fst st, t)) m.

(** ** Lists *)

Definition opt_list {A} (o : option A) : list A :=
  match o with Some a => [a] | None => [] end.

(** [Some] over a whole slice: a slice of interface values with no nil. *)
Definition somes {A} (l : list A) : list (option A) := Some <$> l.

Lemma somes_app {A} (l k : list A) : somes (l ++ k) = somes l ++ somes k.
Proof. apply fmap_app. Qed.

Lemma len_somes {A} (l : list A) : len (somes l) = len l.
Proof. apply len_fmap. Qed.

#[export] Hint Rewrite @len_somes : len.

Lemma somes_nonempty {A} (l : list A) : l <> [] -> somes l <> [].
Proof. by destruct l. Qed.

(** [if len(l) == 0 { .. }] on a slice known not to be empty. *)
Lemma match_nonempty {A X} (l : list A) (x y : X) :
  l <> [] -> match l with [] => x | _ :: _ => y end = y.
Proof. by destruct l. Qed.

Lemma app_cons_snoc {A} (l : list A) x k : l ++ x :: k = (l ++ [x]) ++ k.
Proof. by rewrite <- app_assoc. Qed.

Lemma len_filter {A} (P : A -> Prop) `{!forall x, Decision (P x)} l : len (filter P l) <= len l.
Proof. unfold len. pose proof (length_filter P l). lia. Qed.

Lemma filter_all {A} (P : A -> Prop) `{!forall x, Decision (P x)} l :
  Forall P l -> filter P l = l.
Proof.
  induction 1 as [|x l Hx _ IH]; [done|]. by rewrite filter_cons_True, IH.
Qed.

Lemma filter_none {A} (P : A -> Prop) `{!forall x, Decision (P x)} l :
  Forall (fun x => ~ P x) l -> filter P l = [].
Proof.
  induction 1 as [|x l Hx _ IH]; [done|]. by rewrite filter_cons_False.
Qed.

Lemma somes_inj {A} (l k : list A) : somes l = somes k -> l = k.
Proof.
  revert k. induction l as [|x l IH]; intros [|y k]; simpl; try done.
  intros H. injection H as -> H. f_equal. by apply IH.
Qed.

(** ** Strings *)

Lemma string_length_app a b : String.length (a +:+ b) = (String.length a + String.length b)%nat.
Proof.
  induction a as [|c a IH]; [done|]. change (Datatypes.S (String.length (a +:+ b)) = Datatypes.S (String.length a + String.length b)%nat).
  by rewrite IH.
Qed.

Lemma string_app_assoc (a b c : string) : ((a +:+ b) +:+ c = a +:+ (b +:+ c))%string.
Proof.
  induction a as [|x a IH]; [done|].
  change (String.String x ((a +:+ b) +:+ c) = String.String x (a +:+ (b +:+ c))). by rewrite IH.
Qed.

Lemma string_app_empty (a : string) : a +:+ "" = a.
Proof.
  induction a as [|x a IH]; [done|]. change (String.String x (a +:+ "") = String.String x a). by rewrite IH.
Qed.

(** Rewrite the head of a program with a known outcome and continue. *)
Ltac step_ok H := erewrite (bind_ok _ _ _ _ _ H).
Ltac step_err H := erewrite (bind_err _ _ _ _ _ H).

(** Case analysis on the matches of a hypothesis or the goal. *)
Ltac go_case :=
  repeat (case_match || case_decide || case_bool_decide); simplify_eq/=.
