(* ===== verification/GoTypes.v ===== *)
(** * Go values the repository passes around

    UUIDs ([uuid/uuid.go] aliases [google/uuid]'s [[16]byte]), times and
    durations, dynamically typed values ([any]), the heap of shared
    [map[string]any] objects, and [context.Context] values.

    Parameters: the textual form of a UUID is third-party code
    ([google/uuid]'s [String] and [Parse]); definitions that use it take
    [uuid_String] / [uuid_Parse] as arguments. *)

From stdpp Require Import base gmap strings list numbers option pretty.
From Stdlib Require Import Lia ZArith Bool.
From Corelib Require Import SpecFloat.
From S2P Require Import Prelude.

(** ** UUIDs: 16 bytes, read as one 128-bit number *)

Record UUID : Type := mkUUID {
  uuid_bits : N;
  uuid_range : Is_true (N.ltb uuid_bits (2 ^ 128)%N)
}.

Lemma UUID_eq (a b : UUID) : uuid_bits a = uuid_bits b -> a = b.
Proof.
  destruct a as [x Hx], b as [y Hy]; simpl. intros <-.
  f_equal. apply Is_true_pi.
Qed.

#[export] Instance UUID_eq_dec : EqDecision UUID.
Proof.
  refine (fun a b => cast_if (decide (uuid_bits a = uuid_bits b))).
  - by apply UUID_eq.
  - intros H. apply n. by rewrite H.
Defined.

Lemma uuid_mod_range (n : N) : N.ltb (n mod 2 ^ 128) (2 ^ 128) = true.
Proof. apply N.ltb_lt, N.mod_lt. discriminate. Qed.

(** The range proof computes to [I], so UUID literals have small normal
    forms. *)
Definition is_true_intro (b : bool) : b = true -> Is_true b :=
  match b with
  | true => fun _ => I
  | false => fun H => False_ind _ (diff_false_true H)
  end.

Definition uuid_of_N (n : N) : UUID :=
  mkUUID (n mod 2 ^ 128)%N (is_true_intro _ (uuid_mod_range n)).

Lemma uuid_of_N_bits (u : UUID) : uuid_of_N (uuid_bits u) = u.
Proof.
  apply UUID_eq. simpl. apply N.mod_small, N.ltb_lt, Is_true_true, uuid_range.
Qed.

#[export] Instance UUID_countable : Countable UUID :=
  inj_countable' uuid_bits uuid_of_N uuid_of_N_bits.

(** [uuid.Nil]: all 16 bytes zero. *)
Definition Nil : UUID := uuid_of_N 0.

(** ** Time: nanoseconds since Go's zero [time.Time] *)

Definition Time : Type := Z.

Definition IsZero (t : Time) : bool := t =? 0.

Definition Before (t u : Time) : bool := t <? u.

(** [Time.Sub] saturates at the extreme durations. *)
Definition Sub (t u : Time) : Z := Z.max MinInt (Z.min MaxInt (t - u)).

Definition Add (t : Time) (d : Z) : Time := t + d.

Definition Second : Z := 1000000000.

Definition Minute : Z := 60 * Second.

(** ** Dynamically typed values *)

Inductive any : Type :=
| ANil
| ABool (b : bool)
| AInt (z : Z)
| AFloat64 (f : spec_float)
| AString (s : string)
| AUUID (u : UUID)
| ANamed (ty : string) (s : string)
| AStruct (ty : string) (fields : list (string * any)).

Definition is_nil (a : any) : bool :=
  match a with ANil => true | _ => false end.

(** [v.(string)], [v.(int)], [v.(float64)] with the comma-ok form. *)
Definition as_string (a : any) : option string :=
  match a with AString s => Some s | _ => None end.

Definition as_int (a : any) : option Z :=
  match a with AInt z => Some z | _ => None end.

Definition as_float64 (a : any) : option spec_float :=
  match a with AFloat64 f => Some f | _ => None end.

Definition as_uuid (a : any) : option UUID :=
  match a with AUUID u => Some u | _ => None end.

Definition as_bool (a : any) : option bool :=
  match a with ABool b => Some b | _ => None end.

(** Field of a struct value. *)
Fixpoint struct_field (n : string) (fs : list (string * any)) : any :=
  match fs with
  | [] => ANil
  | (m, v) :: fs' => if bool_decide (n = m) then v else struct_field n fs'
  end.

(** Assertion to a named string type such as [AggregateType]. *)
Definition as_named (ty : string) (a : any) : option string :=
  match a with
  | ANamed ty' s => if bool_decide (ty = ty') then Some s else None
  | _ => None
  end.

(** [int(f)]: truncation toward zero of a finite float. *)
Definition float_to_int (f : spec_float) : Z :=
  match f with
  | S754_finite s m e =>
      let a := if 0 <=? e then Z.pos m * 2 ^ e else Z.pos m / 2 ^ (- e) in
      if s then - a else a
  | _ => 0
  end.

(** [reflect.DeepEqual] on dynamic values: dynamic types must agree, floats
    compare with [==] (so a NaN differs from itself), pointers to structs
    compare field by field. *)
Fixpoint DeepEqual (a b : any) {struct a} : bool :=
  match a, b with
  | ANil, ANil => true
  | ABool x, ABool y => Bool.eqb x y
  | AInt x, AInt y => x =? y
  | AFloat64 x, AFloat64 y => SFeqb x y
  | AString x, AString y => bool_decide (x = y)
  | AUUID x, AUUID y => bool_decide (x = y)
  | ANamed t x, ANamed u y => bool_decide (t = u) && bool_decide (x = y)
  | AStruct t f, AStruct u g =>
      bool_decide (t = u) &&
      (fix go (f g : list (string * any)) : bool :=
         match f, g with
         | [], [] => true
         | (n, x) :: f', (m, y) :: g' =>
             bool_decide (n = m) && DeepEqual x y && go f' g'
         | _, _ => false
         end) f g
  | _, _ => false
  end.

(** ** The heap of [map[string]any] objects

    Go maps are references: two events can share one metadata map.  A map
    value is a location, the nil map is [None]. *)

Definition loc : Type := positive.

Abbreviation gomap := (gmap string any).

Abbreviation heap := (gmap loc gomap).

Definition alloc (m : gomap) (h : heap) : heap * loc :=
  let l := fresh (dom h) in (<[l := m]> h, l).

(** Reading a map through a possibly nil reference. *)
Definition map_at (h : heap) (l : option loc) : gomap :=
  match l with
  | Some l => default ∅ (h !! l)
  | None => ∅
  end.

(** [maps.Copy(dst, src)]: entries of [src] overwrite those of [dst]. *)
Definition maps_Copy (dst : loc) (src : option loc) (h : heap) : heap :=
  <[dst := map_at h src ∪ map_at h (Some dst)]> h.

(** [maps.Clone]: nil for a nil map, otherwise a fresh copy. *)
Definition maps_Clone (l : option loc) (h : heap) : heap * option loc :=
  match l with
  | None => (h, None)
  | Some _ => let '(h', l') := alloc (map_at h l) h in (h', Some l')
  end.

Lemma alloc_fresh m h : h !! (alloc m h).2 = None.
Proof. simpl. apply not_elem_of_dom, is_fresh. Qed.

Lemma alloc_lookup m h : (alloc m h).1 !! (alloc m h).2 = Some m.
Proof. simpl. apply lookup_insert_eq. Qed.

Lemma alloc_lookup_old m h l x :
  h !! l = Some x -> (alloc m h).1 !! l = Some x.
Proof.
  intros Hl. simpl. rewrite lookup_insert_ne; [done|].
  intros <-. pose proof (alloc_fresh m h) as Hf. simpl in Hf. congruence.
Qed.

#[export] Hint Resolve alloc_fresh alloc_lookup alloc_lookup_old : go.

(** [reflect.DeepEqual] on two maps: both nil, or both non-nil and either the
    same object or equal key by key. *)
Definition DeepEqual_entries (m1 m2 : gomap) : bool :=
  bool_decide (dom m1 = dom m2) &&
  forallb (fun '(k, v) =>
             match m2 !! k with Some w => DeepEqual v w | None => false end)
          (map_to_list m1).

Definition DeepEqual_map (h : heap) (l1 l2 : option loc) : bool :=
  match l1, l2 with
  | None, None => true
  | Some a, Some b => (a =? b)%positive || DeepEqual_entries (map_at h l1) (map_at h l2)
  | _, _ => false
  end.

(** ** Contexts *)

(** Context keys are private per package: [eventhorizon] ([context.go]),
    [repo/version] and [namespace]. *)
Inductive ctx_key : Type :=
| aggregateIDKey
| aggregateTypeKey
| commandTypeKey
| minVersionKey
| namespaceKey
| otherKey (n : N).

#[export] Instance ctx_key_eq_dec : EqDecision ctx_key.
Proof. solve_decision. Defined.

(** [ctx.Err()] of a context that is done. *)
Inductive ctx_error : Type := Canceled | DeadlineExceeded.

#[export] Instance ctx_error_eq_dec : EqDecision ctx_error.
Proof. solve_decision. Defined.

Record context : Type := mkContext {
  ctx_vals : list (ctx_key * any);
  ctx_deadline : option Time;
  ctx_err : option ctx_error
}.

Definition Background : context := mkContext [] None None.

(** [context.WithValue] and [Context.Value]: the innermost binding wins. *)
Definition WithValue (c : context) (k : ctx_key) (v : any) : context :=
  mkContext ((k, v) :: ctx_vals c) (ctx_deadline c) (ctx_err c).

Fixpoint assoc (k : ctx_key) (l : list (ctx_key * any)) : any :=
  match l with
  | [] => ANil
  | (k', v) :: l' => if decide (k = k') then v else assoc k l'
  end.

Definition Value (c : context) (k : ctx_key) : any := assoc k (ctx_vals c).

Lemma Value_WithValue_eq c k v : Value (WithValue c k v) k = v.
Proof. unfold Value. simpl. by rewrite decide_True. Qed.

Lemma Value_WithValue_ne c k k' v :
  k <> k' -> Value (WithValue c k v) k' = Value c k'.
Proof. intros. unfold Value. simpl. by rewrite decide_False. Qed.

#[export] Hint Rewrite Value_WithValue_eq : go_ctx.
#[export] Hint Rewrite Value_WithValue_ne using discriminate : go_ctx.
