(* ===== verification/Event.v ===== *)
(** * Events ([event.go])

    The private [event] struct, its options and its constructor.  Metadata
    maps are heap references, so sharing between the caller's map, the option
    that carries it and the events built from it is visible. *)

From stdpp Require Import base gmap strings list numbers option pretty.
From Stdlib Require Import Lia ZArith.
From S2P Require Import Prelude.
From S2P Require Import GoTypes.

Record event : Type := mkEvent {
  eventType : string;
  data : any;
  timestamp : Time;
  aggregateType : string;
  aggregateID : UUID;
  version : Z;
  metadata : option loc
}.

(** [type EventOption func(Event)]: acts on the event and on the heap. *)
Definition EventOption : Type := heap * event -> heap * event.

Definition ForAggregate (at' : string) (id : UUID) (v : Z) : EventOption :=
  fun '(h, e) =>
    (h, mkEvent (eventType e) (data e) (timestamp e) at' id v (metadata e)).

Definition with_metadata (e : event) (md : option loc) : event :=
  mkEvent (eventType e) (data e) (timestamp e) (aggregateType e)
          (aggregateID e) (version e) md.

Definition WithMetadata (md : option loc) : EventOption :=
  fun '(h, e) =>
    match metadata e with
    | None => (h, with_metadata e md)
    | Some dst => (maps_Copy dst md h, e)
    end.

(** Options that carry a map of their own allocate it when they are made. *)
Definition WithGlobalPosition (position : Z) (h : heap) : heap * EventOption :=
  let '(h', l) := alloc {[ "position" := AInt position ]} h in
  (h', WithMetadata (Some l)).

Fixpoint apply_options (options : list (option EventOption)) (st : heap * event)
  : heap * event :=
  match options with
  | [] => st
  | None :: options' => apply_options options' st
  | Some o :: options' => apply_options options' (o st)
  end.

Definition NewEvent (et : string) (d : any) (t : Time)
    (options : list (option EventOption)) (h : heap) : heap * event :=
  apply_options options (h, mkEvent et d t "" Nil 0 None).

Definition NewEventForAggregate (et : string) (d : any) (t : Time)
    (at' : string) (id : UUID) (v : Z) (options : list (option EventOption))
    (h : heap) : heap * event :=
  NewEvent et d t (options ++ [Some (ForAggregate at' id v)]) h.

(** [event.String]; [fmt] prints the UUID through its [String] method. *)
Definition String (uuid_String : UUID -> string) (e : event) : string :=
  eventType e +:+
  (if bool_decide (aggregateID e <> Nil) && negb (version e =? 0)
   then "(" +:+ uuid_String (aggregateID e) +:+ ", v" +:+ pretty (version e) +:+ ")"
   else "").

(** ** Lemmas *)

Lemma apply_options_app o1 o2 st :
  apply_options (o1 ++ o2) st = apply_options o2 (apply_options o1 st).
Proof.
  revert st. induction o1 as [|[o|] o1 IH]; intros st; simpl; auto.
Qed.

(** Duplicating an event the way the stores do: the aggregate data first, then
    the metadata.  The copy shares the metadata object and allocates nothing. *)
Lemma NewEvent_duplicate et d t at' id v md h :
  NewEvent et d t [Some (ForAggregate at' id v); Some (WithMetadata md)] h
  = (h, mkEvent et d t at' id v md).
Proof. reflexivity. Qed.

#[export] Hint Rewrite NewEvent_duplicate : go_event.

(** The duplicate itself, which depends on no heap. *)
Definition duplicate (et : string) (d : any) (e : event) : event :=
  (NewEvent et d (timestamp e)
     [Some (ForAggregate (aggregateType e) (aggregateID e) (version e));
      Some (WithMetadata (metadata e))] ∅).2.

Lemma duplicate_eq et d e :
  duplicate et d e =
  mkEvent et d (timestamp e) (aggregateType e) (aggregateID e) (version e) (metadata e).
Proof. reflexivity. Qed.

Lemma duplicate_id e : duplicate (eventType e) (data e) e = e.
Proof. by destruct e. Qed.

(** A piece of one aggregate's history: the events following version [v], all
    of aggregate [id], with serial versions. *)
Fixpoint serial (id : UUID) (v : Z) (l : list event) : Prop :=
  match l with
  | [] => True
  | e :: l' => aggregateID e = id /\ version e = v + 1 /\ serial id (v + 1) l'
  end.

(** All events are for one aggregate type. *)
Definition typed (at' : string) (l : list event) : Prop :=
  Forall (fun e => aggregateType e = at') l.

Lemma serial_app id v l k :
  serial id v (l ++ k) <-> serial id v l /\ serial id (v + len l) k.
Proof.
  revert v. induction l as [|e l IH]; intros v; simpl.
  - rewrite len_nil, Z.add_0_r. tauto.
  - rewrite IH, len_cons, Z.add_assoc. tauto.
Qed.

Lemma serial_lookup id v l i e :
  serial id v l -> l !! i = Some e ->
  aggregateID e = id /\ version e = v + Z.of_nat i + 1.
Proof.
  revert v i. induction l as [|x l IH]; intros v i Hs Hi; [done|].
  destruct Hs as (H1 & H2 & Hs). destruct i as [|i]; simplify_eq/=.
  - split; [done|lia].
  - destruct (IH _ _ Hs Hi) as (? & ->). split; [done|lia].
Qed.

Lemma foldl_version id v l : serial id v l -> foldl (fun _ e => version e) v l = v + len l.
Proof.
  revert v. induction l as [|e l IH]; intros v; simpl; [rewrite len_nil; lia|].
  intros (_ & -> & Hs). rewrite IH, len_cons by done. lia.
Qed.

Lemma serial_insert id v l i e :
  serial id v l -> aggregateID e = id -> version e = v + Z.of_nat i + 1 ->
  serial id v (<[i := e]> l).
Proof.
  revert v i. induction l as [|x l IH]; intros v i Hs Hid Hv; [done|].
  destruct Hs as (H1 & H2 & Hs). destruct i as [|i]; simpl.
  - repeat split; [done|lia|done].
  - repeat split; [done..|]. apply IH; [done..|lia].
Qed.

(** Every field but the data agrees. *)
Definition same_head (e e' : event) : Prop :=
  aggregateID e' = aggregateID e /\ aggregateType e' = aggregateType e /\
  version e' = version e /\ eventType e' = eventType e /\
  timestamp e' = timestamp e /\ metadata e' = metadata e.

Lemma serial_same_head id v l l' :
  Forall2 same_head l l' -> serial id v l -> serial id v l'.
Proof.
  intros HF. revert v. induction HF as [|e e' l l' Hh _ IH]; intros v; [done|].
  destruct Hh as (? & ? & ? & _). simpl. intros (? & ? & ?).
  repeat split; [congruence..|auto].
Qed.

Lemma typed_same_head at' l l' :
  Forall2 same_head l l' -> typed at' l -> typed at' l'.
Proof.
  intros HF Ht. unfold typed in *. induction HF as [|e e' l l' Hh _ IH]; [done|].
  destruct Hh as (_ & ? & _). inversion Ht; subst.
  constructor; [congruence|auto].
Qed.

(** The aggregate data given to [NewEventForAggregate] always wins: whatever
    options the caller passes, the event made by [NewEventForAggregate] (and by [AppendEvent], which builds its option list
    the same way) carries exactly the aggregate type, ID and version given. *)
Theorem NewEventForAggregate_sets_aggregate et d t at' id v options h :
  let e := (NewEventForAggregate et d t at' id v options h).2 in
  aggregateType e = at' /\ aggregateID e = id /\ version e = v.
Proof.
  unfold NewEventForAggregate, NewEvent. simpl.
  rewrite apply_options_app. simpl.
  by destruct (apply_options options _) as [h' e'].
Qed.
