(* ===== verification/Command.v ===== *)
(** * Commands ([command.go], [command_check.go])

    A command value as its interface methods see it, with the reflected view
    of its struct fields that [CheckCommand] walks. *)

From stdpp Require Import base gmap strings list numbers option pretty.
From Stdlib Require Import Lia ZArith.
From S2P Require Import Prelude.
From S2P Require Import GoTypes.
From S2P Require Import Event.

(** A [reflect.Value], by the kinds [isZero] tells apart. *)
Inductive rvalue : Type :=
| RFunc | RChan | RPtr | RUnsafePointer
| RMap (isnil : bool)
| RSlice (isnil : bool)
| RUUID (u : UUID)                        (* an array of type [uuid.UUID] *)
| RArray (elems : list rvalue)            (* any other array *)
| RInterface (isnil : bool)
| RString (s : string)
| RTime (t : Time)                        (* a struct of type [time.Time] *)
| RStruct (fields : list (bool * rvalue)) (* exported?, value *)
| RValueType.                             (* bool, the number kinds *)

(** A struct field as [CheckCommand] sees it: [fld_IsZeroer] is [Some b] when
    the field's value implements [IsZeroer] and its [IsZero] returns [b]. *)
Record field : Type := mkField {
  fld_Name : string;
  fld_PkgPath : string;
  fld_tag_eh : string;
  fld_IsZeroer : option bool;
  fld_value : rvalue
}.

Record command : Type := mkCommand {
  AggregateID : UUID;
  AggregateType : string;
  CommandType : string;
  CommandID : option UUID;     (* [Some] when it implements [CommandIDer] *)
  fields : list field;         (* of the struct it is or points to *)
  dyn : any                    (* the dynamic value, for type switches *)
}.

(** [FromCommand]: the metadata map is allocated when the option is made. *)
Definition FromCommand (uuid_String : UUID -> string) (cmd : command) (h : heap)
  : heap * EventOption :=
  let md : gomap := {[ "command_type" := AString (CommandType cmd) ]} in
  let md := match CommandID cmd with
            | Some id => <[ "command_id" := AString (uuid_String id) ]> md
            | None => md
            end in
  let '(h', l) := alloc md h in (h', WithMetadata (Some l)).

Fixpoint isZero (v : rvalue) : bool :=
  match v with
  | RFunc | RChan | RPtr | RUnsafePointer => true
  | RMap isnil | RSlice isnil => isnil
  | RUUID u => bool_decide (u = Nil)
  | RArray elems =>
      (fix all (l : list rvalue) : bool :=
         match l with
         | [] => true
         | x :: l' => if negb (isZero x) then false else all l'
         end) elems
  | RInterface isnil => isnil
  | RString s => bool_decide (s = "")
  | RTime t => IsZero t
  | RStruct fs =>
      (fix go (l : list (bool * rvalue)) (z : bool) : bool :=
         match l with
         | [] => z
         | (exported, x) :: l' =>
             if negb exported then go l' z else go l' (z && isZero x)
         end) fs true
  | RValueType => false
  end.
