(* ===== verification/Errors.v ===== *)
(** * Errors of every package

    One sum for the [error] values the repository makes: the package-level
    [errors.New] sentinels (compared by identity), the structs implementing
    [error], errors made on the spot, and errors of foreign code
    ([ErrorString]).  [errors.Is] and [Unwrap] follow the wrapped chain. *)

From stdpp Require Import base gmap strings list numbers option pretty.
From Stdlib Require Import Lia ZArith.
From S2P Require Import Prelude.
From S2P Require Import GoTypes.
From S2P Require Import Event.
From S2P Require Import Command.

Inductive sentinel : Type :=
(* eventhorizon *)
| ErrEventDataNotRegistered | ErrAggregateNotFound | ErrAggregateNotRegistered
| ErrSnapshotDataNotRegistered | ErrCommandNotRegistered
| ErrMissingCommand | ErrMissingAggregateID
| ErrMissingEvents | ErrMismatchedEventAggregateIDs
| ErrMismatchedEventAggregateTypes | ErrIncorrectEventVersion
| ErrEventConflictFromOtherSave | ErrEventNotFound
| ErrMissingEvent | ErrMissingMatcher | ErrMissingHandler
| ErrHandlerAlreadyAdded
| ErrEntityNotFound | ErrEntityHasNoVersion | ErrIncorrectEntityVersion
(* aggregatestore/events, aggregatestore/model *)
| ErrInvalidEventStore | ErrAggregateNotVersioned | ErrMismatchedEventType
| ErrInvalidRepo | ErrInvalidAggregate
(* repo/memory, eventhandler/projector *)
| Repo_ErrModelNotSet
| ErrModelNotSet | ErrModelRemoved | ErrIncorrectProjectedEntityVersion
(* commandhandler/aggregate, commandhandler/bus *)
| ErrNilAggregateStore | ErrHandlerAlreadySet | ErrHandlerNotFound
(* middleware/commandhandler/lock, .../scheduler *)
| ErrLockExists | ErrNoLockExists | ErrCanceled
(* repo/mongodb, mongoutils *)
| MongoRepo_ErrModelNotSet | ErrNoCursor
| ErrMissingCollectionName | ErrInvalidCharInCollectionName
(* the MongoDB driver *)
| ErrNoDocuments
(* context *)
| CtxErr (e : ctx_error).

#[export] Instance sentinel_eq_dec : EqDecision sentinel.
Proof. solve_decision. Defined.

(** The [Err] of [AggregateError], of a field error and of the asynchronous
    errors is an error here; a Go value made by hand can hold nil there, whose
    [Error] method panics, but the repository makes none. *)
Inductive error : Type :=
| Sentinel (s : sentinel)
| ErrorString (msg : string)
| Errorf (prefix : string) (err : error)
| CommandFieldError (Field : string)
| EventStoreError (err : option error) (op : string) (at' : string)
    (id : UUID) (v : Z) (events : list (option event))
| AggregateStoreError (err : option error) (op : string) (at' : string) (id : UUID)
| AggregateError (err : error)
| EventHandlerError (err : option error) (e : option event)
| EventBusError (err : option error) (ctx : option context) (e : option event)
| OutboxError (err : option error) (ctx : option context) (e : option event)
| RepoError (err : option error) (op : string) (id : UUID)
| ProjectorError (err : option error) (projector : string) (e : option event)
    (id : UUID) (v : Z)
| SagaError (err : error) (saga : string)
| ValidateError (err : error)
| NamespaceError (err : error) (ns : string)
| AsyncError (err : error) (ctx : context) (e : option event)
| AsyncCommandError (err : error) (ctx : context) (cmd : option command)
| ScheduleError (err : error) (ctx : context) (cmd : option command).

(** The [Unwrap] methods (every [Cause] method returns the same error). *)
Definition Unwrap (e : error) : option error :=
  match e with
  | Sentinel _ | ErrorString _ | CommandFieldError _ => None
  | Errorf _ err => Some err
  | EventStoreError err _ _ _ _ _ | AggregateStoreError err _ _ _
  | EventHandlerError err _ | EventBusError err _ _ | OutboxError err _ _
  | RepoError err _ _ | ProjectorError err _ _ _ _ => err
  | AggregateError err | SagaError err _ | ValidateError err
  | NamespaceError err _ | AsyncError err _ _ | AsyncCommandError err _ _
  | ScheduleError err _ _ => Some err
  end.

(** [errors.Is(err, target)] for a sentinel target. *)
Fixpoint errors_Is (e : error) (target : sentinel) : bool :=
  match e with
  | Sentinel s => bool_decide (s = target)
  | ErrorString _ | CommandFieldError _ => false
  | EventStoreError (Some err) _ _ _ _ _ | AggregateStoreError (Some err) _ _ _
  | EventHandlerError (Some err) _ | EventBusError (Some err) _ _
  | OutboxError (Some err) _ _ | RepoError (Some err) _ _
  | ProjectorError (Some err) _ _ _ _ => errors_Is err target
  | EventStoreError None _ _ _ _ _ | AggregateStoreError None _ _ _
  | EventHandlerError None _ | EventBusError None _ _ | OutboxError None _ _
  | RepoError None _ _ | ProjectorError None _ _ _ _ => false
  | Errorf _ err | AggregateError err | SagaError err _ | ValidateError err
  | NamespaceError err _ | AsyncError err _ _ | AsyncCommandError err _ _
  | ScheduleError err _ _ => errors_Is err target
  end.

(** [errors.Is] is the search along the [Unwrap] chain. *)
Lemma errors_Is_unwrap e target :
  errors_Is e target = true <->
  e = Sentinel target \/
  exists e', Unwrap e = Some e' /\ errors_Is e' target = true.
Proof.
  destruct e; simpl;
    try (match goal with o : option error |- _ => destruct o end);
    rewrite ?bool_decide_eq_true; naive_solver.
Qed.

(** [errors.As(err, &target)] for a target type, by what it reads of a value of
    that type: the first along the [Unwrap] chain. *)
Fixpoint errors_As {T : Type} (as_T : error -> option T) (e : error) : option T :=
  match as_T e with
  | Some t => Some t
  | None =>
      match e with
      | Sentinel _ | ErrorString _ | CommandFieldError _ => None
      | EventStoreError (Some err) _ _ _ _ _ | AggregateStoreError (Some err) _ _ _
      | EventHandlerError (Some err) _ | EventBusError (Some err) _ _
      | OutboxError (Some err) _ _ | RepoError (Some err) _ _
      | ProjectorError (Some err) _ _ _ _ => errors_As as_T err
      | EventStoreError None _ _ _ _ _ | AggregateStoreError None _ _ _
      | EventHandlerError None _ | EventBusError None _ _ | OutboxError None _ _
      | RepoError None _ _ | ProjectorError None _ _ _ _ => None
      | Errorf _ err | AggregateError err | SagaError err _ | ValidateError err
      | NamespaceError err _ | AsyncError err _ _ | AsyncCommandError err _ _
      | ScheduleError err _ _ => errors_As as_T err
      end
  end.

(** The [Err] of a [*RepoError] and of an [*EventStoreError]. *)
Definition as_RepoError (e : error) : option (option error) :=
  match e with RepoError err _ _ => Some err | _ => None end.

Definition as_EventStoreError (e : error) : option (option error) :=
  match e with EventStoreError err _ _ _ _ _ => Some err | _ => None end.

Abbreviation M := (prog error).

Abbreviation result := (outcome error).

(** The operation names of [EventStoreError], [AggregateStoreError] and
    [RepoError]. *)
Definition EventStoreOpLoad : string := "load".
Definition EventStoreOpSave : string := "save".
Definition EventStoreOpReplace : string := "replace".
Definition EventStoreOpRename : string := "rename".
Definition EventStoreOpClear : string := "clear".
Definition EventStoreOpLoadSnapshot : string := "load_snapshot".
Definition EventStoreOpSaveSnapshot : string := "save_snapshot".
Definition AggregateStoreOpLoad : string := "load".
Definition AggregateStoreOpSave : string := "save".
Definition RepoOpFind : string := "find".
Definition RepoOpFindAll : string := "find all".
Definition RepoOpFindQuery : string := "find query".
Definition RepoOpSave : string := "save".
Definition RepoOpRemove : string := "remove".
Definition RepoOpClear : string := "clear".

(** [if err != nil { return wrap(err) }] *)
Definition map_err {S A} (f : error -> error) (m : M S A) : M S A :=
  fun s =>
    match m s with
    | (Ok a, s') => (Ok a, s')
    | (Err e, s') => (Err (f e), s')
    | (Panic p, s') => (Panic p, s')
    end.

Lemma map_err_ok {S A} f (m : M S A) s s' a :
  m s = (Ok a, s') -> map_err f m s = (Ok a, s').
Proof. unfold map_err. by intros ->. Qed.

Lemma map_err_err {S A} f (m : M S A) s s' e :
  m s = (Err e, s') -> map_err f m s = (Err (f e), s').
Proof. unfold map_err. by intros ->. Qed.
