(* ===== verification/Fixtures.v ===== *)
(** * Concrete values for the examples and witnesses

    Concrete third-party functions (a [copier.Copy] that assigns, a UUID
    printer), a registry with one event data type and a few events, used to
    evaluate the definitions and to show that the theorems' hypotheses hold
    at real inputs.  Nothing here models code of the repository. *)

From stdpp Require Import base gmap strings list numbers option pretty.
From Stdlib Require Import Lia ZArith Ascii String.
From S2P Require Import Prelude.
From S2P Require Import GoTypes.
From S2P Require Import Event.
From S2P Require Import Command.
From S2P Require Import Errors.

(** [copier.Copy(to, from)] between values of one struct type. *)
Definition copier_assign (to from : any) : any + error := inl from.

Definition demo_data (n : Z) : any := AStruct "ItemAddedData" [("ItemID", AInt n)].

Definition demo_factories : gmap string (unit -> any) :=
  {[ "added" := fun _ => demo_data 0 ]}.

Definition id1 : UUID := uuid_of_N 1.
Definition id2 : UUID := uuid_of_N 2.
Definition id3 : UUID := uuid_of_N 3.

(** The [n]-th event of aggregate [id]: even versions carry data. *)
Definition demo_event (id : UUID) (n : Z) : event :=
  if Z.even n
  then mkEvent "added" (demo_data n) (1000 + n) "todo" id n None
  else mkEvent "removed" ANil (1000 + n) "todo" id n None.

Definition demo_events (id : UUID) (from : Z) (k : nat) : list event :=
  (fun i => demo_event id (from + Z.of_nat i)) <$> seq 0 k.

Definition uuid_print (u : UUID) : string := pretty (uuid_bits u).

Definition bg : context := Background.

(** A textual form of UUIDs with its parser: binary digits, lowest first. *)
Fixpoint print_bits (p : positive) : string :=
  match p with
  | xH => "1"
  | xO p' => String.String (Ascii.ascii_of_nat 48) (print_bits p')
  | xI p' => String.String (Ascii.ascii_of_nat 49) (print_bits p')
  end.

Fixpoint parse_bits (s : string) : N :=
  match s with
  | EmptyString => 0%N
  | String.String c s' =>
      let n := parse_bits s' in
      if Ascii.eqb c (Ascii.ascii_of_nat 49) then N.succ_double n else N.double n
  end.

Definition uuid_to_bits (u : UUID) : string :=
  match uuid_bits u with N0 => "" | Npos p => print_bits p end.

Definition uuid_of_bits (s : string) : option UUID := Some (uuid_of_N (parse_bits s)).

Lemma uuid_of_to_bits u : uuid_of_bits (uuid_to_bits u) = Some u.
Proof.
  assert (forall p, parse_bits (print_bits p) = Npos p) as Hp.
  { induction p as [p IH|p IH|]; simpl; rewrite ?IH; done. }
  unfold uuid_of_bits, uuid_to_bits. f_equal. rewrite <- (uuid_of_N_bits u) at 2. f_equal.
  destruct (uuid_bits u); [done|apply Hp].
Qed.

(** A text for the values of any countable type, with its parser. *)
Fixpoint bits_of (p : positive) : list bool :=
  match p with
  | xH => []
  | xO p => false :: bits_of p
  | xI p => true :: bits_of p
  end.

Fixpoint of_bits (l : list bool) : positive :=
  match l with
  | [] => xH
  | true :: l => xI (of_bits l)
  | false :: l => xO (of_bits l)
  end.

Lemma of_bits_of p : of_bits (bits_of p) = p.
Proof. by induction p as [p IH|p IH|]; simpl; rewrite ?IH. Qed.

Definition to_bytes {A} `{Countable A} (a : A) : list Byte.byte :=
  (fun b : bool => if b then Byte.x31 else Byte.x30) <$> bits_of (encode a).

Definition of_bytes {A} `{Countable A} (l : list Byte.byte) : option A :=
  decode (of_bits ((fun b => Byte.eqb b Byte.x31) <$> l)).

Lemma of_to_bytes {A} `{Countable A} (a : A) : of_bytes (to_bytes a) = Some a.
Proof.
  unfold of_bytes, to_bytes. rewrite <- list_fmap_compose.
  rewrite (list_fmap_ext _ id), list_fmap_id, of_bits_of; [apply decode_encode|by intros ? []].
Qed.

Definition to_text {A} `{Countable A} (a : A) : string :=
  string_of_list_ascii ((fun b : bool => if b then Ascii.ascii_of_nat 49 else Ascii.ascii_of_nat 48) <$> bits_of (encode a)).

Definition of_text {A} `{Countable A} (s : string) : option A :=
  decode (of_bits ((fun c => Ascii.eqb c (Ascii.ascii_of_nat 49)) <$> list_ascii_of_string s)).

Lemma of_to_text {A} `{Countable A} (a : A) : of_text (to_text a) = Some a.
Proof.
  unfold of_text, to_text. rewrite list_ascii_of_string_of_list_ascii, <- list_fmap_compose.
  rewrite (list_fmap_ext _ id), list_fmap_id, of_bits_of; [apply decode_encode|by intros ? []].
Qed.
