(* ===== verification/ErrorText.v ===== *)
(** * The texts of errors (the [Error] methods)

    [Error e] is the text of [e.Error()], [None] when the method panics: the
    texts of the asynchronous errors call methods of their command or event,
    which may be nil.  The text of foreign errors, and of the standard
    library's, is a parameter. *)

From stdpp Require Import base gmap strings list numbers option pretty.
From Stdlib Require Import Lia ZArith.
From S2P Require Import Prelude.
From S2P Require Import GoTypes.
From S2P Require Import Event.
From S2P Require Import Command.
From S2P Require Import Errors.
From S2P Require Import Fixtures.

Module ErrorText.

Definition event_String : (UUID -> string) -> event -> string := Event.String.

(** The sentinels of the repository; [foreign] those of the driver and of
    [context]. *)
Definition sentinel_text (foreign : sentinel -> string) (s : sentinel) : string :=
  match s with
  | ErrEventDataNotRegistered => "event data not registered"
  | ErrAggregateNotFound => "aggregate not found"
  | ErrAggregateNotRegistered => "aggregate not registered"
  | ErrSnapshotDataNotRegistered => "snapshot data not registered"
  | ErrCommandNotRegistered => "command not registered"
  | ErrMissingCommand => "missing command"
  | ErrMissingAggregateID => "missing aggregate ID"
  | ErrMissingEvents => "missing events"
  | ErrMismatchedEventAggregateIDs => "mismatched event aggregate IDs"
  | ErrMismatchedEventAggregateTypes => "mismatched event aggregate types"
  | ErrIncorrectEventVersion => "incorrect event version"
  | ErrEventConflictFromOtherSave => "event conflict from other save"
  | ErrEventNotFound => "event not found"
  | ErrMissingEvent => "missing event"
  | ErrMissingMatcher => "missing matcher"
  | ErrMissingHandler => "missing handler"
  | ErrHandlerAlreadyAdded => "handler already added"
  | ErrEntityNotFound => "could not find entity"
  | ErrEntityHasNoVersion => "entity has no version"
  | ErrIncorrectEntityVersion => "incorrect entity version"
  | ErrInvalidEventStore => "invalid event store"
  | ErrAggregateNotVersioned => "aggregate is not versioned"
  | ErrMismatchedEventType => "mismatched event type and aggregate type"
  | ErrInvalidRepo => "invalid repo"
  | ErrInvalidAggregate => "invalid aggregate"
  | Repo_ErrModelNotSet | ErrModelNotSet | MongoRepo_ErrModelNotSet => "model not set"
  | ErrModelRemoved => "model removed"
  | ErrIncorrectProjectedEntityVersion => "incorrect projected entity version"
  | ErrNilAggregateStore => "aggregate store is nil"
  | ErrHandlerAlreadySet => "handler is already set"
  | ErrHandlerNotFound => "no handlers for command"
  | ErrLockExists => "lock exists"
  | ErrNoLockExists => "no lock exists"
  | ErrCanceled => "canceled"
  | ErrNoCursor => "no cursor"
  | ErrMissingCollectionName => "missing collection name"
  | ErrInvalidCharInCollectionName => "invalid char in collection name (space)"
  | ErrNoDocuments | CtxErr _ => foreign s
  end.

(** [strings.Join(l, ", ")] *)
Fixpoint join_comma (l : list string) : string :=
  match l with
  | [] => ""
  | [s] => s
  | s :: l' => s +:+ ", " +:+ join_comma l'
  end.

(** [fmt]'s [%s] of an error recovers a panic of its [Error] method. *)
Definition sprint (text : option string) : string :=
  default "%!s(PANIC=Error method: runtime error: invalid memory address or nil pointer dereference)" text.

Create HintDb text.

Section Text.
Context (uuid_String : UUID -> string) (foreign : sentinel -> string).

Abbreviation String := (event_String uuid_String).

(** [str += string(e.Op) + ": "] unless the operation is empty. *)
Definition op_text (op : string) : string := if bool_decide (op = "") then "" else op +:+ ": ".

Definition or_unknown (err : option string) : string := default "unknown error" err.

(** The aggregate's type, or the word. *)
Definition type_text (at' : string) : string := if bool_decide (at' = "") then "Aggregate" else at'.

Definition event_or_nil (e : option event) : string :=
  match e with Some e => String e | None => "nil event" end.

(** The methods, with the text of [e.Err] where it is not nil. *)

Definition CommandFieldError_Error (Field : string) : string := "missing field: " +:+ Field.

Definition EventStoreError_Error (err : option string) (op at' : string) (id : UUID) (v : Z)
    (events : list (option event)) : string :=
  "event store: " +:+ op_text op +:+ or_unknown err +:+
    (if bool_decide (id = Nil) then ""
     else ", " +:+ type_text at' +:+ "(" +:+ uuid_String id +:+ ", v" +:+ pretty v +:+ ")") +:+
    (if bool_decide (events = []) then ""
     else " [" +:+ join_comma (event_or_nil <$> events) +:+ "]").

Definition AggregateStoreError_Error (err : option string) (op at' : string) (id : UUID) : string :=
  "aggregate store: " +:+ op_text op +:+ or_unknown err +:+
    (if bool_decide (id = Nil) then "" else ", " +:+ type_text at' +:+ "(" +:+ uuid_String id +:+ ")").

Definition AggregateError_Error (err : string) : string := "aggregate error: " +:+ err.

Definition EventHandlerError_Error (err : option string) (e : option event) : string :=
  "could not handle event: " +:+ or_unknown err +:+
    (match e with Some e => ", " +:+ String e | None => "" end).

Definition EventBusError_Error (err : option string) (e : option event) : string :=
  "event bus: " +:+ or_unknown err +:+
    (match e with Some e => " [" +:+ String e +:+ "]" | None => "" end).

Definition OutboxError_Error (err : option string) (e : option event) : string :=
  "outbox: " +:+ or_unknown err +:+
    (match e with Some e => " [" +:+ String e +:+ "]" | None => "" end).

Definition RepoError_Error (err : option string) (op : string) (id : UUID) : string :=
  "repo: " +:+ op_text op +:+ or_unknown err +:+
    (if bool_decide (id = Nil) then "" else " " +:+ uuid_String id +:+ " ").

Definition ProjectorError_Error (err : option string) (projector : string) (e : option event)
    (id : UUID) (v : Z) : string :=
  "projector '" +:+ projector +:+ "': " +:+ or_unknown err +:+
    (if bool_decide (id = Nil) then ""
     else ", Entity(" +:+ uuid_String id +:+ ", v" +:+ pretty v +:+ ")") +:+
    (match e with Some e => ", " +:+ String e | None => "" end).

Definition SagaError_Error (err : option string) (saga : string) : string := saga +:+ ": " +:+ sprint err.

Definition ValidateError_Error (err : string) : string := "invalid command: " +:+ err.

Definition NamespaceError_Error (err : option string) (ns : string) : string :=
  sprint err +:+ " (" +:+ ns +:+ ")".

Definition AsyncError_Error (e : event) (err : string) : string := String e +:+ ": " +:+ err.

Definition AsyncCommandError_Error (cmd : command) (err : string) : string :=
  CommandType cmd +:+ " (" +:+ uuid_String (AggregateID cmd) +:+ "): " +:+ err.

Definition ScheduleError_Error (cmd : command) (err : string) : string :=
  CommandType cmd +:+ " (" +:+ uuid_String (AggregateID cmd) +:+ "): " +:+ err.

(** [e.Error()] *)
Fixpoint Error (e : error) : option string :=
  let cause (err : option error) : option (option string) :=
    match err with Some err => str ← Error err; Some (Some str) | None => Some None end in
  match e with
  | Sentinel s => Some (sentinel_text foreign s)
  | ErrorString msg => Some msg
  | Errorf prefix err => Some (prefix +:+ ": " +:+ sprint (Error err))
  | CommandFieldError Field => Some (CommandFieldError_Error Field)
  | EventStoreError err op at' id v events =>
      str ← cause err; Some (EventStoreError_Error str op at' id v events)
  | AggregateStoreError err op at' id => str ← cause err; Some (AggregateStoreError_Error str op at' id)
  | AggregateError err => str ← Error err; Some (AggregateError_Error str)
  | EventHandlerError err e => str ← cause err; Some (EventHandlerError_Error str e)
  | EventBusError err _ e => str ← cause err; Some (EventBusError_Error str e)
  | OutboxError err _ e => str ← cause err; Some (OutboxError_Error str e)
  | RepoError err op id => str ← cause err; Some (RepoError_Error str op id)
  | ProjectorError err projector e id v => str ← cause err; Some (ProjectorError_Error str projector e id v)
  | SagaError err saga => Some (SagaError_Error (Error err) saga)
  | ValidateError err => str ← Error err; Some (ValidateError_Error str)
  | NamespaceError err ns => Some (NamespaceError_Error (Error err) ns)
  | AsyncError err _ e => e ← e; str ← Error err; Some (AsyncError_Error e str)
  | AsyncCommandError err _ cmd => cmd ← cmd; str ← Error err; Some (AsyncCommandError_Error cmd str)
  | ScheduleError err _ cmd => cmd ← cmd; str ← Error err; Some (ScheduleError_Error cmd str)
  end.

(** [t] occurs in [s]. *)
Definition occurs (t s : string) : Prop := exists a b, s = a +:+ t +:+ b.

Lemma occurs_app_r t a b : occurs t b -> occurs t (a +:+ b).
Proof. intros (c & d & ->). exists (a +:+ c), d. by rewrite string_app_assoc. Qed.

Lemma occurs_start t a : occurs t (t +:+ a).
Proof. by exists "", a. Qed.

Lemma occurs_refl t : occurs t t.
Proof. exists "", "". by rewrite string_app_empty. Qed.

Lemma occurs_trans t u v : occurs t u -> occurs u v -> occurs t v.
Proof.
  intros (a & b & ->) (c & d & ->). exists (c +:+ a), (b +:+ d). by rewrite !string_app_assoc.
Qed.

(** No asynchronous error on the chain lacks the command or event it is
    about. *)
Fixpoint complete (e : error) : Prop :=
  match e with
  | Sentinel _ | ErrorString _ | CommandFieldError _ => True
  | Errorf _ err | AggregateError err | SagaError err _ | ValidateError err | NamespaceError err _ => complete err
  | EventStoreError err _ _ _ _ _ | AggregateStoreError err _ _ _ | EventHandlerError err _
  | EventBusError err _ _ | OutboxError err _ _ | RepoError err _ _ | ProjectorError err _ _ _ _ =>
      match err with Some err => complete err | None => True end
  | AsyncError err _ e => is_Some e /\ complete err
  | AsyncCommandError err _ cmd | ScheduleError err _ cmd => is_Some cmd /\ complete err
  end.

(** Errors whose text can be given: what is above such an error prints it
    with [fmt]. *)
Fixpoint printable (e : error) : Prop :=
  match e with
  | Sentinel _ | ErrorString _ | CommandFieldError _ | Errorf _ _ | SagaError _ _ | NamespaceError _ _ => True
  | AggregateError err | ValidateError err => printable err
  | EventStoreError err _ _ _ _ _ | AggregateStoreError err _ _ _ | EventHandlerError err _
  | EventBusError err _ _ | OutboxError err _ _ | RepoError err _ _ | ProjectorError err _ _ _ _ =>
      match err with Some err => printable err | None => True end
  | AsyncError err _ e => is_Some e /\ printable err
  | AsyncCommandError err _ cmd | ScheduleError err _ cmd => is_Some cmd /\ printable err
  end.

(** Induction along [Unwrap]. *)
Lemma unwrap_ind (P : error -> Prop) :
  (forall e, (forall c, Unwrap e = Some c -> P c) -> P e) -> forall e, P e.
Proof.
  intros Hstep. fix IH 1. intros e. apply Hstep. intros c Hc.
  destruct e; simpl in Hc; try discriminate Hc;
    try (match goal with o : option error |- _ => destruct o; [|discriminate Hc] end);
    injection Hc as <-; apply IH.
Qed.

Ltac error_cases e :=
  destruct e; simpl;
  try (match goal with o : option error |- _ => destruct o end);
  try (match goal with o : option event |- _ => destruct o end);
  try (match goal with o : option command |- _ => destruct o end);
  simpl.

Lemma printable_text (e : error) : printable e -> exists t, Error e = Some t.
Proof.
  induction e as [e IH] using unwrap_ind. error_cases e; intros Hp; destruct_and?;
    try (match goal with H : is_Some None |- _ => by destruct H end);
    try (match goal with
         | H : printable ?c |- _ => destruct (IH c eq_refl H) as (t & ->)
         end); simpl; by eexists.
Qed.

Lemma text_printable (e : error) t : Error e = Some t -> printable e.
Proof.
  revert t. induction e as [e IH] using unwrap_ind. intros t.
  error_cases e; intros Ht; try exact I; try discriminate Ht;
    match type of Ht with context [Error ?c] => destruct (Error c) as [tc|] eqn:Hc end; try discriminate Ht;
    try (match goal with |- _ /\ _ => split; [done|] end); exact (IH _ eq_refl _ Hc).
Qed.

Lemma complete_Unwrap e c : complete e -> Unwrap e = Some c -> complete c.
Proof. intros He Hu. error_cases e; simpl in *; simplify_eq; by destruct_and?. Qed.

Lemma complete_text (e : error) : complete e -> exists t, Error e = Some t.
Proof.
  intros He. apply printable_text. induction e as [e IH] using unwrap_ind.
  pose proof (complete_Unwrap e) as Hd. error_cases e; simpl in *; destruct_and?; eauto.
Qed.

Ltac unfold_texts := unfold EventStoreError_Error, AggregateStoreError_Error, AggregateError_Error,
  EventHandlerError_Error, EventBusError_Error, OutboxError_Error, RepoError_Error, ProjectorError_Error,
  SagaError_Error, ValidateError_Error, NamespaceError_Error, AsyncError_Error, AsyncCommandError_Error,
  ScheduleError_Error, or_unknown, sprint; simpl.
#[local] Hint Resolve occurs_app_r occurs_start occurs_refl : text.

(** the text of what an error wraps is part of its own *)
Lemma text_occurs (e c : error) t tc :
  Unwrap e = Some c -> Error c = Some tc -> Error e = Some t -> occurs tc t.
Proof.
  intros Hu Hc. error_cases e; simpl in Hu; try discriminate Hu; injection Hu as ->;
    try rewrite Hc; intros Ht; try discriminate Ht; injection Ht as <-; unfold_texts; auto 8 with text.
Qed.

(** C37: error texts tell the whole chain.  The text of an error exists unless its
    method reaches an asynchronous error that lacks its command or event; when
    none on the chain does, the text of everything the error wraps, however
    deep, occurs in it. *)
Theorem error_text_tells_cause e :
  ((exists t, Error e = Some t) <-> printable e) /\
  (complete e -> forall c, rtc (fun e c => Unwrap e = Some c) e c ->
    exists t tc, Error e = Some t /\ Error c = Some tc /\ occurs tc t).
Proof.
  split; [split; [intros (t & Ht); by eapply text_printable|apply printable_text]|].
  intros He c Hc. induction Hc as [e|e d c Hu _ IH]; destruct (complete_text _ He) as (t & Ht);
    [exists t, t; auto using occurs_refl|].
  destruct (IH (complete_Unwrap _ _ He Hu)) as (td & tc & Htd & Htc & ?).
  exists t, tc. split; [done|split; [done|]]. eapply occurs_trans; [done|by eapply text_occurs].
Qed.

End Text.
End ErrorText.
