(* ===== verification/CommandCheck.v ===== *)
(** * Checking commands ([command_check.go])

    [CheckCommand] walks the reflected fields of a command.  [Missing] is the
    declarative counterpart of [isZero]; the theorems relate the two and say
    which commands pass and which field is reported. *)

From stdpp Require Import base gmap strings list numbers option pretty.
From Stdlib Require Import Lia ZArith.
From S2P Require Import Prelude.
From S2P Require Import GoTypes.
From S2P Require Import Event.
From S2P Require Import Command.
From S2P Require Import Errors.
From S2P Require Import Fixtures.

Definition field_zero (f : field) : bool :=
  match fld_IsZeroer f with
  | Some b => b
  | None => isZero (fld_value f)
  end.

Fixpoint check_fields (fs : list field) : option error :=
  match fs with
  | [] => None
  | f :: fs' =>
      if bool_decide (fld_PkgPath f <> "") then check_fields fs'
      else if bool_decide (fld_tag_eh f = "optional") then check_fields fs'
      else if field_zero f then Some (CommandFieldError (fld_Name f))
      else check_fields fs'
  end.

Definition CheckCommand (cmd : option command) : option error :=
  match cmd with
  | None => Some (Sentinel ErrMissingCommand)
  | Some cmd =>
      if bool_decide (AggregateID cmd = Nil)
      then Some (Sentinel ErrMissingAggregateID)
      else check_fields (fields cmd)
  end.

(** ** Which values count as missing *)

Inductive Missing : rvalue -> Prop :=
| Missing_Func : Missing RFunc
| Missing_Chan : Missing RChan
| Missing_Ptr : Missing RPtr
| Missing_UnsafePointer : Missing RUnsafePointer
| Missing_Map : Missing (RMap true)
| Missing_Slice : Missing (RSlice true)
| Missing_UUID : Missing (RUUID Nil)
| Missing_Array elems : Forall Missing elems -> Missing (RArray elems)
| Missing_Interface : Missing (RInterface true)
| Missing_String : Missing (RString "")
| Missing_Time : Missing (RTime 0)
| Missing_Struct fs :
    Forall (fun f => f.1 = true -> Missing f.2) fs -> Missing (RStruct fs).

(** Induction that goes through array elements and struct fields. *)
Lemma rvalue_nested_ind (P : rvalue -> Prop)
    (Harr : forall elems, Forall P elems -> P (RArray elems))
    (Hstr : forall fs, Forall (fun f => P f.2) fs -> P (RStruct fs))
    (Hleaf : forall v, (forall l, v <> RArray l) -> (forall l, v <> RStruct l) -> P v) :
  forall v, P v.
Proof.
  fix rec 1. intros v. destruct v as [| | | | | | |elems| | | |fs|];
    try (apply Hleaf; discriminate).
  - apply Harr. induction elems as [|x l IH]; constructor; [apply rec|exact IH].
  - apply Hstr. induction fs as [|x l IH]; constructor; [apply rec|exact IH].
Qed.

Lemma isZero_array elems : isZero (RArray elems) = forallb isZero elems.
Proof.
  simpl. induction elems as [|x l IH]; [done|]. simpl.
  destruct (isZero x); simpl; [exact IH|done].
Qed.

Lemma isZero_struct fs :
  isZero (RStruct fs) = forallb (fun f => negb f.1 || isZero f.2) fs.
Proof.
  simpl. rewrite <- (andb_true_l (forallb _ fs)). generalize true.
  induction fs as [|[b x] l IH]; intros z; simpl; [by rewrite andb_true_r|].
  destruct b; simpl; rewrite IH; [|done]. by rewrite andb_assoc.
Qed.

(** [isZero] decides exactly which values count as missing: the zero value
    of the composite kinds (arrays and structs through all elements and
    exported fields), nil maps, slices and interfaces, empty strings, the nil
    UUID and the zero time, always functions, channels and pointers, and never
    booleans and numbers. *)
Theorem isZero_Missing v : isZero v = true <-> Missing v.
Proof.
  induction v as [elems IH|fs IH|v Ha Hs] using rvalue_nested_ind.
  - rewrite isZero_array, forallb_forall. split.
    + intros Hall. constructor. rewrite List.Forall_forall in *. naive_solver.
    + intros Hm. inversion Hm as [| | | | | | |? Hall| | | |]; subst.
      rewrite List.Forall_forall in *. naive_solver.
  - rewrite isZero_struct, forallb_forall. split.
    + intros Hall. constructor. rewrite List.Forall_forall in *.
      intros [b x] Hin Hb. simpl in *. subst.
      specialize (Hall _ Hin). specialize (IH _ Hin). simpl in *. tauto.
    + intros Hm. inversion Hm as [| | | | | | | | | | |? Hall]; subst.
      rewrite List.Forall_forall in *. intros [b x] Hin.
      specialize (Hall _ Hin). specialize (IH _ Hin). simpl in *.
      destruct b; simpl; tauto.
  - destruct v; simpl; rewrite ?bool_decide_eq_true;
      try (split; [intros; subst; by constructor|by inversion 1]);
      try (split; [intros; by constructor|done]); try naive_solver;
    [unfold IsZero; rewrite Z.eqb_eq; split; [intros ->; constructor|by inversion 1]
    |split; [done|by inversion 1]].
Qed.

(** A field that must be set and is not. *)
Definition field_missing (f : field) : Prop :=
  fld_PkgPath f = "" /\ fld_tag_eh f <> "optional" /\ field_zero f = true.

Lemma check_fields_spec fs :
  match check_fields fs with
  | None => Forall (fun f => ~ field_missing f) fs
  | Some e => exists pre f post, fs = pre ++ f :: post /\
      Forall (fun f => ~ field_missing f) pre /\ field_missing f /\
      e = CommandFieldError (fld_Name f)
  end.
Proof.
  induction fs as [|f fs IH]; simpl; [constructor|].
  assert (~ field_missing f ->
    match check_fields fs with
    | None => Forall (fun f => ~ field_missing f) (f :: fs)
    | Some e => exists pre f' post, f :: fs = pre ++ f' :: post /\
        Forall (fun f => ~ field_missing f) pre /\ field_missing f' /\
        e = CommandFieldError (fld_Name f')
    end) as Hskip.
  { intros Hnm. destruct (check_fields fs); [|by constructor].
    destruct IH as (pre & f' & post & -> & ? & ? & ->).
    exists (f :: pre), f', post. split; [done|]. split; [by constructor|done]. }
  case_bool_decide; [apply Hskip; unfold field_missing; tauto|].
  case_bool_decide; [apply Hskip; unfold field_missing; tauto|].
  destruct (field_zero f) eqn:Hz; [|apply Hskip; intros (_ & _ & ?); congruence].
  exists [], f, fs. split; [done|]. split; [constructor|]. split; [|done].
  done.
Qed.

(** a command passes [CheckCommand] exactly when it is there, has an
    aggregate ID, and no required exported field is missing; otherwise the
    error names the first thing that is: the command, the ID, or the first
    missing field in declaration order. *)
Theorem CheckCommand_spec cmd :
  match CheckCommand cmd with
  | None => exists c, cmd = Some c /\ AggregateID c <> Nil /\
      Forall (fun f => ~ field_missing f) (fields c)
  | Some e =>
      (cmd = None /\ e = Sentinel ErrMissingCommand) \/
      exists c, cmd = Some c /\
        ((AggregateID c = Nil /\ e = Sentinel ErrMissingAggregateID) \/
         (AggregateID c <> Nil /\ exists pre f post, fields c = pre ++ f :: post /\
            Forall (fun f => ~ field_missing f) pre /\ field_missing f /\
            e = CommandFieldError (fld_Name f)))
  end.
Proof.
  destruct cmd as [c|]; simpl; [|by left].
  case_bool_decide; [right; exists c; naive_solver|].
  pose proof (check_fields_spec (fields c)) as Hc.
  destruct (check_fields (fields c)); [right|]; exists c; naive_solver.
Qed.
