(* ===== verification/Registry.v ===== *)
(** * Type registries ([registry.go]) and the global registries built on them

    [typeRegistry] maps a type name to a factory.  The package keeps four of
    them: event data ([event.go]), aggregates ([aggregate.go]), commands
    ([command.go]) and snapshot data ([snapshot.go]).  Each operation holds the
    registry's mutex for its whole body, so an operation is one atomic step. *)

From stdpp Require Import base gmap strings list numbers option pretty.
From Stdlib Require Import Lia ZArith.
From S2P Require Import Prelude.
From S2P Require Import GoTypes.
From S2P Require Import Event.
From S2P Require Import Command.
From S2P Require Import Errors.

Section TypeRegistry.
Context {K F : Type} `{Countable K}.
(** The zero value of the key type, and [fmt]'s [%q] rendering of a key. *)
Context (zero : K) (quote : K -> string) (name : string).

Definition newTypeRegistry : gmap K F := ∅.

Definition register (key : K) (factory : F) : M (gmap K F) unit :=
  if bool_decide (key = zero)
  then panic ("eventhorizon: attempt to register empty " +:+ name +:+ " type")
  else
    let! items := gets id in
    match items !! key with
    | Some _ => panic ("eventhorizon: registering duplicate types for " +:+ quote key)
    | None => modify (fun items => <[key := factory]> items)
    end.

Definition unregister (key : K) : M (gmap K F) unit :=
  if bool_decide (key = zero)
  then panic ("eventhorizon: attempt to unregister empty " +:+ name +:+ " type")
  else
    let! items := gets id in
    match items !! key with
    | None => panic ("eventhorizon: unregister of non-registered type " +:+ quote key)
    | Some _ => modify (fun items => delete key items)
    end.

Definition get (key : K) : M (gmap K F) (option F) := gets (fun items => items !! key).

Definition reset : M (gmap K F) unit := modify (fun _ => ∅).

(** [all] clones the map: the caller's copy does not alias the registry. *)
Definition all : M (gmap K F) (gmap K F) := gets id.

Lemma register_spec key f items :
  register key f items =
  if bool_decide (key = zero) then
    (Panic ("eventhorizon: attempt to register empty " +:+ name +:+ " type"), items)
  else match items !! key with
       | Some _ => (Panic ("eventhorizon: registering duplicate types for " +:+ quote key), items)
       | None => (Ok tt, <[key := f]> items)
       end.
Proof.
  unfold register. case_bool_decide; [done|].
  unfold bind, gets, id. by destruct (items !! key).
Qed.

Lemma unregister_spec key items :
  unregister key items =
  if bool_decide (key = zero) then
    (Panic ("eventhorizon: attempt to unregister empty " +:+ name +:+ " type"), items)
  else match items !! key with
       | None => (Panic ("eventhorizon: unregister of non-registered type " +:+ quote key), items)
       | Some _ => (Ok tt, delete key items)
       end.
Proof.
  unfold unregister. case_bool_decide; [done|].
  unfold bind, gets, id. by destruct (items !! key).
Qed.

(** ** The registry as a state machine *)

Inductive registry_op : Type :=
| OpRegister (key : K) (f : F)
| OpUnregister (key : K)
| OpReset.

Definition run_op (op : registry_op) : M (gmap K F) unit :=
  match op with
  | OpRegister key f => register key f
  | OpUnregister key => unregister key
  | OpReset => reset
  end.

(** A sequence of calls by code that recovers from panics. *)
Fixpoint run_ops (ops : list registry_op) (items : gmap K F) : gmap K F :=
  match ops with
  | [] => items
  | op :: ops' => run_ops ops' (run_op op items).2
  end.

Lemma run_op_zero op (items : gmap K F) :
  items !! zero = None -> (run_op op items).2 !! zero = None.
Proof.
  intros Hz. destruct op as [key f|key|]; simpl.
  - rewrite register_spec. case_bool_decide; [done|].
    destruct (items !! key); [done|]. simpl. by rewrite lookup_insert_ne.
  - rewrite unregister_spec. case_bool_decide; [done|].
    destruct (items !! key); [|done]. simpl. by rewrite lookup_delete_ne.
  - apply lookup_empty.
Qed.

(** A factory, once registered, can only change through [unregister] or
    [reset]. *)
Lemma run_op_stable op (items : gmap K F) key f :
  items !! key = Some f ->
  op <> OpUnregister key -> op <> OpReset ->
  (run_op op items).2 !! key = Some f.
Proof.
  intros Hk Hu Hr. destruct op as [key' f'|key'|]; simpl; [| |done].
  - rewrite register_spec. case_bool_decide; [done|].
    destruct (items !! key') eqn:E; [done|]. simpl.
    rewrite lookup_insert_ne; [done|]. intros ->. congruence.
  - rewrite unregister_spec. case_bool_decide; [done|].
    destruct (items !! key') eqn:E; [|done]. simpl.
    rewrite lookup_delete_ne; [done|]. intros ->. congruence.
Qed.

End TypeRegistry.
Arguments registry_op : clear implicits.

(** in every history of calls on a new registry, the empty type name is
    never bound, and a factory that was registered under a key stays the one
    found under it as long as the key is not unregistered and the registry is
    not reset: duplicate registrations panic and change nothing. *)
Theorem registry_first_registration_wins {K F} `{Countable K}
    (zero : K) quote name (before after : list (registry_op K F)) key f :
  let run := run_ops zero quote name in
  let items := run before newTypeRegistry in
  items !! key = None -> key <> zero ->
  Forall (fun op => op <> OpUnregister key /\ op <> OpReset) after ->
  run after (register zero quote name key f items).2 !! key = Some f /\
  run (before ++ after) newTypeRegistry !! zero = None.
Proof.
  intros run items Hfree Hnz Hafter. split.
  - rewrite register_spec, bool_decide_false, Hfree by done. simpl.
    assert (<[key := f]> items !! key = Some f) as Hk by apply lookup_insert_eq.
    revert Hk. generalize (<[key := f]> items). clear items Hfree.
    induction Hafter as [|op ops [Hu Hr] _ IH]; intros items Hk; [done|].
    simpl. apply IH. by apply run_op_stable.
  - unfold run, newTypeRegistry.
    assert ((∅ : gmap K F) !! zero = None) as Hz by apply lookup_empty.
    revert Hz. generalize (∅ : gmap K F).
    induction (before ++ after) as [|op ops IH]; intros m Hz; [done|].
    simpl. apply IH. by apply run_op_zero.
Qed.

Definition quote_id (s : string) : string := s.

Lemma registry_first_registration_wins_witness :
  run_ops "" quote_id "event" [OpRegister "a" 2; OpRegister "b" 3]
    (register "" quote_id "event" "a" 1 (run_ops "" quote_id "event" [OpReset] newTypeRegistry)).2
    !! "a" = Some 1 /\
  run_ops "" quote_id "event" ([OpReset] ++ [OpRegister "a" 2; OpRegister "b" 3])
    (newTypeRegistry (K := string) (F := Z)) !! "" = None.
Proof.
  apply (registry_first_registration_wins "" quote_id "event" [OpReset]
           [OpRegister "a" 2; OpRegister "b" 3] "a" 1).
  - vm_compute. reflexivity.
  - discriminate.
  - repeat constructor; discriminate.
Defined.

(** ** The global registries *)

Section Globals.
Context (quote : string -> string).

(** [eventDataFactories]: factories are pure functions making a zero value. *)
Definition RegisterEventData (et : string) (factory : unit -> any)
  : M (gmap string (unit -> any)) unit := register "" quote "event" et factory.

Definition UnregisterEventData (et : string) : M (gmap string (unit -> any)) unit :=
  unregister "" quote "event" et.

Definition CreateEventData {S} (eventDataFactories : gmap string (unit -> any))
    (et : string) : M S any :=
  match eventDataFactories !! et with
  | Some factory => ret (factory tt)
  | None => throw (Sentinel ErrEventDataNotRegistered)
  end.

(** [aggregates], over the type [A] of non-nil aggregates.  [RegisterAggregate]
    calls the factory once, with a fresh UUID, to learn its type name. *)
Definition RegisterAggregate {A} (AggregateType : A -> string) (new : UUID)
    (factory : UUID -> option A) : M (gmap string (UUID -> option A)) unit :=
  match factory new with
  | None => panic "eventhorizon: created aggregate is nil"
  | Some a => register "" quote "aggregate" (AggregateType a) factory
  end.

Definition CreateAggregate {S A} (aggregates : gmap string (UUID -> option A))
    (at' : string) (id : UUID) : M S (option A) :=
  match aggregates !! at' with
  | Some factory => ret (factory id)
  | None => throw (Sentinel ErrAggregateNotRegistered)
  end.

Definition UnregisterAggregate {A} (at' : string)
  : M (gmap string (UUID -> option A)) unit := unregister "" quote "aggregate" at'.

(** [commands] *)
Definition RegisterCommand (factory : unit -> option command)
  : M (gmap string (unit -> option command)) unit :=
  match factory tt with
  | None => panic "eventhorizon: created command is nil"
  | Some cmd => register "" quote "command" (CommandType cmd) factory
  end.

Definition UnregisterCommand (ct : string)
  : M (gmap string (unit -> option command)) unit := unregister "" quote "command" ct.

Definition CreateCommand {S} (commands : gmap string (unit -> option command))
    (ct : string) : M S (option command) :=
  match commands !! ct with
  | Some factory => ret (factory tt)
  | None => throw (Sentinel ErrCommandNotRegistered)
  end.

Definition RegisteredCommands
  : M (gmap string (unit -> option command)) (gmap string (unit -> option command)) := all.

(** [snapshotDataFactories] *)
Definition RegisterSnapshotData (at' : string) (factory : UUID -> any)
  : M (gmap string (UUID -> any)) unit := register "" quote "aggregate" at' factory.

Definition CreateSnapshotData {S} (snapshotDataFactories : gmap string (UUID -> any))
    (id : UUID) (at' : string) : M S any :=
  match snapshotDataFactories !! at' with
  | Some factory => ret (factory id)
  | None => throw (Sentinel ErrSnapshotDataNotRegistered)
  end.

End Globals.

(** registering a command factory makes [CreateCommand] return what the
    factory makes, under the type name the made command reports. *)
Theorem RegisterCommand_CreateCommand (quote : string -> string) factory cmd reg {S} (s : S) :
  factory tt = Some cmd -> CommandType cmd <> "" -> reg !! CommandType cmd = None ->
  exists reg', RegisterCommand quote factory reg = (Ok tt, reg') /\
    CreateCommand reg' (CommandType cmd) s = (Ok (Some cmd), s).
Proof.
  intros Hf Hne Hfree. eexists.
  unfold RegisterCommand. rewrite Hf, register_spec, bool_decide_false, Hfree by done.
  split; [done|]. unfold CreateCommand. by rewrite lookup_insert_eq, Hf.
Qed.
