(* ===== verification/EventStoreSpec.v ===== *)
(** * What an event store promises ([eventstore.go], [snapshot.go])

    [EventStore] and [SnapshotStore] are the Go interfaces, as records of
    programs over the store's state.  [EventStoreLaws] is the contract the
    aggregate store and the middlewares rely on, stated against an abstract
    view: one stream of events per aggregate ID. *)

From stdpp Require Import base gmap strings list numbers option pretty.
From Stdlib Require Import Lia ZArith.
From S2P Require Import Prelude.
From S2P Require Import GoTypes.
From S2P Require Import Event.
From S2P Require Import Command.
From S2P Require Import Errors.

Record EventStore (S : Type) : Type := mkEventStore {
  es_Save : context -> list (option event) -> Z -> M S unit;
  es_Load : context -> UUID -> M S (list (option event));
  es_LoadFrom : context -> UUID -> Z -> M S (list (option event));
  es_Close : M S unit
}.
Arguments mkEventStore {S}.
Arguments es_Save {S}.
Arguments es_Load {S}.
Arguments es_LoadFrom {S}.
Arguments es_Close {S}.

Record Snapshot : Type := mkSnapshot {
  snap_Version : Z;
  snap_AggregateType : string;
  snap_Timestamp : Time;
  snap_State : any
}.

Record SnapshotStore (S : Type) : Type := mkSnapshotStore {
  LoadSnapshot : context -> UUID -> M S (option Snapshot);
  SaveSnapshot : context -> UUID -> Snapshot -> M S unit
}.
Arguments mkSnapshotStore {S}.
Arguments LoadSnapshot {S}.
Arguments SaveSnapshot {S}.

(** A batch a caller may append to a stream of [n] events. *)
Definition batch_for (id : UUID) (n : Z) (evs : list event) : Prop :=
  evs <> [] /\ serial id n evs /\ (exists at', typed at' evs) /\
  is_int n /\ is_int (n + len evs).

(** What an event and the one a store keeps or returns for it agree on; the
    timestamp may lose precision, and the metadata is a map of its own. *)
Definition same_event (e e' : event) : Prop :=
  eventType e' = eventType e /\ data e' = data e /\ aggregateType e' = aggregateType e /\
  aggregateID e' = aggregateID e /\ version e' = version e.

Class EventStoreLaws {S : Type} (st : EventStore S) : Type := {
  (** the abstract view and the states it is about *)
  store_ok : S -> Prop;
  stream : S -> UUID -> list event;
  (** how an event that was given and the one that is kept are related *)
  kept : event -> event -> Prop;
  (** events the store can keep faithfully (their data can be copied or
      encoded) *)
  storable : event -> Prop;
  (** there is room for this many more events *)
  holds : S -> Z -> Prop;
  (** nothing is observed to change, but some room may be lost *)
  unchanged : Z -> S -> S -> Prop;

  law_kept e e' : kept e e' -> same_event e e';
  law_unchanged n s s' :
    store_ok s -> unchanged n s s' ->
    store_ok s' /\ (forall id, stream s' id = stream s id) /\
    (forall m, holds s (n + m) -> holds s' m);
  law_unchanged_refl s : unchanged 0 s s;
  law_unchanged_trans n m s1 s2 s3 : unchanged n s1 s2 -> unchanged m s2 s3 -> unchanged (n + m) s1 s3;
  law_holds_le s n m : holds s (n + m) -> 0 <= m -> holds s n;

  law_stream_serial s id : store_ok s -> serial id 0 (stream s id);

  (** [Load], or [LoadFrom] the first version *)
  law_load ctx s id load :
    load = es_Load st ctx id \/ load = es_LoadFrom st ctx id 1 ->
    store_ok s -> stream s id <> [] ->
    exists evs s', load s = (Ok (somes evs), s') /\ unchanged 0 s s' /\
      Forall2 kept (stream s id) evs;

  law_load_missing ctx s id load :
    load = es_Load st ctx id \/ load = es_LoadFrom st ctx id 1 ->
    store_ok s -> stream s id = [] ->
    exists e s', load s = (Err e, s') /\ unchanged 0 s s' /\
      errors_Is e ErrAggregateNotFound = true;

  (** saving a batch that follows the stream appends it, and nothing else *)
  law_save ctx s id evs :
    store_ok s -> batch_for id (len (stream s id)) evs -> Forall storable evs ->
    holds s (len evs) ->
    exists s' evs', es_Save st ctx (somes evs) (len (stream s id)) s = (Ok tt, s') /\
      store_ok s' /\ stream s' id = stream s id ++ evs' /\ Forall2 kept evs evs' /\
      (forall id', id' <> id -> stream s' id' = stream s id') /\
      (forall m, holds s (len evs + m) -> holds s' m);

  (** optimistic concurrency: a batch prepared against an older, non-initial
      version of a stream is refused and nothing is stored *)
  law_save_conflict ctx s id evs v :
    store_ok s -> batch_for id v evs -> Forall storable evs -> holds s (len evs) ->
    v <> 0 -> stream s id <> [] -> len (stream s id) <> v ->
    exists e s', es_Save st ctx (somes evs) v s = (Err e, s') /\ unchanged (len evs) s s' /\
      errors_Is e ErrEventConflictFromOtherSave = true
}.

(** A store that also answers from a later version on, with no empty slots. *)
Class LoadsFrom {S : Type} (st : EventStore S) `{!EventStoreLaws st} : Prop := {
  law_load_from ctx s id from :
    store_ok s -> 1 <= from -> from <= len (stream s id) ->
    exists evs s', es_LoadFrom st ctx id from s = (Ok (somes evs), s') /\ unchanged 0 s s' /\
      Forall2 kept (drop (Z.to_nat (from - 1)) (stream s id)) evs;
  law_load_from_end ctx s id from :
    store_ok s -> 1 <= from -> len (stream s id) < from ->
    exists e s', es_LoadFrom st ctx id from s = (Err e, s') /\ unchanged 0 s s' /\
      errors_Is e ErrAggregateNotFound = true
}.

(** ** What a store refuses, and the details it keeps *)

(** The first thing wrong with the events of a batch, from index [i] on. *)
Fixpoint check_batch (id : UUID) (at' : string) (v i : Z) (evs : list event) : option sentinel :=
  match evs with
  | [] => None
  | e :: evs' =>
      if bool_decide (aggregateID e <> id) then Some ErrMismatchedEventAggregateIDs
      else if bool_decide (aggregateType e <> at') then Some ErrMismatchedEventAggregateTypes
      else if bool_decide (version e <> iadd (iadd v i) 1) then Some ErrIncorrectEventVersion
      else check_batch id at' v (i + 1) evs'
  end.

Definition batch_error (v : Z) (evs : list event) : option sentinel :=
  match evs with
  | [] => Some ErrMissingEvents
  | e :: _ => check_batch (aggregateID e) (aggregateType e) v 0 evs
  end.

(** Malformed batches and unknown aggregates are answered with the error they
    deserve, in an [EventStoreError]. *)
Class EventStoreRefuses {S : Type} (st : EventStore S) `{!EventStoreLaws st} : Prop := {
  law_refuse ctx s v evs err :
    store_ok s -> Forall storable evs -> holds s (len evs) -> batch_error v evs = Some err ->
    exists e s', es_Save st ctx (somes evs) v s = (Err e, s') /\ unchanged (len evs) s s' /\
      is_Some (errors_As as_EventStoreError e) /\ errors_Is e err = true;
  law_missing ctx s id :
    store_ok s -> stream s id = [] ->
    exists e s', es_Load st ctx id s = (Err e, s') /\ unchanged 0 s s' /\
      is_Some (errors_As as_EventStoreError e) /\ errors_Is e ErrAggregateNotFound = true
}.

(** An event's time and its metadata, the position a store adds aside. *)
Definition detail (h : heap) (e : event) : Time * gomap :=
  (timestamp e, delete "position" (map_at h (metadata e))).

(** A store that keeps the details of events exactly; [heap_of] is the heap
    the metadata maps live in. *)
Class KeepsDetails {S : Type} (st : EventStore S) `{!EventStoreLaws st} (heap_of : S -> heap) : Type := {
  details : S -> UUID -> list (Time * gomap);
  law_details_length s id : store_ok s -> length (details s id) = length (stream s id);
  law_details_unchanged n s s' id :
    store_ok s -> unchanged n s s' -> heap_of s ⊆ heap_of s' /\ details s' id = details s id;
  law_details_load ctx s id evs s' :
    store_ok s -> stream s id <> [] -> es_Load st ctx id s = (Ok (somes evs), s') ->
    detail (heap_of s') <$> evs = details s id;
  law_details_save ctx s id evs s' :
    store_ok s -> batch_for id (len (stream s id)) evs -> Forall storable evs -> holds s (len evs) ->
    es_Save st ctx (somes evs) (len (stream s id)) s = (Ok tt, s') ->
    heap_of s ⊆ heap_of s' /\ details s' id = details s id ++ (detail (heap_of s) <$> evs) /\
    forall id', id' <> id -> details s' id' = details s id'
}.

(** ** What follows for the kept events *)

Section Kept.
Context {S : Type} (st : EventStore S) `{!EventStoreLaws st}.

Lemma unchanged_ok n s s' : store_ok s -> unchanged n s s' -> store_ok s'.
Proof. intros Hok Hu. apply (law_unchanged n s s' Hok Hu). Qed.

Lemma unchanged_stream n s s' id : store_ok s -> unchanged n s s' -> stream s' id = stream s id.
Proof. intros Hok Hu. apply (law_unchanged n s s' Hok Hu). Qed.

Lemma unchanged_holds s s' m : store_ok s -> unchanged 0 s s' -> holds s m -> holds s' m.
Proof. intros Hok Hu Hh. apply (law_unchanged 0 s s' Hok Hu). by rewrite Z.add_0_l. Qed.

Lemma kept_typed at' evs evs' : Forall2 kept evs evs' -> typed at' evs -> typed at' evs'.
Proof.
  induction 1 as [|e e' evs evs' He _ IH]; intros Ht; [done|].
  inversion Ht; subst. constructor; [|by apply IH].
  destruct (law_kept _ _ He) as (_ & _ & -> & _). done.
Qed.

Lemma kept_len evs evs' : Forall2 kept evs evs' -> len evs = len evs'.
Proof. intros HF. unfold len. by rewrite (Forall2_length _ _ _ HF). Qed.

Lemma kept_nonempty evs evs' : Forall2 kept evs evs' -> evs <> [] -> evs' <> [].
Proof. by destruct 1. Qed.

End Kept.

Lemma serial_snoc_version id l : serial id 0 l -> forall e, last l = Some e -> version e = len l.
Proof.
  intros Hs e He. rewrite last_lookup in He.
  destruct (serial_lookup _ _ _ _ _ Hs He) as [_ ->].
  destruct l; [done|]. unfold len. simpl. lia.
Qed.
