(* ===== verification/MemStore.v ===== *)
(** * The in-memory event store ([eventstore/memory])

    State: a map from aggregate ID to its record.  [save], [LoadFrom] and
    [RenameEvent] hold the store's mutex for their whole body and are atomic;
    [Save] runs the event handler after the mutex is released, on the whole
    program state, so a handler may call the store again.

    Slices hold interface values, so their elements are [option event]: [None]
    is the nil event, and a method call on it panics.

    Parameters: [copier_Copy] is the third-party [copier.Copy(to, from)]; it
    returns the new contents of [to] or an error. *)

From stdpp Require Import base gmap strings list numbers option pretty.
From Stdlib Require Import Lia ZArith.
From S2P Require Import Prelude.
From S2P Require Import GoTypes.
From S2P Require Import Event.
From S2P Require Import Command.
From S2P Require Import Errors.
From S2P Require Import Fixtures.
From S2P Require Import Registry.
From S2P Require Import EventStoreSpec.

Record aggregateRecord : Type := mkRecord {
  rec_AggregateID : UUID;
  rec_Version : Z;
  rec_Events : list (option event)
}.

Abbreviation MemDB := (gmap UUID aggregateRecord).

Section MemStore.
Context (eventDataFactories : gmap string (unit -> any)).
Context (copier_Copy : any -> any -> any + error).

Definition copyEvent {S} (ev : option event) : M S event :=
  let! e := deref ev in
  let! d :=
    if is_nil (data e) then ret ANil
    else
      let! d := map_err (Errorf "could not create event data")
                  (CreateEventData eventDataFactories (eventType e)) in
      match copier_Copy d (data e) with
      | inl d => ret d
      | inr err => throw (Errorf "could not copy event data" err)
      end in
  ret (duplicate (eventType e) d e).

(** The loop of [save] over the events still to check, [i] being the index of
    the first of them; every error carries the whole batch. *)
Fixpoint build_records {S} (id : UUID) (at' : string) (originalVersion : Z)
    (events : list (option event)) (i : Z) (rest : list (option event))
  : M S (list (option event)) :=
  let fail err :=
    EventStoreError (Some err) EventStoreOpSave at' id originalVersion events in
  match rest with
  | [] => ret []
  | ev :: rest' =>
      let! e := deref ev in
      if bool_decide (aggregateID e <> id)
      then throw (fail (Sentinel ErrMismatchedEventAggregateIDs))
      else if bool_decide (aggregateType e <> at')
      then throw (fail (Sentinel ErrMismatchedEventAggregateTypes))
      else if bool_decide (version e <> iadd (iadd originalVersion i) 1)
      then throw (fail (Sentinel ErrIncorrectEventVersion))
      else
        let! c := map_err (fun err => fail (Errorf "could not copy event" err))
                    (copyEvent ev) in
        let! cs := build_records id at' originalVersion events (i + 1) rest' in
        ret (Some c :: cs)
  end.

(** The second half of [save]: insert a new aggregate or append to an existing
    one, whose version must be the one the caller started from. *)
Definition commit (id : UUID) (at' : string) (originalVersion : Z)
    (events dbEvents : list (option event)) : M MemDB unit :=
  if originalVersion =? 0 then
    modify (fun db => <[id := mkRecord id (len dbEvents) dbEvents]> db)
  else
    let! db := gets (fun db => db) in
    match db !! id with
    | Some aggregate =>
        if bool_decide (rec_Version aggregate <> originalVersion)
        then throw (EventStoreError (Some (Sentinel ErrEventConflictFromOtherSave))
                      EventStoreOpSave at' id originalVersion events)
        else modify (fun db =>
               <[id := mkRecord (rec_AggregateID aggregate)
                         (iadd (rec_Version aggregate) (len dbEvents))
                         (rec_Events aggregate ++ dbEvents)]> db)
    | None => ret tt
    end.

Definition save (events : list (option event)) (originalVersion : Z)
  : M MemDB unit :=
  match events with
  | [] => throw (EventStoreError (Some (Sentinel ErrMissingEvents)) EventStoreOpSave
                   "" Nil 0 [])
  | ev :: _ =>
      let! e0 := deref ev in
      let id := aggregateID e0 in
      let at' := aggregateType e0 in
      let! dbEvents := build_records id at' originalVersion events 0 events in
      commit id at' originalVersion events dbEvents
  end.

(** [Save], with the optional handler acting on the store and the rest [X] of
    the program's state. *)
(** ** Creation: the empty store with an event handler, if one is given *)

Definition EventStoreOption (X : Type) : Type :=
  option (context -> option event -> M (MemDB * X) unit) ->
  option (context -> option event -> M (MemDB * X) unit) + error.

Definition WithEventHandler {X} (h : option (context -> option event -> M (MemDB * X) unit))
  : EventStoreOption X := fun _ => inl h.

Fixpoint apply_options {X} (options : list (EventStoreOption X))
    (eventHandler : option (context -> option event -> M (MemDB * X) unit))
  : option (context -> option event -> M (MemDB * X) unit) + error :=
  match options with
  | [] => inl eventHandler
  | option :: options' =>
      match option eventHandler with
      | inl h => apply_options options' h
      | inr err => inr (Errorf "error while applying option" err)
      end
  end.

Definition NewEventStore {X} (options : list (EventStoreOption X))
  : MemDB * option (context -> option event -> M (MemDB * X) unit) + error :=
  match apply_options options None with
  | inl eventHandler => inl (∅, eventHandler)
  | inr err => inr err
  end.

Definition Save {X}
    (eventHandler : option (context -> option event -> M (MemDB * X) unit))
    (ctx : context) (events : list (option event)) (originalVersion : Z)
  : M (MemDB * X) unit :=
  do! zoom_fst (save events originalVersion) in
  match eventHandler with
  | Some h =>
      for_range events (fun e =>
        map_err (fun err => EventHandlerError (Some err) e) (h ctx e))
  | None => ret tt
  end.

(** The loop of [LoadFrom]: [events] has one slot per stored event, and a
    slot whose event is skipped keeps its nil.  When [copyEvent] fails the
    code reads [e.AggregateType()] of the nil event it returned. *)
Fixpoint load_events {S} (from : Z) (stored : list (option event))
  : M S (list (option event)) :=
  match stored with
  | [] => ret []
  | ev :: stored' =>
      let! e := deref ev in
      let! slot :=
        if version e <? from then ret None
        else
          let! r := attempt (copyEvent ev) in
          match r with
          | inl c => ret (Some c)
          | inr _ => panic "nil pointer dereference"
          end in
      let! slots := load_events from stored' in
      ret (slot :: slots)
  end.

Definition LoadFrom (ctx : context) (id : UUID) (from : Z)
  : M MemDB (list (option event)) :=
  let! db := gets (fun db => db) in
  match db !! id with
  | None => throw (EventStoreError (Some (Sentinel ErrAggregateNotFound))
                     EventStoreOpLoad "" id 0 [])
  | Some aggregate => load_events from (rec_Events aggregate)
  end.

Definition Load (ctx : context) (id : UUID) : M MemDB (list (option event)) :=
  LoadFrom ctx id 1.

Definition Close : M MemDB unit := ret tt.

(** ** Maintenance ([eventmaintenance.go]) *)

(** Index of the first stored event of the given version. *)
Fixpoint find_version {S} (v : Z) (stored : list (option event)) (i : nat)
  : M S (option nat) :=
  match stored with
  | [] => ret None
  | ev :: stored' =>
      let! e := deref ev in
      if version e =? v then ret (Some i) else find_version v stored' (i + 1)%nat
  end.

Definition Replace (ctx : context) (event : option event) : M MemDB unit :=
  let! ev := deref event in
  let id := aggregateID ev in
  let! db := gets (fun db => db) in
  match db !! id with
  | None => throw (EventStoreError (Some (Sentinel ErrAggregateNotFound))
                     EventStoreOpReplace "" id 0 [event])
  | Some aggregate =>
      let! e := map_err (fun err =>
                  EventStoreError (Some (Errorf "could not copy event" err))
                    EventStoreOpReplace "" id 0 [event]) (copyEvent event) in
      let! idx := find_version (version ev) (rec_Events aggregate) 0 in
      match idx with
      | None => throw (EventStoreError (Some (Sentinel ErrEventNotFound))
                         EventStoreOpReplace "" id 0 [event])
      | Some idx =>
          modify (fun db =>
            <[id := mkRecord (rec_AggregateID aggregate) (rec_Version aggregate)
                      (<[idx := Some e]> (rec_Events aggregate))]> db)
      end
  end.

(** [events := make([]eh.Event, n)]; only a matching event fills its slot. *)
Fixpoint rename_events {S} (from to : string) (stored : list (option event))
  : M S (list (option event)) :=
  match stored with
  | [] => ret []
  | ev :: stored' =>
      let! e := deref ev in
      let slot := if bool_decide (eventType e = from)
                  then Some (duplicate to (data e) e) else None in
      let! slots := rename_events from to stored' in
      ret (slot :: slots)
  end.

Fixpoint rename_records {S} (from to : string)
    (records : list (UUID * aggregateRecord)) (updated : MemDB) : M S MemDB :=
  match records with
  | [] => ret updated
  | (id, aggregate) :: records' =>
      let! events := rename_events from to (rec_Events aggregate) in
      rename_records from to records'
        (<[id := mkRecord (rec_AggregateID aggregate) (rec_Version aggregate) events]> updated)
  end.

Definition RenameEvent (ctx : context) (from to : string) : M MemDB unit :=
  let! db := gets (fun db => db) in
  let! updated := rename_records from to (map_to_list db) ∅ in
  modify (fun db => updated ∪ db).


(** ** Copying *)

(** What [copyEvent] does to the data. *)
Definition copy_data (e : event) : any + error :=
  if is_nil (data e) then inl ANil
  else match eventDataFactories !! eventType e with
       | None => inr (Errorf "could not create event data"
                        (Sentinel ErrEventDataNotRegistered))
       | Some factory =>
           match copier_Copy (factory tt) (data e) with
           | inl d => inl d
           | inr err => inr (Errorf "could not copy event data" err)
           end
       end.

(** Events whose copy is equal to them. *)
Definition copyable (e : event) : Prop := copy_data e = inl (data e).

Lemma copyEvent_eq {S} e (s : S) :
  copyEvent (Some e) s =
  match copy_data e with
  | inl d => (Ok (duplicate (eventType e) d e), s)
  | inr err => (Err err, s)
  end.
Proof.
  unfold copyEvent, copy_data, CreateEventData, bind, map_err, ret, throw. simpl.
  destruct (is_nil (data e)); [done|].
  destruct (_ !! eventType e) as [f|]; [|done].
  by destruct (copier_Copy (f tt) (data e)).
Qed.

Lemma copyEvent_copyable {S} e (s : S) :
  copyable e -> copyEvent (Some e) s = (Ok e, s).
Proof. intros H. by rewrite copyEvent_eq, H, duplicate_id. Qed.

Lemma copyEvent_inv {S} ev (s s' : S) c :
  copyEvent ev s = (Ok c, s') -> s' = s /\ exists e, ev = Some e /\ same_head e c.
Proof.
  destruct ev as [e|]; [|done]. rewrite copyEvent_eq.
  destruct (copy_data e); [|done]. intros [= <- <-].
  split; [done|]. by exists e.
Qed.

Lemma copyEvent_state {S} ev (s : S) : (copyEvent ev s).2 = s.
Proof.
  destruct ev as [e|]; [|done]. rewrite copyEvent_eq. by destruct (copy_data e).
Qed.

(** ** Saving *)

Lemma build_records_state {S} id at' v events i rest (s : S) :
  (build_records id at' v events i rest s).2 = s.
Proof.
  revert i. induction rest as [|[e|] rest IH]; intros i; [done| |done].
  simpl. unfold bind, throw; simpl.
  repeat (case_bool_decide; [done|]).
  unfold map_err. pose proof (copyEvent_state (Some e) s) as Hc.
  destruct (copyEvent (Some e) s) as [[c| |] s1]; simpl in Hc; subst; [|done..].
  specialize (IH (i + 1)).
  by destruct (build_records _ _ v events (i + 1) rest s) as [[] ?].
Qed.

Lemma build_records_ok {S} id at' v events i evs (s : S) :
  serial id (v + i) evs -> typed at' evs -> Forall copyable evs ->
  is_int v -> 0 <= i -> is_int (v + i + len evs) ->
  build_records id at' v events i (somes evs) s = (Ok (somes evs), s).
Proof.
  revert i. induction evs as [|e evs IH]; intros i Hs Ht Hc Hv Hi Hb; [done|].
  destruct Hs as (Hid & Hver & Hs). inversion Ht; inversion Hc; subst.
  assert (0 <= len evs) by apply len_nonneg. rewrite len_cons in Hb.
  unfold is_int, MinInt, MaxInt in *.
  assert (iadd (iadd v i) 1 = v + i + 1) as Hw.
  { rewrite !iadd_id; unfold is_int, MinInt, MaxInt; try lia.
    rewrite iadd_id; unfold is_int, MinInt, MaxInt; lia. }
  simpl. unfold bind at 1. simpl.
  rewrite Hw, !bool_decide_false by (rewrite ?Hver; tauto).
  rewrite (bind_ok _ _ s s e)
    by (apply map_err_ok, copyEvent_copyable; done).
  rewrite (bind_ok _ _ s s (somes evs)); [done|].
  apply IH; try done; [|lia|unfold is_int, MinInt, MaxInt; lia].
  by replace (v + (i + 1)) with (v + i + 1) by lia.
Qed.

Lemma build_records_inv {S} id at' v events i rest cs (s s' : S) :
  is_int v -> 0 <= i -> is_int (v + i + len rest) ->
  build_records id at' v events i rest s = (Ok cs, s') ->
  exists evs cs', rest = somes evs /\ cs = somes cs' /\
    serial id (v + i) evs /\ typed at' evs /\ Forall2 same_head evs cs'.
Proof.
  revert i cs s'. induction rest as [|ev rest IH]; intros i cs s' Hv Hi Hb H.
  - injection H as <- <-. exists [], []. unfold typed. repeat constructor.
  - destruct ev as [e|]; [|done]. simpl in H. rewrite len_cons in Hb.
    pose proof (len_nonneg rest).
    unfold is_int, MinInt, MaxInt in *.
    assert (iadd (iadd v i) 1 = v + i + 1) as Hw.
    { rewrite !iadd_id; unfold is_int, MinInt, MaxInt; try lia.
      rewrite iadd_id; unfold is_int, MinInt, MaxInt; lia. }
    unfold bind at 1 in H. simpl in H. rewrite Hw in H.
    repeat (case_bool_decide; [done|]).
    apply bind_inv_ok in H as (c & s1 & Hc & H).
    apply bind_inv_ok in H as (cs0 & s2 & Hr & H). injection H as <- <-.
    unfold map_err in Hc.
    destruct (copyEvent (Some e) s) as [[c0| |] s0] eqn:Hce; [|done..].
    injection Hc as -> ->. apply copyEvent_inv in Hce as [-> (e' & [= <-] & Hh)].
    destruct (IH (i + 1) cs0 s2) as (evs & cs' & -> & -> & Hs & Ht & HF);
      [done|lia|unfold is_int, MinInt, MaxInt; lia|done|].
    exists (e :: evs), (c :: cs'). repeat split; try done.
    + by replace (v + i + 1) with (v + (i + 1)) by lia.
    + by constructor.
    + by constructor.
Qed.

Lemma save_cons e l v db :
  save (Some e :: l) v db =
  bind (build_records (aggregateID e) (aggregateType e) v (Some e :: l) 0 (Some e :: l))
       (commit (aggregateID e) (aggregateType e) v (Some e :: l)) db.
Proof. reflexivity. Qed.

(** [save] on a well-formed batch of copyable events goes straight to
    [commit]. *)
Lemma save_batch id at' v evs db :
  evs <> [] -> serial id v evs -> typed at' evs -> Forall copyable evs ->
  is_int v -> is_int (v + len evs) ->
  save (somes evs) v db = commit id at' v (somes evs) (somes evs) db.
Proof.
  intros Hne Hs Ht Hc Hv Hb. destruct evs as [|e evs]; [done|].
  pose proof Hs as (<- & _). pose proof (Forall_inv Ht) as <-.
  simpl somes. rewrite save_cons. apply bind_ok.
  apply (build_records_ok _ _ _ _ 0 (e :: evs)); rewrite ?Z.add_0_r; done.
Qed.

Lemma commit_spec id at' v events dbEvents db :
  commit id at' v events dbEvents db =
  if v =? 0 then (Ok tt, <[id := mkRecord id (len dbEvents) dbEvents]> db)
  else match db !! id with
       | None => (Ok tt, db)
       | Some r =>
           if decide (rec_Version r = v) then
             (Ok tt, <[id := mkRecord (rec_AggregateID r) (iadd v (len dbEvents))
                               (rec_Events r ++ dbEvents)]> db)
           else (Err (EventStoreError (Some (Sentinel ErrEventConflictFromOtherSave))
                        EventStoreOpSave at' id v events), db)
       end.
Proof.
  unfold commit. destruct (v =? 0); [done|].
  unfold bind, gets, modify, throw.
  destruct (db !! id) as [r|]; [|done].
  destruct (decide (rec_Version r = v)) as [<-|].
  - by rewrite bool_decide_false by tauto.
  - by rewrite bool_decide_true by tauto.
Qed.

(** A [save] that succeeds was given a well-formed batch. *)
Lemma save_inv events v db db' :
  is_int v -> is_int (v + len events) ->
  save events v db = (Ok tt, db') ->
  exists id at' evs cs, events = somes evs /\ evs <> [] /\ serial id v evs /\
    typed at' evs /\ Forall2 same_head evs cs /\
    commit id at' v events (somes cs) db = (Ok tt, db').
Proof.
  intros Hv Hb. destruct events as [|[e|] l]; [done| |done].
  rewrite save_cons. intros H.
  apply bind_inv_ok in H as (cs & db1 & Hbr & H).
  pose proof (build_records_state (aggregateID e) (aggregateType e) v
    (Some e :: l) 0 (Some e :: l) db) as Hst.
  rewrite Hbr in Hst. simpl in Hst. subst db1.
  apply build_records_inv in Hbr as (evs & cs' & Hevs & -> & Hs & Ht & HF);
    [|done|lia|by rewrite Z.add_0_r].
  rewrite Z.add_0_r in Hs.
  exists (aggregateID e), (aggregateType e), evs, cs'.
  repeat split; try done. by intros ->.
Qed.

Lemma commit_error_unchanged id at' v events dbEvents db :
  (commit id at' v events dbEvents db).1 <> Ok tt ->
  (commit id at' v events dbEvents db).2 = db.
Proof.
  rewrite commit_spec. destruct (v =? 0); [done|].
  destruct (db !! id); [|done]. by case_decide.
Qed.

Lemma save_error_unchanged events v db :
  (save events v db).1 <> Ok tt -> (save events v db).2 = db.
Proof.
  destruct events as [|[e|] l]; [done| |done]. rewrite save_cons. unfold bind.
  pose proof (build_records_state (aggregateID e) (aggregateType e) v
    (Some e :: l) 0 (Some e :: l) db) as Hst.
  destruct (build_records _ _ _ _ _ _ db) as [[cs| |] db1]; simpl in Hst; subst; [|done..].
  apply commit_error_unchanged.
Qed.

(** ** The store invariant *)

(** A record of the map: under its own ID, at least one event, no nil, serial
    versions from 1, and the version counter equal to the number of events. *)
Definition record_ok (id : UUID) (r : aggregateRecord) : Prop :=
  rec_AggregateID r = id /\
  exists evs, rec_Events r = somes evs /\ evs <> [] /\
    rec_Version r = len evs /\ serial id 0 evs /\ is_int (len evs).

Definition db_ok (db : MemDB) : Prop := map_Forall record_ok db.

Lemma db_ok_insert db id r : db_ok db -> record_ok id r -> db_ok (<[id := r]> db).
Proof. intros. by apply map_Forall_insert_2. Qed.

Lemma record_ok_fresh id evs :
  evs <> [] -> serial id 0 evs -> is_int (len evs) ->
  record_ok id (mkRecord id (len evs) (somes evs)).
Proof. intros. split; [done|]. by exists evs. Qed.

Lemma record_ok_append id r evs :
  record_ok id r -> serial id (rec_Version r) evs -> is_int (rec_Version r + len evs) ->
  record_ok id (mkRecord (rec_AggregateID r) (iadd (rec_Version r) (len evs))
                  (rec_Events r ++ somes evs)).
Proof.
  intros (Hid & old & Hold & Hne & Hver & Hs & Hb) Hs' Hb'. split; [done|].
  rewrite Hver in Hs', Hb' |- *. exists (old ++ evs). simpl.
  rewrite Hold, somes_app, len_app, iadd_id by done.
  repeat split; try done.
  - by destruct old.
  - by apply serial_app.
  - apply Hb'.
  - apply Hb'.
Qed.

(** The abstract view: the stream of an aggregate. *)
Definition events_of (db : MemDB) (id : UUID) : list event :=
  match db !! id with
  | Some r => omap (fun o => o) (rec_Events r)
  | None => []
  end.

Lemma omap_somes {A} (l : list A) : omap (fun o => o) (somes l) = l.
Proof. induction l as [|x l IH]; [done|]. simpl. f_equal. exact IH. Qed.

Lemma events_of_record db id r evs :
  db !! id = Some r -> rec_Events r = somes evs -> events_of db id = evs.
Proof. intros Hr He. unfold events_of. rewrite Hr, He. apply omap_somes. Qed.

Lemma db_ok_lookup db id r :
  db_ok db -> db !! id = Some r ->
  rec_AggregateID r = id /\ rec_Events r = somes (events_of db id) /\
  events_of db id <> [] /\ rec_Version r = len (events_of db id) /\
  serial id 0 (events_of db id).
Proof.
  intros Hok Hr. destruct (Hok _ _ Hr) as (Hid & evs & He & Hne & Hv & Hs & _).
  by rewrite (events_of_record _ _ _ _ Hr He).
Qed.

Lemma events_of_none db id : db !! id = None -> events_of db id = [].
Proof. unfold events_of. by intros ->. Qed.

Lemma events_of_nonempty db id :
  events_of db id <> [] -> exists r, db !! id = Some r.
Proof. unfold events_of. destruct (db !! id); [by eexists|done]. Qed.

Lemma events_of_insert db id r evs :
  rec_Events r = somes evs ->
  events_of (<[id := r]> db) id = evs.
Proof. intros He. eapply events_of_record; [apply lookup_insert_eq|done]. Qed.

Lemma events_of_insert_ne db id id' r :
  id' <> id -> events_of (<[id := r]> db) id' = events_of db id'.
Proof. intros. unfold events_of. by rewrite lookup_insert_ne. Qed.

(** ** Loading *)

Lemma load_events_copyable {S} from evs (s : S) :
  Forall copyable evs ->
  load_events from (somes evs) s =
  (Ok ((fun e => if version e <? from then None else Some e) <$> evs), s).
Proof.
  induction 1 as [|e evs Hc _ IH]; [done|]. simpl.
  rewrite (bind_ok _ _ s s e) by done.
  destruct (version e <? from).
  - rewrite (bind_ok _ _ s s None) by done. by rewrite (bind_ok _ _ _ _ _ IH).
  - rewrite (bind_ok _ _ s s (Some e)).
    + by rewrite (bind_ok _ _ _ _ _ IH).
    + rewrite (bind_ok _ _ s s (inl e)); [done|].
      by apply attempt_ok, copyEvent_copyable.
Qed.

(** A nil slot makes every load of the record panic. *)
Lemma load_events_nil {S} from stored (s : S) :
  Exists (fun o => o = None) stored ->
  exists p, load_events from stored s = (Panic p, s).
Proof.
  induction 1 as [o stored ->|[e|] stored _ [p IH]]; [by eexists| |by eexists].
  simpl. rewrite (bind_ok _ _ s s e) by done.
  destruct (version e <? from).
  - rewrite (bind_ok _ _ s s None) by done. by rewrite (bind_panic _ _ _ _ _ IH); eexists.
  - destruct (copy_data e) as [d|err] eqn:Hd.
    + rewrite (bind_ok _ _ s s (Some (duplicate (eventType e) d e))).
      { by rewrite (bind_panic _ _ _ _ _ IH); eexists. }
      rewrite (bind_ok _ _ s s (inl (duplicate (eventType e) d e))); [done|].
      apply attempt_ok. by rewrite copyEvent_eq, Hd.
    + eexists. apply bind_panic. rewrite (bind_ok _ _ s s (inr err)); [done|].
      apply attempt_err. by rewrite copyEvent_eq, Hd.
Qed.

(** Skipping by version in a serial stream: a prefix of holes, then the rest. *)
Lemma serial_slots id v from evs :
  serial id v evs -> 0 <= v ->
  ((fun e => if version e <? from then None else Some e) <$> evs) =
  replicate (Z.to_nat (Z.min (from - 1 - v) (len evs))) None ++
  somes (drop (Z.to_nat (from - 1 - v)) evs).
Proof.
  revert v. induction evs as [|e evs IH]; intros v Hs Hv.
  - rewrite len_nil, drop_nil. destruct (Z.min_spec (from - 1 - v) 0) as [[? ->]|[? ->]];
      [|done]. by replace (Z.to_nat (from - 1 - v)) with 0%nat by lia.
  - destruct Hs as (_ & Hver & Hs). rewrite fmap_cons, (IH (v + 1) Hs) by lia.
    rewrite Hver, len_cons. pose proof (len_nonneg evs).
    destruct (Z.ltb_spec (v + 1) from).
    + replace (Z.to_nat (Z.min (from - 1 - v) (1 + len evs)))
        with (S (Z.to_nat (Z.min (from - 1 - (v + 1)) (len evs)))) by lia.
      replace (Z.to_nat (from - 1 - v)) with (S (Z.to_nat (from - 1 - (v + 1)))) by lia.
      done.
    + replace (Z.to_nat (from - 1 - v)) with 0%nat by lia.
      replace (Z.to_nat (from - 1 - (v + 1))) with 0%nat by lia.
      replace (Z.to_nat (Z.min (from - 1 - v) (1 + len evs))) with 0%nat by lia.
      replace (Z.to_nat (Z.min (from - 1 - (v + 1)) (len evs))) with 0%nat by lia.
      by rewrite !drop_0.
Qed.

Lemma LoadFrom_ok ctx db id from :
  db_ok db -> events_of db id <> [] -> Forall copyable (events_of db id) ->
  LoadFrom ctx id from db =
  (Ok (replicate (Z.to_nat (Z.min (from - 1) (len (events_of db id)))) None ++
       somes (drop (Z.to_nat (from - 1)) (events_of db id))), db).
Proof.
  intros Hok Hne Hc. destruct (events_of_nonempty _ _ Hne) as (r & Hr).
  destruct (db_ok_lookup _ _ _ Hok Hr) as (_ & He & _ & _ & Hs).
  unfold LoadFrom. rewrite (bind_ok _ _ db db db) by done. rewrite Hr, He.
  rewrite load_events_copyable by done.
  by rewrite (serial_slots id 0), Z.sub_0_r by done.
Qed.

Lemma LoadFrom_all ctx db id :
  db_ok db -> events_of db id <> [] -> Forall copyable (events_of db id) ->
  LoadFrom ctx id 1 db = (Ok (somes (events_of db id)), db).
Proof.
  intros Hok Hne Hc. rewrite LoadFrom_ok by done. pose proof (len_nonneg (events_of db id)).
  by replace (Z.min (1 - 1) (len (events_of db id))) with 0 by lia.
Qed.

Lemma LoadFrom_missing ctx db id from :
  db !! id = None ->
  LoadFrom ctx id from db =
  (Err (EventStoreError (Some (Sentinel ErrAggregateNotFound))
          EventStoreOpLoad "" id 0 []), db).
Proof. intros Hn. unfold LoadFrom. rewrite (bind_ok _ _ db db db) by done. by rewrite Hn. Qed.

(** ** Replacing and renaming *)

Lemma find_version_state {S} v stored i (s : S) : (find_version v stored i s).2 = s.
Proof.
  revert i. induction stored as [|[e|] stored IH]; intros i; [done| |done].
  simpl. rewrite (bind_ok _ _ s s e) by done. by destruct (version e =? v).
Qed.

Lemma find_version_serial {S} id v n evs i (s : S) :
  serial id n evs ->
  find_version v (somes evs) i s =
  (Ok (if bool_decide (n < v <= n + len evs)
       then Some (i + Z.to_nat (v - n - 1))%nat else None), s).
Proof.
  revert n i. induction evs as [|e evs IH]; intros n i Hs.
  - rewrite len_nil, bool_decide_false by lia. done.
  - destruct Hs as (_ & Hver & Hs). simpl. rewrite (bind_ok _ _ s s e) by done.
    rewrite Hver, len_cons. pose proof (len_nonneg evs).
    destruct (Z.eqb_spec (n + 1) v) as [<-|].
    + rewrite bool_decide_true by lia.
      by replace (Z.to_nat (n + 1 - n - 1)) with 0%nat by lia; rewrite Nat.add_0_r.
    + rewrite (IH (n + 1) (i + 1)%nat Hs).
      destruct (decide (n + 1 < v <= n + (1 + len evs))).
      * rewrite !bool_decide_true by lia. do 3 f_equal. lia.
      * by rewrite !bool_decide_false by lia.
Qed.

Lemma Replace_ok ctx db e :
  db_ok db -> copyable e -> 1 <= version e <= len (events_of db (aggregateID e)) ->
  exists r, db !! aggregateID e = Some r /\
  Replace ctx (Some e) db =
  (Ok tt, <[aggregateID e := mkRecord (rec_AggregateID r) (rec_Version r)
             (somes (<[Z.to_nat (version e - 1) := e]> (events_of db (aggregateID e))))]> db).
Proof.
  intros Hok Hc Hv.
  destruct (db !! aggregateID e) as [r|] eqn:Hr.
  2: { rewrite events_of_none in Hv by done. rewrite len_nil in Hv. lia. }
  destruct (db_ok_lookup _ _ _ Hok Hr) as (_ & He & _ & _ & Hs).
  exists r. split; [done|]. unfold Replace.
  rewrite (bind_ok _ _ db db e) by done. rewrite (bind_ok _ _ db db db) by done.
  rewrite Hr. rewrite (bind_ok _ _ db db e) by (by apply map_err_ok, copyEvent_copyable).
  rewrite He.
  rewrite (bind_ok _ _ _ _ _ (find_version_serial _ (version e) 0 _ 0 db Hs)).
  rewrite bool_decide_true by lia. unfold modify, somes.
  rewrite list_fmap_insert.
  by replace (0 + Z.to_nat (version e - 0 - 1))%nat with (Z.to_nat (version e - 1)) by lia.
Qed.

(** What one slot of a renamed record holds. *)
Definition renamed (from to : string) (e : event) : option event :=
  if bool_decide (eventType e = from) then Some (duplicate to (data e) e) else None.

Lemma rename_events_somes {S} from to evs (s : S) :
  rename_events from to (somes evs) s = (Ok (renamed from to <$> evs), s).
Proof.
  induction evs as [|e evs IH]; [done|]. simpl.
  rewrite (bind_ok _ _ s s e) by done. by rewrite (bind_ok _ _ _ _ _ IH).
Qed.

Definition renamed_record (from to : string) (r : aggregateRecord) : aggregateRecord :=
  mkRecord (rec_AggregateID r) (rec_Version r)
    (renamed from to <$> omap (fun o => o) (rec_Events r)).

Lemma rename_records_spec {S} from to records (updated : MemDB) (s : S) :
  NoDup records.*1 ->
  Forall (fun p => exists evs, rec_Events p.2 = somes evs) records ->
  exists m, rename_records from to records updated s = (Ok m, s) /\
    forall id, m !! id =
      match list_to_map (M := MemDB) records !! id with
      | Some r => Some (renamed_record from to r)
      | None => updated !! id
      end.
Proof.
  revert updated. induction records as [|[id r] records IH]; intros updated Hnd Hall.
  - exists updated. split; [done|]. intros id. by rewrite list_to_map_nil, lookup_empty.
  - simpl in Hnd. apply NoDup_cons in Hnd as [Hnew Hnd].
    inversion Hall as [|? ? (evs & Hevs) Hall']; subst. simpl in Hevs.
    simpl. rewrite Hevs. rewrite (bind_ok _ _ _ _ _ (rename_events_somes _ _ _ _)).
    destruct (IH (<[id := mkRecord (rec_AggregateID r) (rec_Version r)
                            (renamed from to <$> evs)]> updated) Hnd Hall')
      as (m & Hm & Hl).
    exists m. split; [done|]. intros id'. rewrite Hl.
    destruct (decide (id' = id)) as [->|].
    + rewrite lookup_insert_eq. rewrite (proj1 (not_elem_of_list_to_map _ _)) by done.
      rewrite lookup_insert_eq. unfold renamed_record. rewrite Hevs.
      do 3 f_equal. symmetry. apply omap_somes.
    + by rewrite !lookup_insert_ne.
Qed.

Lemma RenameEvent_ok ctx from to db :
  db_ok db -> RenameEvent ctx from to db = (Ok tt, renamed_record from to <$> db).
Proof.
  intros Hok. unfold RenameEvent. rewrite (bind_ok _ _ db db db) by done.
  destruct (rename_records_spec from to (map_to_list db) ∅ db) as (m & Hm & Hl).
  - apply NoDup_fst_map_to_list.
  - apply Forall_forall. intros [id r] Hin. apply elem_of_map_to_list in Hin.
    destruct (Hok _ _ Hin) as (_ & evs & He & _). by exists evs.
  - rewrite (bind_ok _ _ _ _ _ Hm). unfold modify. f_equal.
    apply map_eq. intros id. rewrite lookup_union, Hl, list_to_map_to_list, lookup_fmap.
    rewrite lookup_empty. by destruct (db !! id).
Qed.

End MemStore.

(** ** Properties *)

Section Properties.
Context (eventDataFactories : gmap string (unit -> any)).
Context (copier_Copy : any -> any -> any + error).

#[local] Abbreviation save' := (save eventDataFactories copier_Copy).
#[local] Abbreviation copyable' := (copyable eventDataFactories copier_Copy).

(** C15: whatever is passed to [save] and whatever it answers (success, error
    or panic), every record keeps the store invariant: it is filed under its
    own ID, holds no nil event, its events have serial versions from 1, and its
    version counter is the number of its events. *)
Theorem save_preserves_invariant events v db :
  is_int v -> is_int (v + len events) -> db_ok db -> db_ok (save' events v db).2.
Proof.
  intros Hv Hb Hok.
  pose proof (save_error_unchanged eventDataFactories copier_Copy events v db) as Hu.
  destruct (save' events v db) as [[[]|e|p] db'] eqn:Hs; simpl in *;
    [|by rewrite Hu..].
  apply save_inv in Hs as (id & at' & evs & cs & -> & Hnil & Hser & _ & HF & Hc); [|done..].
  rewrite len_somes in Hb.
  assert (len cs = len evs) as Hlen by (unfold len; by rewrite (Forall2_length _ _ _ HF)).
  assert (cs <> []) as Hcs by (intros ->; inversion HF; by subst).
  apply (serial_same_head _ _ _ _ HF) in Hser.
  rewrite commit_spec, len_somes, Hlen in Hc. simpl.
  destruct (Z.eqb_spec v 0) as [->|Hnz]; simplify_eq.
  - apply db_ok_insert; [done|]. rewrite <- Hlen. apply record_ok_fresh; [done..|].
    by rewrite Hlen.
  - destruct (db !! id) as [r|] eqn:Hr; simplify_eq; [|done].
    case_decide as Hver; simplify_eq. apply db_ok_insert; [done|].
    rewrite <- Hlen. apply record_ok_append; [by apply Hok|done|by rewrite Hlen].
Qed.

(** C1: optimistic concurrency.  Against a stored aggregate, a well-formed
    batch prepared from version [v <> 0] is appended exactly when [v] is the
    aggregate's current version; otherwise [save] answers
    [ErrEventConflictFromOtherSave] and stores nothing.  Other aggregates are
    never touched. *)
Theorem save_optimistic_concurrency id v evs db :
  db_ok db -> batch_for id v evs -> Forall copyable' evs ->
  v <> 0 -> events_of db id <> [] ->
  let '(o, db') := save' (somes evs) v db in
  if decide (len (events_of db id) = v) then
    o = Ok tt /\ events_of db' id = events_of db id ++ evs /\
    (forall id', id' <> id -> events_of db' id' = events_of db id')
  else
    (exists e, o = Err e /\ errors_Is e ErrEventConflictFromOtherSave = true) /\ db' = db.
Proof.
  intros Hok (Hne & Hs & (at' & Ht) & Hv & Hb) Hc Hnz Hne'.
  rewrite (save_batch _ _ id at'), commit_spec by done.
  destruct (Z.eqb_spec v 0) as [|_]; [done|].
  destruct (events_of_nonempty _ _ Hne') as (r & Hr). rewrite Hr.
  destruct (db_ok_lookup _ _ _ Hok Hr) as (_ & He & _ & Hver & _). rewrite Hver.
  case_decide.
  - split; [done|]. split.
    + apply events_of_insert. simpl. by rewrite He, somes_app.
    + intros id' Hid. by apply events_of_insert_ne.
  - split; [|done]. by eexists.
Qed.

(** validation.  [save] only succeeds for a non-empty batch without nil
    events, all of one aggregate ID and one aggregate type, with the serial
    versions that follow [v]; an unsuccessful [save] leaves the store as it
    was. *)
Theorem save_validates_batch events v db :
  is_int v -> is_int (v + len events) ->
  let '(o, db') := save' events v db in
  (o = Ok tt -> exists id evs, events = somes evs /\ batch_for id v evs) /\
  (o <> Ok tt -> db' = db).
Proof.
  intros Hv Hb. destruct (save' events v db) as [o db'] eqn:Hs. split.
  - intros ->. apply save_inv in Hs as (id & at' & evs & cs & -> & ? & ? & ? & _); [|done..].
    exists id, evs. rewrite len_somes in Hb. repeat split; try done; [by exists at'|apply Hv|apply Hv|apply Hb|apply Hb].
  - intros Hne.
    pose proof (save_error_unchanged eventDataFactories copier_Copy events v db) as Hu.
    rewrite Hs in Hu. by apply Hu.
Qed.

(** a first save of an aggregate followed by saves from the current
    version reads back as the concatenation of the saved batches, in order. *)
Theorem save_load_roundtrip ctx id evs db db' :
  db_ok db -> Forall copyable' (events_of db id) ->
  batch_for id (len (events_of db id)) evs -> Forall copyable' evs ->
  save' (somes evs) (len (events_of db id)) db = (Ok tt, db') ->
  Load eventDataFactories copier_Copy ctx id db' =
  (Ok (somes (events_of db id ++ evs)), db').
Proof.
  intros Hok Hcs (Hne & Hs & (at' & Ht) & Hv & Hb) Hc Hsave.
  assert (events_of db' id = events_of db id ++ evs) as He.
  { rewrite (save_batch _ _ id at'), commit_spec in Hsave by done.
    destruct (db !! id) as [r|] eqn:Hr.
    - destruct (db_ok_lookup _ _ _ Hok Hr) as (_ & He & Hnil & Hver & _).
      destruct (Z.eqb_spec (len (events_of db id)) 0) as [H0|]; [by apply len_0 in H0|].
      rewrite decide_True in Hsave by done. injection Hsave as <-.
      apply events_of_insert. simpl. by rewrite He, somes_app.
    - rewrite events_of_none, len_nil in Hsave by done. injection Hsave as <-.
      rewrite (events_of_none _ _ Hr). by apply events_of_insert. }
  assert (db_ok db') as Hok'.
  { pose proof (save_preserves_invariant (somes evs) (len (events_of db id)) db) as Hp.
    rewrite Hsave, len_somes in Hp. by apply Hp. }
  unfold Load. rewrite LoadFrom_all; rewrite ?He; try done.
  - destruct (events_of db id); [by destruct evs|done].
  - by apply Forall_app.
Qed.

(** [LoadFrom] a later version.  The answer has one slot per stored
    event: the slots of the events before [from] are nil events, not left out,
    so a caller that uses the first element of the slice dereferences nil. *)
Theorem LoadFrom_leaves_nil_slots ctx id from db :
  db_ok db -> events_of db id <> [] -> Forall copyable' (events_of db id) ->
  1 < from <= len (events_of db id) ->
  exists slots,
    LoadFrom eventDataFactories copier_Copy ctx id from db = (Ok slots, db) /\
    len slots = len (events_of db id) /\
    slots !! 0%nat = Some None /\
    drop (Z.to_nat (from - 1)) slots = somes (drop (Z.to_nat (from - 1)) (events_of db id)).
Proof.
  intros Hok Hne Hc Hfrom. eexists. split; [by apply LoadFrom_ok|].
  replace (Z.to_nat (Z.min (from - 1) (len (events_of db id)))) with (Z.to_nat (from - 1)) by lia.
  repeat split.
  - rewrite len_app, len_somes. unfold len in *. rewrite length_replicate, length_drop. lia.
  - rewrite lookup_app_l by (rewrite length_replicate; lia). apply lookup_replicate_2. lia.
  - rewrite drop_app_length'; [done|]. by rewrite length_replicate.
Qed.

(** where [save] does not compare versions.  A batch whose original
    version is 0 is stored even when the aggregate already has events: the
    stored history is replaced and no conflict is reported.  A batch for a later
    version of an aggregate the store does not know is dropped: [save] answers
    nil and stores nothing. *)
Theorem save_without_version_check id v evs db :
  batch_for id v evs -> Forall copyable' evs ->
  (v = 0 -> exists db', save' (somes evs) 0 db = (Ok tt, db') /\ events_of db' id = evs /\
     (forall id', id' <> id -> db' !! id' = db !! id')) /\
  (v <> 0 -> db !! id = None -> save' (somes evs) v db = (Ok tt, db)).
Proof.
  intros (Hne & Hs & (at' & Ht) & Hv & Hb) Hc. split.
  - intros ->. eexists. rewrite (save_batch _ _ id at'), commit_spec by done.
    split; [done|]. split; [by apply events_of_insert|]. intros id' Hid'. by apply lookup_insert_ne.
  - intros Hnz Hn. rewrite (save_batch _ _ id at'), commit_spec, Hn by done.
    by destruct (Z.eqb_spec v 0).
Qed.

(** [Replace] changes exactly the stored event with the version of the
    replacement; the record's counter and every other event stay. *)
Theorem Replace_replaces_one_event ctx db e :
  db_ok db -> copyable' e -> 1 <= version e <= len (events_of db (aggregateID e)) ->
  exists db', Replace eventDataFactories copier_Copy ctx (Some e) db = (Ok tt, db') /\
    db_ok db' /\
    events_of db' (aggregateID e) =
      <[Z.to_nat (version e - 1) := e]> (events_of db (aggregateID e)) /\
    (forall id', id' <> aggregateID e -> events_of db' id' = events_of db id').
Proof.
  intros Hok Hc Hv. destruct (Replace_ok _ _ ctx db e Hok Hc Hv) as (r & Hr & Heq).
  eexists. split; [exact Heq|].
  destruct (db_ok_lookup _ _ _ Hok Hr) as (Hid & He & Hnil & Hver & Hs).
  split; [|split].
  - apply db_ok_insert; [done|]. split; [done|]. eexists. split; [done|].
    destruct (Hok _ _ Hr) as (_ & evs & He' & _ & _ & _ & Hint).
    rewrite He in He'. apply somes_inj in He' as <-.
    assert (len (<[Z.to_nat (version e - 1):=e]> (events_of db (aggregateID e)))
            = len (events_of db (aggregateID e))) as Hl
      by (unfold len; by rewrite length_insert).
    rewrite Hl. repeat split; try done; [..|apply Hint|apply Hint].
    + intros H0. apply (f_equal len) in H0. rewrite Hl, len_nil in H0. lia.
    + apply serial_insert; [done..|]. lia.
  - by apply events_of_insert.
  - intros. by apply events_of_insert_ne.
Qed.

(** [RenameEvent] reports success but keeps only the renamed events: every
    other event of every aggregate becomes a nil event, and the next [Load] of
    such an aggregate panics. *)
Theorem RenameEvent_erases_other_events ctx from to db id e :
  db_ok db -> e ∈ events_of db id -> eventType e <> from ->
  exists db', RenameEvent ctx from to db = (Ok tt, db') /\
    (exists p, Load eventDataFactories copier_Copy ctx id db' = (Panic p, db')) /\
    (forall e', e' ∈ events_of db' id -> eventType e' = to).
Proof.
  intros Hok Hin Hne. eexists. split; [by apply RenameEvent_ok|].
  assert (events_of db id <> []) as Hnil by (intros H0; rewrite H0 in Hin; by apply not_elem_of_nil in Hin).
  destruct (events_of_nonempty _ _ Hnil) as (r & Hr).
  unfold events_of in Hin |- *.
  rewrite lookup_fmap, Hr. rewrite Hr in Hin. simpl.
  set (l := omap (λ o : option event, o) (rec_Events r)) in *. split.
  - unfold Load, LoadFrom.
    set (db' := renamed_record from to <$> db).
    rewrite (bind_ok _ _ db' db' db') by done.
    unfold db' at 1. rewrite lookup_fmap, Hr. simpl.
    apply load_events_nil, Exists_exists. exists (renamed from to e). split.
    + by apply list_elem_of_fmap_2.
    + unfold renamed. by rewrite bool_decide_false.
  - intros e' (o & Ho & ->)%list_elem_of_omap.
    apply list_elem_of_fmap in Ho as (x & Hx & _). unfold renamed in Hx.
    by case_bool_decide; simplify_eq.
Qed.

(** a handler failure does not undo the save.  As long as the handler
    itself leaves the store alone, [Save] has stored exactly what [save]
    stores, whatever the handler answered; a handler error comes back as an
    [EventHandlerError] for the event it failed on. *)
Theorem Save_handler_failure_keeps_events {X}
    (h : context -> option event -> M (MemDB * X) unit) ctx events v db db' (x : X) :
  (forall e st, (h ctx e st).2.1 = st.1) ->
  save' events v db = (Ok tt, db') ->
  let '(o, st) := Save eventDataFactories copier_Copy (Some h) ctx events v (db, x) in
  st.1 = db' /\
  (forall err, o = Err err -> exists e err', e ∈ events /\ err = EventHandlerError (Some err') e).
Proof.
  intros Hh Hs. unfold Save, zoom_fst, zoom.
  erewrite bind_ok by (simpl; by rewrite Hs). simpl.
  cut (forall l st, st.1 = db' ->
    let '(o, st') := for_range l (fun e => map_err (fun err => EventHandlerError (Some err) e) (h ctx e)) st in
    st'.1 = db' /\ (forall err, o = Err err -> exists e err', e ∈ l /\ err = EventHandlerError (Some err') e)).
  { intros Hc. by apply (Hc events (db', x)). }
  induction l as [|e l IH]; intros st Hst; simpl; [done|].
  unfold bind, map_err. pose proof (Hh e st) as Hst'.
  destruct (h ctx e st) as [[[]|err|p] st']; simpl in Hst'.
  - specialize (IH st' ltac:(congruence)).
    destruct (for_range _ _ _) as [o st'']. destruct IH as (? & IH). split; [done|].
    intros err Herr. destruct (IH _ Herr) as (e' & err' & ? & ->).
    exists e', err'. split; [set_solver|done].
  - split; [congruence|]. intros err0 [= <-]. exists e, err. split; [set_solver|done].
  - split; [congruence|done].
Qed.

End Properties.

(** ** The store implements the event store contract *)

Section Laws.
Context (eventDataFactories : gmap string (unit -> any)).
Context (copier_Copy : any -> any -> any + error).
Context {X : Type}.

Definition memory_EventStore : EventStore (MemDB * X) :=
  mkEventStore
    (Save eventDataFactories copier_Copy None)
    (fun ctx id => zoom_fst (Load eventDataFactories copier_Copy ctx id))
    (fun ctx id from => zoom_fst (LoadFrom eventDataFactories copier_Copy ctx id from))
    (zoom_fst Close).

Definition memory_ok (st : MemDB * X) : Prop :=
  db_ok st.1 /\ forall id, Forall (copyable eventDataFactories copier_Copy) (events_of st.1 id).

Lemma Save_no_handler ctx events v (st : MemDB * X) :
  es_Save memory_EventStore ctx events v st =
  ((save eventDataFactories copier_Copy events v st.1).1,
   ((save eventDataFactories copier_Copy events v st.1).2, st.2)).
Proof.
  simpl. unfold Save, zoom_fst, zoom, bind, ret.
  by destruct (save _ _ events v st.1) as [[[]| |] ?].
Qed.

(** Saving at the current version appends. *)
Lemma save_appends id evs db :
  db_ok db -> batch_for id (len (events_of db id)) evs ->
  Forall (copyable eventDataFactories copier_Copy) evs ->
  exists db', save eventDataFactories copier_Copy (somes evs) (len (events_of db id)) db = (Ok tt, db') /\
    db_ok db' /\ events_of db' id = events_of db id ++ evs /\
    (forall id', id' <> id -> events_of db' id' = events_of db id').
Proof.
  intros Hok (Hne & Hs & (at' & Ht) & Hv & Hb) Hc.
  rewrite (save_batch _ _ id at'), commit_spec by done.
  destruct (db !! id) as [r|] eqn:Hr.
  - destruct (db_ok_lookup _ _ _ Hok Hr) as (Hid & He & Hnil & Hver & _).
    destruct (Z.eqb_spec (len (events_of db id)) 0) as [H0|]; [by apply len_0 in H0|].
    rewrite decide_True by done. eexists. split; [done|]. split; [|split].
    + apply db_ok_insert; [done|]. rewrite <- Hver, len_somes in *.
      by apply record_ok_append; [apply Hok|..].
    + apply events_of_insert. simpl. by rewrite He, somes_app.
    + intros. by apply events_of_insert_ne.
  - rewrite (events_of_none _ _ Hr) in *. rewrite len_nil. simpl.
    eexists. split; [done|]. split; [|split].
    + apply db_ok_insert; [done|]. rewrite len_somes. by apply record_ok_fresh.
    + by apply events_of_insert.
    + intros. by apply events_of_insert_ne.
Qed.

#[export] Program Instance memory_EventStoreLaws : EventStoreLaws memory_EventStore := {
  store_ok := memory_ok;
  stream st := events_of st.1;
  kept := eq;
  storable := copyable eventDataFactories copier_Copy;
  holds _ _ := True;
  unchanged _ st st' := st' = st
}.
Next Obligation. by intros e e' ->. Qed.
Next Obligation. by intros n st st' Hok ->. Qed.
Next Obligation. done. Qed.
Next Obligation. by intros n m st1 st2 st3 -> ->. Qed.
Next Obligation. done. Qed.
Next Obligation.
  intros [db x] id [Hok _]. simpl in *. destruct (db !! id) as [r|] eqn:Hr.
  - by destruct (db_ok_lookup _ _ _ Hok Hr) as (_ & _ & _ & _ & Hs).
  - by rewrite (events_of_none _ _ Hr).
Qed.
Next Obligation.
  intros ctx [db x] id load Hl [Hok Hc] Hne.
  assert (load = zoom_fst (LoadFrom eventDataFactories copier_Copy ctx id 1)) as -> by (by destruct Hl).
  simpl in *. unfold zoom_fst, zoom. simpl. rewrite LoadFrom_all by done. exists (events_of db id), (db, x).
  split; [done|]. split; [done|]. by apply Forall_Forall2_diag, Forall_forall.
Qed.
Next Obligation.
  intros ctx [db x] id load Hl [Hok _] He.
  assert (load = zoom_fst (LoadFrom eventDataFactories copier_Copy ctx id 1)) as -> by (by destruct Hl).
  simpl in *.
  destruct (db !! id) as [r|] eqn:Hr.
  - destruct (db_ok_lookup _ _ _ Hok Hr) as (_ & _ & Hne & _). done.
  - unfold zoom_fst, zoom. simpl. rewrite LoadFrom_missing by done. by eexists _, _.
Qed.
Next Obligation.
  intros ctx [db x] id evs [Hok Hc] Hb Hevs _. rewrite Save_no_handler. simpl in *.
  destruct (save_appends id evs db Hok Hb Hevs) as (db' & Hs & Hok' & He & Hother).
  rewrite Hs. exists (db', x), evs. split; [done|].
  split; [|split; [done|split; [by apply Forall_Forall2_diag, Forall_forall|done]]]. split; [done|].
  intros id'. simpl. destruct (decide (id' = id)) as [->|].
  - rewrite He. by apply Forall_app.
  - rewrite Hother by done. apply Hc.
Qed.
Next Obligation.
  intros ctx [db x] id evs v [Hok Hc] (Hne & Hs & (at' & Ht) & Hv & Hb) Hevs _ Hnz Hst Hlen.
  rewrite Save_no_handler. simpl in *.
  rewrite (save_batch _ _ id at'), commit_spec by done.
  destruct (Z.eqb_spec v 0) as [|_]; [done|].
  destruct (events_of_nonempty _ _ Hst) as (r & Hr).
  destruct (db_ok_lookup _ _ _ Hok Hr) as (_ & _ & _ & Hver & _).
  rewrite Hr, decide_False by (by rewrite Hver). by eexists _, _.
Qed.

Lemma build_records_refused {S} id at' v events i evs err (s : S) :
  Forall (copyable eventDataFactories copier_Copy) evs -> check_batch id at' v i evs = Some err ->
  build_records eventDataFactories copier_Copy id at' v events i (somes evs) s =
    (Err (EventStoreError (Some (Sentinel err)) EventStoreOpSave at' id v events), s).
Proof.
  intros HF. revert i. induction HF as [|e evs He _ IH]; intros i Hc; [done|]. simpl in Hc.
  simpl. rewrite (bind_ok _ _ s s e) by done.
  case_bool_decide; [by injection Hc as <-|]. case_bool_decide; [by injection Hc as <-|].
  case_bool_decide; [by injection Hc as <-|].
  rewrite (bind_ok _ _ s s e) by (apply map_err_ok, copyEvent_copyable; done).
  unfold bind. by rewrite (IH _ Hc).
Qed.

#[export] Instance memory_EventStoreRefuses : EventStoreRefuses memory_EventStore.
Proof.
  split.
  - intros ctx [db x] v evs err Hok HF _ Hb. rewrite Save_no_handler. simpl. destruct evs as [|e evs].
    { injection Hb as <-. by eexists _, _. }
    simpl somes. rewrite save_cons. unfold bind.
    rewrite (build_records_refused _ _ _ _ _ (e :: evs) err db HF Hb). simpl.
    eexists _, _. split; [done|]. split; [done|]. split; [by eexists|]. simpl. by rewrite bool_decide_true.
  - intros ctx [db x] id [Hok _] He. simpl in *. destruct (db !! id) as [r|] eqn:Hr.
    + destruct (db_ok_lookup _ _ _ Hok Hr) as (_ & _ & Hne & _). done.
    + unfold zoom_fst, zoom, Load. simpl. rewrite LoadFrom_missing by done. eexists _, _.
      split; [done|]. split; [done|]. split; [by eexists|done].
Qed.

(** The events are kept with their metadata maps, and the operations touch no
    map. *)
#[export] Program Instance memory_KeepsDetails (heap_of : X -> heap) :
    KeepsDetails memory_EventStore (fun st => heap_of st.2) := {
  details st id := detail (heap_of st.2) <$> events_of st.1 id
}.
Next Obligation. intros heap_of s id _. apply length_fmap. Qed.
Next Obligation. by intros heap_of n s s' id Hok ->. Qed.
Next Obligation.
  intros heap_of ctx [db x] id evs s' [Hok Hc] Hne Hl. simpl in *. unfold zoom_fst, zoom, Load in Hl. simpl in Hl.
  rewrite LoadFrom_all in Hl by done. injection Hl as Hl <-. by apply somes_inj in Hl as ->.
Qed.
Next Obligation.
  intros heap_of ctx [db x] id evs s' [Hok Hc] Hb HF _ Hs. rewrite Save_no_handler in Hs. simpl in *.
  destruct (save_appends id evs db Hok Hb HF) as (db' & Hr & _ & He & Hoth). rewrite Hr in Hs.
  injection Hs as <-. simpl. split; [done|]. rewrite He, fmap_app. split; [done|].
  intros id' Hne. by rewrite Hoth.
Qed.

End Laws.

(** ** Concrete inputs *)

Definition demo_db : MemDB :=
  <[id2 := mkRecord id2 1 (somes (demo_events id2 1 1))]>
    {[ id1 := mkRecord id1 3 (somes (demo_events id1 1 3)) ]}.


Lemma demo_db_ok : db_ok demo_db.
Proof.
  apply db_ok_insert; [|apply record_ok_fresh; [done|vm_compute; tauto|done]].
  apply map_Forall_singleton. apply (record_ok_fresh id1 (demo_events id1 1 3));
    [done|vm_compute; tauto|done].
Qed.

(** The batch following [demo_db]'s first aggregate. *)
Definition demo_batch : list event := demo_events id1 4 2.

Lemma demo_copyable evs : Forall (fun e => eventType e = "added" \/ data e = ANil) evs ->
  Forall (copyable demo_factories copier_assign) evs.
Proof.
  intros HF. eapply Forall_impl; [exact HF|]. intros e [He|He]; unfold copyable, copy_data.
  - rewrite He. destruct (data e); done.
  - by rewrite He.
Qed.

Ltac demo_copyable := apply demo_copyable; vm_compute; repeat constructor; tauto.

Ltac demo_batch_for :=
  split_and!; [discriminate|vm_compute; repeat split|exists "todo"; repeat constructor
              |vm_compute; split; discriminate..].

Lemma save_preserves_invariant_witness :
  db_ok (save demo_factories copier_assign (somes demo_batch) 3 demo_db).2.
Proof.
  apply (save_preserves_invariant demo_factories copier_assign (somes demo_batch) 3 demo_db).
  - vm_compute. split; discriminate.
  - vm_compute. split; discriminate.
  - apply demo_db_ok.
Defined.

Lemma save_optimistic_concurrency_witness :
  let '(o, db') := save demo_factories copier_assign (somes demo_batch) 3 demo_db in
  if decide (len (events_of demo_db id1) = 3) then
    o = Ok tt /\ events_of db' id1 = events_of demo_db id1 ++ demo_batch /\
    (forall id', id' <> id1 -> events_of db' id' = events_of demo_db id')
  else
    (exists e, o = Err e /\ errors_Is e ErrEventConflictFromOtherSave = true) /\ db' = demo_db.
Proof.
  apply (save_optimistic_concurrency demo_factories copier_assign id1 3 demo_batch demo_db).
  - apply demo_db_ok.
  - demo_batch_for.
  - demo_copyable.
  - discriminate.
  - vm_compute. discriminate.
Defined.

(** The stale half of the property: a batch prepared against version 2. *)
Example save_stale_conflict :
  (exists e, (save demo_factories copier_assign (somes (demo_events id1 3 2)) 2 demo_db).1 = Err e /\
             errors_Is e ErrEventConflictFromOtherSave = true).
Proof. eexists. split; vm_compute; reflexivity. Qed.

Lemma save_validates_batch_witness :
  let '(o, db') := save demo_factories copier_assign (somes demo_batch) 3 demo_db in
  (o = Ok tt -> exists id evs, somes demo_batch = somes evs /\ batch_for id 3 evs) /\
  (o <> Ok tt -> db' = demo_db).
Proof.
  apply (save_validates_batch demo_factories copier_assign (somes demo_batch) 3 demo_db);
    vm_compute; split; discriminate.
Defined.

Lemma save_load_roundtrip_witness :
  exists db', save demo_factories copier_assign (somes demo_batch) 3 demo_db = (Ok tt, db') /\
  Load demo_factories copier_assign bg id1 db' =
  (Ok (somes (events_of demo_db id1 ++ demo_batch)), db').
Proof.
  eexists. split; [apply run_eq; vm_compute; reflexivity|].
  apply (save_load_roundtrip demo_factories copier_assign bg id1 demo_batch demo_db).
  - apply demo_db_ok.
  - demo_copyable.
  - demo_batch_for.
  - demo_copyable.
  - apply run_eq. vm_compute. reflexivity.
Defined.

Lemma LoadFrom_leaves_nil_slots_witness :
  exists slots,
    LoadFrom demo_factories copier_assign bg id1 3 demo_db = (Ok slots, demo_db) /\
    len slots = 3 /\ slots !! 0%nat = Some None /\
    drop 2 slots = somes (drop 2 (events_of demo_db id1)).
Proof.
  apply (LoadFrom_leaves_nil_slots demo_factories copier_assign bg id1 3 demo_db).
  - apply demo_db_ok.
  - vm_compute. discriminate.
  - demo_copyable.
  - vm_compute. split; congruence.
Defined.

Lemma save_without_version_check_witness :
  (exists db', save demo_factories copier_assign (somes (demo_events id1 1 1)) 0 demo_db = (Ok tt, db') /\
     events_of db' id1 = demo_events id1 1 1) /\
  save demo_factories copier_assign (somes (demo_events id3 3 1)) 2 demo_db = (Ok tt, demo_db).
Proof.
  split.
  - destruct (save_without_version_check demo_factories copier_assign id1 0 (demo_events id1 1 1) demo_db)
      as [Hz _]; [demo_batch_for|demo_copyable|].
    destruct Hz as (db' & Hr & He & _); [reflexivity|]. exists db'. split; [exact Hr|exact He].
  - apply (save_without_version_check demo_factories copier_assign id3 2 (demo_events id3 3 1) demo_db).
    + demo_batch_for.
    + demo_copyable.
    + discriminate.
    + vm_compute. reflexivity.
Defined.

Definition demo_replacement : event := mkEvent "removed" ANil 77 "todo" id1 2 None.

Lemma Replace_replaces_one_event_witness :
  exists db', Replace demo_factories copier_assign bg (Some demo_replacement) demo_db = (Ok tt, db') /\
    db_ok db' /\
    events_of db' id1 = <[Z.to_nat (version demo_replacement - 1) := demo_replacement]> (events_of demo_db id1) /\
    (forall id', id' <> id1 -> events_of db' id' = events_of demo_db id').
Proof.
  apply (Replace_replaces_one_event demo_factories copier_assign bg demo_db demo_replacement).
  - apply demo_db_ok.
  - vm_compute. reflexivity.
  - vm_compute. split; discriminate.
Defined.

Lemma RenameEvent_erases_other_events_witness :
  exists db', RenameEvent bg "added" "created" demo_db = (Ok tt, db') /\
    (exists p, Load demo_factories copier_assign bg id1 db' = (Panic p, db')) /\
    (forall e', e' ∈ events_of db' id1 -> eventType e' = "created").
Proof.
  apply (RenameEvent_erases_other_events demo_factories copier_assign bg "added" "created"
           demo_db id1 (demo_event id1 1)).
  - apply demo_db_ok.
  - vm_compute. constructor.
  - discriminate.
Defined.

(** A handler that refuses every event. *)
Definition refuse (ctx : context) (e : option event) : M (MemDB * Z) unit :=
  fun st => (Err (ErrorString "refused"), (st.1, st.2 + 1)).

Lemma Save_handler_failure_keeps_events_witness :
  exists db',
  let '(o, st) := Save demo_factories copier_assign (Some refuse) bg (somes demo_batch) 3 (demo_db, 0) in
  st.1 = db' /\
  (forall err, o = Err err -> exists e err', e ∈ somes demo_batch /\ err = EventHandlerError (Some err') e).
Proof.
  eexists.
  apply (Save_handler_failure_keeps_events demo_factories copier_assign refuse bg
           (somes demo_batch) 3 demo_db _ 0).
  - done.
  - apply run_eq. vm_compute. reflexivity.
Defined.
