(* ===== verification/AggregateBase.v ===== *)
(** * Event sourced aggregates: the embedded base and the snapshot strategies
    ([aggregatestore/events/aggregatebase.go], [snapshotstrategy.go])

    [AggregateBase] carries the identity, the version and the uncommitted
    events of an aggregate.  [base_ok] is its invariant: the uncommitted
    events are this aggregate's, with the serial versions that follow the
    current one, which is what an event store accepts. *)

From stdpp Require Import base gmap strings list numbers option pretty.
From Stdlib Require Import Lia ZArith.
From S2P Require Import Prelude.
From S2P Require Import GoTypes.
From S2P Require Import Event.
From S2P Require Import Command.
From S2P Require Import Errors.
From S2P Require Import Fixtures.

Record AggregateBase : Type := mkBase {
  base_id : UUID;
  base_t : string;
  base_v : Z;
  base_events : list (option event)
}.

Definition NewAggregateBase (t : string) (id : UUID) : AggregateBase :=
  mkBase id t 0 [].

Definition EntityID (a : AggregateBase) : UUID := base_id a.

Definition base_AggregateType (a : AggregateBase) : string := base_t a.

Definition AggregateVersion (a : AggregateBase) : Z := base_v a.

Definition SetAggregateVersion (v : Z) (a : AggregateBase) : AggregateBase :=
  mkBase (base_id a) (base_t a) v (base_events a).

Definition UncommittedEvents (a : AggregateBase) : list (option event) := base_events a.

Definition ClearUncommittedEvents (a : AggregateBase) : AggregateBase :=
  mkBase (base_id a) (base_t a) (base_v a) [].

(** The aggregate option comes last in the list, so it wins. *)
Definition AppendEvent (t : string) (d : any) (ts : Time)
    (options : list (option EventOption)) (h : heap) (a : AggregateBase)
  : heap * AggregateBase * event :=
  let options :=
    options ++ [Some (ForAggregate (base_AggregateType a) (EntityID a)
                        (iadd (iadd (AggregateVersion a) (len (base_events a))) 1))] in
  let '(h', e) := NewEvent t d ts options h in
  (h', mkBase (base_id a) (base_t a) (base_v a) (base_events a ++ [Some e]), e).

(** ** Snapshot strategies *)

Definition SnapshotStrategy : Type := Z -> Time -> event -> bool.

Definition NoSnapshotStrategy : SnapshotStrategy := fun _ _ _ => false.

Definition EveryNumberEventSnapshotStrategy (snapshotThreshold : Z) : SnapshotStrategy :=
  fun lastSnapshotVersion _ e =>
    snapshotThreshold <=? isub (version e) lastSnapshotVersion.

Definition PeriodSnapshotStrategy (snapshotThreshold : Z) : SnapshotStrategy :=
  fun _ lastSnapshotTimestamp e =>
    snapshotThreshold <=? Sub (timestamp e) lastSnapshotTimestamp.

(** ** The invariant *)

Definition base_ok (a : AggregateBase) : Prop :=
  is_int (base_v a) /\
  exists evs, base_events a = somes evs /\ serial (base_id a) (base_v a) evs /\
    typed (base_t a) evs.

Lemma base_ok_clear a : base_ok a -> base_ok (ClearUncommittedEvents a).
Proof. intros [Hv _]. split; [done|]. exists []. by repeat split; try constructor. Qed.

Lemma base_ok_set_cleared a v :
  is_int v -> base_events a = [] -> base_ok (SetAggregateVersion v a).
Proof.
  intros Hv He. split; [done|]. exists []. simpl. rewrite He.
  by repeat split; try constructor.
Qed.

Lemma NewEvent_aggregate et d ts options at' id v h :
  let e := (NewEvent et d ts (options ++ [Some (ForAggregate at' id v)]) h).2 in
  aggregateType e = at' /\ aggregateID e = id /\ version e = v.
Proof.
  unfold NewEvent. simpl. rewrite apply_options_app. simpl.
  by destruct (apply_options options _) as [h' e'].
Qed.

Lemma AppendEvent_base_ok t d ts options h a :
  base_ok a -> is_int (base_v a + len (base_events a) + 1) ->
  let '(_, a', e) := AppendEvent t d ts options h a in
  base_ok a' /\ base_events a' = base_events a ++ [Some e] /\ base_v a' = base_v a /\
  version e = base_v a + len (base_events a) + 1.
Proof.
  intros [Hv (evs & He & Hs & Ht)] Hb. unfold AppendEvent.
  pose proof (NewEvent_aggregate t d ts options (base_AggregateType a) (EntityID a)
    (iadd (iadd (AggregateVersion a) (len (base_events a))) 1) h) as Hn.
  destruct (NewEvent _ _ _ _ _) as [h' e]. simpl in Hn. destruct Hn as (Hat & Hid & Hver).
  assert (version e = base_v a + len (base_events a) + 1) as Hver'.
  { rewrite Hver. unfold AggregateVersion.
    assert (iadd (base_v a) (len (base_events a)) = base_v a + len (base_events a)) as ->
      by (apply iadd_id; int_lia).
    by apply iadd_id. }
  repeat split; try done; try apply Hv.
  exists (evs ++ [e]). simpl. rewrite He, len_somes in *. split; [by rewrite somes_app|]. split.
  - apply serial_app. split; [done|]. simpl. repeat split; [done|lia].
  - apply Forall_app. split; [done|]. by constructor.
Qed.

(** C39: appending any event, with any options, keeps the uncommitted events a
    batch that follows the aggregate's version: same ID, same type, serial
    versions, no nil.  Only the version range matters (no wrap-around). *)
Theorem AppendEvent_preserves_base_ok t d ts options h a :
  base_ok a -> is_int (base_v a + len (base_events a) + 1) ->
  let '(_, a', e) := AppendEvent t d ts options h a in
  base_ok a' /\ base_events a' = base_events a ++ [Some e] /\ base_v a' = base_v a /\
  version e = base_v a + len (base_events a) + 1.
Proof. apply AppendEvent_base_ok. Qed.

Definition demo_base : AggregateBase :=
  mkBase id1 "todo" 3 (somes (demo_events id1 4 1)).

Lemma AppendEvent_preserves_base_ok_witness :
  let '(_, a', e) := AppendEvent "added" (demo_data 9) 5 [None; Some (ForAggregate "other" id2 77)]
                       ∅ demo_base in
  base_ok a' /\ base_events a' = base_events demo_base ++ [Some e] /\ base_v a' = 3 /\
  version e = 3 + len (base_events demo_base) + 1.
Proof.
  apply (AppendEvent_preserves_base_ok "added" (demo_data 9) 5
           [None; Some (ForAggregate "other" id2 77)] ∅ demo_base).
  - split; [vm_compute; split; discriminate|]. exists (demo_events id1 4 1).
    split; [done|]. split; [vm_compute; tauto|]. repeat constructor.
  - vm_compute. split; discriminate.
Defined.

(** the count strategy asks for a snapshot exactly when at least
    [threshold] versions passed since the last one, while the difference of
    versions is an [int]; the period strategy compares the elapsed time, and
    with a non-negative threshold never fires for an event older than the last
    snapshot. *)
Theorem snapshot_strategies_spec threshold last_v last_t e :
  is_int (version e - last_v) -> is_int threshold ->
  (EveryNumberEventSnapshotStrategy threshold last_v last_t e = true <->
     last_v + threshold <= version e) /\
  (PeriodSnapshotStrategy threshold last_v last_t e = true <->
     last_t + threshold <= timestamp e \/ threshold = MinInt) /\
  NoSnapshotStrategy last_v last_t e = false.
Proof.
  intros Hi Ht. unfold EveryNumberEventSnapshotStrategy, PeriodSnapshotStrategy.
  rewrite isub_id, !Z.leb_le by done. unfold Sub, is_int, MinInt, MaxInt in *.
  split; [lia|]. split; [|done]. lia.
Qed.

Lemma snapshot_strategies_spec_witness :
  (EveryNumberEventSnapshotStrategy 2 1 0 (demo_event id1 3) = true <-> 1 + 2 <= version (demo_event id1 3)) /\
  (PeriodSnapshotStrategy 2 1 0 (demo_event id1 3) = true <->
     0 + 2 <= timestamp (demo_event id1 3) \/ 2 = MinInt) /\
  NoSnapshotStrategy 1 0 (demo_event id1 3) = false.
Proof. apply (snapshot_strategies_spec 2 1 0 (demo_event id1 3)); vm_compute; split; discriminate. Defined.
