(* ===== verification/AggregateStore.v ===== *)
(** * The event sourced aggregate store ([aggregatestore/events])

    [Aggregate] is the Go interface of the same name together with the
    optional interfaces a value may implement ([VersionedAggregate],
    [Snapshotable]), as operations on a type of non-nil aggregates.  Methods on
    pointers mutate their receiver: they return the new value.

    The aggregate store is written against the interfaces [EventStore] and
    [SnapshotStore]; its theorems use the store's contract [EventStoreLaws]
    and the aggregate's contract [AggregateLaws]. *)

From stdpp Require Import base gmap strings list numbers option pretty.
From Stdlib Require Import Lia ZArith.
From S2P Require Import Prelude.
From S2P Require Import GoTypes.
From S2P Require Import Event.
From S2P Require Import Command.
From S2P Require Import Errors.
From S2P Require Import Registry.
From S2P Require Import EventStoreSpec.
From S2P Require Import AggregateBase.

Class Aggregate (A : Type) : Type := {
  a_EntityID : A -> UUID;
  a_AggregateType : A -> string;
  a_HandleCommand : context -> command -> A -> A * option error;
  (** [agg.(VersionedAggregate)] succeeds, and the methods it gives *)
  a_versioned : A -> bool;
  a_AggregateVersion : A -> Z;
  a_SetAggregateVersion : Z -> A -> A;
  a_UncommittedEvents : A -> list (option event);
  a_ClearUncommittedEvents : A -> A;
  a_ApplyEvent : context -> event -> A -> A * option error;
  (** [agg.(eh.Snapshotable)] succeeds, and the methods it gives *)
  a_snapshotable : A -> bool;
  a_CreateSnapshot : A -> option Snapshot;
  a_ApplySnapshot : Snapshot -> A -> A
}.

Section AggregateStore.
Context {S A : Type} `{Aggregate A}.
Context (uuid_String : UUID -> string).
(** The fields of the store: [snapshotStore] is [Some] when the event store
    also implements [SnapshotStore]. *)
Context (aggregates : gmap string (UUID -> option A)).
Context (store : EventStore S) (snapshotStore : option (SnapshotStore S)).
Context (snapshotStrategy : SnapshotStrategy).

(** [applyEvents], on the aggregate as state. *)
Definition applyEvent (ctx : context) (ev : option event) : M A unit :=
  let! e := deref ev in
  let! a := gets (fun a => a) in
  if bool_decide (aggregateType e <> a_AggregateType a)
  then throw (Sentinel ErrMismatchedEventType)
  else
    let '(a', err) := a_ApplyEvent ctx e a in
    do! modify (fun _ => a') in
    match err with
    | Some err => throw (Errorf ("could not apply event " +:+ String uuid_String e) err)
    | None => modify (a_SetAggregateVersion (version e))
    end.

Definition applyEvents (ctx : context) (events : list (option event)) : M A unit :=
  for_range events (applyEvent ctx).

(** Running [applyEvents] on a local aggregate. *)
Definition apply_to {T} (ctx : context) (events : list (option event)) (a : A)
  : M T A :=
  match applyEvents ctx events a with
  | (Ok _, a') => ret a'
  | (Err err, _) => throw err
  | (Panic p, _) => panic p
  end.

(** The snapshot, if there is one: the aggregate restored from it and the
    version to load events from. *)
Definition load_snapshot (ctx : context) (id : UUID) (a : A) : M S (A * Z) :=
  match snapshotStore with
  | Some ss =>
      if a_snapshotable a then
        let! snapshot := LoadSnapshot ss ctx id in
        match snapshot with
        | Some sn =>
            ret (a_SetAggregateVersion (snap_Version sn) (a_ApplySnapshot sn a),
                 iadd (snap_Version sn) 1)
        | None => ret (a, 1)
        end
      else ret (a, 1)
  | None => ret (a, 1)
  end.

Definition Load (ctx : context) (at' : string) (id : UUID) : M S A :=
  let fail err := AggregateStoreError (Some err) AggregateStoreOpLoad at' id in
  let! agg := map_err fail (CreateAggregate aggregates at' id) in
  match agg with
  | None => throw (fail (Sentinel ErrAggregateNotVersioned))
  | Some a =>
      if negb (a_versioned a)
      then throw (fail (Sentinel ErrAggregateNotVersioned))
      else
        let! p := map_err fail (load_snapshot ctx id a) in
        let '(a, fromVersion) := p in
        let! r := attempt (es_LoadFrom store ctx (a_EntityID a) fromVersion) in
        let! events :=
          match r with
          | inl events => ret events
          | inr err => if errors_Is err ErrAggregateNotFound then ret []
                       else throw (fail err)
          end in
        map_err fail (apply_to ctx events a)
  end.

(** [takeSnapshot] and [Save] see the store and the caller's aggregate. *)
Definition takeSnapshot (ctx : context) (now : Time) (lastEvent : option event)
  : M (S * A) unit :=
  let! agg := gets snd in
  let fail err := AggregateStoreError (Some err) AggregateStoreOpSave
                    (a_AggregateType agg) (a_EntityID agg) in
  match snapshotStore with
  | None => ret tt
  | Some ss =>
      if negb (a_snapshotable agg) then ret tt
      else
        let! s := map_err fail (zoom_fst (LoadSnapshot ss ctx (a_EntityID agg))) in
        let '(v, ts) := match s with
                        | Some sn => (snap_Version sn, snap_Timestamp sn)
                        | None => (0, now)
                        end in
        let! e := deref lastEvent in
        if snapshotStrategy v ts e then
          let! sn := deref (a_CreateSnapshot agg) in
          map_err fail (zoom_fst (SaveSnapshot ss ctx (a_EntityID agg) sn))
        else ret tt
  end.

Definition Save (ctx : context) (now : Time) : M (S * A) unit :=
  let! agg := gets snd in
  let fail err := AggregateStoreError (Some err) AggregateStoreOpSave
                    (a_AggregateType agg) (a_EntityID agg) in
  if negb (a_versioned agg)
  then throw (fail (Sentinel ErrAggregateNotVersioned))
  else
    let events := a_UncommittedEvents agg in
    match events with
    | [] => ret tt
    | _ =>
        do! map_err fail
              (zoom_fst (es_Save store ctx events (a_AggregateVersion agg))) in
        do! zoom_snd (modify a_ClearUncommittedEvents) in
        do! map_err fail (zoom_snd (applyEvents ctx events)) in
        takeSnapshot ctx now (default None (last events))
    end.

End AggregateStore.

(** [NewAggregateStore]: the store with the options applied; a nil store is
    refused.  The options set the snapshot strategy. *)
Definition NewAggregateStore {S} (store : option (EventStore S))
    (options : list (SnapshotStrategy -> SnapshotStrategy + error))
  : result (EventStore S * SnapshotStrategy) :=
  match store with
  | None => Err (Sentinel ErrInvalidEventStore)
  | Some st =>
      (fix apply (options : list _) (strategy : SnapshotStrategy) :=
         match options with
         | [] => Ok (st, strategy)
         | o :: options' =>
             match o strategy with
             | inl strategy' => apply options' strategy'
             | inr err => Err (Errorf "error while applying option" err)
             end
         end) options NoSnapshotStrategy
  end.

Definition WithSnapshotStrategy (s : SnapshotStrategy)
  : SnapshotStrategy -> SnapshotStrategy + error := fun _ => inl s.

(** ** The aggregate contract

    What embedding [AggregateBase] gives an aggregate: getters and setters
    agree, and [ApplyEvent] touches neither identity nor uncommitted events. *)
Class AggregateLaws (A : Type) `{Aggregate A} : Type := {
  law_set_version v (a : A) : a_AggregateVersion (a_SetAggregateVersion v a) = v;
  law_set_id v (a : A) : a_EntityID (a_SetAggregateVersion v a) = a_EntityID a;
  law_set_type v (a : A) : a_AggregateType (a_SetAggregateVersion v a) = a_AggregateType a;
  law_set_uncommitted v (a : A) :
    a_UncommittedEvents (a_SetAggregateVersion v a) = a_UncommittedEvents a;
  law_apply_id ctx e (a : A) : a_EntityID (a_ApplyEvent ctx e a).1 = a_EntityID a;
  law_apply_type ctx e (a : A) : a_AggregateType (a_ApplyEvent ctx e a).1 = a_AggregateType a;
  law_apply_uncommitted ctx e (a : A) :
    a_UncommittedEvents (a_ApplyEvent ctx e a).1 = a_UncommittedEvents a;
  law_clear_id (a : A) : a_EntityID (a_ClearUncommittedEvents a) = a_EntityID a;
  law_clear_type (a : A) : a_AggregateType (a_ClearUncommittedEvents a) = a_AggregateType a;
  law_clear_version (a : A) :
    a_AggregateVersion (a_ClearUncommittedEvents a) = a_AggregateVersion a;
  law_clear_uncommitted (a : A) : a_UncommittedEvents (a_ClearUncommittedEvents a) = []
}.

Section Replay.
Context {A : Type} `{AggregateLaws A}.
Context (uuid_String : UUID -> string).

(** Reference semantics of loading: apply the events in order, each setting
    the version; [None] when one is refused. *)
Fixpoint replay (ctx : context) (evs : list event) (a : A) : option A :=
  match evs with
  | [] => Some a
  | e :: evs' =>
      match a_ApplyEvent ctx e a with
      | (a', None) => replay ctx evs' (a_SetAggregateVersion (version e) a')
      | (_, Some _) => None
      end
  end.

Lemma replay_app ctx l k a :
  replay ctx (l ++ k) a = replay ctx l a ≫= replay ctx k.
Proof.
  revert a. induction l as [|e l IH]; intros a; [done|]. simpl.
  destruct (a_ApplyEvent ctx e a) as [a' [err|]]; [done|apply IH].
Qed.

(** What [replay] leaves alone, and the version it ends with. *)
Lemma replay_frame ctx id v evs a a' :
  serial id v evs -> a_AggregateVersion a = v -> replay ctx evs a = Some a' ->
  a_EntityID a' = a_EntityID a /\ a_AggregateType a' = a_AggregateType a /\
  a_UncommittedEvents a' = a_UncommittedEvents a /\
  a_AggregateVersion a' = v + len evs.
Proof.
  revert v a. induction evs as [|e evs IH]; intros v a Hs Hv Hr.
  - simpl in Hr. simplify_eq. rewrite len_nil, Z.add_0_r. done.
  - destruct Hs as (_ & Hver & Hs). simpl in Hr.
    pose proof (law_apply_id ctx e a) as Hid.
    pose proof (law_apply_type ctx e a) as Hty.
    pose proof (law_apply_uncommitted ctx e a) as Hun.
    destruct (a_ApplyEvent ctx e a) as [a1 [err|]]; [done|]. simpl in *.
    destruct (IH (v + 1) (a_SetAggregateVersion (version e) a1)) as (Hid' & Hty' & Hun' & Hv');
      [done|by rewrite law_set_version|done|].
    rewrite law_set_id in Hid'. rewrite law_set_type in Hty'.
    rewrite law_set_uncommitted in Hun'. rewrite len_cons.
    repeat split; [congruence..|lia].
Qed.

Lemma applyEvents_replay ctx evs a a' :
  typed (a_AggregateType a) evs -> replay ctx evs a = Some a' ->
  applyEvents uuid_String ctx (somes evs) a = (Ok tt, a').
Proof.
  revert a. induction evs as [|e evs IH]; intros a Ht Hr.
  - simpl in Hr. by simplify_eq.
  - inversion Ht as [|? ? Hty Ht']; subst. simpl in Hr.
    pose proof (law_apply_type ctx e a) as Hat.
    destruct (a_ApplyEvent ctx e a) as [a1 [err|]] eqn:Ha; [done|]. simpl in Hat.
    unfold applyEvents in *. simpl.
    rewrite (bind_ok _ _ a (a_SetAggregateVersion (version e) a1) tt).
    + apply IH; [|done]. by rewrite law_set_type, Hat.
    + unfold applyEvent. rewrite (bind_ok _ _ a a e) by done.
      rewrite (bind_ok _ _ a a a) by done.
      rewrite bool_decide_false by (rewrite Hty; tauto). by rewrite Ha.
Qed.

(** A refused event is reported, whatever was applied before it stays. *)
Lemma applyEvents_type_mismatch ctx e evs a :
  aggregateType e <> a_AggregateType a ->
  applyEvents uuid_String ctx (Some e :: evs) a = (Err (Sentinel ErrMismatchedEventType), a).
Proof.
  intros Hne. unfold applyEvents. simpl. apply bind_err. unfold applyEvent.
  rewrite (bind_ok _ _ a a e) by done. rewrite (bind_ok _ _ a a a) by done.
  by rewrite bool_decide_true.
Qed.

End Replay.

(** Applying an event depends only on what a store keeps of it. *)
Class AppliesKept {S : Type} (store : EventStore S) `{!EventStoreLaws store}
    (A : Type) `{Aggregate A} : Prop := {
  law_apply_kept ctx e e' (a : A) : kept e e' -> a_ApplyEvent ctx e' a = a_ApplyEvent ctx e a
}.

Section Properties.
Context {S A : Type} `{AggregateLaws A}.
Context (uuid_String : UUID -> string) (strategy : SnapshotStrategy).
Context (aggregates : gmap string (UUID -> option A)).
Context (store : EventStore S) `{!EventStoreLaws store} `{!AppliesKept store A}.

(** A type registered with a factory of new, versioned aggregates. *)
Definition registered (at' : string) (id : UUID) (a0 : A) : Prop :=
  (exists factory, aggregates !! at' = Some factory /\ factory id = Some a0) /\
  a_versioned a0 = true /\ a_EntityID a0 = id /\ a_AggregateType a0 = at' /\
  a_AggregateVersion a0 = 0 /\ a_UncommittedEvents a0 = [].

#[local] Abbreviation Load' := (Load uuid_String aggregates store None).
#[local] Abbreviation Save' := (Save uuid_String store None strategy).

(** What a store keeps of events replays like the events. *)
Lemma replay_kept ctx evs evs' (a : A) :
  Forall2 kept evs evs' -> replay ctx evs' a = replay ctx evs a.
Proof.
  intros HF. revert a. induction HF as [|e e' evs evs' He _ IH]; intros a; [done|]. simpl.
  rewrite (law_apply_kept ctx e e' a He). destruct (law_kept _ _ He) as (_ & _ & _ & _ & ->).
  destruct (a_ApplyEvent ctx e a) as [a1 [err|]]; [done|apply IH].
Qed.

(** Applying the events a load returned, to the aggregate [a0]. *)
Lemma apply_loaded {T} ctx w evs evs' (a0 a : A) (t : T) :
  Forall2 kept evs evs' -> typed (a_AggregateType a0) evs -> replay ctx evs a0 = Some a ->
  map_err w (apply_to uuid_String ctx (somes evs') a0) t = (Ok a, t).
Proof.
  intros HF Hty Hr. apply map_err_ok. unfold apply_to.
  erewrite applyEvents_replay; [done|by eapply kept_typed|by rewrite (replay_kept ctx _ _ _ HF)].
Qed.

Lemma Load_replay ctx at' id a0 a s :
  store_ok s -> registered at' id a0 -> typed at' (stream s id) ->
  replay ctx (stream s id) a0 = Some a ->
  (exists s', Load' ctx at' id s = (Ok a, s') /\ unchanged 0 s s') /\
  a_AggregateVersion a = len (stream s id) /\
  a_EntityID a = id /\ a_AggregateType a = at' /\ a_UncommittedEvents a = [].
Proof.
  intros Hok ((f & Hf & Ha0) & Hvers & Hid & Hat & Hv0 & Hun) Hty Hr.
  destruct (replay_frame ctx id 0 _ _ _ (law_stream_serial s id Hok) Hv0 Hr)
    as (Hid' & Hat' & Hun' & Hv').
  split; [|repeat split; congruence || lia].
  unfold Load, CreateAggregate. rewrite Hf.
  rewrite (bind_ok _ _ s s (Some a0)) by (apply map_err_ok; by rewrite <- Ha0).
  rewrite Hvers. simpl. rewrite (bind_ok _ _ s s (a0, 1)) by done. rewrite Hid. rewrite <- Hat in Hty.
  destruct (decide (stream s id = [])) as [Hst|Hne].
  - destruct (law_load_missing ctx s id _ (or_intror eq_refl) Hok Hst) as (e & s' & He & Hu & Hnf). exists s'.
    rewrite (bind_ok _ _ s s' (inr e)) by by apply attempt_err.
    rewrite (bind_ok _ _ s' s' []) by by rewrite Hnf. rewrite Hst in Hty, Hr.
    split; [|done]. by apply (apply_loaded ctx _ [] []).
  - destruct (law_load ctx s id _ (or_intror eq_refl) Hok Hne) as (evs & s' & Hl & Hu & HF). exists s'.
    rewrite (bind_ok _ _ s s' (inl (somes evs))) by by apply attempt_ok.
    rewrite (bind_ok _ _ s' s' (somes evs)) by done.
    split; [|done]. by apply (apply_loaded ctx _ (stream s id)).
Qed.

Lemma Save_batch ctx now id evs a a' s :
  store_ok s -> a_versioned a = true -> a_EntityID a = id ->
  a_AggregateVersion a = len (stream s id) -> a_UncommittedEvents a = somes evs ->
  batch_for id (len (stream s id)) evs -> Forall storable evs -> holds s (len evs) ->
  typed (a_AggregateType a) evs ->
  replay ctx evs (a_ClearUncommittedEvents a) = Some a' ->
  exists s' evs', Save' ctx now (s, a) = (Ok tt, (s', a')) /\ store_ok s' /\
    stream s' id = stream s id ++ evs' /\ Forall2 kept evs evs' /\
    (forall id', id' <> id -> stream s' id' = stream s id') /\
    (forall m, holds s (len evs + m) -> holds s' m).
Proof.
  intros Hok Hvers Hid Hv Hun Hb Hst Hroom Hty Hr.
  destruct (law_save ctx s id evs Hok Hb Hst Hroom) as (s' & evs' & Hs & Hok' & Hstr & HF & Hoth & Hm).
  exists s', evs'. split; [|done]. unfold Save.
  rewrite (bind_ok _ _ (s, a) (s, a) a) by done. rewrite Hvers, Hun, Hv. cbv beta iota zeta delta [negb].
  rewrite match_nonempty by (apply somes_nonempty; by destruct Hb).
  rewrite (bind_ok _ _ (s, a) (s', a) tt).
  2: { apply map_err_ok. unfold zoom_fst, zoom. simpl fst. by rewrite Hs. }
  rewrite (bind_ok _ _ (s', a) (s', a_ClearUncommittedEvents a) tt) by done.
  rewrite (bind_ok _ _ _ (s', a') tt); [done|].
  apply map_err_ok. unfold zoom_snd, zoom. simpl snd.
  erewrite applyEvents_replay; [done| |done]. by rewrite law_clear_type.
Qed.

(** What a stream replays to after a batch was kept. *)
Lemma replay_saved ctx evs evs' l (a0 a a2 : A) :
  replay ctx l a0 = Some a -> Forall2 kept evs evs' -> replay ctx evs a = Some a2 ->
  replay ctx (l ++ evs') a0 = Some a2.
Proof. intros Hr HF Hr2. rewrite replay_app, Hr. simpl. by rewrite (replay_kept ctx _ _ _ HF). Qed.

(** loading an aggregate is replaying its stream: [Load] returns the new
    aggregate of the registered factory with every stored event applied in
    order, at the version of the last event (0 for an unknown ID, which is not
    an error), and changes nothing that can be observed of the store. *)
Theorem Load_replays_stream ctx at' id a0 a s :
  store_ok s -> registered at' id a0 -> typed at' (stream s id) ->
  replay ctx (stream s id) a0 = Some a ->
  (exists s', Load' ctx at' id s = (Ok a, s') /\ unchanged 0 s s') /\
  a_AggregateVersion a = len (stream s id).
Proof.
  intros Hok Hreg Hty Hr.
  destruct (Load_replay ctx at' id a0 a s Hok Hreg Hty Hr) as (? & ? & _). done.
Qed.

(** C2: write-side consistency.  Load an aggregate, let a command append
    events to it, and save it: the events are appended to the stream and to no
    other, as the store keeps them; the aggregate has no uncommitted events
    left, and the aggregate in memory is exactly the one a later [Load]
    rebuilds from the store. *)
Theorem Save_then_Load_agree ctx now at' id a0 a a1 a2 evs s :
  store_ok s -> registered at' id a0 -> typed at' (stream s id) ->
  replay ctx (stream s id) a0 = Some a ->
  a_versioned a1 = true -> a_ClearUncommittedEvents a1 = a ->
  a_UncommittedEvents a1 = somes evs ->
  batch_for id (len (stream s id)) evs -> typed at' evs -> Forall storable evs ->
  holds s (len evs) -> replay ctx evs a = Some a2 ->
  exists s' evs', Save' ctx now (s, a1) = (Ok tt, (s', a2)) /\
    stream s' id = stream s id ++ evs' /\ Forall2 kept evs evs' /\
    (forall id', id' <> id -> stream s' id' = stream s id') /\
    a_UncommittedEvents a2 = [] /\
    exists s'', Load' ctx at' id s' = (Ok a2, s'') /\ unchanged 0 s' s''.
Proof.
  intros Hok Hreg Hty Hr Hvers Hclear Hun Hb Hty' Hst Hroom Hr2.
  destruct (Load_replay ctx at' id a0 a s Hok Hreg Hty Hr) as (_ & Hv & Hid & Hat & Hun0).
  rewrite <- Hclear, law_clear_version in Hv. rewrite <- Hclear, law_clear_id in Hid.
  rewrite <- Hclear, law_clear_type in Hat.
  destruct (Save_batch ctx now id evs a1 a2 s) as (s' & evs' & Hs & Hok' & Hstr & HF & Hoth & _);
    try done; [by rewrite Hat|by rewrite Hclear|].
  destruct (Load_replay ctx at' id a0 a2 s') as (Hl & _ & _ & _ & Hun2); try done.
  { rewrite Hstr. apply Forall_app. split; [done|by eapply kept_typed]. }
  { rewrite Hstr. by eapply replay_saved. }
  by exists s', evs'.
Qed.

(** C14: lost updates are impossible.  Of two writers that loaded the same
    non-empty aggregate, once the first has saved, the second's save fails with
    [ErrEventConflictFromOtherSave], leaves every stream as the first one left
    it, and keeps its own uncommitted events. *)
Theorem Save_second_writer_conflicts ctx now1 now2 id a1 a1' a2 evs1 evs2 s :
  store_ok s -> stream s id <> [] ->
  a_versioned a1 = true -> a_EntityID a1 = id ->
  a_AggregateVersion a1 = len (stream s id) -> a_UncommittedEvents a1 = somes evs1 ->
  batch_for id (len (stream s id)) evs1 -> typed (a_AggregateType a1) evs1 ->
  Forall storable evs1 -> replay ctx evs1 (a_ClearUncommittedEvents a1) = Some a1' ->
  a_versioned a2 = true -> a_EntityID a2 = id ->
  a_AggregateVersion a2 = len (stream s id) -> a_UncommittedEvents a2 = somes evs2 ->
  batch_for id (len (stream s id)) evs2 -> Forall storable evs2 ->
  holds s (len evs1) -> holds s (len evs1 + len evs2) ->
  exists s' evs1', Save' ctx now1 (s, a1) = (Ok tt, (s', a1')) /\
    stream s' id = stream s id ++ evs1' /\ Forall2 kept evs1 evs1' /\
    exists e s'', Save' ctx now2 (s', a2) = (Err e, (s'', a2)) /\ unchanged (len evs2) s' s'' /\
      errors_Is e ErrEventConflictFromOtherSave = true.
Proof.
  intros Hok Hne Hv1 Hid1 Hn1 Hu1 Hb1 Ht1 Hs1 Hr1 Hv2 Hid2 Hn2 Hu2 Hb2 Hs2 Hm1 Hm2.
  destruct (Save_batch ctx now1 id evs1 a1 a1' s)
    as (s' & evs1' & Hs & Hok' & Hstr & HF & Hoth & Hroom); try done.
  exists s', evs1'. split; [done|]. split; [done|]. split; [done|].
  assert (evs1' <> []) as Hne1 by (eapply kept_nonempty; [done|by destruct Hb1]).
  assert (len (stream s' id) <> len (stream s id)) as Hlen.
  { rewrite Hstr, len_app. intros Heq. apply Hne1, len_0. lia. }
  assert (len (stream s id) <> 0) as Hnz by (intros Hz; by apply Hne, len_0).
  assert (stream s' id <> []) as Hne'.
  { rewrite Hstr. by destruct (stream s id). }
  destruct (law_save_conflict ctx s' id evs2 (len (stream s id)) Hok' Hb2 Hs2 (Hroom _ Hm2) Hnz Hne' Hlen)
    as (e & s'' & He & Hun & His).
  eexists _, s''. split; [|split; [done|exact (His : errors_Is (AggregateStoreError (Some e)
    AggregateStoreOpSave (a_AggregateType a2) (a_EntityID a2)) _ = true)]].
  unfold Save. rewrite (bind_ok _ _ (s', a2) (s', a2) a2) by done.
  rewrite Hv2, Hu2, Hn2. cbv beta iota zeta delta [negb].
  rewrite match_nonempty by (apply somes_nonempty; by destruct Hb2).
  apply bind_err.
  apply (map_err_err (fun err => AggregateStoreError (Some err) AggregateStoreOpSave
           (a_AggregateType a2) (a_EntityID a2))).
  unfold zoom_fst, zoom. simpl fst. by rewrite He.
Qed.

End Properties.

(** ** Aggregates that embed [*AggregateBase]

    The usual shape of a domain aggregate: the base plus domain state.  Its
    [ApplyEvent] works on the domain state, its [HandleCommand] may append
    events and change the domain state. *)

Record agg (D : Type) : Type := mkAgg {
  agg_base : AggregateBase;
  agg_dom : D
}.
Arguments mkAgg {D}.
Arguments agg_base {D}.
Arguments agg_dom {D}.

Class Domain (D : Type) : Type := {
  dom_ApplyEvent : context -> event -> D -> D * option error;
  dom_HandleCommand : context -> command -> agg D -> agg D * option error
}.

#[export] Instance agg_Aggregate (D : Type) `{Domain D} : Aggregate (agg D) := {
  a_EntityID a := EntityID (agg_base a);
  a_AggregateType a := base_AggregateType (agg_base a);
  a_HandleCommand := dom_HandleCommand;
  a_versioned _ := true;
  a_AggregateVersion a := AggregateVersion (agg_base a);
  a_SetAggregateVersion v a := mkAgg (SetAggregateVersion v (agg_base a)) (agg_dom a);
  a_UncommittedEvents a := UncommittedEvents (agg_base a);
  a_ClearUncommittedEvents a := mkAgg (ClearUncommittedEvents (agg_base a)) (agg_dom a);
  a_ApplyEvent ctx e a :=
    let '(d, err) := dom_ApplyEvent ctx e (agg_dom a) in (mkAgg (agg_base a) d, err);
  a_snapshotable _ := false;
  a_CreateSnapshot _ := None;
  a_ApplySnapshot _ a := a
}.

#[export] Instance agg_AggregateLaws (D : Type) `{Domain D} : AggregateLaws (agg D).
Proof.
  split; try done; intros ctx e [b d]; simpl; by destruct (dom_ApplyEvent ctx e d).
Qed.
