(* ===== verification/Snapshots.v ===== *)
(** * Snapshots are only an optimisation ([snapshot.go],
      [aggregatestore/events])

    [SnapshotStoreLaws] is what a snapshot store beside an event store
    promises, [SnapshotAggregateLaws] what an aggregate that makes snapshots
    does.  With both, and an event store that answers from a later version on,
    loading through the newest snapshot gives the aggregate that replaying the
    whole stream gives, and saving, which may take a snapshot, keeps it so. *)

From stdpp Require Import base gmap strings list numbers option pretty.
From Stdlib Require Import Lia ZArith.
From S2P Require Import Prelude.
From S2P Require Import GoTypes.
From S2P Require Import Event.
From S2P Require Import Command.
From S2P Require Import Errors.
From S2P Require Import Registry.
From S2P Require Import EventStoreSpec.
From S2P Require Import AggregateBase.
From S2P Require Import AggregateStore.

(** ** The contracts *)

Class SnapshotStoreLaws {S : Type} (store : EventStore S) (ss : SnapshotStore S)
    `{!EventStoreLaws store} : Type := {
  snapshots_ok : S -> Prop;
  (** the newest snapshot of an aggregate *)
  snapshot : S -> UUID -> option Snapshot;
  snap_storable : UUID -> Snapshot -> Prop;

  law_snapshots_unchanged n s s' :
    store_ok s -> snapshots_ok s -> unchanged n s s' ->
    snapshots_ok s' /\ forall id, snapshot s' id = snapshot s id;

  law_snapshots_saved ctx s id evs s' :
    store_ok s -> snapshots_ok s -> batch_for id (len (stream s id)) evs -> Forall storable evs ->
    holds s (len evs) -> es_Save store ctx (somes evs) (len (stream s id)) s = (Ok tt, s') ->
    snapshots_ok s' /\ forall id', snapshot s' id' = snapshot s id';

  law_load_snapshot ctx s id :
    store_ok s -> snapshots_ok s ->
    exists s', LoadSnapshot ss ctx id s = (Ok (snapshot s id), s') /\ unchanged 0 s s';

  (** saving a newer snapshot makes it the newest, and touches nothing else *)
  law_save_snapshot ctx s id sn :
    store_ok s -> snapshots_ok s -> snap_storable id sn ->
    (forall old, snapshot s id = Some old -> snap_Version old < snap_Version sn) ->
    exists s', SaveSnapshot ss ctx id sn s = (Ok tt, s') /\ store_ok s' /\ snapshots_ok s' /\
      (forall id', stream s' id' = stream s id') /\ snapshot s' id = Some sn /\
      (forall id', id' <> id -> snapshot s' id' = snapshot s id')
}.

(** A snapshot of an aggregate holds its version, and applied to a new
    aggregate restores it. *)
Class SnapshotAggregateLaws (A : Type) `{Aggregate A} (aggregates : gmap string (UUID -> option A)) : Prop := {
  law_snapshotable_new at' id a0 : registered aggregates at' id a0 -> a_snapshotable a0 = true;
  law_create_snapshot (a : A) :
    a_snapshotable a = true -> exists sn, a_CreateSnapshot a = Some sn;
  law_snapshot_version (a : A) sn : a_CreateSnapshot a = Some sn -> snap_Version sn = a_AggregateVersion a;
  law_restore at' id a0 a sn :
    registered aggregates at' id a0 -> a_EntityID a = id -> a_AggregateType a = at' ->
    a_UncommittedEvents a = [] -> a_CreateSnapshot a = Some sn ->
    a_SetAggregateVersion (snap_Version sn) (a_ApplySnapshot sn a0) = a
}.

Section Snapshots.
Context {S A : Type} `{AggregateLaws A}.
Context (uuid_String : UUID -> string) (strategy : SnapshotStrategy).
Context (aggregates : gmap string (UUID -> option A)).
Context (store : EventStore S) `{!EventStoreLaws store} `{!LoadsFrom store} `{!AppliesKept store A}.
Context (ss : SnapshotStore S) `{!SnapshotStoreLaws store ss} `{!SnapshotAggregateLaws A aggregates}.
(** What the aggregates of this type make can be stored. *)
Context (Hstorable : forall (a : A) sn, a_CreateSnapshot a = Some sn -> snap_storable (a_EntityID a) sn).

#[local] Abbreviation Load' := (Load uuid_String aggregates store (Some ss)).
#[local] Abbreviation Save' := (Save uuid_String store (Some ss) strategy).

(** The newest snapshot, if any, is of the aggregate at an earlier point of its
    stream. *)
Definition snapshot_valid (ctx : context) (a0 : A) (s : S) (id : UUID) : Prop :=
  forall sn, snapshot s id = Some sn ->
    1 <= snap_Version sn <= len (stream s id) /\
    replay ctx (take (Z.to_nat (snap_Version sn)) (stream s id)) a0 =
      Some (a_SetAggregateVersion (snap_Version sn) (a_ApplySnapshot sn a0)).

Lemma snapshot_valid_app ctx a0 s s' id evs :
  snapshot_valid ctx a0 s id -> snapshot s' id = snapshot s id -> stream s' id = stream s id ++ evs ->
  snapshot_valid ctx a0 s' id.
Proof.
  intros Hv Hs Hstr sn. rewrite Hs, Hstr. intros Hsn. destruct (Hv sn Hsn) as [Hle Hr].
  unfold len in *. rewrite length_app. split; [lia|]. rewrite take_app_le by lia. exact Hr.
Qed.

Lemma typed_drop at' n evs : typed at' evs -> typed at' (drop n evs).
Proof. apply Forall_drop. Qed.

Lemma serial_take id n k l : serial id n l -> serial id n (take k l).
Proof.
  revert n k. induction l as [|e l IH]; intros n [|k]; try done. intros (? & ? & ?). split_and!; auto.
Qed.

(** The events a store answers from a version on, applied. *)
Lemma load_rest ctx s id from w (b a : A) :
  store_ok s -> 1 <= from -> typed (a_AggregateType b) (drop (Z.to_nat (from - 1)) (stream s id)) ->
  replay ctx (drop (Z.to_nat (from - 1)) (stream s id)) b = Some a ->
  exists s', (let! r := attempt (es_LoadFrom store ctx id from) in
    let! events := match r with
                   | inl events => ret events
                   | inr err => if errors_Is err ErrAggregateNotFound then ret [] else throw (w err)
                   end in
    map_err w (apply_to uuid_String ctx events b)) s = (Ok a, s') /\ unchanged 0 s s'.
Proof.
  intros Hok Hfrom Hty Hr. destruct (decide (from <= len (stream s id))) as [Hle|Hgt].
  - destruct (law_load_from ctx s id from Hok Hfrom Hle) as (evs & s' & Hl & Hu & HF). exists s'.
    rewrite (bind_ok _ _ s s' (inl (somes evs))) by by apply attempt_ok.
    rewrite (bind_ok _ _ s' s' (somes evs)) by done. split; [|done]. by eapply apply_loaded.
  - destruct (law_load_from_end ctx s id from Hok Hfrom) as (e & s' & Hl & Hu & He); [lia|]. exists s'.
    rewrite (bind_ok _ _ s s' (inr e)) by by apply attempt_err.
    rewrite (bind_ok _ _ s' s' []) by by rewrite He. split; [|done].
    assert (drop (Z.to_nat (from - 1)) (stream s id) = []) as Hd by (apply drop_ge; unfold len in Hgt; lia).
    rewrite Hd in Hty, Hr. by apply (apply_loaded uuid_String store ctx w [] []).
Qed.

Lemma Load_through ctx at' id a0 a s :
  store_ok s -> snapshots_ok s -> registered aggregates at' id a0 -> typed at' (stream s id) ->
  snapshot_valid ctx a0 s id -> is_int (len (stream s id) + 1) -> replay ctx (stream s id) a0 = Some a ->
  exists s', Load' ctx at' id s = (Ok a, s') /\ unchanged 0 s s'.
Proof.
  intros Hok Hsok Hreg Hty Hval Hint Hr. pose proof (law_snapshotable_new _ _ _ Hreg) as Hsnap.
  destruct Hreg as ((f & Hf & Ha0) & Hvers & Hid & Hat & Hv0 & Hun).
  destruct (law_load_snapshot ctx s id Hok Hsok) as (s1 & Hload & Hu1).
  destruct (law_unchanged _ _ _ Hok Hu1) as (Hok1 & Hstr1 & _). unfold Load, CreateAggregate. rewrite Hf.
  rewrite (bind_ok _ _ s s (Some a0)) by (apply map_err_ok; by rewrite <- Ha0). rewrite Hvers.
  cbv beta iota zeta delta [negb]. rewrite <- Hat in Hty. rewrite <- (Hstr1 id) in Hty, Hr, Hint.
  destruct (snapshot s id) as [sn|] eqn:Hsn.
  - destruct (Hval sn Hsn) as [Hle Hrs]. rewrite <- (Hstr1 id) in Hle, Hrs.
    set (b := a_SetAggregateVersion (snap_Version sn) (a_ApplySnapshot sn a0)) in *.
    destruct (replay_frame ctx id 0 _ _ _ (serial_take _ _ _ _ (law_stream_serial s1 id Hok1)) Hv0 Hrs)
      as (Hbid & Hbat & _ & _).
    rewrite (bind_ok _ _ s s1 (b, iadd (snap_Version sn) 1)).
    2: { apply map_err_ok. unfold load_snapshot. rewrite Hsnap. by rewrite (bind_ok _ _ _ _ _ Hload). }
    rewrite Hbid, Hid, iadd_id by int_lia. rewrite <- Hbat in Hty.
    assert (Z.to_nat (snap_Version sn + 1 - 1) = Z.to_nat (snap_Version sn)) as Hn by lia.
    destruct (load_rest ctx s1 id (snap_Version sn + 1) (fun err => AggregateStoreError (Some err) AggregateStoreOpLoad at' id) b a)
      as (s2 & Hrun & Hu2); [done|lia|by apply typed_drop| |].
    { rewrite Hn. rewrite <- (take_drop (Z.to_nat (snap_Version sn)) (stream s1 id)), replay_app, Hrs in Hr.
      exact Hr. }
    exists s2. split; [exact Hrun|]. by apply (law_unchanged_trans 0 0 s s1).
  - rewrite (bind_ok _ _ s s1 (a0, 1)).
    2: { apply map_err_ok. unfold load_snapshot. rewrite Hsnap. by rewrite (bind_ok _ _ _ _ _ Hload). }
    rewrite Hid.
    destruct (load_rest ctx s1 id 1 (fun err => AggregateStoreError (Some err) AggregateStoreOpLoad at' id) a0 a)
      as (s2 & Hrun & Hu2); [done|lia|by rewrite drop_0|by rewrite drop_0|].
    exists s2. split; [exact Hrun|]. by apply (law_unchanged_trans 0 0 s s1).
Qed.

(** Whether or not a snapshot is taken of the aggregate [a] that the stream
    replays to, the newest one is valid. *)
Lemma takeSnapshot_valid ctx now at' id a0 a s e :
  store_ok s -> snapshots_ok s -> registered aggregates at' id a0 -> stream s id <> [] ->
  snapshot_valid ctx a0 s id -> (forall old, snapshot s id = Some old -> snap_Version old < len (stream s id)) ->
  replay ctx (stream s id) a0 = Some a ->
  exists s', takeSnapshot (Some ss) strategy ctx now (Some e) (s, a) = (Ok tt, (s', a)) /\
    store_ok s' /\ snapshots_ok s' /\ (forall id', stream s' id' = stream s id') /\
    snapshot_valid ctx a0 s' id /\ (forall id', id' <> id -> snapshot s' id' = snapshot s id').
Proof.
  intros Hok Hsok Hreg Hne Hval Hnew Hr. pose proof Hreg as ((f & Hf & Ha0) & _ & Hid & Hat & Hv0 & Hun).
  destruct (replay_frame ctx id 0 _ _ _ (law_stream_serial s id Hok) Hv0 Hr) as (Haid & Haat & Haun & Hav).
  rewrite Hid in Haid. rewrite Hat in Haat. rewrite Hun in Haun. rewrite Z.add_0_l in Hav.
  unfold takeSnapshot. rewrite (bind_ok _ _ (s, a) (s, a) a) by done.
  destruct (a_snapshotable a) eqn:Hsa; cbn [negb]; [|by exists s].
  destruct (law_load_snapshot ctx s id Hok Hsok) as (s1 & Hload & Hu1).
  destruct (law_unchanged _ _ _ Hok Hu1) as (Hok1 & Hstr1 & _).
  destruct (law_snapshots_unchanged _ _ _ Hok Hsok Hu1) as [Hsok1 Hs1].
  rewrite Haid. rewrite (bind_ok _ _ (s, a) (s1, a) (snapshot s id)).
  2: { apply map_err_ok. unfold zoom_fst, zoom. simpl. by rewrite Hload. }
  assert (snapshot_valid ctx a0 s1 id) as Hval1
    by (apply (snapshot_valid_app ctx a0 s s1 id []); [done|apply Hs1|by rewrite app_nil_r, Hstr1]).
  destruct (match snapshot s id with Some sn => (snap_Version sn, snap_Timestamp sn) | None => (0, now) end) as [v ts].
  rewrite (bind_ok _ _ (s1, a) (s1, a) e) by done.
  destruct (strategy v ts e); [|exists s1; split_and!; try done; by intros; apply Hs1].
  destruct (law_create_snapshot a Hsa) as (sn & Hc). rewrite Hc.
  rewrite (bind_ok _ _ (s1, a) (s1, a) sn) by done.
  pose proof (law_snapshot_version a sn Hc) as Hvn. rewrite Hav in Hvn.
  destruct (law_save_snapshot ctx s1 id sn Hok1 Hsok1) as (s2 & Hsave & Hok2 & Hsok2 & Hstr2 & Hsn2 & Hoth2).
  { rewrite <- Haid. by apply Hstorable. }
  { intros old. rewrite Hs1, Hvn. apply Hnew. }
  exists s2. split.
  { apply map_err_ok. unfold zoom_fst, zoom. simpl. by rewrite Hsave. }
  split; [done|]. split; [done|]. split; [intros id'; by rewrite Hstr2|]. split.
  - intros sn'. rewrite Hsn2, Hstr2, Hstr1. intros [= <-]. rewrite Hvn.
    assert (len (stream s id) <> 0) by (intros Hz; by apply Hne, len_0).
    pose proof (len_nonneg (stream s id)). split; [lia|].
    rewrite take_ge by (unfold len; lia). rewrite Hr. f_equal. rewrite <- Hvn. symmetry.
    by apply (law_restore at' id).
  - intros id' Hid'. by rewrite Hoth2, Hs1.
Qed.

(** C13: loading through snapshots is loading.  When the newest snapshot is of an
    earlier point of the stream, [Load] through it returns the aggregate that
    replaying the whole stream gives; a [Save] of new events, whatever the
    snapshot strategy decides, appends them and leaves the newest snapshot
    valid; and a later [Load] through it returns what the aggregate is now. *)
Theorem snapshots_transparent ctx now at' id a0 a a1 a2 evs s :
  store_ok s -> snapshots_ok s -> registered aggregates at' id a0 -> typed at' (stream s id) ->
  snapshot_valid ctx a0 s id -> replay ctx (stream s id) a0 = Some a ->
  a_versioned a1 = true -> a_ClearUncommittedEvents a1 = a -> a_UncommittedEvents a1 = somes evs ->
  batch_for id (len (stream s id)) evs -> typed at' evs -> Forall storable evs -> holds s (len evs) ->
  is_int (len (stream s id) + len evs + 1) -> replay ctx evs a = Some a2 ->
  (exists s0, Load' ctx at' id s = (Ok a, s0) /\ unchanged 0 s s0) /\
  exists s' evs', Save' ctx now (s, a1) = (Ok tt, (s', a2)) /\ store_ok s' /\ snapshots_ok s' /\
    stream s' id = stream s id ++ evs' /\ Forall2 kept evs evs' /\
    (forall id', id' <> id -> stream s' id' = stream s id') /\
    snapshot_valid ctx a0 s' id /\ (forall id', id' <> id -> snapshot s' id' = snapshot s id') /\
    exists s'', Load' ctx at' id s' = (Ok a2, s'') /\ unchanged 0 s' s''.
Proof.
  intros Hok Hsok Hreg Hty Hval Hr Hvers Hclear Hun Hb Hty' Hst Hroom Hint Hr2.
  pose proof (len_nonneg (stream s id)). pose proof (len_nonneg evs).
  split; [apply (Load_through _ at' id a0); try done; int_lia|].
  pose proof Hreg as (_ & _ & Hid & Hat & Hv0 & _).
  destruct (replay_frame ctx id 0 _ _ _ (law_stream_serial s id Hok) Hv0 Hr) as (Haid & Haat & Haun & Hav).
  rewrite Hid, <- Hclear, law_clear_id in Haid. rewrite Hat, <- Hclear, law_clear_type in Haat.
  rewrite Z.add_0_l, <- Hclear, law_clear_version in Hav.
  destruct (law_save ctx s id evs Hok Hb Hst Hroom) as (s1 & evs' & Hs & Hok1 & Hstr & HF & Hoth & _).
  destruct (law_snapshots_saved ctx s id evs s1 Hok Hsok Hb Hst Hroom Hs) as [Hsok1 Hsn1].
  assert (evs' <> []) as Hne by (eapply kept_nonempty; [done|by destruct Hb]).
  assert (replay ctx (stream s1 id) a0 = Some a2) as Hr1 by (rewrite Hstr; by eapply replay_saved).
  destruct (list.last evs) as [e|] eqn:Hlast; [|apply last_None in Hlast; by destruct Hb].
  destruct (takeSnapshot_valid ctx now at' id a0 a2 s1 e) as (s2 & Htake & Hok2 & Hsok2 & Hstr2 & Hval2 & Hoth2);
    try done.
  { rewrite Hstr. by destruct (stream s id). }
  { by apply (snapshot_valid_app ctx a0 s s1 id evs'). }
  { intros old. rewrite Hsn1. intros Hold. destruct (Hval old Hold) as [[_ Hle] _].
    rewrite Hstr, len_app. assert (len evs' <> 0) by (intros Hz; by apply Hne, len_0).
    pose proof (len_nonneg evs'). lia. }
  exists s2, evs'. split.
  { unfold Save. rewrite (bind_ok _ _ (s, a1) (s, a1) a1) by done. rewrite Hvers, Hun, Hav.
    cbv beta iota zeta delta [negb]. rewrite match_nonempty by (apply somes_nonempty; by destruct Hb).
    rewrite (bind_ok _ _ (s, a1) (s1, a1) tt).
    2: { apply map_err_ok. unfold zoom_fst, zoom. simpl fst. by rewrite Hs. }
    rewrite (bind_ok _ _ (s1, a1) (s1, a_ClearUncommittedEvents a1) tt) by done.
    rewrite (bind_ok _ _ _ (s1, a2) tt).
    2: { apply map_err_ok. unfold zoom_snd, zoom. simpl snd. rewrite Hclear.
         erewrite applyEvents_replay; [done| |done]. by rewrite <- Hclear, law_clear_type, Haat. }
    unfold somes. rewrite fmap_last, Hlast. exact Htake. }
  assert (stream s2 id = stream s id ++ evs') as Hstr' by by rewrite Hstr2.
  split; [done|]. split; [done|]. split; [done|]. split; [done|]. split.
  { intros id' Hne'. by rewrite Hstr2, Hoth. }
  split; [done|]. split; [intros id' Hne'; by rewrite Hoth2|].
  apply (Load_through _ at' id a0); try done.
  - rewrite Hstr'. apply Forall_app. split; [done|by eapply kept_typed].
  - rewrite Hstr', len_app. by rewrite <- (kept_len store _ _ HF).
  - by rewrite Hstr2.
Qed.

End Snapshots.
