(* ===== verification/CommandHandler.v ===== *)
(** * Command handling ([commandhandler.go], [middleware.go],
    [commandhandler/aggregate], [commandhandler/bus],
    [middleware/commandhandler/validate])

    A command handler is a program over the state it works on.  The aggregate
    handler is written against the [AggregateStore] interface of
    [aggregate.go]; [events_store] is the implementation of [AggregateStore.v]
    behind that interface. *)

From stdpp Require Import base gmap strings list numbers option pretty.
From Stdlib Require Import Lia ZArith.
From S2P Require Import Prelude.
From S2P Require Import GoTypes.
From S2P Require Import Event.
From S2P Require Import Command.
From S2P Require Import Errors.
From S2P Require Import Fixtures.
From S2P Require Import CommandCheck.
From S2P Require Import Registry.
From S2P Require Import EventStoreSpec.
From S2P Require Import MemStore.
From S2P Require Import AggregateBase.
From S2P Require Import AggregateStore.

(** [CommandHandlerFunc]; a nil command is [None]. *)
Abbreviation CommandHandlerFunc S := (context -> option command -> M S unit).

Abbreviation CommandHandlerMiddleware S := (CommandHandlerFunc S -> CommandHandlerFunc S).

(** [applyMiddleware]: [for i := len(middleware) - 1; i >= 0; i--]. *)
Definition applyMiddleware {H : Type} (h : H) (middleware : list (H -> H)) : H :=
  fold_left (fun h m => m h) (rev middleware) h.

Definition UseCommandHandlerMiddleware {S} (h : CommandHandlerFunc S)
    (middleware : list (CommandHandlerMiddleware S)) : CommandHandlerFunc S :=
  applyMiddleware h middleware.

(** the middlewares wrap the handler in list order: the first one is the
    outermost, and adding middlewares around a wrapped handler is the same as
    passing one longer list. *)
Theorem applyMiddleware_order {H : Type} (h : H) (m : H -> H) ms ms' :
  applyMiddleware h [] = h /\
  applyMiddleware h (m :: ms) = m (applyMiddleware h ms) /\
  applyMiddleware (applyMiddleware h ms') ms = applyMiddleware h (ms ++ ms').
Proof.
  unfold applyMiddleware. split; [done|]. split.
  - simpl. by rewrite fold_left_app.
  - by rewrite rev_app_distr, fold_left_app.
Qed.

(** ** The aggregate store interface *)

Record AggregateStoreI (S A : Type) : Type := mkAggregateStore {
  as_Load : context -> string -> UUID -> M S (option A);
  as_Save : context -> A -> M S unit
}.
Arguments mkAggregateStore {S A}.
Arguments as_Load {S A}.
Arguments as_Save {S A}.

(** [ctx.Done()] polled once: a done context ends the call with its error. *)
Definition ctx_check {S} (ctx : context) : M S unit :=
  match ctx_err ctx with
  | Some e => throw (Sentinel (CtxErr e))
  | None => ret tt
  end.

Definition check_error {S} (err : option error) : M S unit :=
  match err with Some e => throw e | None => ret tt end.

Section AggregateHandler.
Context {S A : Type} `{Aggregate A}.

Definition NewCommandHandler (t : string) (store : option (AggregateStoreI S A))
  : result (string * AggregateStoreI S A) :=
  match store with
  | None => Err (Sentinel ErrNilAggregateStore)
  | Some st => Ok (t, st)
  end.

Definition HandleCommand (t : string) (store : AggregateStoreI S A)
  : CommandHandlerFunc S := fun ctx cmd =>
  do! ctx_check ctx in
  do! check_error (CheckCommand cmd) in
  let! c := deref cmd in
  let! a := as_Load store ctx t (AggregateID c) in
  match a with
  | None => throw (Sentinel ErrAggregateNotFound)
  | Some a =>
      let '(a', err) := a_HandleCommand ctx c a in
      match err with
      | Some e => throw (AggregateError e)
      | None => as_Save store ctx a'
      end
  end.

End AggregateHandler.

(** The event sourced store behind the interface; the aggregate itself is
    dropped after the save, as the command handler drops it. *)
Definition events_store {S A} `{Aggregate A} (uuid_String : UUID -> string)
    (aggregates : gmap string (UUID -> option A)) (store : EventStore S)
    (snapshotStore : option (SnapshotStore S)) (strategy : SnapshotStrategy)
    (now : Time) : AggregateStoreI S A :=
  mkAggregateStore
    (fun ctx at' id s =>
       match Load uuid_String aggregates store snapshotStore ctx at' id s with
       | (Ok a, s') => (Ok (Some a), s')
       | (Err e, s') => (Err e, s')
       | (Panic p, s') => (Panic p, s')
       end)
    (fun ctx a s =>
       let '(o, st) := Save uuid_String store snapshotStore strategy ctx now (s, a) in
       (o, st.1)).

Section AggregateHandlerProperties.
Context {S A : Type} `{AggregateLaws A}.
Context (uuid_String : UUID -> string) (strategy : SnapshotStrategy) (now : Time).
Context (aggregates : gmap string (UUID -> option A)).
Context (store : EventStore S) `{!EventStoreLaws store} `{!AppliesKept store A}.

#[local] Abbreviation handler at' :=
  (HandleCommand at' (events_store uuid_String aggregates store None strategy now)).

(** Up to the aggregate: the command is checked and the aggregate loaded. *)
Lemma handler_loads ctx at' c a0 a s :
  ctx_err ctx = None -> CheckCommand (Some c) = None ->
  store_ok s -> registered aggregates at' (AggregateID c) a0 ->
  typed at' (stream s (AggregateID c)) -> replay ctx (stream s (AggregateID c)) a0 = Some a ->
  exists s1, unchanged 0 s s1 /\ handler at' ctx (Some c) s =
    (let '(a', err) := a_HandleCommand ctx c a in
     match err with
     | Some e => throw (AggregateError e)
     | None => as_Save (events_store uuid_String aggregates store None strategy now) ctx a'
     end) s1.
Proof.
  intros Hctx Hc Hok Hreg Hty Hr. unfold HandleCommand, ctx_check, check_error.
  rewrite Hctx, Hc. rewrite (bind_ok _ _ s s tt), (bind_ok _ _ s s tt) by done.
  rewrite (bind_ok _ _ s s c) by done.
  destruct (Load_replay uuid_String aggregates store ctx at' (AggregateID c) a0 a s)
    as ((s1 & Hl & Hu) & _); [done..|]. exists s1. split; [done|].
  rewrite (bind_ok _ _ s s1 (Some a)); [done|]. simpl. by rewrite Hl.
Qed.

Lemma handler_commits ctx at' c a0 a a1 a2 evs s :
  ctx_err ctx = None -> CheckCommand (Some c) = None ->
  store_ok s -> registered aggregates at' (AggregateID c) a0 ->
  typed at' (stream s (AggregateID c)) -> replay ctx (stream s (AggregateID c)) a0 = Some a ->
  a_HandleCommand ctx c a = (a1, None) ->
  a_versioned a1 = true -> a_ClearUncommittedEvents a1 = a ->
  a_UncommittedEvents a1 = somes evs ->
  (evs <> [] -> batch_for (AggregateID c) (len (stream s (AggregateID c))) evs) ->
  typed at' evs -> Forall storable evs -> holds s (len evs) -> replay ctx evs a = Some a2 ->
  exists s' evs', handler at' ctx (Some c) s = (Ok tt, s') /\ store_ok s' /\
    stream s' (AggregateID c) = stream s (AggregateID c) ++ evs' /\ Forall2 kept evs evs' /\
    (forall id', id' <> AggregateID c -> stream s' id' = stream s id') /\
    replay ctx (stream s' (AggregateID c)) a0 = Some a2 /\
    (forall m, holds s (len evs + m) -> holds s' m).
Proof.
  intros Hctx Hc Hok Hreg Hty Hr Hh Hvers Hclear Hun Hb Hty' Hst Hroom Hr2.
  destruct (handler_loads ctx at' c a0 a s) as (s1 & Hu & ->); [done..|]. rewrite Hh.
  destruct (law_unchanged _ _ _ Hok Hu) as (Hok1 & Hstr1 & _).
  destruct (Load_replay uuid_String aggregates store ctx at' (AggregateID c) a0 a s)
    as (_ & Hv & Hid & Hat & _); [done..|].
  rewrite <- Hclear, law_clear_version in Hv. rewrite <- Hclear, law_clear_id in Hid.
  rewrite <- Hclear, law_clear_type in Hat.
  destruct (decide (evs = [])) as [->|Hne].
  - exists s1, []. rewrite app_nil_r, Hstr1. split; [|split_and!; try done; [simpl in Hr2; congruence|by apply (law_unchanged 0 s s1)]].
    simpl. unfold Save. rewrite (bind_ok _ _ (s1, a1) (s1, a1) a1) by done. by rewrite Hvers, Hun.
  - rewrite <- Hstr1 in Hv, Hb.
    destruct (Save_batch uuid_String strategy store ctx now (AggregateID c) evs a1 a2 s1)
      as (s' & evs' & Hs & Hok' & Hstr & HF & Hoth & Hm); try done.
    { by apply Hb. } { by apply (unchanged_holds store s). } { by rewrite Hat. } { by rewrite Hclear. }
    exists s', evs'. simpl. rewrite Hs, Hstr, Hstr1. split_and!; try done; [|by eapply replay_saved|].
    + intros id' Hid'. by rewrite Hoth, Hstr1.
    + intros m Hh'. apply Hm. by apply (law_unchanged 0 s s1).
Qed.

(** the whole write side.  A command the aggregate accepts is stored: the
    events it appended are added, as the store keeps them, to the aggregate's
    stream and to no other stream.  The aggregate is the one
    its stream replays to, and replaying the new stream gives the aggregate
    with the new events applied. *)
Theorem aggregate_handler_commits ctx at' c a0 a a1 a2 evs s :
  ctx_err ctx = None -> CheckCommand (Some c) = None ->
  store_ok s -> registered aggregates at' (AggregateID c) a0 ->
  typed at' (stream s (AggregateID c)) -> replay ctx (stream s (AggregateID c)) a0 = Some a ->
  a_HandleCommand ctx c a = (a1, None) ->
  a_versioned a1 = true -> a_ClearUncommittedEvents a1 = a ->
  a_UncommittedEvents a1 = somes evs ->
  (evs <> [] -> batch_for (AggregateID c) (len (stream s (AggregateID c))) evs) ->
  typed at' evs -> Forall storable evs -> holds s (len evs) -> replay ctx evs a = Some a2 ->
  exists s' evs', handler at' ctx (Some c) s = (Ok tt, s') /\ store_ok s' /\
    stream s' (AggregateID c) = stream s (AggregateID c) ++ evs' /\ Forall2 kept evs evs' /\
    (forall id', id' <> AggregateID c -> stream s' id' = stream s id') /\
    replay ctx (stream s' (AggregateID c)) a0 = Some a2.
Proof.
  intros. destruct (handler_commits ctx at' c a0 a a1 a2 evs s) as (s' & evs' & ? & ? & ? & ? & ? & ? & _);
    [done..|]. by exists s', evs'.
Qed.

Lemma handler_rejects ctx at' c a0 a s :
  store_ok s -> registered aggregates at' (AggregateID c) a0 ->
  typed at' (stream s (AggregateID c)) -> replay ctx (stream s (AggregateID c)) a0 = Some a ->
  match ctx_err ctx with
  | Some e => handler at' ctx (Some c) s = (Err (Sentinel (CtxErr e)), s)
  | None =>
      match CheckCommand (Some c) with
      | Some err => handler at' ctx (Some c) s = (Err err, s)
      | None => forall err, (a_HandleCommand ctx c a).2 = Some err ->
          exists s', handler at' ctx (Some c) s = (Err (AggregateError err), s') /\ unchanged 0 s s'
      end
  end.
Proof.
  intros Hok Hreg Hty Hr. destruct (ctx_err ctx) as [e|] eqn:Hctx.
  { unfold HandleCommand, ctx_check. by rewrite Hctx. }
  destruct (CheckCommand (Some c)) as [err|] eqn:Hc.
  { unfold HandleCommand, ctx_check, check_error. rewrite Hctx, Hc. done. }
  intros err Herr. destruct (handler_loads ctx at' c a0 a s) as (s1 & Hu & ->); [done..|].
  destruct (a_HandleCommand ctx c a) as [a' e]. simpl in Herr. subst. by exists s1.
Qed.

(** a refused command changes nothing.  Whatever the reason (a done
    context, a failed check, the aggregate's own refusal), the error is
    reported and nothing of the store is observed to change; the aggregate's
    refusal is wrapped in an [AggregateError]. *)
Theorem aggregate_handler_rejects ctx at' c a0 a s :
  store_ok s -> registered aggregates at' (AggregateID c) a0 ->
  typed at' (stream s (AggregateID c)) -> replay ctx (stream s (AggregateID c)) a0 = Some a ->
  match ctx_err ctx with
  | Some e => handler at' ctx (Some c) s = (Err (Sentinel (CtxErr e)), s)
  | None =>
      match CheckCommand (Some c) with
      | Some err => handler at' ctx (Some c) s = (Err err, s)
      | None => forall err, (a_HandleCommand ctx c a).2 = Some err ->
          exists s', handler at' ctx (Some c) s = (Err (AggregateError err), s') /\ unchanged 0 s s'
      end
  end.
Proof. apply handler_rejects. Qed.

End AggregateHandlerProperties.

(** ** The command bus *)

Section Bus.
Context {S : Type}.

Abbreviation Handlers := (gmap string (option (CommandHandlerFunc S))).

(** The read lock is held while the handler runs, so the table is fixed. *)
Definition bus_HandleCommand (handlers : Handlers) : CommandHandlerFunc S := fun ctx cmd =>
  do! ctx_check ctx in
  do! check_error (CheckCommand cmd) in
  let! c := deref cmd in
  match handlers !! CommandType c with
  | Some handler =>
      let! h := deref handler in
      h ctx cmd
  | None => throw (Sentinel ErrHandlerNotFound)
  end.

Definition SetHandler (handler : option (CommandHandlerFunc S)) (cmdType : string)
  : M Handlers unit :=
  let! handlers := gets (fun hs => hs) in
  match handlers !! cmdType with
  | Some _ => throw (Sentinel ErrHandlerAlreadySet)
  | None => modify (fun hs => <[cmdType := handler]> hs)
  end.

(** the bus routes a checked command to the handler set for its type and
    to no other, whatever else is registered; a handler, once set, cannot be
    replaced; a type without handler is [ErrHandlerNotFound]. *)
Theorem bus_routes_to_registered (handlers : Handlers) ct h ctx c s :
  ctx_err ctx = None -> CheckCommand (Some c) = None -> CommandType c = ct ->
  handlers !! ct = None ->
  bus_HandleCommand handlers ctx (Some c) s = (Err (Sentinel ErrHandlerNotFound), s) /\
  (exists hs, SetHandler (Some h) ct handlers = (Ok tt, hs) /\
    bus_HandleCommand hs ctx (Some c) s = h ctx (Some c) s /\
    (forall h' ct', (SetHandler h' ct' hs).2 !! ct = Some (Some h)) /\
    (forall h', SetHandler h' ct hs = (Err (Sentinel ErrHandlerAlreadySet), hs))).
Proof.
  intros Hctx Hc <- Hn.
  assert (forall hs : Handlers, bus_HandleCommand hs ctx (Some c) s =
    match hs !! CommandType c with
    | Some handler => (let! h := deref handler in h ctx (Some c)) s
    | None => (Err (Sentinel ErrHandlerNotFound), s)
    end) as Hbus.
  { intros hs. unfold bus_HandleCommand, ctx_check, check_error.
    rewrite Hctx, Hc. rewrite (bind_ok _ _ s s tt), (bind_ok _ _ s s tt) by done.
    rewrite (bind_ok _ _ s s c) by done. by destruct (hs !! CommandType c). }
  split.
  { rewrite Hbus. by rewrite Hn. }
  exists (<[CommandType c := Some h]> handlers).
  assert (<[CommandType c := Some h]> handlers !! CommandType c = Some (Some h)) as Hl
    by apply lookup_insert_eq.
  split; [|split; [|split]].
  - unfold SetHandler. rewrite (bind_ok _ _ handlers handlers handlers) by done. by rewrite Hn.
  - rewrite Hbus, Hl. by rewrite (bind_ok _ _ s s h).
  - intros h' ct'. unfold SetHandler, bind, gets, throw, modify.
    destruct (_ !! ct') as [x|] eqn:Hx; simpl; [done|].
    rewrite lookup_insert_ne; [done|]. intros ->. congruence.
  - intros h'. unfold SetHandler, bind, gets, throw. by rewrite Hl.
Qed.

End Bus.

(** ** Validation middleware *)

Section Validate.
Context {S : Type}.
(** [cmd.(Command)] of the validate package: [Some r] when the command has a
    [Validate] method, [r] being what it returns. *)
Context (as_Validate : command -> option (option error)).

Definition validate_NewMiddleware : CommandHandlerMiddleware S := fun h ctx cmd =>
  match cmd ≫= as_Validate with
  | Some (Some err) => throw (ValidateError err)
  | _ => h ctx cmd
  end.

End Validate.

(** ** Concrete inputs *)

Definition demo_command : command :=
  mkCommand id1 "todo" "todo:add" None [mkField "Text" "" "" None (RString "milk")] ANil.

Definition count_handler : CommandHandlerFunc Z := fun _ _ => modify (fun n => n + 1).

Lemma bus_routes_to_registered_witness :
  exists hs, SetHandler (Some count_handler) "todo:add" ∅ = (Ok tt, hs) /\
    bus_HandleCommand hs bg (Some demo_command) 4 = (Ok tt, 5) /\
    bus_HandleCommand (S := Z) ∅ bg (Some demo_command) 4 = (Err (Sentinel ErrHandlerNotFound), 4).
Proof.
  destruct (bus_routes_to_registered (S := Z) ∅ "todo:add" count_handler bg demo_command 4)
    as (Hn & hs & Hs & Hr & _).
  - reflexivity.
  - reflexivity.
  - reflexivity.
  - reflexivity.
  - exists hs. split; [exact Hs|]. split; [exact Hr|exact Hn].
Defined.
