(* ===== verification/Match.v ===== *)
(** * Matching and comparing events ([matcher.go], [compare.go])

    The four matchers and [CompareEvents] with its options.  The text of Go
    values in the error messages is a parameter. *)

From stdpp Require Import base gmap strings list numbers option pretty.
From Stdlib Require Import Lia ZArith.
From S2P Require Import Prelude.
From S2P Require Import GoTypes.
From S2P Require Import Event.
From S2P Require Import Command.
From S2P Require Import Errors.
From S2P Require Import Fixtures.

(** ** Matchers *)

(** The interface holds one of the package's matchers or a caller's own. *)
Inductive EventMatcher : Type :=
| MatchEvents (types : list string)
| MatchAggregates (types : list string)
| MatchAny (matchers : list EventMatcher)
| MatchAll (matchers : list EventMatcher)
| MatchFunc (match_ : option event -> bool).

Fixpoint match_events (types : list string) (e : option event) : bool :=
  match types with
  | [] => false
  | t :: types' =>
      match e with
      | Some ev => if bool_decide (eventType ev = t) then true else match_events types' e
      | None => match_events types' e
      end
  end.

Fixpoint match_aggregates (types : list string) (e : option event) : bool :=
  match types with
  | [] => false
  | t :: types' =>
      match e with
      | Some ev => if bool_decide (aggregateType ev = t) then true else match_aggregates types' e
      | None => match_aggregates types' e
      end
  end.

Fixpoint Match (m : EventMatcher) (e : option event) : bool :=
  match m with
  | MatchEvents types => match_events types e
  | MatchAggregates types => match_aggregates types e
  | MatchAny matchers =>
      (fix any (l : list EventMatcher) : bool :=
         match l with
         | [] => false
         | m :: l' => if Match m e then true else any l'
         end) matchers
  | MatchAll matchers =>
      (fix all (l : list EventMatcher) : bool :=
         match l with
         | [] => true
         | m :: l' => if negb (Match m e) then false else all l'
         end) matchers
  | MatchFunc f => f e
  end.

Lemma Match_any l e : Match (MatchAny l) e = existsb (fun m => Match m e) l.
Proof. simpl. induction l as [|m l IH]; [done|]. simpl. destruct (Match m e); [done|exact IH]. Qed.

Lemma Match_all l e : Match (MatchAll l) e = forallb (fun m => Match m e) l.
Proof. simpl. induction l as [|m l IH]; [done|]. simpl. destruct (Match m e); [exact IH|done]. Qed.

Lemma match_events_spec types e :
  match_events types e = true <-> exists ev, e = Some ev /\ eventType ev ∈ types.
Proof.
  induction types as [|t types IH]; simpl; [set_solver|].
  destruct e as [ev|]; [|rewrite IH; naive_solver].
  case_bool_decide; [|rewrite IH]; set_solver.
Qed.

Lemma match_aggregates_spec types e :
  match_aggregates types e = true <-> exists ev, e = Some ev /\ aggregateType ev ∈ types.
Proof.
  induction types as [|t types IH]; simpl; [set_solver|].
  destruct e as [ev|]; [|rewrite IH; naive_solver].
  case_bool_decide; [|rewrite IH]; set_solver.
Qed.

(** what each matcher accepts.  Type matchers accept exactly the non-nil
    events of a listed type and no nil event; [MatchAny] and [MatchAll] are the
    disjunction and the conjunction of their parts, so the empty [MatchAny]
    accepts nothing and the empty [MatchAll] accepts everything, nil included;
    nesting flattens. *)
Theorem Match_spec types l l' e :
  (Match (MatchEvents types) e = true <-> exists ev, e = Some ev /\ eventType ev ∈ types) /\
  (Match (MatchAggregates types) e = true <-> exists ev, e = Some ev /\ aggregateType ev ∈ types) /\
  (Match (MatchAny l) e = true <-> exists m, m ∈ l /\ Match m e = true) /\
  (Match (MatchAll l) e = true <-> forall m, m ∈ l -> Match m e = true) /\
  Match (MatchAny (MatchAny l :: l')) e = Match (MatchAny (l ++ l')) e /\
  Match (MatchAll (MatchAll l :: l')) e = Match (MatchAll (l ++ l')) e.
Proof.
  split; [apply match_events_spec|]. split; [apply match_aggregates_spec|].
  split; [|split; [|split]].
  - rewrite Match_any, existsb_exists. by setoid_rewrite list_elem_of_In.
  - rewrite Match_all, forallb_forall. by setoid_rewrite list_elem_of_In.
  - rewrite !Match_any, existsb_app. cbn [existsb]. by rewrite Match_any.
  - rewrite !Match_all, forallb_app. cbn [forallb]. by rewrite Match_all.
Qed.

(** ** Comparing events *)

Record CompareConfig : Type := mkCompareConfig {
  ignoreTimestamp : bool;
  ignoreVersion : bool;
  ignorePosition : bool
}.

Definition CompareOption : Type := CompareConfig -> CompareConfig.

Definition IgnoreTimestamp : CompareOption := fun o =>
  mkCompareConfig true (ignoreVersion o) (ignorePosition o).

Definition IgnoreVersion : CompareOption := fun o =>
  mkCompareConfig (ignoreTimestamp o) true (ignorePosition o).

Definition IgnorePositionMetadata : CompareOption := fun o =>
  mkCompareConfig (ignoreTimestamp o) (ignoreVersion o) true.

Fixpoint apply_compare_options (options : list (option CompareOption)) (o : CompareConfig)
  : CompareConfig :=
  match options with
  | [] => o
  | None :: options' => apply_compare_options options' o
  | Some f :: options' => apply_compare_options options' (f o)
  end.

Section Compare.
(** [fmt]'s text of times, IDs, data and maps. *)
Context (fmt_time : Time -> string) (uuid_String : UUID -> string)
  (fmt_any : any -> string) (fmt_map : gomap -> string).

Definition incorrect (what got want : string) : option error :=
  Some (ErrorString ("incorrect " +:+ what +:+ ": " +:+ got +:+ " (should be " +:+ want +:+ ")")).

(** The metadata maps live in [h]; with [ignorePosition] fresh maps without
    the position are compared, otherwise the events' own, nil or not. *)
Definition compared_map (h : heap) (opts : CompareConfig) (e : event) : gomap :=
  if ignorePosition opts then delete "position" (map_at h (metadata e)) else map_at h (metadata e).

Definition equal_metadata (h : heap) (opts : CompareConfig) (e1 e2 : event) : bool :=
  if ignorePosition opts
  then DeepEqual_entries (compared_map h opts e1) (compared_map h opts e2)
  else DeepEqual_map h (metadata e1) (metadata e2).

Definition CompareEvents (h : heap) (e1 e2 : event) (options : list (option CompareOption))
  : option error :=
  let opts := apply_compare_options options (mkCompareConfig false false false) in
  if bool_decide (eventType e1 <> eventType e2)
  then incorrect "event type" (eventType e1) (eventType e2)
  else if negb (DeepEqual (data e1) (data e2))
  then incorrect "event data" (fmt_any (data e1)) (fmt_any (data e2))
  else if negb (ignoreTimestamp opts) && negb (timestamp e1 =? timestamp e2)
  then incorrect "timestamp" (fmt_time (timestamp e1)) (fmt_time (timestamp e2))
  else if bool_decide (aggregateType e1 <> aggregateType e2)
  then incorrect "aggregate type" (aggregateType e1) (aggregateType e2)
  else if bool_decide (aggregateID e1 <> aggregateID e2)
  then incorrect "aggregate ID" (uuid_String (aggregateID e1)) (uuid_String (aggregateID e2))
  else if negb (ignoreVersion opts) && negb (version e1 =? version e2)
  then incorrect "version" (pretty (version e1)) (pretty (version e2))
  else if negb (equal_metadata h opts e1 e2)
  then incorrect "event metadata" (fmt_map (compared_map h opts e1)) (fmt_map (compared_map h opts e2))
  else None.

Fixpoint compare_each (h : heap) (evts1 evts2 : list event) (opts : list (option CompareOption)) : bool :=
  match evts1, evts2 with
  | e1 :: evts1', e2 :: evts2' =>
      match CompareEvents h e1 e2 opts with
      | Some _ => false
      | None => compare_each h evts1' evts2' opts
      end
  | _, _ => true
  end.

Definition CompareEventSlices (h : heap) (evts1 evts2 : list event)
    (opts : list (option CompareOption)) : bool :=
  if negb (len evts1 =? len evts2) then false else compare_each h evts1 evts2 opts.

(** What two events must agree on. *)
Definition agree (h : heap) (o : CompareConfig) (e1 e2 : event) : Prop :=
  eventType e1 = eventType e2 /\ DeepEqual (data e1) (data e2) = true /\
  (ignoreTimestamp o = false -> timestamp e1 = timestamp e2) /\
  aggregateType e1 = aggregateType e2 /\ aggregateID e1 = aggregateID e2 /\
  (ignoreVersion o = false -> version e1 = version e2) /\
  equal_metadata h o e1 e2 = true.

Lemma CompareEvents_agree h e1 e2 options :
  CompareEvents h e1 e2 options = None <->
  agree h (apply_compare_options options (mkCompareConfig false false false)) e1 e2.
Proof.
  unfold CompareEvents, agree. set (o := apply_compare_options _ _).
  case_bool_decide as H1; [split; [done|naive_solver]|].
  destruct (DeepEqual (data e1) (data e2)); cbn [negb]; [|split; [done|naive_solver]].
  destruct (ignoreTimestamp o), (Z.eqb_spec (timestamp e1) (timestamp e2)); cbn [negb andb];
    try (split; [done|naive_solver]).
  all: case_bool_decide as H2; [split; [done|naive_solver]|].
  all: case_bool_decide as H3; [split; [done|naive_solver]|].
  all: destruct (ignoreVersion o), (Z.eqb_spec (version e1) (version e2)); cbn [negb andb];
    try (split; [done|naive_solver]).
  all: destruct (equal_metadata h o e1 e2); cbn [negb]; split; naive_solver.
Qed.

(** [CompareEventSlices] accepts two slices exactly when they have the
    same length and agree position by position on everything the options do
    not exclude. *)
Theorem CompareEventSlices_spec h evts1 evts2 options :
  CompareEventSlices h evts1 evts2 options = true <->
  Forall2 (agree h (apply_compare_options options (mkCompareConfig false false false))) evts1 evts2.
Proof.
  unfold CompareEventSlices. set (o := apply_compare_options _ _).
  assert (forall l1 l2, length l1 = length l2 ->
    (compare_each h l1 l2 options = true <-> Forall2 (agree h o) l1 l2)) as Hc.
  { induction l1 as [|e1 l1 IH]; intros [|e2 l2] Hl; try done; simpl.
    pose proof (CompareEvents_agree h e1 e2 options) as Ha. fold o in Ha.
    rewrite Forall2_cons, <- Ha, <- IH by (simpl in Hl; lia).
    destruct (CompareEvents h e1 e2 options); naive_solver. }
  unfold len. destruct (Z.eqb_spec (Z.of_nat (length evts1)) (Z.of_nat (length evts2))) as [Hl|Hl]; cbn [negb].
  - apply Hc. lia.
  - split; [done|]. intros HF%Forall2_length. lia.
Qed.

End Compare.
