(* ===== verification/Context.v ===== *)
(** * Context values on the wire ([context.go], [namespace/context.go],
    [repo/version/context.go])

    The context keys of the packages, the registered marshal and unmarshal
    functions, and [MarshalContext], [UnmarshalContext], [CopyContext] over
    them.  The textual form of UUIDs is a parameter. *)

From stdpp Require Import base gmap strings list numbers option pretty.
From Stdlib Require Import Lia ZArith.
From S2P Require Import Prelude.
From S2P Require Import GoTypes.
From S2P Require Import Event.
From S2P Require Import Command.
From S2P Require Import Errors.
From S2P Require Import Fixtures.

Definition aggregateIDKeyStr : string := "eh_aggregate_id".
Definition aggregateTypeKeyStr : string := "eh_aggregate_type".
Definition commandTypeKeyStr : string := "eh_command_type".
Definition namespaceKeyStr : string := "eh_namespace".
Definition minVersionKeyStr : string := "eh_minversion".

(** ** Accessors *)

Definition AggregateIDFromContext (ctx : context) : option UUID :=
  as_uuid (Value ctx aggregateIDKey).

Definition AggregateTypeFromContext (ctx : context) : option string :=
  as_named "AggregateType" (Value ctx aggregateTypeKey).

Definition CommandTypeFromContext (ctx : context) : option string :=
  as_named "CommandType" (Value ctx commandTypeKey).

Definition NewContextWithAggregateID (ctx : context) (id : UUID) : context :=
  WithValue ctx aggregateIDKey (AUUID id).

Definition NewContextWithAggregateType (ctx : context) (t : string) : context :=
  WithValue ctx aggregateTypeKey (ANamed "AggregateType" t).

Definition NewContextWithCommandType (ctx : context) (t : string) : context :=
  WithValue ctx commandTypeKey (ANamed "CommandType" t).

Definition DefaultNamespace : string := "default".

Definition NamespaceFromContext (ctx : context) : string :=
  match as_string (Value ctx namespaceKey) with
  | Some ns => ns
  | None => DefaultNamespace
  end.

Definition NewContextWithNamespace (ctx : context) (ns : string) : context :=
  WithValue ctx namespaceKey (AString ns).

Definition MinVersionFromContext (ctx : context) : option Z :=
  as_int (Value ctx minVersionKey).

Definition NewContextWithMinVersion (ctx : context) (minVersion : Z) : context :=
  WithValue ctx minVersionKey (AInt minVersion).

Definition DefaultMinVersionDeadline : Z := 10 * Second.

(** [context.WithTimeout]: the earlier of the two deadlines. *)
Definition WithTimeout (ctx : context) (now : Time) (d : Z) : context :=
  let t := Add now d in
  mkContext (ctx_vals ctx)
    (match ctx_deadline ctx with
     | Some t' => Some (Z.min t' t)
     | None => Some t
     end) (ctx_err ctx).

Definition NewContextWithMinVersionWait (ctx : context) (now : Time) (minVersion : Z) : context :=
  WithTimeout (NewContextWithMinVersion ctx minVersion) now DefaultMinVersionDeadline.

(** ** The registered functions *)

(** They write into the map they are given. *)
Definition ContextMarshalFunc : Type := context -> gomap -> gomap.
Definition ContextUnmarshalFunc : Type := context -> gomap -> context.

Definition set_val (k : string) (v : option any) (vals : gomap) : gomap :=
  match v with Some x => <[k := x]> vals | None => vals end.

Section Marshal.
Context (uuid_String : UUID -> string) (uuid_Parse : string -> option UUID).

Definition eh_marshaler : ContextMarshalFunc := fun ctx vals =>
  let vals := set_val aggregateIDKeyStr
    ((fun id => AString (uuid_String id)) <$> AggregateIDFromContext ctx) vals in
  let vals := set_val aggregateTypeKeyStr (AString <$> AggregateTypeFromContext ctx) vals in
  set_val commandTypeKeyStr (AString <$> CommandTypeFromContext ctx) vals.

Definition at_key (vals : gomap) (k : string) : any := default ANil (vals !! k).

Definition eh_unmarshaler : ContextUnmarshalFunc := fun ctx vals =>
  let ctx := match as_string (at_key vals aggregateIDKeyStr) ≫= uuid_Parse with
             | Some id => NewContextWithAggregateID ctx id
             | None => ctx
             end in
  let ctx := match as_string (at_key vals aggregateTypeKeyStr) with
             | Some t => NewContextWithAggregateType ctx t
             | None => ctx
             end in
  match as_string (at_key vals commandTypeKeyStr) with
  | Some t => NewContextWithCommandType ctx t
  | None => ctx
  end.

Definition namespace_marshaler : ContextMarshalFunc := fun ctx vals =>
  set_val namespaceKeyStr (AString <$> as_string (Value ctx namespaceKey)) vals.

Definition namespace_unmarshaler : ContextUnmarshalFunc := fun ctx vals =>
  match as_string (at_key vals namespaceKeyStr) with
  | Some ns => NewContextWithNamespace ctx ns
  | None => ctx
  end.

Definition version_marshaler : ContextMarshalFunc := fun ctx vals =>
  set_val minVersionKeyStr (AInt <$> as_int (Value ctx minVersionKey)) vals.

Definition version_unmarshaler : ContextUnmarshalFunc := fun ctx vals =>
  match as_int (at_key vals minVersionKeyStr) with
  | Some v => NewContextWithMinVersion ctx v
  | None =>
      match as_float64 (at_key vals minVersionKeyStr) with
      | Some f => NewContextWithMinVersion ctx (float_to_int f)
      | None => ctx
      end
  end.

(** ** Marshaling *)

Definition RegisterContextMarshaler (f : ContextMarshalFunc) (fs : list ContextMarshalFunc)
  : list ContextMarshalFunc := fs ++ [f].

Definition RegisterContextUnmarshaler (f : ContextUnmarshalFunc) (fs : list ContextUnmarshalFunc)
  : list ContextUnmarshalFunc := fs ++ [f].

(** The inner loop: the entries of one function's map. *)
Fixpoint add_vals (vals : list (string * any)) (allVals : gomap) : result gomap :=
  match vals with
  | [] => Ok allVals
  | (k, v) :: vals' =>
      match allVals !! k with
      | Some _ => Panic ("duplicate context entry for: " +:+ k)
      | None => add_vals vals' (<[k := v]> allVals)
      end
  end.

Fixpoint marshal_from (fs : list ContextMarshalFunc) (ctx : context) (allVals : gomap)
  : result gomap :=
  match fs with
  | [] => Ok allVals
  | f :: fs' =>
      match add_vals (map_to_list (f ctx ∅)) allVals with
      | Ok allVals => marshal_from fs' ctx allVals
      | o => o
      end
  end.

Definition MarshalContext (fs : list ContextMarshalFunc) (ctx : context) : result gomap :=
  marshal_from fs ctx ∅.

(** [vals] is [None] for the nil map. *)
Definition UnmarshalContext (fs : list ContextUnmarshalFunc) (ctx : context) (vals : option gomap)
  : context :=
  match vals with
  | None => ctx
  | Some vals => fold_left (fun ctx f => f ctx vals) fs ctx
  end.

Definition CopyContext (ms : list ContextMarshalFunc) (us : list ContextUnmarshalFunc)
    (from to : context) : result context :=
  match MarshalContext ms from with
  | Ok vals => Ok (UnmarshalContext us to (Some vals))
  | Err e => Err e
  | Panic p => Panic p
  end.

(** What the packages' [init] functions register. *)
Definition marshalers : list ContextMarshalFunc :=
  RegisterContextMarshaler version_marshaler
    (RegisterContextMarshaler namespace_marshaler
      (RegisterContextMarshaler eh_marshaler [])).

Definition unmarshalers : list ContextUnmarshalFunc :=
  RegisterContextUnmarshaler version_unmarshaler
    (RegisterContextUnmarshaler namespace_unmarshaler
      (RegisterContextUnmarshaler eh_unmarshaler [])).

(** ** Marshaling in general *)

Lemma add_vals_disjoint m acc :
  m ##ₘ acc -> add_vals (map_to_list m) acc = Ok (m ∪ acc).
Proof.
  revert acc. induction m as [|k v m Hk Hfirst IH] using map_first_key_ind; intros acc Hd.
  - by rewrite map_to_list_empty, (left_id_L ∅ (∪)).
  - rewrite map_to_list_insert_first_key by done. simpl.
    apply map_disjoint_insert_l in Hd as [Hacc Hd]. rewrite Hacc.
    rewrite IH by by apply map_disjoint_insert_r.
    by rewrite <- insert_union_r, insert_union_l.
Qed.

Lemma add_vals_duplicate m acc k v w :
  m !! k = Some v -> acc !! k = Some w -> exists p, add_vals (map_to_list m) acc = Panic p.
Proof.
  intros Hm Ha. apply elem_of_map_to_list in Hm.
  revert acc Ha. induction (map_to_list m) as [|[k' v'] l IH]; intros acc Ha; [by apply not_elem_of_nil in Hm|].
  simpl. destruct (acc !! k') eqn:Hk'; [by eexists|].
  apply elem_of_cons in Hm as [Heq|Hm]; [congruence|].
  apply IH; [done|]. rewrite lookup_insert_ne; [done|]. congruence.
Qed.

Lemma set_val_lookup k k' v m :
  set_val k v m !! k' =
  match v with Some x => if decide (k = k') then Some x else m !! k' | None => m !! k' end.
Proof.
  destruct v as [x|]; simpl; [|done]. case_decide as Hk; [subst; apply lookup_insert_eq|].
  by apply lookup_insert_ne.
Qed.

Lemma set_val_eq k v m : set_val k v m !! k = union v (m !! k).
Proof. rewrite set_val_lookup. destruct v, (m !! k); rewrite ?decide_True; done. Qed.

Lemma set_val_ne k k' v m : k <> k' -> set_val k v m !! k' = m !! k'.
Proof. intros. rewrite set_val_lookup. destruct v; [by rewrite decide_False|done]. Qed.

Lemma set_val_disjoint k v m acc : acc !! k = None -> m ##ₘ acc -> set_val k v m ##ₘ acc.
Proof. intros Hk Hm. destruct v; simpl; [by apply map_disjoint_insert_l_2|done]. Qed.

(** The wire form the packages' functions give. *)
Definition wire (ctx : context) : gomap :=
  version_marshaler ctx ∅ ∪ (namespace_marshaler ctx ∅ ∪ (eh_marshaler ctx ∅ ∪ ∅)).

Lemma marshalers_wire ctx : MarshalContext marshalers ctx = Ok (wire ctx).
Proof.
  unfold MarshalContext, marshalers, RegisterContextMarshaler. cbn [app marshal_from].
  rewrite add_vals_disjoint by apply map_disjoint_empty_r. cbn [marshal_from].
  rewrite add_vals_disjoint.
  2: { apply set_val_disjoint; [|apply map_disjoint_empty_l].
       rewrite (right_id_L ∅ (∪)). unfold eh_marshaler. rewrite !set_val_lookup.
       by repeat case_match. }
  cbn [marshal_from]. rewrite add_vals_disjoint; [done|].
  apply set_val_disjoint; [|apply map_disjoint_empty_l].
  rewrite (right_id_L ∅ (∪)). unfold eh_marshaler, namespace_marshaler.
  rewrite lookup_union, !set_val_lookup. by repeat case_match.
Qed.

Lemma wire_lookup ctx k :
  wire ctx !! k =
  if decide (k = aggregateIDKeyStr) then
    (fun id => AString (uuid_String id)) <$> AggregateIDFromContext ctx
  else if decide (k = aggregateTypeKeyStr) then AString <$> AggregateTypeFromContext ctx
  else if decide (k = commandTypeKeyStr) then AString <$> CommandTypeFromContext ctx
  else if decide (k = namespaceKeyStr) then AString <$> as_string (Value ctx namespaceKey)
  else if decide (k = minVersionKeyStr) then AInt <$> as_int (Value ctx minVersionKey)
  else None.
Proof.
  unfold wire, version_marshaler, namespace_marshaler, eh_marshaler.
  rewrite (right_id_L ∅ (∪)), !lookup_union.
  repeat case_decide; subst; repeat first
    [ rewrite set_val_eq | rewrite set_val_ne by done | rewrite lookup_empty
    | rewrite (left_id_L None (∪)) | rewrite (right_id_L None (∪)) ]; done.
Qed.

Lemma WithValue_Value c k v k' :
  Value (WithValue c k v) k' = if decide (k' = k) then v else Value c k'.
Proof. reflexivity. Qed.

Lemma eh_unmarshaler_Value ctx vals k :
  Value (eh_unmarshaler ctx vals) k =
  match k with
  | aggregateIDKey =>
      from_option AUUID (Value ctx k) (as_string (at_key vals aggregateIDKeyStr) ≫= uuid_Parse)
  | aggregateTypeKey =>
      from_option (ANamed "AggregateType") (Value ctx k) (as_string (at_key vals aggregateTypeKeyStr))
  | commandTypeKey =>
      from_option (ANamed "CommandType") (Value ctx k) (as_string (at_key vals commandTypeKeyStr))
  | _ => Value ctx k
  end.
Proof.
  unfold eh_unmarshaler, NewContextWithAggregateID, NewContextWithAggregateType, NewContextWithCommandType.
  destruct (as_string (at_key vals aggregateIDKeyStr) ≫= uuid_Parse),
    (as_string (at_key vals aggregateTypeKeyStr)), (as_string (at_key vals commandTypeKeyStr));
    rewrite ?WithValue_Value; by destruct k.
Qed.

Lemma namespace_unmarshaler_Value ctx vals k :
  Value (namespace_unmarshaler ctx vals) k =
  match k with
  | namespaceKey => from_option AString (Value ctx k) (as_string (at_key vals namespaceKeyStr))
  | _ => Value ctx k
  end.
Proof.
  unfold namespace_unmarshaler, NewContextWithNamespace.
  destruct (as_string (at_key vals namespaceKeyStr)); rewrite ?WithValue_Value; by destruct k.
Qed.

Lemma version_unmarshaler_Value ctx vals k :
  Value (version_unmarshaler ctx vals) k =
  match k with
  | minVersionKey =>
      match at_key vals minVersionKeyStr with
      | AInt v => AInt v
      | AFloat64 f => AInt (float_to_int f)
      | _ => Value ctx k
      end
  | _ => Value ctx k
  end.
Proof.
  unfold version_unmarshaler, NewContextWithMinVersion.
  destruct (at_key vals minVersionKeyStr); simpl; rewrite ?WithValue_Value; by destruct k.
Qed.

Lemma unmarshalers_frame ctx vals :
  let c := version_unmarshaler (namespace_unmarshaler (eh_unmarshaler ctx vals) vals) vals in
  ctx_deadline c = ctx_deadline ctx /\ ctx_err c = ctx_err ctx.
Proof.
  unfold version_unmarshaler, namespace_unmarshaler, eh_unmarshaler.
  split; repeat (case_match; simpl; try done).
Qed.

Ltac closed_decides :=
  repeat first [ rewrite decide_True by done | rewrite decide_False by done ].

(** copying a context's values.  Every registered value that the source
    context holds arrives in the target, over what the target had; values the
    source does not hold stay as the target had them; deadline, cancellation
    and all other values are the target's own.  The marshaling step never
    panics, for no two registered functions write the same entry. *)
Theorem CopyContext_copies_registered_values from to :
  (forall id, uuid_Parse (uuid_String id) = Some id) ->
  exists c, CopyContext marshalers unmarshalers from to = Ok c /\
    AggregateIDFromContext c = union (AggregateIDFromContext from) (AggregateIDFromContext to) /\
    AggregateTypeFromContext c = union (AggregateTypeFromContext from) (AggregateTypeFromContext to) /\
    CommandTypeFromContext c = union (CommandTypeFromContext from) (CommandTypeFromContext to) /\
    MinVersionFromContext c = union (MinVersionFromContext from) (MinVersionFromContext to) /\
    as_string (Value c namespaceKey) =
      union (as_string (Value from namespaceKey)) (as_string (Value to namespaceKey)) /\
    (forall n, Value c (otherKey n) = Value to (otherKey n)) /\
    ctx_deadline c = ctx_deadline to /\ ctx_err c = ctx_err to.
Proof.
  intros Hparse. unfold CopyContext. rewrite marshalers_wire. eexists. split; [done|].
  unfold unmarshalers, RegisterContextUnmarshaler, UnmarshalContext. cbn [app fold_left].
  unfold AggregateIDFromContext at 1, AggregateTypeFromContext at 1, CommandTypeFromContext at 1,
    MinVersionFromContext.
  split_and!; intros; try apply unmarshalers_frame;
    rewrite !version_unmarshaler_Value, ?namespace_unmarshaler_Value, ?eh_unmarshaler_Value;
    unfold at_key; rewrite ?wire_lookup; closed_decides.
  - destruct (AggregateIDFromContext from) as [id|]; cbn -[Value]; [rewrite Hparse; cbn -[Value]|];
      unfold AggregateIDFromContext; by destruct (as_uuid _).
  - destruct (AggregateTypeFromContext from) as [ty|]; cbn -[Value];
      unfold AggregateTypeFromContext; by destruct (as_named _ _).
  - destruct (CommandTypeFromContext from) as [ty|]; cbn -[Value];
      unfold CommandTypeFromContext; by destruct (as_named _ _).
  - destruct (as_int (Value from _)) as [v|]; cbn -[Value]; by destruct (as_int _).
  - destruct (as_string (Value from _)) as [v|]; cbn -[Value]; by destruct (as_string _).
  - done.
Qed.

End Marshal.

Lemma CopyContext_copies_registered_values_witness :
  exists c, CopyContext (marshalers uuid_to_bits) (unmarshalers uuid_of_bits)
      (NewContextWithAggregateID (NewContextWithNamespace bg "ns") id2)
      (NewContextWithMinVersion (NewContextWithAggregateID bg id1) 7) = Ok c /\
    AggregateIDFromContext c = Some id2 /\ MinVersionFromContext c = Some 7 /\
    NamespaceFromContext c = "ns".
Proof.
  destruct (CopyContext_copies_registered_values uuid_to_bits uuid_of_bits
    (NewContextWithAggregateID (NewContextWithNamespace bg "ns") id2)
    (NewContextWithMinVersion (NewContextWithAggregateID bg id1) 7) uuid_of_to_bits)
    as (c & Hc & Hid & _ & _ & Hv & Hns & _).
  exists c. split; [exact Hc|]. split; [exact Hid|]. split; [exact Hv|].
  unfold NamespaceFromContext. by rewrite Hns.
Defined.
