(* ===== verification/Repo.v ===== *)
(** * Read model repositories ([repo.go], [entity.go], [repo/memory])

    [Entity] is the Go interface with the optional [Versionable];
    [ReadWriteRepo] the repository interface as programs over the repository's
    state; [RepoLaws] what a repository promises, against the abstract view of
    a finite map from IDs to entities.  [MemRepo] is the in-memory repository,
    which keeps JSON text; [encoding/json] is a parameter. *)

From stdpp Require Import base gmap strings list numbers option pretty.
From Stdlib Require Import Lia ZArith.
From S2P Require Import Prelude.
From S2P Require Import GoTypes.
From S2P Require Import Event.
From S2P Require Import Command.
From S2P Require Import Errors.
From S2P Require Import Fixtures.

Class Entity (E : Type) : Type := {
  EntityID : E -> UUID;
  (** [entity.(Versionable)] and its [AggregateVersion] *)
  Versionable : E -> option Z
}.

Record ReadWriteRepo (S E : Type) : Type := mkRepo {
  Find : context -> UUID -> M S E;
  FindAll : context -> M S (list E);
  Save : context -> option E -> M S unit;
  Remove : context -> UUID -> M S unit;
  Close : M S unit
}.
Arguments mkRepo {S E}.
Arguments Find {S E}.
Arguments FindAll {S E}.
Arguments Save {S E}.
Arguments Remove {S E}.
Arguments Close {S E}.

(** ** Finding a repository in a stack of wrapped ones *)

(** A [ReadRepo] value: its dynamic type and what [InnerRepo] returns; [None]
    is the nil interface. *)
Inductive repo_value : Type := RepoValue (ty : string) (InnerRepo : option repo_value).

Fixpoint IntoRepo_value (T : string) (r : repo_value) : option repo_value :=
  match r with
  | RepoValue ty inner =>
      if bool_decide (ty = T) then Some r
      else match inner with
           | Some r' => IntoRepo_value T r'
           | None => None
           end
  end.

Definition IntoRepo (T : string) (repo : option repo_value) : option repo_value :=
  repo ≫= IntoRepo_value T.

(** ** What a repository promises *)

Class RepoLaws {S E : Type} `{Entity E} (repo : ReadWriteRepo S E) : Type := {
  repo_ok : S -> Prop;
  entities : S -> gmap UUID E;
  (** entities the repository can keep faithfully *)
  keepable : E -> Prop;

  law_entity_id s id e : repo_ok s -> entities s !! id = Some e -> EntityID e = id;

  law_find ctx s id e :
    repo_ok s -> entities s !! id = Some e ->
    exists s', Find repo ctx id s = (Ok e, s') /\ repo_ok s' /\ entities s' = entities s;

  law_find_missing ctx s id :
    repo_ok s -> entities s !! id = None ->
    exists err s', Find repo ctx id s = (Err err, s') /\
      errors_Is err ErrEntityNotFound = true /\
      errors_Is err ErrIncorrectEntityVersion = false /\
      repo_ok s' /\ entities s' = entities s;

  law_find_all ctx s :
    repo_ok s ->
    exists es s', FindAll repo ctx s = (Ok es, s') /\ repo_ok s' /\ entities s' = entities s /\
      es ≡ₚ (map_to_list (entities s)).*2;

  law_save ctx s e :
    repo_ok s -> keepable e -> EntityID e <> Nil ->
    exists s', Save repo ctx (Some e) s = (Ok tt, s') /\ repo_ok s' /\
      entities s' = <[EntityID e := e]> (entities s);

  law_remove ctx s id e :
    repo_ok s -> entities s !! id = Some e ->
    exists s', Remove repo ctx id s = (Ok tt, s') /\ repo_ok s' /\
      entities s' = delete id (entities s)
}.

(** What a repository that keeps the contract refuses. *)
Class RepoRefuses {S E : Type} `{Entity E} (repo : ReadWriteRepo S E) `{!RepoLaws repo} : Prop := {
  law_save_nil ctx s e :
    repo_ok s -> EntityID e = Nil ->
    exists err s', Save repo ctx (Some e) s = (Err err, s') /\
      errors_As as_RepoError err = Some (Some (ErrorString "missing entity ID")) /\
      repo_ok s' /\ entities s' = entities s;

  law_remove_missing ctx s id :
    repo_ok s -> entities s !! id = None ->
    exists err s', Remove repo ctx id s = (Err err, s') /\
      errors_Is err ErrEntityNotFound = true /\ repo_ok s' /\ entities s' = entities s
}.

(** ** The in-memory repository *)

Module MemRepo.

Section Repo.
Context {E : Type} `{Entity E}.

Abbreviation bytes := (list Byte.byte).

(** [encoding/json] on the entity type: [json_Unmarshal b e] decodes into the
    value [e] the factory made. *)
Context (json_Marshal : E -> bytes + error).
Context (json_Unmarshal : bytes -> E -> E + error).

Record Repo : Type := mkMemRepo {
  db : gmap UUID bytes;
  ids : list UUID;
  factoryFn : option (unit -> E)
}.

Definition NewRepo : Repo := mkMemRepo ∅ [] None.

Definition from_sum {S A} (r : A + error) : M S A :=
  match r with inl a => ret a | inr err => throw err end.

Definition Find (ctx : context) (id : UUID) : M Repo E :=
  let fail err := RepoError (Some err) RepoOpFind id in
  let! r := gets (fun r => r) in
  match factoryFn r with
  | None => throw (fail (Sentinel Repo_ErrModelNotSet))
  | Some factory =>
      match db r !! id with
      | None => throw (fail (Sentinel ErrEntityNotFound))
      | Some b =>
          map_err (fun err => fail (Errorf "could not unmarshal" err))
            (from_sum (json_Unmarshal b (factory tt)))
      end
  end.

(** The loop of [FindAll]. *)
Fixpoint find_each (factory : unit -> E) (l : list UUID) : M Repo (list E) :=
  match l with
  | [] => ret []
  | id :: l' =>
      let! r := gets (fun r => r) in
      match db r !! id with
      | None => find_each factory l'
      | Some b =>
          let! e := map_err (fun err => RepoError (Some (Errorf "could not unmarshal" err))
                                          RepoOpFindAll Nil)
                      (from_sum (json_Unmarshal b (factory tt))) in
          let! es := find_each factory l' in
          ret (e :: es)
      end
  end.

Definition FindAll (ctx : context) : M Repo (list E) :=
  let! r := gets (fun r => r) in
  match factoryFn r with
  | None => throw (RepoError (Some (Sentinel Repo_ErrModelNotSet)) RepoOpFindAll Nil)
  | Some factory => find_each factory (ids r)
  end.

Definition Save (ctx : context) (entity : option E) : M Repo unit :=
  let! r := gets (fun r => r) in
  match factoryFn r with
  | None => throw (RepoError (Some (Sentinel Repo_ErrModelNotSet)) RepoOpSave Nil)
  | Some _ =>
      let! e := deref entity in
      let id := EntityID e in
      if bool_decide (id = Nil)
      then throw (RepoError (Some (ErrorString "missing entity ID")) RepoOpSave Nil)
      else
        let! b := map_err (fun err => RepoError (Some (Errorf "could not marshal" err)) RepoOpSave id)
                    (from_sum (json_Marshal e)) in
        modify (fun r =>
          mkMemRepo (<[id := b]> (db r))
            (match db r !! id with Some _ => ids r | None => ids r ++ [id] end)
            (factoryFn r))
  end.

(** The search for the index, [-1] when there is none. *)
Fixpoint index_of (id : UUID) (l : list UUID) : option nat :=
  match l with
  | [] => None
  | d :: l' => if bool_decide (id = d) then Some 0%nat else S <$> index_of id l'
  end.

Definition Remove (ctx : context) (id : UUID) : M Repo unit :=
  let! r := gets (fun r => r) in
  match db r !! id with
  | Some _ =>
      do! modify (fun r => mkMemRepo (delete id (db r)) (ids r) (factoryFn r)) in
      match index_of id (ids r) with
      | Some index =>
          modify (fun r => mkMemRepo (db r) (take index (ids r) ++ drop (S index) (ids r)) (factoryFn r))
      | None => panic "slice bounds out of range [:-1]"
      end
  | None => throw (RepoError (Some (Sentinel ErrEntityNotFound)) RepoOpRemove id)
  end.

Definition SetEntityFactory (f : option (unit -> E)) (r : Repo) : Repo :=
  mkMemRepo (db r) (ids r) f.

Definition Close : M Repo unit := ret tt.

Definition memory_Repo : ReadWriteRepo Repo E := mkRepo Find FindAll Save Remove Close.

(** ** The invariant: the index lists every stored ID once *)

Definition index_ok (r : Repo) : Prop :=
  NoDup (ids r) /\ (forall id, id ∈ ids r <-> is_Some (db r !! id)).

Lemma index_of_spec id l :
  match index_of id l with
  | Some i => exists pre post, l = pre ++ id :: post /\ length pre = i
  | None => id ∉ l
  end.
Proof.
  induction l as [|d l IH]; simpl; [apply not_elem_of_nil|].
  case_bool_decide as Hd; [subst; by exists [], l|].
  destruct (index_of id l); simpl.
  - destruct IH as (pre & post & -> & <-). by exists (d :: pre), post.
  - by apply not_elem_of_cons.
Qed.

Lemma Remove_index ctx id r b :
  index_ok r -> db r !! id = Some b ->
  exists pre post, ids r = pre ++ id :: post /\
    Remove ctx id r = (Ok tt, mkMemRepo (delete id (db r)) (pre ++ post) (factoryFn r)).
Proof.
  intros [Hnd Hids] Hb. unfold Remove.
  rewrite (bind_ok _ _ r r r) by done. rewrite Hb.
  rewrite (bind_ok _ _ r (mkMemRepo (delete id (db r)) (ids r) (factoryFn r)) tt) by done.
  pose proof (index_of_spec id (ids r)) as Hi.
  destruct (index_of id (ids r)) as [i|].
  - destruct Hi as (pre & post & Hl & <-). exists pre, post. split; [done|].
    unfold modify. simpl. rewrite Hl. do 2 f_equal.
    rewrite take_app_length, drop_app_ge by lia.
    by replace (S (length pre) - length pre)%nat with 1%nat by lia.
  - exfalso. apply Hi, Hids. by eexists.
Qed.

Lemma index_ok_remove r id pre post :
  index_ok r -> ids r = pre ++ id :: post ->
  index_ok (mkMemRepo (delete id (db r)) (pre ++ post) (factoryFn r)).
Proof.
  intros [Hnd Hids] Hl. rewrite Hl in *. split; simpl.
  - apply NoDup_app in Hnd as (H1 & H2 & [H3 H4]%NoDup_cons). apply NoDup_app. set_solver.
  - intros id'. destruct (decide (id' = id)) as [->|Hne].
    + rewrite lookup_delete_eq. split; [|by intros []].
      apply NoDup_app in Hnd as (_ & Hd & [Hp _]%NoDup_cons). set_solver.
    + rewrite lookup_delete_ne by done. rewrite <- Hids. set_solver.
Qed.

Lemma index_ok_save r id b :
  index_ok r ->
  index_ok (mkMemRepo (<[id := b]> (db r))
              (match db r !! id with Some _ => ids r | None => ids r ++ [id] end) (factoryFn r)).
Proof.
  intros [Hnd Hids]. destruct (db r !! id) as [b0|] eqn:Hb; split; simpl.
  - done.
  - intros id'. rewrite Hids. destruct (decide (id' = id)) as [->|];
      [rewrite lookup_insert_eq, Hb; split; by eexists|by rewrite lookup_insert_ne].
  - apply NoDup_app. split; [done|]. split; [|apply NoDup_singleton].
    intros x Hx ->%list_elem_of_singleton. apply Hids in Hx as [? Hx]. congruence.
  - intros id'. rewrite elem_of_app, list_elem_of_singleton, Hids.
    destruct (decide (id' = id)) as [->|];
      [rewrite lookup_insert_eq; split; [by eexists|by right]|rewrite lookup_insert_ne by done; naive_solver].
Qed.

(** the index of the in-memory repository always lists exactly the stored
    IDs, each once, whatever the outcome of an operation; in particular
    [Remove] never cuts its index at [-1]. *)
Theorem index_preserved ctx id entity r :
  index_ok r ->
  index_ok (Save ctx entity r).2 /\ index_ok (Remove ctx id r).2 /\
  (Find ctx id r).2 = r /\ (forall p, (Remove ctx id r).1 <> Panic p).
Proof.
  intros Hok. split; [|split; [|split]].
  - unfold Save, bind, gets. destruct (factoryFn r) as [f|]; [|done].
    destruct entity as [e|]; [|done]. simpl. case_bool_decide; [done|].
    unfold map_err, from_sum. destruct (json_Marshal e) as [b|err]; [|done].
    unfold ret, modify. simpl. by apply index_ok_save.
  - destruct (db r !! id) as [b|] eqn:Hb.
    + destruct (Remove_index ctx id r b Hok Hb) as (pre & post & Hl & ->).
      by apply index_ok_remove.
    + unfold Remove, bind, gets. by rewrite Hb.
  - unfold Find, bind, gets. destruct (factoryFn r); [|done]. destruct (db r !! id); [|done].
    unfold map_err, from_sum. by destruct (json_Unmarshal _ _).
  - intros p. destruct (db r !! id) as [b|] eqn:Hb.
    + by destruct (Remove_index ctx id r b Hok Hb) as (pre & post & Hl & ->).
    + unfold Remove, bind, gets. by rewrite Hb.
Qed.

(** ** The abstract view *)

Context (zero : E).

Definition decode (b : bytes) : option E :=
  match json_Unmarshal b zero with inl e => Some e | inr _ => None end.

Definition entities_of (r : Repo) : gmap UUID E := omap decode (db r).

Definition mem_ok (r : Repo) : Prop :=
  index_ok r /\ (exists f, factoryFn r = Some f /\ f tt = zero) /\
  map_Forall (fun id b => exists e, json_Unmarshal b zero = inl e /\ EntityID e = id) (db r).

(** Entities that survive the round trip through JSON. *)
Definition json_roundtrips (e : E) : Prop :=
  exists b, json_Marshal e = inl b /\ json_Unmarshal b zero = inl e.

Lemma entities_of_lookup r id e :
  entities_of r !! id = Some e <->
  exists b, db r !! id = Some b /\ json_Unmarshal b zero = inl e.
Proof.
  unfold entities_of. rewrite lookup_omap. unfold decode.
  destruct (db r !! id) as [b|]; simpl.
  - destruct (json_Unmarshal b zero) as [e'|err] eqn:Hj.
    + split; [intros [= ->]; by exists b|]. intros (b' & [= <-] & Hb'). congruence.
    + split; [done|]. intros (b' & [= <-] & Hb'). congruence.
  - split; [done|]. by intros (b' & ? & _).
Qed.

Lemma entities_of_missing r id : mem_ok r -> entities_of r !! id = None -> db r !! id = None.
Proof.
  intros (_ & _ & Hdb) He. destruct (db r !! id) as [b|] eqn:Hb; [|done].
  destruct (Hdb _ _ Hb) as (e & He' & _).
  assert (entities_of r !! id = Some e) by (apply entities_of_lookup; eauto). congruence.
Qed.

Lemma find_each_ok f l r :
  f tt = zero -> (forall id, id ∈ l -> is_Some (entities_of r !! id)) ->
  exists es, find_each f l r = (Ok es, r) /\
    Forall2 (fun id e => entities_of r !! id = Some e) l es.
Proof.
  intros Hf. induction l as [|id l IH]; intros Hl; [by exists []|].
  destruct IH as (es & Hes & HF); [set_solver|].
  destruct (Hl id) as [e He]; [set_solver|].
  exists (e :: es). split; [|by constructor].
  apply entities_of_lookup in He as (b & Hb & Hj). simpl.
  rewrite (bind_ok _ _ r r r) by done. rewrite Hb.
  rewrite (bind_ok _ _ r r e) by (apply map_err_ok; by rewrite Hf, Hj).
  by rewrite (bind_ok _ _ r r es).
Qed.

Lemma listed_entities r es :
  mem_ok r -> Forall2 (fun id e => entities_of r !! id = Some e) (ids r) es ->
  es ≡ₚ (map_to_list (entities_of r)).*2.
Proof.
  intros ((Hnd & Hids) & _ & Hdb) HF.
  assert (zip (ids r) es ≡ₚ map_to_list (entities_of r)) as Hp.
  { apply NoDup_Permutation.
    - apply (NoDup_fmap_1 fst). by rewrite fst_zip by (by rewrite (Forall2_length _ _ _ HF)).
    - apply NoDup_map_to_list.
    - intros [id e]. rewrite elem_of_map_to_list. split.
      + intros (i & Hi)%list_elem_of_lookup. apply lookup_zip_Some in Hi as [H1 H2].
        eapply Forall2_lookup_lr in HF; [|done..]. done.
      + intros He. assert (id ∈ ids r) as (i & Hi)%list_elem_of_lookup.
        { apply Hids. apply entities_of_lookup in He as (b & Hb & _). by eexists. }
        destruct (Forall2_lookup_l _ _ _ _ _ HF Hi) as (e' & He' & Heq).
        apply list_elem_of_lookup. exists i. apply lookup_zip_Some. naive_solver. }
  rewrite <- Hp, snd_zip; [done|]. by rewrite (Forall2_length _ _ _ HF).
Qed.

Lemma Save_keepable ctx r e b :
  mem_ok r -> EntityID e <> Nil -> json_Marshal e = inl b ->
  Save ctx (Some e) r =
  (Ok tt, mkMemRepo (<[EntityID e := b]> (db r))
    (match db r !! EntityID e with Some _ => ids r | None => ids r ++ [EntityID e] end) (factoryFn r)).
Proof.
  intros (_ & (f & Hf & _) & _) Hnil Hj. unfold Save.
  rewrite (bind_ok _ _ r r r) by done. rewrite Hf.
  rewrite (bind_ok _ _ r r e) by done. rewrite bool_decide_false by done.
  rewrite (bind_ok _ _ r r b) by (apply map_err_ok; by rewrite Hj).
  by unfold modify; rewrite Hf.
Qed.

#[export] Program Instance memory_RepoLaws : RepoLaws memory_Repo := {
  repo_ok := mem_ok;
  entities := entities_of;
  keepable := json_roundtrips
}.
Next Obligation.
  intros r id e (_ & _ & Hdb) (b & Hb & Hj)%entities_of_lookup.
  destruct (Hdb _ _ Hb) as (e' & He' & <-). congruence.
Qed.
Next Obligation.
  intros ctx r id e Hok (b & Hb & Hj)%entities_of_lookup. exists r.
  pose proof Hok as (Hi & (f & Hf & Hz) & Hdb).
  split; [|done]. simpl. unfold Find. rewrite (bind_ok _ _ r r r) by done.
  rewrite Hf, Hb, Hz. apply map_err_ok. by rewrite Hj.
Qed.
Next Obligation.
  intros ctx r id Hok He. pose proof (entities_of_missing r id Hok He) as Hb.
  pose proof Hok as (Hi & (f & Hf & Hz) & Hdb). eexists _, r.
  split; [simpl; unfold Find; rewrite (bind_ok _ _ r r r) by done; by rewrite Hf, Hb|done].
Qed.
Next Obligation.
  intros ctx r Hok. pose proof Hok as ((Hnd & Hids) & (f & Hf & Hz) & Hdb).
  destruct (find_each_ok f (ids r) r Hz) as (es & Hes & HF).
  { intros id [b Hb]%Hids. destruct (Hdb _ _ Hb) as (e & He & _). exists e.
    apply entities_of_lookup. eauto. }
  exists es, r. split; [|split; [done|split; [done|by apply listed_entities]]].
  simpl. unfold FindAll. rewrite (bind_ok _ _ r r r) by done. by rewrite Hf.
Qed.
Next Obligation.
  intros ctx r e Hok (b & Hm & Hu) Hnil. eexists. split; [by apply Save_keepable|].
  destruct Hok as (Hi & Hf & Hdb). split.
  - split; [by apply index_ok_save|]. split; [done|]. simpl.
    apply map_Forall_insert_2; [by exists e|done].
  - unfold entities_of. simpl. rewrite omap_insert. unfold decode at 1. by rewrite Hu.
Qed.
Next Obligation.
  intros ctx r id e Hok (b & Hb & Hj)%entities_of_lookup.
  destruct (Remove_index ctx id r b (proj1 Hok) Hb) as (pre & post & Hl & Hr).
  eexists. split; [exact Hr|]. destruct Hok as (Hi & Hf & Hdb). split.
  - split; [by apply index_ok_remove|]. split; [done|]. by apply map_Forall_delete.
  - unfold entities_of. simpl. by rewrite omap_delete.
Qed.

#[export] Instance memory_RepoRefuses : RepoRefuses memory_Repo.
Proof.
  split; intros ctx r.
  - intros e Hok Hid. pose proof Hok as (_ & (f & Hf & _) & _).
    eexists _, r. split; [|split; [|done]].
    + simpl. unfold Save. rewrite (bind_ok _ _ r r r), Hf by done.
      rewrite (bind_ok _ _ r r e), bool_decide_true by done. reflexivity.
    + done.
  - intros id Hok He. pose proof (entities_of_missing r id Hok He) as Hb.
    eexists _, r. split; [|split; [|done]].
    + simpl. unfold Remove. rewrite (bind_ok _ _ r r r), Hb by done. reflexivity.
    + done.
Qed.

End Repo.
End MemRepo.
