(* ===== verification/Wrappers.v ===== *)
(** * Stores that wrap stores

    A wrapper keeps a component of its own beside the wrapped store: the
    recorder its records, the tracing packages the tracer.  [wraps_op] says
    that an operation runs the inner one, between changes to that component;
    a store all of whose operations wrap those of a lawful store is lawful
    ([wrapper_EventStoreLaws], [wrapper_RepoLaws]). *)

From stdpp Require Import base gmap strings list numbers option pretty.
From Stdlib Require Import Lia ZArith.
From S2P Require Import Prelude.
From S2P Require Import GoTypes.
From S2P Require Import Event.
From S2P Require Import Command.
From S2P Require Import Errors.
From S2P Require Import EventStoreSpec.
From S2P Require Import Repo.

(** [m] runs [inner] in some context and gives its outcome, if it is an error
    or a good value. *)
Definition wraps_op {P S A : Type} (good : A -> Prop) (m inner : context -> M (P * S) A) : Prop :=
  forall ctx p s, exists ctx' p1, let '(o, (p2, s2)) := inner ctx' (p1, s) in
    match o with Ok a => good a | Err _ => True | Panic _ => False end ->
    exists p3, m ctx (p, s) = (o, (p3, s2)).

Lemma wraps_op_refl {P S A : Type} good (m : context -> M (P * S) A) : wraps_op good m m.
Proof. intros ctx p s. exists ctx, p. destruct (m ctx (p, s)) as [o [p2 s2]]. intros _. by exists p2. Qed.

Lemma wraps_op_ok {P S A : Type} (good : A -> Prop) (m inner : context -> M (P * S) A) (Q : result A -> P * S -> P * S -> Prop) ctx p s :
  wraps_op good m inner ->
  (forall ctx' p1, let '(o, st) := inner ctx' (p1, s) in
     match o with Ok a => good a | Err _ => True | Panic _ => False end /\ Q o (p1, s) st) ->
  exists p1 o p2 p3 s2, m ctx (p, s) = (o, (p3, s2)) /\ Q o (p1, s) (p2, s2).
Proof.
  intros Hw Hi. destruct (Hw ctx p s) as (ctx' & p1 & Hm). specialize (Hi ctx' p1).
  destruct (inner ctx' (p1, s)) as [o [p2 s2]]. destruct Hi as [Hg HQ].
  destruct (Hm Hg) as (p3 & Hrun). by exists p1, o, p2, p3, s2.
Qed.

Definition no_nil_events (l : list (option event)) : Prop := exists evs, l = somes evs.

Definition always {A : Type} (_ : A) : Prop := True.

(** ** Event stores *)

Class Wraps {P S : Type} (w inner : EventStore (P * S)) : Prop := {
  wraps_Save evs v :
    wraps_op always (fun ctx => es_Save w ctx (somes evs) v) (fun ctx => es_Save inner ctx (somes evs) v);
  wraps_Load id : wraps_op no_nil_events (fun ctx => es_Load w ctx id) (fun ctx => es_Load inner ctx id);
  wraps_LoadFrom id from :
    wraps_op no_nil_events (fun ctx => es_LoadFrom w ctx id from) (fun ctx => es_LoadFrom inner ctx id from)
}.

(** The wrapper's component does not matter to the inner store's contract. *)
Class Quiet {P S : Type} (inner : EventStore (P * S)) `{!EventStoreLaws inner} : Prop := {
  law_quiet p p' s : unchanged 0 (p, s) (p', s)
}.

Section Store.
Context {P S : Type} (w inner : EventStore (P * S)).
Context `{!EventStoreLaws inner} `{!Quiet inner} `{!Wraps w inner}.

(** Around an operation that changed nothing that can be observed. *)
Lemma around_unchanged n p p1 p2 p3 s s2 :
  unchanged n (p1, s) (p2, s2) -> unchanged n (p, s) (p3, s2).
Proof.
  intros Hu. replace n with (0 + (n + 0)) by lia.
  eapply law_unchanged_trans; [by apply (law_quiet p p1)|].
  eapply law_unchanged_trans; [exact Hu|by apply law_quiet].
Qed.

Lemma quiet_ok p p' s : store_ok (p, s) -> store_ok (p', s).
Proof. intros Hok. apply (unchanged_ok inner 0 (p, s)); [done|apply law_quiet]. Qed.

Lemma quiet_stream p p' s id : store_ok (p, s) -> stream (p', s) id = stream (p, s) id.
Proof. intros Hok. apply (unchanged_stream inner 0 (p, s)); [done|apply law_quiet]. Qed.

Lemma quiet_holds p p' s n : store_ok (p, s) -> holds (p, s) n -> holds (p', s) n.
Proof. intros Hok. apply (unchanged_holds inner (p, s)); [done|apply law_quiet]. Qed.

Lemma wraps_load ctx id load :
  load = es_Load w ctx id \/ load = es_LoadFrom w ctx id 1 ->
  exists op iop, load = op ctx /\ wraps_op no_nil_events op iop /\
    forall ctx', iop ctx' = es_Load inner ctx' id \/ iop ctx' = es_LoadFrom inner ctx' id 1.
Proof.
  intros [-> | ->].
  - exists (fun ctx => es_Load w ctx id), (fun ctx => es_Load inner ctx id).
    split; [done|]. split; [apply wraps_Load|]. by left.
  - exists (fun ctx => es_LoadFrom w ctx id 1), (fun ctx => es_LoadFrom inner ctx id 1).
    split; [done|]. split; [apply wraps_LoadFrom|]. by right.
Qed.

#[local] Program Instance wrapper_EventStoreLaws : EventStoreLaws w := {
  store_ok := store_ok (st := inner);
  stream := stream (st := inner);
  kept := kept (st := inner);
  storable := storable (st := inner);
  holds := holds (st := inner);
  unchanged := unchanged (st := inner)
}.
Next Obligation. apply law_kept. Qed.
Next Obligation. apply law_unchanged. Qed.
Next Obligation. apply law_unchanged_refl. Qed.
Next Obligation. apply law_unchanged_trans. Qed.
Next Obligation. intros st n m. apply law_holds_le. Qed.
Next Obligation. apply law_stream_serial. Qed.
Next Obligation.
  intros ctx [p s] id load Hl Hok Hne. destruct (wraps_load _ _ _ Hl) as (op & iop & -> & Hw & Hi).
  destruct (wraps_op_ok _ _ _ (fun o st st' => exists evs, o = Ok (somes evs) /\ unchanged 0 st st' /\
    Forall2 kept (stream (p, s) id) evs) ctx p s Hw) as (p1 & o & p2 & p3 & s2 & Hrun & evs & -> & Hu & HF).
  - intros ctx' p1. rewrite <- (quiet_stream p p1 s id Hok) in Hne.
    destruct (law_load ctx' (p1, s) id (iop ctx')) as (evs & s' & -> & Hu & HF); [done|by eapply quiet_ok|done|].
    rewrite (quiet_stream p p1 s id Hok) in HF. split; by exists evs.
  - exists evs, (p3, s2). split; [done|]. split; [|done]. by eapply around_unchanged.
Qed.
Next Obligation.
  intros ctx [p s] id load Hl Hok Hnil. destruct (wraps_load _ _ _ Hl) as (op & iop & -> & Hw & Hi).
  destruct (wraps_op_ok _ _ _ (fun o st st' => exists e, o = Err e /\ unchanged 0 st st' /\
    errors_Is e ErrAggregateNotFound = true) ctx p s Hw) as (p1 & o & p2 & p3 & s2 & Hrun & e & -> & Hu & He).
  - intros ctx' p1. rewrite <- (quiet_stream p p1 s id Hok) in Hnil.
    destruct (law_load_missing ctx' (p1, s) id (iop ctx')) as (e & s' & -> & Hu & He);
      [done|by eapply quiet_ok|done|]. split; [done|by exists e].
  - exists e, (p3, s2). split; [done|]. split; [|done]. by eapply around_unchanged.
Qed.
Next Obligation.
  intros ctx [p s] id evs Hok Hb Hst Hm.
  destruct (wraps_op_ok _ _ _ (fun o st st' => exists evs', o = Ok tt /\ store_ok st' /\
      stream st' id = stream (p, s) id ++ evs' /\ Forall2 kept evs evs' /\
      (forall id', id' <> id -> stream st' id' = stream (p, s) id') /\
      (forall m, holds (p, s) (len evs + m) -> holds st' m)) ctx p s
      (wraps_Save evs (len (stream (p, s) id)))) as (p1 & o & p2 & p3 & s2 & Hrun & evs' & -> & Hok' & Hs & HF & Hoth & Hm').
  - intros ctx' p1. rewrite <- (quiet_stream p p1 s id Hok) in Hb |- *.
    destruct (EventStoreSpec.law_save ctx' (p1, s) id evs) as (s' & evs' & -> & Hok' & Hs & HF & Hoth & Hm'); try done;
      [by eapply quiet_ok|by eapply quiet_holds|].
    split; [done|]. exists evs'. split_and!; try done.
    + intros id' Hne. by rewrite Hoth, (quiet_stream p p1).
    + intros m Hh. apply Hm'. by eapply quiet_holds.
  - exists (p3, s2), evs'. split; [done|]. split; [by eapply quiet_ok|].
    rewrite (quiet_stream p2 p3 s2 id Hok'). split; [done|]. split; [done|]. split.
    + intros id' Hne. rewrite (quiet_stream p2 p3 s2 id' Hok'). by apply Hoth.
    + intros m Hh. eapply quiet_holds; [done|by apply Hm'].
Qed.
Next Obligation.
  intros ctx [p s] id evs v Hok Hb Hst Hm Hv Hne Hlen.
  destruct (wraps_op_ok _ _ _ (fun o st st' => exists e, o = Err e /\ unchanged (len evs) st st' /\
    errors_Is e ErrEventConflictFromOtherSave = true) ctx p s (wraps_Save evs v))
    as (p1 & o & p2 & p3 & s2 & Hrun & e & -> & Hu & He).
  - intros ctx' p1. rewrite <- (quiet_stream p p1 s id Hok) in Hne, Hlen.
    destruct (law_save_conflict ctx' (p1, s) id evs v) as (e & s' & -> & Hu & He); try done;
      [by eapply quiet_ok|by eapply quiet_holds|]. split; [done|by exists e].
  - exists e, (p3, s2). split; [done|]. split; [|done]. by eapply around_unchanged.
Qed.

#[local] Instance wrapper_Quiet : Quiet w.
Proof. split. apply (law_quiet (inner := inner)). Qed.

#[local] Instance wrapper_LoadsFrom `{!LoadsFrom inner} : LoadsFrom w.
Proof.
  split; intros ctx [p s] id from Hok H1 Hle; simpl in Hle.
  - destruct (wraps_op_ok _ _ _ (fun o st st' => exists evs, o = Ok (somes evs) /\ unchanged (st := inner) 0 st st' /\
      Forall2 (kept (st := inner)) (drop (Z.to_nat (from - 1)) (stream (st := inner) (p, s) id)) evs) ctx p s (wraps_LoadFrom id from))
      as (p1 & o & p2 & p3 & s2 & Hrun & evs & -> & Hu & HF).
    + intros ctx' p1. rewrite <- (quiet_stream p p1 s id Hok) in Hle |- *.
      destruct (law_load_from (st := inner) ctx' (p1, s) id from) as (evs & s' & -> & Hu & HF); [by eapply quiet_ok|done..|].
      split; by exists evs.
    + exists evs, (p3, s2). split; [done|]. split; [|done]. by eapply around_unchanged.
  - destruct (wraps_op_ok _ _ _ (fun o st st' => exists e, o = Err e /\ unchanged (st := inner) 0 st st' /\
      errors_Is e ErrAggregateNotFound = true) ctx p s (wraps_LoadFrom id from))
      as (p1 & o & p2 & p3 & s2 & Hrun & e & -> & Hu & He).
    + intros ctx' p1. rewrite <- (quiet_stream p p1 s id Hok) in Hle.
      destruct (law_load_from_end (st := inner) ctx' (p1, s) id from) as (e & s' & -> & Hu & He); [by eapply quiet_ok|done..|].
      split; [done|by exists e].
    + exists e, (p3, s2). split; [done|]. split; [|done]. by eapply around_unchanged.
Qed.

#[local] Instance wrapper_EventStoreRefuses `{!EventStoreRefuses inner} : EventStoreRefuses w.
Proof.
  split.
  - intros ctx [p s] v evs err Hok HF Hm Hb.
    destruct (wraps_op_ok _ _ _ (fun o st st' => exists e, o = Err e /\ unchanged (st := inner) (len evs) st st' /\
      is_Some (errors_As as_EventStoreError e) /\ errors_Is e err = true) ctx p s (wraps_Save evs v))
      as (p1 & o & p2 & p3 & s2 & Hrun & e & -> & Hu & He).
    + intros ctx' p1. destruct (law_refuse (st := inner) ctx' (p1, s) v evs err) as (e & s' & -> & Hu & He); try done;
        [by eapply quiet_ok|by eapply quiet_holds|]. split; [done|by exists e].
    + exists e, (p3, s2). split; [done|]. split; [|done]. by eapply around_unchanged.
  - intros ctx [p s] id Hok Hnil. simpl in Hnil.
    destruct (wraps_op_ok _ _ _ (fun o st st' => exists e, o = Err e /\ unchanged (st := inner) 0 st st' /\
      is_Some (errors_As as_EventStoreError e) /\ errors_Is e ErrAggregateNotFound = true) ctx p s (wraps_Load id))
      as (p1 & o & p2 & p3 & s2 & Hrun & e & -> & Hu & He).
    + intros ctx' p1. rewrite <- (quiet_stream p p1 s id Hok) in Hnil.
      destruct (law_missing (st := inner) ctx' (p1, s) id) as (e & s' & -> & Hu & He);
        [by eapply quiet_ok|done|]. split; [done|by exists e].
    + exists e, (p3, s2). split; [done|]. split; [|done]. by eapply around_unchanged.
Qed.

Lemma quiet_heap (heap_of : P * S -> heap) `{!KeepsDetails inner heap_of} p p' s :
  store_ok (p, s) -> heap_of (p', s) = heap_of (p, s).
Proof.
  intros Hok. apply (anti_symm (⊆)).
  - apply (law_details_unchanged (st := inner) 0 (p', s) (p, s) Nil); [by eapply quiet_ok|apply law_quiet].
  - apply (law_details_unchanged (st := inner) 0 (p, s) (p', s) Nil); [done|apply law_quiet].
Qed.

Lemma quiet_details (heap_of : P * S -> heap) `{!KeepsDetails inner heap_of} p p' s id :
  store_ok (p, s) -> details (p', s) id = details (p, s) id.
Proof. intros Hok. apply (law_details_unchanged (st := inner) 0 (p, s)); [done|apply law_quiet]. Qed.

#[local] Program Instance wrapper_KeepsDetails (heap_of : P * S -> heap) `{!KeepsDetails inner heap_of} :
    KeepsDetails w heap_of := {
  details := details (st := inner)
}.
Next Obligation. intros heap_of ?. apply (law_details_length (st := inner)). Qed.
Next Obligation. intros heap_of ?. apply (law_details_unchanged (st := inner)). Qed.
Next Obligation.
  intros heap_of ? ctx [p s] id evs s' Hok Hne Hl. simpl in Hne.
  destruct (wraps_op_ok _ _ _ (fun o st st' => exists evs, o = Ok (somes evs) /\
      unchanged (st := inner) 0 (p, s) st' /\ detail (heap_of st') <$> evs = details (p, s) id) ctx p s (wraps_Load id))
      as (p1 & o & p2 & p3 & s2 & Hrun & evs' & -> & Hu & Hd).
  - intros ctx' p1. rewrite <- (quiet_stream p p1 s id Hok) in Hne.
    pose proof (quiet_ok p p1 s Hok) as Hok1.
    destruct (law_load (st := inner) ctx' (p1, s) id (es_Load inner ctx' id)) as (evs' & [p2 s2] & Hr & Hu & _);
      [by left|done|done|].
    rewrite Hr. split; [by exists evs'|]. exists evs'. split; [done|]. split; [by eapply around_unchanged|].
    by rewrite (law_details_load (st := inner) ctx' (p1, s) id evs' _ Hok1 Hne Hr), (quiet_details _ p p1).
  - simpl in Hrun, Hl. rewrite Hrun in Hl. injection Hl as He <-. apply somes_inj in He as <-. rewrite <- Hd.
    by rewrite (quiet_heap _ p2 p3 s2 (unchanged_ok inner 0 (p, s) _ Hok Hu)).
Qed.
Next Obligation.
  intros heap_of ? ctx [p s] id evs s' Hok Hb HF Hm Hs. simpl in Hb, HF, Hm, Hs.
  destruct (wraps_op_ok _ _ _ (fun o st st' => o = Ok tt /\ store_ok (st := inner) st' /\
      heap_of (p, s) ⊆ heap_of st' /\ details st' id = details (p, s) id ++ (detail (heap_of (p, s)) <$> evs) /\
      forall id', id' <> id -> details st' id' = details (p, s) id') ctx p s
      (wraps_Save evs (len (stream (st := inner) (p, s) id)))) as (p1 & o & p2 & p3 & s2 & Hrun & -> & Hok2 & Hh & Hd & Hoth).
  - intros ctx' p1. pose proof (quiet_ok p p1 s Hok) as Hok1. pose proof (quiet_holds p p1 s _ Hok Hm) as Hm1. rewrite <- (quiet_stream p p1 s id Hok) in Hb |- *.
    destruct (EventStoreSpec.law_save (st := inner) ctx' (p1, s) id evs) as (s1 & evs' & Hr & Hok' & _); try done.
    rewrite Hr. split; [done|]. split; [done|]. split; [done|].
    rewrite <- (quiet_heap heap_of p p1 s Hok), <- (quiet_details heap_of p p1 s id Hok).
    destruct (law_details_save (st := inner) ctx' (p1, s) id evs s1 Hok1 Hb HF) as (Hh & Hd & Hoth); [done..|].
    split; [done|]. split; [done|]. intros id' Hne. by rewrite Hoth, (quiet_details heap_of p p1).
  - simpl in Hrun. rewrite Hrun in Hs. injection Hs as <-.
    rewrite (quiet_heap heap_of p2 p3 s2 Hok2), (quiet_details heap_of p2 p3 s2 id Hok2).
    split; [done|]. split; [done|]. intros id' Hne. rewrite (quiet_details heap_of p2 p3 s2 id' Hok2). by apply Hoth.
Qed.

End Store.

(** A store beside a component it knows nothing of. *)
Section Beside.
Context {P S : Type} (st : EventStore S) `{!EventStoreLaws st}.

Definition beside : EventStore (P * S) :=
  mkEventStore (fun ctx evs v => zoom_snd (es_Save st ctx evs v))
    (fun ctx id => zoom_snd (es_Load st ctx id))
    (fun ctx id from => zoom_snd (es_LoadFrom st ctx id from))
    (zoom_snd (es_Close st)).

Lemma zoom_snd_run {A} (m : M S A) (p : P) s o s' : m s = (o, s') -> zoom_snd m (p, s) = (o, (p, s')).
Proof. intros Hm. unfold zoom_snd, zoom. simpl. by rewrite Hm. Qed.

#[local] Program Instance beside_EventStoreLaws : EventStoreLaws beside := {
  store_ok ps := store_ok ps.2;
  stream ps := stream ps.2;
  kept := kept (st := st);
  storable := storable (st := st);
  holds ps := holds ps.2;
  unchanged n ps ps' := unchanged n ps.2 ps'.2
}.
Next Obligation. apply law_kept. Qed.
Next Obligation. intros n [p s] [p' s']. apply law_unchanged. Qed.
Next Obligation. intros [p s]. apply law_unchanged_refl. Qed.
Next Obligation. intros n m [p1 s1] [p2 s2] [p3 s3]. apply law_unchanged_trans. Qed.
Next Obligation. intros [p s] n m. apply law_holds_le. Qed.
Next Obligation. intros [p s] id. apply law_stream_serial. Qed.
Next Obligation.
  intros ctx [p s] id load Hl Hok Hne.
  destruct Hl as [-> | ->]; [destruct (law_load ctx s id (es_Load st ctx id)) as (evs & s' & Hr & ?)
    |destruct (law_load ctx s id (es_LoadFrom st ctx id 1)) as (evs & s' & Hr & ?)];
    try done; try (by left); try (by right);
    exists evs, (p, s'); (split; [by apply zoom_snd_run|done]).
Qed.
Next Obligation.
  intros ctx [p s] id load Hl Hok Hne.
  destruct Hl as [-> | ->]; [destruct (law_load_missing ctx s id (es_Load st ctx id)) as (e & s' & Hr & ?)
    |destruct (law_load_missing ctx s id (es_LoadFrom st ctx id 1)) as (e & s' & Hr & ?)];
    try done; try (by left); try (by right);
    exists e, (p, s'); (split; [by apply zoom_snd_run|done]).
Qed.
Next Obligation.
  intros ctx [p s] id evs Hok Hb Hst Hm.
  destruct (EventStoreSpec.law_save ctx s id evs Hok Hb Hst Hm) as (s' & evs' & Hr & ?).
  exists (p, s'), evs'. split; [by apply zoom_snd_run|done].
Qed.
Next Obligation.
  intros ctx [p s] id evs v Hok Hb Hst Hm Hv Hne Hlen.
  destruct (law_save_conflict ctx s id evs v Hok Hb Hst Hm Hv Hne Hlen) as (e & s' & Hr & ?).
  exists e, (p, s'). split; [by apply zoom_snd_run|done].
Qed.

#[local] Instance beside_EventStoreRefuses `{!EventStoreRefuses st} : EventStoreRefuses beside.
Proof.
  split.
  - intros ctx [p s] v evs err Hok HF Hm Hb.
    destruct (law_refuse (st := st) ctx s v evs err Hok HF Hm Hb) as (e & s' & Hr & ?).
    exists e, (p, s'). split; [by apply zoom_snd_run|done].
  - intros ctx [p s] id Hok Hnil. destruct (law_missing (st := st) ctx s id Hok Hnil) as (e & s' & Hr & ?).
    exists e, (p, s'). split; [by apply zoom_snd_run|done].
Qed.

Lemma zoom_snd_inv {A} (m : M S A) (p : P) s o st' :
  zoom_snd m (p, s) = (o, st') -> exists s', m s = (o, s') /\ st' = (p, s').
Proof. unfold zoom_snd, zoom. simpl. destruct (m s) as [o' s']. intros [= <- <-]. by exists s'. Qed.

#[local] Program Instance beside_KeepsDetails (heap_of : S -> heap) `{!KeepsDetails st heap_of} :
    KeepsDetails beside (fun ps => heap_of ps.2) := {
  details ps := details (st := st) ps.2
}.
Next Obligation. intros heap_of ? [p s] id. apply (law_details_length (st := st)). Qed.
Next Obligation. intros heap_of ? n [p s] [p' s'] id. apply (law_details_unchanged (st := st)). Qed.
Next Obligation.
  intros heap_of ? ctx [p s] id evs s' Hok Hne (s1 & Hr & ->)%zoom_snd_inv. by eapply law_details_load.
Qed.
Next Obligation.
  intros heap_of ? ctx [p s] id evs s' Hok Hb HF Hm (s1 & Hr & ->)%zoom_snd_inv. by eapply law_details_save.
Qed.

#[local] Instance beside_Quiet : Quiet beside.
Proof. split. intros p p' s. apply (law_unchanged_refl (st := st)). Qed.

End Beside.

(** ** Repositories *)

Class WrapsRepo {P S E : Type} (w inner : ReadWriteRepo (P * S) E) : Prop := {
  wraps_Find id : wraps_op always (fun ctx => Find w ctx id) (fun ctx => Find inner ctx id);
  wraps_FindAll : wraps_op always (FindAll w) (FindAll inner);
  wraps_repo_Save e : wraps_op always (fun ctx => Save w ctx (Some e)) (fun ctx => Save inner ctx (Some e));
  wraps_Remove id : wraps_op always (fun ctx => Remove w ctx id) (fun ctx => Remove inner ctx id)
}.

Class QuietRepo {P S E : Type} `{Entity E} (inner : ReadWriteRepo (P * S) E) `{!RepoLaws inner} : Prop := {
  law_quiet_repo p p' s : repo_ok (p, s) -> repo_ok (p', s) /\ entities (p', s) = entities (p, s)
}.

Section RepoWrapper.
Context {P S E : Type} `{Entity E} (w inner : ReadWriteRepo (P * S) E).
Context `{!RepoLaws inner} `{!QuietRepo inner} `{!WrapsRepo w inner}.

(** An operation that keeps the repository well formed, with entities [m]. *)
Lemma wraps_repo_op {A} (op iop : context -> M (P * S) A) ctx p s (Q : result A -> Prop) (m : gmap UUID E) :
  wraps_op always op iop -> (forall pn, ~ Q (Panic pn)) -> repo_ok (p, s) ->
  (forall ctx' p1, repo_ok (p1, s) -> entities (p1, s) = entities (p, s) ->
     exists o s', iop ctx' (p1, s) = (o, s') /\ Q o /\ repo_ok s' /\ entities s' = m) ->
  exists o s', op ctx (p, s) = (o, s') /\ Q o /\ repo_ok s' /\ entities s' = m.
Proof.
  intros Hw Hp Hok Hi.
  destruct (wraps_op_ok _ _ _ (fun o _ st' => Q o /\ repo_ok st' /\ entities st' = m) ctx p s Hw)
    as (p1 & o & p2 & p3 & s2 & Hrun & HQ & Hok2 & Hm).
  - intros ctx' p1. destruct (law_quiet_repo p p1 s Hok) as [Hok1 He1].
    destruct (Hi ctx' p1 Hok1 He1) as (o & s' & -> & HQ & Hok' & Hm').
    split; [|done]. destruct o as [| |pn]; [done|done|by apply (Hp pn)].
  - destruct (law_quiet_repo p2 p3 s2 Hok2) as [Hok3 He3]. exists o, (p3, s2).
    split_and!; try done. by rewrite He3.
Qed.

#[local] Program Instance wrapper_RepoLaws : RepoLaws w := {
  repo_ok := repo_ok (repo := inner);
  entities := entities (repo := inner);
  keepable := keepable (repo := inner)
}.
Next Obligation. apply law_entity_id. Qed.
Next Obligation.
  intros ctx [p s] id e Hok He.
  destruct (wraps_repo_op _ _ ctx p s (fun o => o = Ok e) (entities (p, s)) (wraps_Find id)) as (o & s' & Hr & -> & ?);
    [done|done| |by exists s'].
  intros ctx' p1 Hok1 He1. rewrite <- He1 in He |- *.
  destruct (law_find ctx' (p1, s) id e Hok1 He) as (s' & Hr & Hok' & He'). by exists (Ok e), s'.
Qed.
Next Obligation.
  intros ctx [p s] id Hok He.
  destruct (wraps_repo_op _ _ ctx p s (fun o => exists err, o = Err err /\ errors_Is err ErrEntityNotFound = true /\
    errors_Is err ErrIncorrectEntityVersion = false) (entities (p, s)) (wraps_Find id))
    as (o & s' & Hr & (err & -> & Hnf & Hni) & ? & ?); [by intros pn (? & ? & _)|done| |by exists err, s'].
  intros ctx' p1 Hok1 He1. rewrite <- He1 in He |- *.
  destruct (law_find_missing ctx' (p1, s) id Hok1 He) as (err & s' & Hr & Hnf & Hni & Hok' & He').
  exists (Err err), s'. split_and!; try done. by exists err.
Qed.
Next Obligation.
  intros ctx [p s] Hok.
  destruct (wraps_repo_op _ _ ctx p s (fun o => exists es, o = Ok es /\ es ≡ₚ (map_to_list (entities (p, s))).*2)
    (entities (p, s)) wraps_FindAll) as (o & s' & Hr & (es & -> & Hp) & ? & ?);
    [by intros pn (? & ? & _)|done| |by exists es, s'].
  intros ctx' p1 Hok1 He1. rewrite <- He1.
  destruct (law_find_all ctx' (p1, s) Hok1) as (es & s' & Hr & Hok' & He' & Hp).
  exists (Ok es), s'. split_and!; try done. by exists es.
Qed.
Next Obligation.
  intros ctx [p s] e Hok Hk Hn.
  destruct (wraps_repo_op _ _ ctx p s (fun o => o = Ok tt) (<[EntityID e := e]> (entities (p, s)))
    (wraps_repo_Save e)) as (o & s' & Hr & -> & ?); [done|done| |by exists s'].
  intros ctx' p1 Hok1 He1. rewrite <- He1.
  destruct (law_save ctx' (p1, s) e Hok1 Hk Hn) as (s' & Hr & Hok' & He'). by exists (Ok tt), s'.
Qed.
Next Obligation.
  intros ctx [p s] id e Hok He.
  destruct (wraps_repo_op _ _ ctx p s (fun o => o = Ok tt) (delete id (entities (p, s)))
    (wraps_Remove id)) as (o & s' & Hr & -> & ?); [done|done| |by exists s'].
  intros ctx' p1 Hok1 He1. rewrite <- He1 in He |- *.
  destruct (law_remove ctx' (p1, s) id e Hok1 He) as (s' & Hr & Hok' & He'). by exists (Ok tt), s'.
Qed.

#[local] Instance wrapper_RepoRefuses `{!RepoRefuses inner} : RepoRefuses w.
Proof.
  split; intros ctx [p s]; simpl.
  - intros e Hok Hid.
    destruct (wraps_repo_op _ _ ctx p s (fun o => exists err, o = Err err /\
      errors_As as_RepoError err = Some (Some (ErrorString "missing entity ID")))
      (entities (repo := inner) (p, s)) (wraps_repo_Save e)) as (o & s' & Hr & (err & -> & Ha) & ?);
      [by intros pn (? & ? & _)|done| |by exists err, s'].
    intros ctx' p1 Hok1 He1. rewrite <- He1.
    destruct (law_save_nil ctx' (p1, s) e Hok1 Hid) as (err & s' & Hr & Ha & Hok' & He').
    exists (Err err), s'. split_and!; try done. by exists err.
  - intros id Hok He.
    destruct (wraps_repo_op _ _ ctx p s (fun o => exists err, o = Err err /\ errors_Is err ErrEntityNotFound = true)
      (entities (repo := inner) (p, s)) (wraps_Remove id)) as (o & s' & Hr & (err & -> & Ha) & ?);
      [by intros pn (? & ? & _)|done| |by exists err, s'].
    intros ctx' p1 Hok1 He1. rewrite <- He1 in He |- *.
    destruct (law_remove_missing ctx' (p1, s) id Hok1 He) as (err & s' & Hr & Ha & Hok' & He').
    exists (Err err), s'. split_and!; try done. by exists err.
Qed.

#[local] Instance wrapper_QuietRepo : QuietRepo w.
Proof. split. apply (law_quiet_repo (inner := inner)). Qed.

End RepoWrapper.

(** A repository beside a component it knows nothing of. *)
Section RepoBeside.
Context {P S E : Type} `{Entity E} (repo : ReadWriteRepo S E) `{!RepoLaws repo}.

Definition repo_beside : ReadWriteRepo (P * S) E :=
  mkRepo (fun ctx id => zoom_snd (Find repo ctx id)) (fun ctx => zoom_snd (FindAll repo ctx))
    (fun ctx e => zoom_snd (Save repo ctx e)) (fun ctx id => zoom_snd (Remove repo ctx id))
    (zoom_snd (Close repo)).

#[local] Program Instance repo_beside_RepoLaws : RepoLaws repo_beside := {
  repo_ok ps := repo_ok ps.2;
  entities ps := entities ps.2;
  keepable := keepable (repo := repo)
}.
Next Obligation. intros [p s]. apply law_entity_id. Qed.
Next Obligation.
  intros ctx [p s] id e Hok He. destruct (law_find ctx s id e Hok He) as (s' & Hr & ?).
  exists (p, s'). split; [by apply zoom_snd_run|done].
Qed.
Next Obligation.
  intros ctx [p s] id Hok He. destruct (law_find_missing ctx s id Hok He) as (err & s' & Hr & ?).
  exists err, (p, s'). split; [by apply zoom_snd_run|done].
Qed.
Next Obligation.
  intros ctx [p s] Hok. destruct (law_find_all ctx s Hok) as (es & s' & Hr & ?).
  exists es, (p, s'). split; [by apply zoom_snd_run|done].
Qed.
Next Obligation.
  intros ctx [p s] e Hok Hk Hn. destruct (law_save ctx s e Hok Hk Hn) as (s' & Hr & ?).
  exists (p, s'). split; [by apply zoom_snd_run|done].
Qed.
Next Obligation.
  intros ctx [p s] id e Hok He. destruct (law_remove ctx s id e Hok He) as (s' & Hr & ?).
  exists (p, s'). split; [by apply zoom_snd_run|done].
Qed.

#[local] Instance repo_beside_RepoRefuses `{!RepoRefuses repo} : RepoRefuses repo_beside.
Proof.
  split; intros ctx [p s].
  - intros e Hok Hid. destruct (law_save_nil ctx s e Hok Hid) as (err & s' & Hr & ?).
    exists err, (p, s'). split; [by apply zoom_snd_run|done].
  - intros id Hok He. destruct (law_remove_missing ctx s id Hok He) as (err & s' & Hr & ?).
    exists err, (p, s'). split; [by apply zoom_snd_run|done].
Qed.

#[local] Instance repo_beside_Quiet : QuietRepo repo_beside.
Proof. by split. Qed.

End RepoBeside.
