(* ===== verification/VersionRepo.v ===== *)
(** * The version checking repository ([repo/version/repo.go])

    [Find] with a minimum version retries until the version is there or the
    context is done.  Time is abstracted: [wait k] says how the [k]-th wait
    ended ([None]: the timer fired, [Some e]: the context was done first), and
    [others k] is what the rest of the program did to the repository meanwhile. *)

From stdpp Require Import base gmap strings list numbers option pretty.
From Stdlib Require Import Lia ZArith.
From S2P Require Import Prelude.
From S2P Require Import GoTypes.
From S2P Require Import Event.
From S2P Require Import Command.
From S2P Require Import Errors.
From S2P Require Import Fixtures.
From S2P Require Import Context.
From S2P Require Import Repo.

Section VersionRepo.
Context {S E : Type} `{Entity E}.
Context (repo : ReadWriteRepo S E).
Context (wait : nat -> option ctx_error) (others : nat -> S -> S).

Definition findMinVersion (ctx : context) (id : UUID) (minVersion : Z) : M S E :=
  let! entity := Find repo ctx id in
  match Versionable entity with
  | None => throw (RepoError (Some (Sentinel ErrEntityHasNoVersion)) "" Nil)
  | Some v =>
      if v <? minVersion
      then throw (RepoError (Some (Sentinel ErrIncorrectEntityVersion)) "" Nil)
      else ret entity
  end.

Definition try_again (err : error) : bool :=
  errors_Is err ErrIncorrectEntityVersion || errors_Is err ErrEntityNotFound.

(** The [for] loop, from the [k]-th attempt on; [None] when the fuel is used
    up. *)
Fixpoint find_loop (fuel k : nat) (ctx : context) (id : UUID) (minVersion : Z) (s : S)
  : option (result E * S) :=
  match fuel with
  | O => None
  | Datatypes.S fuel' =>
      match findMinVersion ctx id minVersion s with
      | (Err err, s') =>
          if negb (try_again err) then Some (Err err, s')
          else match ctx_deadline ctx with
               | None => Some (Err err, s')
               | Some _ =>
                   match wait k with
                   | Some e => Some (Err (Sentinel (CtxErr e)), s')
                   | None => find_loop fuel' (Datatypes.S k) ctx id minVersion (others k s')
                   end
               end
      | r => Some r
      end
  end.

Definition version_Find (fuel : nat) (ctx : context) (id : UUID) (s : S)
  : option (result E * S) :=
  match MinVersionFromContext ctx with
  | None => Some (Find repo ctx id s)
  | Some minVersion =>
      if minVersion <? 1 then Some (Find repo ctx id s)
      else find_loop fuel 0 ctx id minVersion s
  end.

(** The repository before the [k]-th attempt. *)
Fixpoint attempt_state (ctx : context) (id : UUID) (minVersion : Z) (s : S) (k : nat) : S :=
  match k with
  | O => s
  | Datatypes.S k' => others k' (findMinVersion ctx id minVersion (attempt_state ctx id minVersion s k')).2
  end.

(** The outcome of the [k]-th attempt, and whether the loop goes on after it. *)
Definition goes_on (ctx : context) (id : UUID) (minVersion : Z) (s : S) (k : nat) : Prop :=
  wait k = None /\
  exists err, (findMinVersion ctx id minVersion (attempt_state ctx id minVersion s k)).1 = Err err /\
    try_again err = true.

Lemma find_loop_skip ctx id mv s k fuel :
  ctx_deadline ctx <> None -> (forall j, (j < k)%nat -> goes_on ctx id mv s j) ->
  find_loop (k + fuel) 0 ctx id mv s = find_loop fuel k ctx id mv (attempt_state ctx id mv s k).
Proof.
  intros Hd. revert fuel. induction k as [|k IH]; intros fuel Hgo; [done|].
  replace (Datatypes.S k + fuel)%nat with (k + Datatypes.S fuel)%nat by lia.
  rewrite IH by (intros; apply Hgo; lia). cbn [find_loop attempt_state].
  destruct (Hgo k ltac:(lia)) as (Hw & err & He & Ht).
  destruct (findMinVersion _ _ _ _) as [o s']. simpl in He. subst o. rewrite Ht. cbn [negb].
  destruct (ctx_deadline ctx); [by rewrite Hw|done].
Qed.

(** a found entity is new enough.  With a minimum version of at least 1
    in the context, whatever [Find] returns as found has a version, and that
    version is at least the minimum; and [Find] never invents an entity: it is
    one the underlying repository returned. *)
Theorem version_Find_min_version fuel ctx id mv s e s' :
  MinVersionFromContext ctx = Some mv -> 1 <= mv ->
  version_Find fuel ctx id s = Some (Ok e, s') ->
  (exists v, Versionable e = Some v /\ mv <= v) /\
  (exists s0, Find repo ctx id s0 = (Ok e, s')).
Proof.
  intros Hmv Hpos. unfold version_Find. rewrite Hmv.
  destruct (Z.ltb_spec mv 1); [lia|]. clear Hmv. generalize 0%nat. revert s.
  induction fuel as [|fuel IH]; intros s k Hf; [done|]. cbn [find_loop] in Hf.
  destruct (findMinVersion ctx id mv s) as [[e'|err|p] s1] eqn:Hm; [|..].
  - injection Hf as -> ->. unfold findMinVersion in Hm.
    apply bind_inv_ok in Hm as (e0 & s2 & Hfind & Hm).
    destruct (Versionable e0) as [v|] eqn:Hv; [|done].
    destruct (Z.ltb_spec v mv); [done|]. injection Hm as -> ->.
    split; [by exists v|by exists s].
  - destruct (negb (try_again err)); [done|]. destruct (ctx_deadline ctx); [|done].
    destruct (wait k); [done|]. by eapply IH.
  - done.
Qed.

(** C34: the retry loop.  Without a minimum version, or without a deadline,
    [Find] is a single attempt.  With a deadline it runs to the first attempt
    [k] that is not to be retried or whose wait ends with the context done, and
    [k + 1] attempts of fuel are enough to finish with that attempt's outcome,
    respectively with the context's error. *)
Theorem version_Find_retries ctx id mv s k fuel :
  MinVersionFromContext ctx = Some mv -> 1 <= mv -> (k < fuel)%nat ->
  (ctx_deadline ctx = None -> k = 0%nat) ->
  (forall j, (j < k)%nat -> goes_on ctx id mv s j) ->
  ~ goes_on ctx id mv s k \/ ctx_deadline ctx = None ->
  let '(o, s') := findMinVersion ctx id mv (attempt_state ctx id mv s k) in
  version_Find fuel ctx id s =
  Some (match o with
        | Err err =>
            if try_again err then
              match ctx_deadline ctx, wait k with
              | Some _, Some e => Err (Sentinel (CtxErr e))
              | _, _ => Err err
              end
            else Err err
        | o => o
        end, s').
Proof.
  intros Hmv Hpos Hfuel Hnod Hgo Hstop. unfold version_Find. rewrite Hmv.
  destruct (Z.ltb_spec mv 1); [lia|].
  assert (find_loop fuel 0 ctx id mv s =
          find_loop (fuel - k) k ctx id mv (attempt_state ctx id mv s k)) as ->.
  { destruct (ctx_deadline ctx) eqn:Hd.
    - rewrite <- find_loop_skip by (rewrite ?Hd; done). f_equal. lia.
    - rewrite (Hnod eq_refl) in *. f_equal; lia. }
  unfold goes_on in Hstop. destruct (fuel - k)%nat as [|f] eqn:Hf; [lia|]. cbn [find_loop].
  destruct (findMinVersion _ _ _ _) as [[e|err|p] s1]; try done. simpl in Hstop.
  destruct (try_again err) eqn:Ht; cbn [negb]; [|done].
  destruct (ctx_deadline ctx), (wait k) eqn:Hw; try done.
  exfalso. destruct Hstop as [Hstop|]; [|done]. apply Hstop. split; [done|]. by exists err.
Qed.

End VersionRepo.
