(* ===== verification/CacheRepo.v ===== *)
(** * The caching repository ([repo/cache/repo.go])

    A cache of entities in front of an inner repository.  [Find] and [Save]
    are composed of the steps between which they hold no lock, so the same
    definitions serve the sequential theorems (the cache is coherent and
    keeps the repository contract) and the interleaved one.

    Entities are values here: the code hands out and keeps pointers, so the
    theorems are for callers that do not mutate an entity they were given. *)

From stdpp Require Import base gmap strings list numbers option pretty.
From Stdlib Require Import Lia ZArith.
From S2P Require Import Prelude.
From S2P Require Import GoTypes.
From S2P Require Import Event.
From S2P Require Import Command.
From S2P Require Import Errors.
From S2P Require Import Fixtures.
From S2P Require Import Repo.

Section CacheRepo.
Context {S E : Type} `{Entity E}.
Context (inner : ReadWriteRepo S E).

Abbreviation Cache := (gmap UUID E).

(** The state: the inner repository's, and the cache. *)
Abbreviation St := (S * Cache)%type.

Definition cache_NewRepo (s : S) : St := (s, ∅).

Definition HandleEvent (ctx : context) (ev : option event) : M St unit :=
  let! e := deref ev in
  zoom_snd (modify (delete (aggregateID e))).

(** [Find]: under the read lock, ... *)
Definition find_cached (id : UUID) : M St (option E) :=
  zoom_snd (gets (fun cache => cache !! id)).

(** ... and under the write lock. *)
Definition store_cached (id : UUID) (entity : E) : M St unit :=
  zoom_snd (modify (<[id := entity]>)).

Definition cache_Find (ctx : context) (id : UUID) : M St E :=
  let! cached := find_cached id in
  match cached with
  | Some entity => ret entity
  | None =>
      let! entity := zoom_fst (Find inner ctx id) in
      do! store_cached id entity in
      ret entity
  end.

Definition cache_FindAll (ctx : context) : M St (list E) :=
  let! entities := zoom_fst (FindAll inner ctx) in
  do! for_range entities (fun entity => store_cached (EntityID entity) entity) in
  ret entities.

Definition bust (id : UUID) : M St unit := zoom_snd (modify (delete id)).

Definition cache_Save (ctx : context) (entity : option E) : M St unit :=
  let! e := deref entity in
  do! bust (EntityID e) in
  zoom_fst (Save inner ctx entity).

Definition cache_Remove (ctx : context) (id : UUID) : M St unit :=
  do! bust id in
  zoom_fst (Remove inner ctx id).

Definition cache_Repo : ReadWriteRepo St E :=
  mkRepo cache_Find cache_FindAll cache_Save cache_Remove (zoom_fst (Close inner)).

(** ** Coherence *)

Context `{!RepoLaws inner}.

Definition coherent (st : St) : Prop :=
  repo_ok st.1 /\ forall id e, st.2 !! id = Some e -> entities st.1 !! id = Some e.

Lemma store_all_coherent es (s : S) (cache : Cache) :
  repo_ok s -> coherent (s, cache) ->
  Forall (fun e => entities s !! EntityID e = Some e) es ->
  exists cache', for_range es (fun e => store_cached (EntityID e) e) (s, cache) = (Ok tt, (s, cache')) /\
    coherent (s, cache').
Proof.
  intros Hok Hc HF. revert cache Hc. induction HF as [|e es He HF IH]; intros cache Hc.
  - by exists cache.
  - simpl. destruct (IH (<[EntityID e := e]> cache)) as (cache' & Hr & Hc').
    { split; [done|]. intros id e'. simpl.
      destruct (decide (id = EntityID e)) as [->|]; [rewrite lookup_insert_eq; naive_solver|].
      rewrite lookup_insert_ne by done. apply Hc. }
    exists cache'. split; [|done]. by rewrite (bind_ok _ _ _ (s, <[EntityID e := e]> cache) tt).
Qed.

Lemma coherent_delete (s s' : S) (cache : Cache) id m :
  coherent (s, cache) -> repo_ok s' -> entities s' = m ->
  (forall id', id' <> id -> m !! id' = entities s !! id') -> coherent (s', delete id cache).
Proof.
  intros [_ Hc] Hok <- Hm. split; [done|]. intros id' e. simpl.
  destruct (decide (id' = id)) as [->|]; [by rewrite lookup_delete_eq|].
  rewrite lookup_delete_ne by done. rewrite Hm by done. apply Hc.
Qed.

#[export] Program Instance cache_RepoLaws : RepoLaws cache_Repo := {
  repo_ok := coherent;
  entities st := entities st.1;
  keepable := keepable
}.
Next Obligation. intros [s c] id e [Hok _]. by apply law_entity_id. Qed.
Next Obligation.
  intros ctx [s c] id e [Hok Hc] He. simpl in *. unfold cache_Find.
  rewrite (bind_ok _ _ (s, c) (s, c) (c !! id)) by done.
  destruct (c !! id) as [e'|] eqn:Hcid.
  - exists (s, c). pose proof (Hc _ _ Hcid). simplify_eq. done.
  - destruct (law_find ctx s id e Hok He) as (s' & Hf & Hok' & Hent).
    exists (s', <[id := e]> c). split; [|split; [|done]].
    + rewrite (bind_ok _ _ (s, c) (s', c) e); [done|]. unfold zoom_fst, zoom. simpl. by rewrite Hf.
    + split; [done|]. intros id' e''. simpl. rewrite Hent.
      destruct (decide (id' = id)) as [->|]; [rewrite lookup_insert_eq; naive_solver|].
      rewrite lookup_insert_ne by done. apply Hc.
Qed.
Next Obligation.
  intros ctx [s c] id [Hok Hc] He. simpl in *. unfold cache_Find.
  rewrite (bind_ok _ _ (s, c) (s, c) (c !! id)) by done.
  destruct (c !! id) as [e'|] eqn:Hcid; [by rewrite (Hc _ _ Hcid) in He|].
  destruct (law_find_missing ctx s id Hok He) as (err & s' & Hf & Hnf & Hni & Hok' & Hent).
  exists err, (s', c). split; [|split; [done|split; [done|split; [|done]]]].
  - apply bind_err. unfold zoom_fst, zoom. simpl. by rewrite Hf.
  - split; [done|]. simpl. by rewrite Hent.
Qed.
Next Obligation.
  intros ctx [s c] [Hok Hc]. simpl in *.
  destruct (law_find_all ctx s Hok) as (es & s' & Hf & Hok' & Hent & Hp).
  destruct (store_all_coherent es s' c) as (c' & Hr & Hc'); [done|..].
  - split; [done|]. simpl. by rewrite Hent.
  - apply Forall_forall. intros e He. rewrite Hp in He.
    apply list_elem_of_fmap in He as ([id e'] & -> & Hin%elem_of_map_to_list). simpl.
    rewrite Hent. by rewrite (law_entity_id s id e').
  - exists es, (s', c'). split; [|done]. unfold cache_FindAll.
    rewrite (bind_ok _ _ (s, c) (s', c) es).
    + by rewrite (bind_ok _ _ (s', c) (s', c') tt).
    + unfold zoom_fst, zoom. simpl. by rewrite Hf.
Qed.
Next Obligation.
  intros ctx [s c] e [Hok Hc] Hk Hnil. simpl in *.
  destruct (law_save ctx s e Hok Hk Hnil) as (s' & Hs & Hok' & Hent).
  exists (s', delete (EntityID e) c). split; [|split; [|done]].
  - unfold cache_Save. rewrite (bind_ok _ _ (s, c) (s, c) e) by done.
    rewrite (bind_ok _ _ (s, c) (s, delete (EntityID e) c) tt) by done.
    unfold zoom_fst, zoom. simpl. by rewrite Hs.
  - apply (coherent_delete s s' c _ _ (conj Hok Hc) Hok' Hent). intros. by rewrite lookup_insert_ne.
Qed.
Next Obligation.
  intros ctx [s c] id e [Hok Hc] He. simpl in *.
  destruct (law_remove ctx s id e Hok He) as (s' & Hs & Hok' & Hent).
  exists (s', delete id c). split; [|split; [|done]].
  - unfold cache_Remove. rewrite (bind_ok _ _ (s, c) (s, delete id c) tt) by done.
    unfold zoom_fst, zoom. simpl. by rewrite Hs.
  - apply (coherent_delete s s' c _ _ (conj Hok Hc) Hok' Hent). intros. by rewrite lookup_delete_ne.
Qed.

#[export] Instance cache_RepoRefuses `{!RepoRefuses inner} : RepoRefuses cache_Repo.
Proof.
  split; intros ctx [s c].
  - intros e [Hok Hc] Hid. destruct (law_save_nil ctx s e Hok Hid) as (err & s' & Hs & Has & Hok' & Hent).
    exists err, (s', delete (EntityID e) c). simpl. split; [|split; [done|split; [|done]]].
    + unfold cache_Save. rewrite (bind_ok _ _ (s, c) (s, c) e) by done.
      rewrite (bind_ok _ _ (s, c) (s, delete (EntityID e) c) tt) by done.
      unfold zoom_fst, zoom. simpl. by rewrite Hs.
    + by apply (coherent_delete s s' c _ _ (conj Hok Hc) Hok' Hent).
  - intros id [Hok Hc] He. destruct (law_remove_missing ctx s id Hok He) as (err & s' & Hs & Hnf & Hok' & Hent).
    exists err, (s', delete id c). simpl. split; [|split; [done|split; [|done]]].
    + unfold cache_Remove. rewrite (bind_ok _ _ (s, c) (s, delete id c) tt) by done.
      unfold zoom_fst, zoom. simpl. by rewrite Hs.
    + by apply (coherent_delete s s' c _ _ (conj Hok Hc) Hok' Hent).
Qed.

(** ** Used by one caller at a time *)

(** What happens to the repository: the calls of a client, an event from the
    bus (late or repeated, say), and a change of the inner repository that does not go through the cache (a projector saving to
    it), whose event then reaches the cache. *)
Inductive cache_call : Type :=
| CallFind (id : UUID)
| CallFindAll
| CallSave (e : E)
| CallRemove (id : UUID)
| EventArrives (ev : event)
| ChangedInside (e : E) (ev : event).

Definition call_fits (c : cache_call) : Prop :=
  match c with
  | CallSave e => keepable e
  | ChangedInside e ev => keepable e /\ EntityID e <> Nil /\ aggregateID ev = EntityID e
  | _ => True
  end.

(** The state after the call, whatever it answers. *)
Definition perform (ctx : context) (c : cache_call) (st : St) : St :=
  match c with
  | CallFind id => (cache_Find ctx id st).2
  | CallFindAll => (cache_FindAll ctx st).2
  | CallSave e => (cache_Save ctx (Some e) st).2
  | CallRemove id => (cache_Remove ctx id st).2
  | EventArrives ev => (HandleEvent ctx (Some ev) st).2
  | ChangedInside e ev =>
      (HandleEvent ctx (Some ev) (zoom_fst (Save inner ctx (Some e)) st).2).2
  end.

(** What the call does to the entities. *)
Definition effect (c : cache_call) (m : gmap UUID E) : gmap UUID E :=
  match c with
  | CallSave e => if decide (EntityID e = Nil) then m else <[EntityID e := e]> m
  | CallRemove id => delete id m
  | ChangedInside e _ => <[EntityID e := e]> m
  | _ => m
  end.

(** What it answers, when the entities are [m]. *)
Definition answers_from (ctx : context) (m : gmap UUID E) (c : cache_call) (st : St) : Prop :=
  match c with
  | CallFind id =>
      match m !! id with
      | Some e => (cache_Find ctx id st).1 = Ok e /\ (perform ctx c st).2 !! id = Some e
      | None => exists err, (cache_Find ctx id st).1 = Err err /\ errors_Is err ErrEntityNotFound = true
      end
  | CallFindAll => exists es, (cache_FindAll ctx st).1 = Ok es /\ es ≡ₚ (map_to_list m).*2
  | CallSave e =>
      if decide (EntityID e = Nil)
      then exists err, (cache_Save ctx (Some e) st).1 = Err err /\
             errors_As as_RepoError err = Some (Some (ErrorString "missing entity ID"))
      else (cache_Save ctx (Some e) st).1 = Ok tt
  | CallRemove id =>
      match m !! id with
      | Some _ => (cache_Remove ctx id st).1 = Ok tt
      | None => exists err, (cache_Remove ctx id st).1 = Err err /\ errors_Is err ErrEntityNotFound = true
      end
  | EventArrives ev =>
      HandleEvent ctx (Some ev) st = (Ok tt, (st.1, delete (aggregateID ev) st.2))
  | ChangedInside _ _ => True
  end.

Definition perform_all (cs : list (context * cache_call)) (st : St) : St :=
  foldl (fun st c => perform c.1 c.2 st) st cs.

Lemma cache_Find_keeps ctx id e st st' :
  cache_Find ctx id st = (Ok e, st') -> st'.2 !! id = Some e.
Proof.
  destruct st as [s c]. unfold cache_Find.
  rewrite (bind_ok _ _ (s, c) (s, c) (c !! id)) by done.
  destruct (c !! id) as [e'|] eqn:Hcid; [intros Hf; by injection Hf as -> <-|].
  intros (e0 & [s1 c1] & _ & Hf)%bind_inv_ok.
  apply bind_inv_ok in Hf as ([] & [s2 c2] & Hst & Hf). injection Hf as -> <-.
  injection Hst as <- <-. apply lookup_insert_eq.
Qed.

Lemma changed_inside_coherent ctx e ev st :
  coherent st -> call_fits (ChangedInside e ev) ->
  coherent (perform ctx (ChangedInside e ev) st) /\
  entities (perform ctx (ChangedInside e ev) st).1 = <[EntityID e := e]> (entities st.1).
Proof.
  destruct st as [s c]. intros Hc (Hk & Hnil & Hid).
  destruct (law_save ctx s e (proj1 Hc) Hk Hnil) as (s' & Hs & Hok' & Hent).
  assert (perform ctx (ChangedInside e ev) (s, c) = (s', delete (EntityID e) c)) as ->.
  { unfold perform, zoom_fst, zoom. simpl. rewrite Hs. by rewrite <- Hid. }
  split; [|done]. apply (coherent_delete s s' c _ _ Hc Hok' Hent). intros. by rewrite lookup_insert_ne.
Qed.

(** One call keeps the cache coherent, has its effect and answers what it should. *)
Lemma perform_coherent `{!RepoRefuses inner} ctx c st :
  coherent st -> call_fits c ->
  coherent (perform ctx c st) /\ entities (perform ctx c st).1 = effect c (entities st.1) /\
  answers_from ctx (entities st.1) c st.
Proof.
  intros Hc Hfit. destruct c as [id| |e|id|ev|e ev]; simpl.
  - destruct (entities st.1 !! id) as [e|] eqn:He.
    + destruct (law_find (RepoLaws := cache_RepoLaws) ctx st id e Hc He) as (st' & Hf & Hc' & Hent).
      pose proof (cache_Find_keeps _ _ _ _ _ Hf). simpl in Hf. by rewrite Hf.
    + destruct (law_find_missing (RepoLaws := cache_RepoLaws) ctx st id Hc He)
        as (err & st' & Hf & Hnf & _ & Hc' & Hent). simpl in Hf. rewrite Hf. naive_solver.
  - destruct (law_find_all (RepoLaws := cache_RepoLaws) ctx st Hc) as (es & st' & Hf & Hc' & Hent & Hp).
    simpl in Hf. rewrite Hf. naive_solver.
  - destruct (decide (EntityID e = Nil)) as [Hnil|Hnil].
    + destruct (law_save_nil (RepoRefuses := cache_RepoRefuses) ctx st e Hc Hnil) as (err & st' & Hs & Has & Hc' & Hent).
      simpl in Hs. rewrite Hs. naive_solver.
    + destruct (law_save (RepoLaws := cache_RepoLaws) ctx st e Hc Hfit Hnil) as (st' & Hs & Hc' & Hent).
      simpl in Hs. by rewrite Hs.
  - destruct (entities st.1 !! id) as [e|] eqn:He.
    + destruct (law_remove (RepoLaws := cache_RepoLaws) ctx st id e Hc He) as (st' & Hs & Hc' & Hent).
      simpl in Hs. by rewrite Hs.
    + destruct (law_remove_missing (RepoRefuses := cache_RepoRefuses) ctx st id Hc He)
        as (err & st' & Hs & Hnf & Hc' & Hent). simpl in Hs, Hent. rewrite Hs. simpl.
      rewrite Hent, delete_id by done. naive_solver.
  - destruct st as [s c]. split; [|done]. by apply (coherent_delete s s c _ _ Hc (proj1 Hc) eq_refl).
  - destruct (changed_inside_coherent ctx e ev st Hc Hfit) as [Hc' Hent]. done.
Qed.

Lemma perform_all_coherent `{!RepoRefuses inner} cs st :
  coherent st -> Forall (fun c => call_fits c.2) cs ->
  coherent (perform_all cs st) /\
  entities (perform_all cs st).1 = foldl (fun m c => effect c.2 m) (entities st.1) cs.
Proof.
  intros Hc HF. revert st Hc. induction HF as [|[ctx c] cs Hfit HF IH]; intros st Hc; [done|].
  destruct (perform_coherent ctx c st Hc Hfit) as (Hc' & Hent & _).
  destruct (IH _ Hc') as [Hc2 Hent2]. split; [done|]. simpl. rewrite <- Hent. exact Hent2.
Qed.

(** C33: used by one caller at a time the cache is never stale.  After any
    sequence of [Find], [FindAll], [Save] (of new or known entities, or without
    an ID) and [Remove], of entities that are there or not, of events, and of
    changes of the inner repository whose event reaches the cache, the cache agrees with
    the inner repository on everything it holds; the entities are those the
    calls amount to on a plain map; and the next call answers from exactly
    them: [Find] the entity, which it then keeps, or not found, [FindAll] all
    of them, [Save] and [Remove] whether they were carried out; an event clears
    the entry of its aggregate. *)
Theorem cache_stays_coherent `{!RepoRefuses inner} cs ctx c st :
  coherent st -> Forall (fun c => call_fits c.2) cs -> call_fits c ->
  let st' := perform_all cs st in
  let m := foldl (fun m c => effect c.2 m) (entities st.1) cs in
  coherent st' /\ entities st'.1 = m /\ answers_from ctx m c st' /\
  (forall id e, st'.2 !! id = Some e -> m !! id = Some e).
Proof.
  intros Hc HF Hfit st' m. destruct (perform_all_coherent cs st Hc HF) as [Hc' Hent].
  fold st' in Hc', Hent. fold m in Hent.
  destruct (perform_coherent ctx c st' Hc' Hfit) as (_ & _ & Ha).
  rewrite Hent in Ha. split; [done|]. split; [done|]. split; [done|].
  rewrite <- Hent. apply Hc'.
Qed.

(** two callers can leave the cache stale.  One caller's [Find] misses and
    fetches the old entity; another caller's [Save] then runs to its end; the
    first caller stores what it fetched.  From then on every [Find] returns the
    old entity although the inner repository holds the new one. *)
Theorem cache_Find_race_leaves_stale_entry ctx id e1 e2 (s : S) :
  repo_ok s -> entities s !! id = Some e1 -> keepable e2 -> EntityID e2 = id -> id <> Nil ->
  let st := cache_NewRepo s in
  exists st1 st2 st3,
    (* reader: miss, then fetch *)
    find_cached id st = (Ok None, st) /\
    zoom_fst (Find inner ctx id) st = (Ok e1, st1) /\
    (* writer: a whole [Save] *)
    cache_Save ctx (Some e2) st1 = (Ok tt, st2) /\ entities st2.1 !! id = Some e2 /\
    (* reader: store *)
    store_cached id e1 st2 = (Ok tt, st3) /\
    forall ctx', cache_Find ctx' id st3 = (Ok e1, st3).
Proof.
  intros Hok He Hk <- Hnil st.
  destruct (law_find ctx s (EntityID e2) e1 Hok He) as (s1 & Hf & Hok1 & Hent1).
  destruct (law_save ctx s1 e2 Hok1 Hk Hnil) as (s2 & Hs & Hok2 & Hent2).
  exists (s1, ∅), (s2, ∅), (s2, <[EntityID e2 := e1]> ∅).
  split; [done|]. split; [unfold zoom_fst, zoom; simpl; by rewrite Hf|]. split.
  - unfold cache_Save. rewrite (bind_ok _ _ (s1, ∅) (s1, ∅) e2) by done.
    rewrite (bind_ok _ _ (s1, ∅) (s1, delete (EntityID e2) ∅) tt) by done.
    rewrite delete_empty. unfold zoom_fst, zoom. simpl. by rewrite Hs.
  - split; [simpl; rewrite Hent2; apply lookup_insert_eq|]. split; [done|].
    intros ctx'. unfold cache_Find.
    set (c := <[EntityID e2 := e1]> ∅).
    rewrite (bind_ok _ _ (s2, c) (s2, c) (c !! EntityID e2)) by done.
    by assert (c !! EntityID e2 = Some e1) as -> by apply lookup_insert_eq.
Qed.

End CacheRepo.
