(* ===== verification/Projector.v ===== *)
(** * The projector event handler ([eventhandler/projector/eventhandler.go])

    [HandleEvent] over any [ReadWriteRepo]; the projector itself is a
    parameter.  [others] is what the rest of the program does to the repository
    during the 100 ms sleep before the single retry. *)

From stdpp Require Import base gmap strings list numbers option pretty.
From Stdlib Require Import Lia ZArith.
From S2P Require Import Prelude.
From S2P Require Import GoTypes.
From S2P Require Import Event.
From S2P Require Import Command.
From S2P Require Import Errors.
From S2P Require Import Fixtures.
From S2P Require Import Context.
From S2P Require Import Repo.

(** The [Projector] interface: its type, and [Project], which returns the new
    entity ([None] for nil: remove it) or an error. *)
Class Projector (E : Type) : Type := {
  ProjectorType : string;
  Project : context -> event -> E -> option E + error
}.

(** The settings of an [EventHandler]. *)
Record EventHandler (E : Type) : Type := mkEventHandler {
  factoryFn : option (unit -> E);
  useWait : bool;
  useRetryOnce : bool;
  useIrregularVersioning : bool;
  entityLookupFn : event -> UUID
}.
Arguments mkEventHandler {E}.
Arguments factoryFn {E}.
Arguments useWait {E}.
Arguments useRetryOnce {E}.
Arguments useIrregularVersioning {E}.
Arguments entityLookupFn {E}.

Section Projector.
Context {S E : Type} `{Entity E} `{Projector E}.

Abbreviation Option := (EventHandler E -> EventHandler E).

Definition defaultEntityLookupFn (e : event) : UUID := aggregateID e.

Definition NewEventHandler (options : list Option) : EventHandler E :=
  fold_left (fun h o => o h) options
    (mkEventHandler None false false false defaultEntityLookupFn).

Definition WithWait : Option := fun h =>
  mkEventHandler (factoryFn h) true (useRetryOnce h) (useIrregularVersioning h) (entityLookupFn h).

Definition WithRetryOnce : Option := fun h =>
  mkEventHandler (factoryFn h) (useWait h) true (useIrregularVersioning h) (entityLookupFn h).

Definition WithIrregularVersioning : Option := fun h =>
  mkEventHandler (factoryFn h) (useWait h) (useRetryOnce h) true (entityLookupFn h).

Definition WithEntityLookup (f : event -> UUID) : Option := fun h =>
  mkEventHandler (factoryFn h) (useWait h) (useRetryOnce h) (useIrregularVersioning h) f.

Definition SetEntityFactory (f : option (unit -> E)) : Option := fun h =>
  mkEventHandler f (useWait h) (useRetryOnce h) (useIrregularVersioning h) (entityLookupFn h).

Definition HandlerType : string := "projector_" +:+ ProjectorType.

Context (h : EventHandler E) (repo : ReadWriteRepo S E).
Context (now : Time) (others : S -> S).

Definition projector_error (err : error) (event : option event) (id : UUID) (v : Z) : error :=
  ProjectorError (Some err) ProjectorType event id v.

(** The context for [Find]: a minimum version unless versioning is irregular. *)
Definition findCtx (ctx : context) (e : event) : context :=
  if useIrregularVersioning h then ctx
  else if useWait h then NewContextWithMinVersionWait ctx now (isub (version e) 1)
  else NewContextWithMinVersion ctx (isub (version e) 1).

(** From the projection on: project, check the result, save or remove. *)
Definition project_and_store (ctx : context) (e : event) (id : UUID) (entity : E)
    (entityVersion : Z) : M S unit :=
  let fail err v := projector_error err (Some e) id v in
  match Project ctx e entity with
  | inr err => throw (fail (Errorf "could not project" err) entityVersion)
  | inl None =>
      map_err (fun err => fail (Errorf "could not remove" err) entityVersion) (Remove repo ctx id)
  | inl (Some newEntity) =>
      let entityVersion := default entityVersion (Versionable newEntity) in
      if match Versionable newEntity with
         | Some v => negb (v =? version e)
         | None => false
         end
      then throw (fail (Sentinel ErrIncorrectProjectedEntityVersion) entityVersion)
      else if bool_decide (EntityID newEntity <> id)
      then throw (fail (ErrorString "incorrect entity ID after projection") entityVersion)
      else map_err (fun err => fail (Errorf "could not save" err) entityVersion)
             (Save repo ctx (Some newEntity))
  end.

(** One pass from the label [retryOnce]; [retries] is how often it may still
    be reached again. *)
Fixpoint handle_from (retries : nat) (ctx : context) (e : event) : M S unit :=
  let retry (otherwise : M S unit) : M S unit :=
    match retries with
    | O => otherwise
    | Datatypes.S n => do! modify others in handle_from n ctx e
    end in
  let id := entityLookupFn h e in
  let fail err v := projector_error err (Some e) id v in
  let project (entity : E) : M S unit :=
    match Versionable entity with
    | None => project_and_store ctx e id entity 0
    | Some entityVersion =>
        if version e <=? entityVersion then ret tt
        else if bool_decide (version e <> iadd entityVersion 1) && negb (useIrregularVersioning h)
        then retry
               (if (entityVersion =? 0) && (1 <? version e)
                then throw (fail (Sentinel ErrModelRemoved) entityVersion)
                else throw (fail (Sentinel ErrIncorrectEntityVersion) entityVersion))
        else project_and_store ctx e id entity entityVersion
    end in
  let! found := attempt (Find repo (findCtx ctx e) id) in
  match found with
  | inl entity => project entity
  | inr err =>
      if errors_Is err ErrEntityNotFound then
        match factoryFn h with
        | None => throw (fail (Sentinel ErrModelNotSet) 0)
        | Some factory => project (factory tt)
        end
      else if errors_Is err ErrIncorrectEntityVersion then
        retry (throw (fail (Errorf "could not load entity with correct version" err) 0))
      else throw (fail (Errorf "could not load entity" err) 0)
  end.

Definition HandleEvent (ctx : context) (event : option event) : M S unit :=
  match event with
  | None => throw (projector_error (Sentinel ErrMissingEvent) None Nil 0)
  | Some e => handle_from (if useRetryOnce h then 1 else 0) ctx e
  end.

(** ** Projecting onto a repository that keeps its contract *)

Context `{!RepoLaws repo}.

(** The model as the handler sees it: the stored one, or a new one. *)
Definition current (s : S) (id : UUID) : option E :=
  match entities s !! id with
  | Some entity => Some entity
  | None => (fun f => f tt) <$> factoryFn h
  end.

Definition stored (id : UUID) (newEntity : option E) (s : S) : gmap UUID E :=
  match newEntity with
  | Some e => <[id := e]> (entities s)
  | None => delete id (entities s)
  end.

(** A projection result the handler accepts for event [e]. *)
Definition acceptable (e : event) (id : UUID) (s : S) (newEntity : option E) : Prop :=
  match newEntity with
  | Some e' => EntityID e' = id /\ id <> Nil /\ keepable e' /\
      (forall v, Versionable e' = Some v -> v = version e)
  | None => is_Some (entities s !! id)
  end.

Lemma project_and_store_ok ctx e id entity v newEntity (s : S) :
  repo_ok s -> Project ctx e entity = inl newEntity -> acceptable e id s newEntity ->
  exists s', project_and_store ctx e id entity v s = (Ok tt, s') /\ repo_ok s' /\
    entities s' = stored id newEntity s.
Proof.
  intros Hok Hp Ha. unfold project_and_store. rewrite Hp. destruct newEntity as [e'|]; simpl in Ha.
  - destruct Ha as (Hid & Hnil & Hk & Hv).
    destruct (law_save ctx s e' Hok Hk) as (s' & Hs & Hok' & Hent); [by rewrite Hid|].
    exists s'. rewrite Hid in Hent. split; [|done].
    assert (match Versionable e' with Some v0 => negb (v0 =? version e) | None => false end = false) as ->.
    { destruct (Versionable e') as [v'|]; [|done]. rewrite (Hv v') by done. by rewrite Z.eqb_refl. }
    rewrite bool_decide_false by tauto. by apply map_err_ok.
  - destruct Ha as [e0 He0]. destruct (law_remove ctx s id e0 Hok He0) as (s' & Hs & Hok' & Hent).
    exists s'. split; [|done]. by apply map_err_ok.
Qed.

(** Finding, on a repository that keeps its contract: the continuation runs on
    the current model. *)
Lemma handle_found retries ctx e s entity :
  repo_ok s -> current s (entityLookupFn h e) = Some entity ->
  exists s', repo_ok s' /\ entities s' = entities s /\
  handle_from retries ctx e s =
  (let retry (otherwise : M S unit) : M S unit :=
     match retries with
     | O => otherwise
     | Datatypes.S n => do! modify others in handle_from n ctx e
     end in
   let id := entityLookupFn h e in
   let fail err v := projector_error err (Some e) id v in
   match Versionable entity with
    | None => project_and_store ctx e id entity 0
    | Some entityVersion =>
        if version e <=? entityVersion then ret tt
        else if bool_decide (version e <> iadd entityVersion 1) && negb (useIrregularVersioning h)
        then retry
               (if (entityVersion =? 0) && (1 <? version e)
                then throw (fail (Sentinel ErrModelRemoved) entityVersion)
                else throw (fail (Sentinel ErrIncorrectEntityVersion) entityVersion))
        else project_and_store ctx e id entity entityVersion
    end) s'.
Proof.
  intros Hok Hc. unfold current in Hc. destruct (entities s !! _) as [e0|] eqn:He.
  - destruct (law_find (findCtx ctx e) s _ e0 Hok He) as (s' & Hf & Hok' & Hent). simplify_eq.
    exists s'. split; [done|]. split; [done|].
    destruct retries; cbn [handle_from]; by rewrite (bind_ok _ _ s s' (inl entity)) by (by apply attempt_ok).
  - destruct (law_find_missing (findCtx ctx e) s _ Hok He) as (err & s' & Hf & Hnf & _ & Hok' & Hent).
    exists s'. split; [done|]. split; [done|].
    apply fmap_Some in Hc as (f & Hf' & ->).
    destruct retries; cbn [handle_from];
      rewrite (bind_ok _ _ s s' (inr err)) by (by apply attempt_err); by rewrite Hnf, Hf'.
Qed.

Lemma handle_next ctx e s entity newEntity retries :
  repo_ok s -> current s (entityLookupFn h e) = Some entity ->
  (forall v, Versionable entity = Some v -> version e = v + 1 /\ is_int (version e)) ->
  Project ctx e entity = inl newEntity -> acceptable e (entityLookupFn h e) s newEntity ->
  exists s', handle_from retries ctx e s = (Ok tt, s') /\ repo_ok s' /\
    entities s' = stored (entityLookupFn h e) newEntity s.
Proof.
  intros Hok Hc Hv Hp Ha.
  destruct (handle_found retries ctx e s entity Hok Hc) as (s1 & Hok1 & Hent1 & ->). cbv zeta.
  assert (exists s', project_and_store ctx e (entityLookupFn h e) entity
            (default 0 (Versionable entity)) s1 = (Ok tt, s') /\ repo_ok s' /\
            entities s' = stored (entityLookupFn h e) newEntity s) as Hstore.
  { destruct (project_and_store_ok ctx e (entityLookupFn h e) entity (default 0 (Versionable entity)) newEntity s1)
      as (s' & Hs & Hok' & Hent'); [done|done| |].
    - destruct newEntity; simpl in *; [done|]. by rewrite Hent1.
    - exists s'. split; [done|]. split; [done|]. rewrite Hent'. unfold stored. by rewrite Hent1. }
  destruct (Versionable entity) as [v|]; [|done].
  destruct (Hv v eq_refl) as [He Hint].
  destruct (Z.leb_spec (version e) v); [lia|].
  rewrite bool_decide_false; [done|]. rewrite iadd_id by (by rewrite <- He). lia.
Qed.

(** projecting the next event.  When the event is the one after the
    model's version (or the model has no version), the projection is run on the
    stored model, or on a new one, and its result replaces the model, a nil
    result removes it; no other model is touched. *)
Theorem HandleEvent_projects_next ctx e s entity newEntity :
  repo_ok s -> current s (entityLookupFn h e) = Some entity ->
  (forall v, Versionable entity = Some v -> version e = v + 1 /\ is_int (version e)) ->
  Project ctx e entity = inl newEntity -> acceptable e (entityLookupFn h e) s newEntity ->
  exists s', HandleEvent ctx (Some e) s = (Ok tt, s') /\ repo_ok s' /\
    entities s' = stored (entityLookupFn h e) newEntity s.
Proof. apply handle_next. Qed.

(** An event that is not newer than the model is acknowledged. *)
Lemma HandleEvent_old ctx e s entity v :
  repo_ok s -> current s (entityLookupFn h e) = Some entity -> Versionable entity = Some v ->
  version e <= v ->
  exists s', HandleEvent ctx (Some e) s = (Ok tt, s') /\ repo_ok s' /\ entities s' = entities s.
Proof.
  intros Hok Hc Hv Hle. unfold HandleEvent.
  destruct (handle_found (if useRetryOnce h then 1 else 0) ctx e s entity Hok Hc)
    as (s1 & Hok1 & Hent1 & ->).
  cbv zeta. rewrite Hv. destruct (Z.leb_spec (version e) v); [|lia]. by exists s1.
Qed.

(** An event that skips versions is refused. *)
Lemma HandleEvent_future ctx e s entity v :
  repo_ok s -> current s (entityLookupFn h e) = Some entity -> Versionable entity = Some v ->
  is_int (v + 1) -> v + 1 < version e ->
  useIrregularVersioning h = false -> useRetryOnce h = false ->
  exists s', HandleEvent ctx (Some e) s =
    (Err (projector_error
            (Sentinel (if v =? 0 then ErrModelRemoved else ErrIncorrectEntityVersion))
            (Some e) (entityLookupFn h e) v), s') /\ repo_ok s' /\ entities s' = entities s.
Proof.
  intros Hok Hc Hv Hint Hgt Hirr Hretry. unfold HandleEvent. rewrite Hretry.
  destruct (handle_found 0 ctx e s entity Hok Hc) as (s1 & Hok1 & Hent1 & ->).
  cbv zeta. rewrite Hv, Hirr. destruct (Z.leb_spec (version e) v); [lia|].
  rewrite bool_decide_true by (rewrite iadd_id by done; lia). cbn [andb negb].
  exists s1. split; [|by split]. destruct (Z.eqb_spec v 0); cbn [andb]; [|done].
  by destruct (Z.ltb_spec 1 (version e)); [|lia].
Qed.

(** events are projected at most once and never out of order.  An event
    not newer than the model is acknowledged and changes nothing; an event that
    skips versions is refused (without the retry: with the model-removed error
    for a new model) and changes nothing; a nil event is refused. *)
Theorem HandleEvent_old_and_future_events ctx e s entity v :
  repo_ok s -> current s (entityLookupFn h e) = Some entity -> Versionable entity = Some v ->
  is_int (v + 1) ->
  (version e <= v ->
     exists s', HandleEvent ctx (Some e) s = (Ok tt, s') /\ entities s' = entities s) /\
  (v + 1 < version e -> useIrregularVersioning h = false -> useRetryOnce h = false ->
     exists s', HandleEvent ctx (Some e) s =
       (Err (projector_error
               (Sentinel (if v =? 0 then ErrModelRemoved else ErrIncorrectEntityVersion))
               (Some e) (entityLookupFn h e) v), s') /\ entities s' = entities s) /\
  HandleEvent ctx None s = (Err (projector_error (Sentinel ErrMissingEvent) None Nil 0), s).
Proof.
  intros Hok Hc Hv Hint. split; [|split; [|done]].
  - intros Hle. destruct (HandleEvent_old ctx e s entity v Hok Hc Hv Hle) as (s1 & ? & _ & ?).
    by exists s1.
  - intros. destruct (HandleEvent_future ctx e s entity v) as (s1 & ? & _ & ?); try done. by exists s1.
Qed.

(** Deliveries of a stream's events by index, at least once and in order: what
    was delivered up to event [n] may come again, and the only new event is the
    next one. *)
Inductive in_order : nat -> list nat -> nat -> Prop :=
| in_order_nil n : in_order n [] n
| in_order_again n k ks n' : (k < n)%nat -> in_order n ks n' -> in_order n (k :: ks) n'
| in_order_next n ks n' : in_order (Datatypes.S n) ks n' -> in_order n (n :: ks) n'.

Lemma delivered_at_least_once ctx id (evs : list event) (m : nat -> E) n ks n' s :
  repo_ok s -> id <> Nil -> serial id 0 evs -> is_int (len evs + 1) ->
  (forall e, e ∈ evs -> entityLookupFn h e = id) ->
  (forall k, (k <= length evs)%nat -> Versionable (m k) = Some (Z.of_nat k)) ->
  (forall k e, evs !! k = Some e -> Project ctx e (m k) = inl (Some (m (Datatypes.S k)))) ->
  (forall k, (0 < k <= length evs)%nat -> EntityID (m k) = id /\ keepable (m k)) ->
  in_order n ks n' -> (n' <= length evs)%nat -> current s id = Some (m n) ->
  exists s', for_range ks (fun k => HandleEvent ctx (evs !! k)) s = (Ok tt, s') /\ repo_ok s' /\
    current s' id = Some (m n') /\
    (forall id', id' <> id -> entities s' !! id' = entities s !! id').
Proof.
  intros Hok Hnil Hser Hint Hlook Hver Hproj Hid Hord Hn'. revert s Hok.
  assert (forall a l b, in_order a l b -> (a <= b)%nat) as Hmono by (induction 1; lia).
  induction Hord as [n|n k ks n' Hk Hord IH|n ks n' Hord IH]; intros s Hok Hc.
  - by exists s.
  - pose proof (Hmono _ _ _ Hord). destruct (lookup_lt_is_Some_2 evs k ltac:(lia)) as [e He].
    destruct (serial_lookup _ _ _ _ _ Hser He) as [_ Hev].
    assert (entityLookupFn h e = id) as Hl by (by apply Hlook; eapply list_elem_of_lookup_2).
    destruct (HandleEvent_old ctx e s (m n) (Z.of_nat n)) as (s1 & Hs1 & Hok1 & Hent1);
      [done|by rewrite Hl|apply Hver; lia|lia|].
    destruct (IH Hn' s1 Hok1) as (s' & Hr & Hok' & Hc' & Hoth); [unfold current; by rewrite Hent1|].
    exists s'. cbn [for_range]. rewrite He, (bind_ok _ _ s s1 tt) by done.
    split; [done|]. split; [done|]. split; [done|]. intros. by rewrite Hoth, Hent1.
  - pose proof (Hmono _ _ _ Hord). destruct (lookup_lt_is_Some_2 evs n ltac:(lia)) as [e He].
    destruct (serial_lookup _ _ _ _ _ Hser He) as [_ Hev].
    assert (entityLookupFn h e = id) as Hl by (by apply Hlook; eapply list_elem_of_lookup_2).
    destruct (Hid (Datatypes.S n) ltac:(lia)) as [Hmid Hk].
    destruct (handle_next ctx e s (m n) (Some (m (Datatypes.S n))) (if useRetryOnce h then 1 else 0))
      as (s1 & Hs1 & Hok1 & Hent1).
    + done.
    + by rewrite Hl.
    + rewrite Hver by lia. intros v [= <-]. split; [lia|]. unfold is_int, MinInt, MaxInt, len in *. lia.
    + by apply Hproj.
    + simpl. rewrite Hl. split; [done|]. split; [done|]. split; [done|].
      rewrite Hver by lia. intros v [= <-]. lia.
    + rewrite Hl in Hent1. simpl in Hent1.
      destruct (IH Hn' s1 Hok1) as (s' & Hr & Hok' & Hc' & Hoth).
      { unfold current. by rewrite Hent1, lookup_insert_eq. }
      exists s'. cbn [for_range]. rewrite He, (bind_ok _ _ s s1 tt) by done.
      split; [done|]. split; [done|]. split; [done|]. intros.
      by rewrite Hoth, Hent1, lookup_insert_ne.
Qed.

(** C20: with at-least-once delivery in order, the read model is a function of
    the stream.  If projecting the stream's events one after the other from a
    new model gives the models [m 1], [m 2], ..., then any such delivery is
    handled without error and leaves the model of the last event delivered,
    however often events were repeated; other models are untouched. *)
Theorem HandleEvent_at_least_once ctx id (evs : list event) (m : nat -> E) n ks n' s :
  repo_ok s -> id <> Nil -> serial id 0 evs -> is_int (len evs + 1) ->
  (forall e, e ∈ evs -> entityLookupFn h e = id) ->
  (forall k, (k <= length evs)%nat -> Versionable (m k) = Some (Z.of_nat k)) ->
  (forall k e, evs !! k = Some e -> Project ctx e (m k) = inl (Some (m (Datatypes.S k)))) ->
  (forall k, (0 < k <= length evs)%nat -> EntityID (m k) = id /\ keepable (m k)) ->
  in_order n ks n' -> (n' <= length evs)%nat -> current s id = Some (m n) ->
  exists s', for_range ks (fun k => HandleEvent ctx (evs !! k)) s = (Ok tt, s') /\ repo_ok s' /\
    current s' id = Some (m n') /\
    (forall id', id' <> id -> entities s' !! id' = entities s !! id').
Proof. apply delivered_at_least_once. Qed.

End Projector.
