(* ===== verification/Graceful.v ===== *)
(** * Graceful contexts ([outbox/mongodb/graceful.go], [outbox/memory/graceful.go])

    A context that ends some time after its parent: when nothing kept it alive
    for [idle], at the latest after [forceAfter].  The goroutine behind it is a
    state machine; a label is what reaches it, with the time: a [KeepAlive] that
    the code drops because the goroutine is not at its [select] is no label. *)

From stdpp Require Import base gmap strings list numbers option pretty sorting.
From Stdlib Require Import Lia ZArith.
From S2P Require Import Prelude.
From S2P Require Import GoTypes.

Module Graceful.

(** [Waiting] for the parent or for [cancel]; [Grace] with the time the parent
    ended and those of the two timers; [Closed]: [doneCh] is closed. *)
Inductive phase : Type :=
| Waiting
| Grace (ended : Time) (idleT forceShutdown : Time)
| Closed (ended : option Time).

(** [stopped]: [stopCh] is closed. *)
Record GracefulContext : Type := mkGraceful {
  ph : phase;
  stopped : bool
}.

Definition Done (g : GracefulContext) : bool :=
  match ph g with Closed _ => true | _ => false end.

(** [Stopping] is the goroutine's turn on [stopCh], [Timer] on one of the timers. *)
Inductive label : Type :=
| ParentDone
| KeepAlive
| Cancel
| Stopping
| Timer.

#[export] Instance label_EqDecision : EqDecision label.
Proof. solve_decision. Defined.

Section Graceful.
Context (idle forceAfter : Z).

Definition NewGracefulContext : GracefulContext := mkGraceful Waiting false.

(** One step at time [now], if it is possible.  [keepAlive] is dropped unless the
    goroutine is in the inner [select], where [stopCh] is not looked at any more;
    [cancel] twice closes a closed channel. *)
Definition step (now : Time) (l : label) (g : GracefulContext)
  : option (outcome Empty_set GracefulContext) :=
  match l, ph g with
  | ParentDone, Waiting =>
      Some (Ok (mkGraceful (Grace now (now + idle) (now + forceAfter)) (stopped g)))
  | KeepAlive, Grace e _ f => Some (Ok (mkGraceful (Grace e (now + idle) f) (stopped g)))
  | Cancel, p =>
      if stopped g then Some (Panic "close of closed channel") else Some (Ok (mkGraceful p true))
  | Stopping, Waiting => if stopped g then Some (Ok (mkGraceful (Closed None) true)) else None
  | Timer, Grace e i f =>
      if (i <=? now) || (f <=? now) then Some (Ok (mkGraceful (Closed (Some e)) (stopped g))) else None
  | (ParentDone | KeepAlive), _ => Some (Ok g)
  | (Stopping | Timer), _ => None
  end.

Fixpoint runs (ls : list (Time * label)) (g : GracefulContext) : option (outcome Empty_set GracefulContext) :=
  match ls with
  | [] => Some (Ok g)
  | (now, l) :: ls' =>
      match step now l g with
      | Some (Ok g') => runs ls' g'
      | o => o
      end
  end.

(** The context was not kept alive at [t] and, after the parent's end, not since
    [idle] before. *)
Definition idle_since (e : Time) (ls : list (Time * label)) (t : Time) : Prop :=
  e + idle <= t /\ forall k, (k, KeepAlive) ∈ ls -> e < k -> k + idle <= t.

Definition promise (ls : list (Time * label)) (g : GracefulContext) : Prop :=
  match ph g with
  | Waiting => True
  | Grace e i f => f = e + forceAfter /\ (e, ParentDone) ∈ ls /\ idle_since e ls i
  | Closed None => stopped g = true
  | Closed (Some e) => exists pre t post, ls = pre ++ (t, Timer) :: post /\
      (e + forceAfter <= t \/ idle_since e pre t)
  end.

(** The times of the labels do not go back. *)
Definition in_order (ls : list (Time * label)) : Prop := StronglySorted Z.le ls.*1.

Lemma in_order_split ls now l ls' k x :
  in_order (ls ++ (now, l) :: ls') -> (k, x) ∈ ls -> k <= now.
Proof.
  unfold in_order. rewrite fmap_app. intros Hs Hk.
  eapply StronglySorted_app_1_elem_of; [exact Hs|by apply (list_elem_of_fmap_2 fst) in Hk|by left].
Qed.

Lemma idle_since_snoc e ls i t l : l <> KeepAlive -> idle_since e ls i -> idle_since e (ls ++ [(t, l)]) i.
Proof.
  intros Hl [He Hk]. split; [done|]. intros k [Hin|Hin]%elem_of_app; [by apply Hk|].
  apply list_elem_of_singleton in Hin. congruence.
Qed.

Lemma promise_same ls now l g g' :
  promise ls g -> ph g' = ph g -> (stopped g = true -> stopped g' = true) ->
  (l = KeepAlive -> forall e i f, ph g <> Grace e i f) -> promise (ls ++ [(now, l)]) g'.
Proof.
  unfold promise. intros Hp -> Hs Hl. destruct (ph g) as [|e i f|[e|]]; [done| | |by apply Hs].
  - destruct Hp as (? & ? & ?). split; [done|]. split; [by apply elem_of_app; left|].
    apply idle_since_snoc; [|done]. intros ->. by apply (Hl eq_refl e i f).
  - destruct Hp as (pre & t & post & -> & Ht). exists pre, t, (post ++ [(now, l)]).
    split; [by rewrite <- app_assoc|done].
Qed.

Lemma step_promise ls now l ls' g g' :
  0 <= idle -> in_order (ls ++ (now, l) :: ls') ->
  promise ls g -> step now l g = Some (Ok g') -> promise (ls ++ [(now, l)]) g'.
Proof.
  intros Hidle Hord Hp Hs.
  pose proof (fun k x => in_order_split ls now l ls' k x Hord) as Hle. clear Hord.
  destruct g as [p st]. unfold step in Hs. cbn [ph stopped] in Hs.
  destruct l, p as [|e i f|e]; try done; repeat case_match; simplify_eq;
    try (eapply promise_same; [exact Hp|done|done|done]).
  - unfold promise. cbn [ph]. split; [done|]. split; [apply elem_of_app; right; by left|].
    split; [lia|]. intros k [Hk|Hk]%elem_of_app Hlt; [apply Hle in Hk; lia|].
    apply list_elem_of_singleton in Hk. congruence.
  - destruct Hp as (-> & Hin & He & Hk). pose proof (Hle _ _ Hin). unfold promise. cbn [ph].
    split; [done|]. split; [by apply elem_of_app; left|]. split; [lia|].
    intros k [Hin'|Hin']%elem_of_app Hlt; [apply Hle in Hin'; lia|].
    apply list_elem_of_singleton in Hin'. injection Hin' as ->. lia.
  - done.
  - destruct Hp as (-> & Hin & He & Hk). unfold promise. cbn [ph]. exists ls, now, []. split; [done|].
    apply orb_true_iff in H. destruct H as [H|H]; apply Z.leb_le in H; [right|by left].
    split; [lia|]. intros k Hin' Hlt. specialize (Hk k Hin' Hlt). lia.
Qed.

(** C40: the grace period.  Once its parent has ended, the context ends only when
    nothing kept it alive for [idle], or [forceAfter] is over; without its parent
    it ends only when it is cancelled.  While it is kept open, its last timer is
    set to [forceAfter] after the parent's end, from when on it can be closed. *)
Theorem graceful_bounds ls g :
  0 <= idle -> in_order ls -> runs ls NewGracefulContext = Some (Ok g) ->
  promise ls g /\
  (forall e i f now, ph g = Grace e i f -> e + forceAfter <= now ->
     exists g', step now Timer g = Some (Ok g') /\ Done g' = true).
Proof.
  intros Hidle Hord Hr.
  assert (promise ls g) as Hp.
  { assert (forall ls' pre g0, in_order (pre ++ ls') -> promise pre g0 -> runs ls' g0 = Some (Ok g) ->
      promise (pre ++ ls') g) as Hgen; [|by apply (Hgen ls [] NewGracefulContext)].
    induction ls' as [|[now l] ls' IH]; intros pre g0 Ho H0 Hr0; cbn [runs] in Hr0.
    - injection Hr0 as ->. by rewrite app_nil_r.
    - destruct (step now l g0) as [[g1|?|?]|] eqn:Hs; [|done..].
      rewrite app_cons_snoc. apply (IH _ g1); [by rewrite <- app_cons_snoc| |done].
      by eapply step_promise. }
  split; [done|]. intros e i f now Hg Hf. unfold promise in Hp. rewrite Hg in Hp.
  destruct Hp as (-> & _). unfold step. rewrite Hg.
  rewrite (proj2 (Z.leb_le (e + forceAfter) now)), orb_true_r by done. by eexists.
Qed.

End Graceful.

(** Half a second of idle time, five seconds at most (in milliseconds): kept alive
    once, the context ends 500 later. *)
Lemma graceful_bounds_witness :
  let ls := [(100, KeepAlive); (1000, ParentDone); (1300, KeepAlive); (1400, Cancel); (1800, Timer)] in
  exists g, runs 500 5000 ls NewGracefulContext = Some (Ok g) /\ Done g = true /\ promise 500 5000 ls g.
Proof.
  intros ls. eexists. split; [reflexivity|]. split; [reflexivity|].
  eapply (graceful_bounds 500 5000 ls).
  - discriminate.
  - unfold in_order, ls. simpl. repeat (constructor; [|repeat constructor; discriminate]). constructor.
  - reflexivity.
Defined.

End Graceful.
