(* ===== verification/Outbox.v ===== *)
(** * The in-memory outbox ([outbox/memory/outbox.go], [outbox.go])

    [docs] holds every [outboxDoc] ever made, by ID: the map [db] and the watch
    channel share pointers to them.  The goroutine bodies are single steps
    here ([processWithWatch] handles one record per step, [processFullOutbox]
    is one sweep), each run under the outbox's lock as in the code.

    The time is an argument of every step, a sweep takes the order in which the
    map iteration visits the records, [uuid.New] is the ID argument of
    [HandleEvent], and the handlers act on the rest [X] of the program. *)

From stdpp Require Import base gmap strings list numbers option pretty.
From Stdlib Require Import Lia ZArith.
From S2P Require Import Prelude.
From S2P Require Import GoTypes.
From S2P Require Import Event.
From S2P Require Import Command.
From S2P Require Import Errors.
From S2P Require Import Fixtures.
From S2P Require Import MemStore.

Definition PeriodicSweepAge : Z := 15 * Second.

Definition PeriodicCleanupAge : Z := 10 * Minute.

Record outboxDoc : Type := mkDoc {
  doc_Event : event;
  doc_Ctx : context;
  doc_Handlers : list string;
  doc_CreatedAt : Time;
  doc_TakenAt : Time
}.

Section Outbox.
Context {X : Type}.
Context (eventDataFactories : gmap string (unit -> any)).
Context (copier_Copy : any -> any -> any + error).

Record matcherHandler : Type := mkMatcherHandler {
  mh_Match : event -> bool;
  mh_HandlerType : string;
  mh_HandleEvent : context -> event -> M X unit
}.

Record Outbox : Type := mkOutbox {
  docs : gmap UUID outboxDoc;
  db : gset UUID;
  handlers : list matcherHandler;
  watchCh : list UUID;
  errCh : list error
}.

Definition NewOutbox : Outbox := mkOutbox ∅ ∅ [] [] [].

Definition watchCh_cap : Z := 100.

Definition errCh_cap : Z := 100.

Definition HandlerType : string := "outbox".

(** A receive from [Errors()] that does not block. *)
Definition receive_error : M Outbox (option error) := fun o =>
  match errCh o with
  | err :: errs => (Ok (Some err), mkOutbox (docs o) (db o) (handlers o) (watchCh o) errs)
  | [] => (Ok None, o)
  end.

(** The package's own copy of [copyEvent], the same text. *)
Definition copyEvent {S} (e : option event) : M S event := MemStore.copyEvent eventDataFactories copier_Copy e.

(** [handlersByType]: the handlers by type; types are unique, since
    [AddHandler] refuses a type that is there. *)
Fixpoint handler (handlerType : string) (hs : list matcherHandler) : option matcherHandler :=
  match hs with
  | [] => None
  | h :: hs' =>
      if bool_decide (mh_HandlerType h = handlerType) then Some h else handler handlerType hs'
  end.

Definition AddHandler (m : option (event -> bool))
    (h : option (string * (context -> event -> M X unit))) : M Outbox unit :=
  match m with
  | None => throw (Sentinel ErrMissingMatcher)
  | Some m =>
      match h with
      | None => throw (Sentinel ErrMissingHandler)
      | Some (t, h) =>
          let! o := gets (fun o => o) in
          match handler t (handlers o) with
          | Some _ => throw (Sentinel ErrHandlerAlreadyAdded)
          | None =>
              modify (fun o => mkOutbox (docs o) (db o) (handlers o ++ [mkMatcherHandler m t h])
                                 (watchCh o) (errCh o))
          end
      end
  end.

(** A buffered channel with a [default] case: dropped when full. *)
Definition send {A} (cap : Z) (x : A) (ch : list A) : list A :=
  if len ch <? cap then ch ++ [x] else ch.

Definition set_docs (f : gmap UUID outboxDoc -> gmap UUID outboxDoc) (o : Outbox) : Outbox :=
  mkOutbox (f (docs o)) (db o) (handlers o) (watchCh o) (errCh o).

Definition HandleEvent (newID : UUID) (now : Time) (ctx : context) (ev : option event)
  : M Outbox unit :=
  let! o := gets (fun o => o) in
  let! e := deref ev in
  let handlerNames := mh_HandlerType <$> filter (fun h => mh_Match h e = true) (handlers o) in
  let! c := map_err (fun err => Errorf "could not copy event" err)
              (copyEvent ev) in
  modify (fun o =>
    mkOutbox (<[newID := mkDoc c ctx handlerNames now 0]> (docs o)) ({[newID]} ∪ db o)
      (handlers o) (send watchCh_cap newID (watchCh o)) (errCh o)).

(** The state while processing: the outbox and the rest of the program. *)
Abbreviation St := (Outbox * X)%type.

Definition report (err : error) : M St unit :=
  zoom_fst (modify (fun o =>
    mkOutbox (docs o) (db o) (handlers o) (watchCh o) (send errCh_cap err (errCh o)))).

(** The loop over [r.Handlers]: the types whose handler succeeded. *)
Fixpoint process_handlers (r : outboxDoc) (types : list string) : M St (list string) :=
  match types with
  | [] => ret []
  | t :: types' =>
      let! o := gets fst in
      match handler t (handlers o) with
      | None => process_handlers r types'
      | Some mh =>
          if negb (mh_Match mh (doc_Event r)) then process_handlers r types'
          else
            let! res := attempt (zoom_snd (mh_HandleEvent mh (doc_Ctx r) (doc_Event r))) in
            match res with
            | inr err =>
                do! report (OutboxError
                      (Some (Errorf ("could not handle event (" +:+ mh_HandlerType mh +:+ ")") err))
                      (Some (doc_Ctx r)) (Some (doc_Event r))) in
                process_handlers r types'
            | inl _ =>
                let! processed := process_handlers r types' in
                ret (t :: processed)
            end
      end
  end.

(** The nested loops that take the processed types out of [r.Handlers]. *)
Fixpoint remove_processed (processed : list string) (hs : list string) : list string :=
  match processed with
  | [] => hs
  | ph :: processed' => remove_processed processed' (filter (fun h => h <> ph) hs)
  end.

Definition due (r : outboxDoc) (now : Time) : bool :=
  IsZero (doc_TakenAt r) ||
  Before (doc_TakenAt r) (Add now (- PeriodicSweepAge)) ||
  (IsZero (doc_TakenAt r) && Before (doc_CreatedAt r) (Add now (- PeriodicCleanupAge))).

Definition processOutboxEvent (id : UUID) (now : Time) : M St unit :=
  let! o := gets fst in
  let! r := deref (docs o !! id) in
  if negb (due r now) then ret tt
  else
    let r := mkDoc (doc_Event r) (doc_Ctx r) (doc_Handlers r) (doc_CreatedAt r) now in
    do! zoom_fst (modify (set_docs <[id := r]>)) in
    let! processed := process_handlers r (doc_Handlers r) in
    if len processed =? len (doc_Handlers r)
    then zoom_fst (modify (fun o =>
           mkOutbox (docs o) (db o ∖ {[id]}) (handlers o) (watchCh o) (errCh o)))
    else if 0 <? len processed
    then zoom_fst (modify (set_docs <[id :=
           mkDoc (doc_Event r) (doc_Ctx r) (remove_processed processed (doc_Handlers r))
             (doc_CreatedAt r) (doc_TakenAt r)]>))
    else ret tt.

(** [case r := <-o.watchCh]. *)
Definition processWithWatch (now : Time) : M St unit :=
  let! o := gets fst in
  match watchCh o with
  | [] => ret tt
  | id :: rest =>
      do! zoom_fst (modify (fun o => mkOutbox (docs o) (db o) (handlers o) rest (errCh o))) in
      processOutboxEvent id now
  end.

(** The records a sweep leaves alone. *)
Definition skipped (r : outboxDoc) (now : Time) : bool :=
  negb (Before (doc_TakenAt r) (Add now (- PeriodicSweepAge))) &&
  (negb (IsZero (doc_TakenAt r)) || negb (Before (doc_CreatedAt r) (Add now (- PeriodicCleanupAge)))).

(** [order] is the order the iteration over [o.db] takes. *)
Definition processFullOutbox (order : list UUID) (now : Time) : M St unit :=
  for_range order (fun id =>
    let! o := gets fst in
    let! r := deref (docs o !! id) in
    if skipped r now then ret tt else processOutboxEvent id now).

(** ** The goroutines

    [times]: when the watching goroutine takes a record, until its context is
    done; [wakes]: when the timer fires, until the outbox is closed. *)

Definition watch_loop (times : list Time) : M St unit := for_range times processWithWatch.

(** One run of [f]: whether the goroutine goes on. *)
Definition run_once (f : M St unit) : M St bool :=
  let! res := attempt f in
  match res with
  | inl _ => ret true
  | inr err =>
      if errors_Is err (CtxErr Canceled) then ret false
      else do! report (OutboxError (Some err) None None) in ret true
  end.

Fixpoint runPeriodicallyUntilCancelled (f : Time -> M St unit) (now : Time) (wakes : list Time)
  : M St unit :=
  let! continue := run_once (f now) in
  if continue then
    match wakes with
    | [] => ret tt
    | now' :: wakes' => runPeriodicallyUntilCancelled f now' wakes'
    end
  else ret tt.

(** ** Lemmas *)

(** A goroutine whose rounds give no error runs them all. *)
Lemma run_rounds f now wakes st :
  (forall t s e s', f t s <> (Err e, s')) ->
  runPeriodicallyUntilCancelled f now wakes st = for_range (now :: wakes) f st.
Proof.
  intros Hf. revert now st.
  induction wakes as [|now' wakes IH]; intros now st; cbn [runPeriodicallyUntilCancelled for_range];
    unfold run_once, attempt; unfold bind at 1 2; pose proof (Hf now st) as Hn;
    destruct (f now st) as [[[]|e|p] s1] eqn:Hfn; try by destruct (Hn e s1).
  - unfold bind. by rewrite Hfn.
  - unfold bind. by rewrite Hfn.
  - cbn [ret]. rewrite (bind_ok _ _ _ _ _ Hfn). apply IH.
  - by rewrite (bind_panic _ _ _ _ _ Hfn).
Qed.

Lemma handler_spec t hs h : handler t hs = Some h -> h ∈ hs /\ mh_HandlerType h = t.
Proof.
  induction hs as [|h' hs IH]; simpl; [done|]. case_bool_decide as Ht.
  - intros [= ->]. split; [by left|done].
  - intros [Hin Ht']%IH. split; [by right|done].
Qed.

Lemma remove_processed_spec processed hs :
  remove_processed processed hs = filter (fun h => h ∉ processed) hs.
Proof.
  revert hs. induction processed as [|p processed IH]; intros hs; simpl.
  - symmetry. apply filter_all, Forall_forall. intros x _. apply not_elem_of_nil.
  - rewrite IH, list_filter_filter. apply list_filter_iff. intros x.
    rewrite not_elem_of_cons. tauto.
Qed.

(** The handler of type [t] ran on the record's event and succeeded. *)
Definition succeeded (hs : list matcherHandler) (r : outboxDoc) (t : string) : Prop :=
  exists mh x x', handler t hs = Some mh /\ mh_Match mh (doc_Event r) = true /\
    mh_HandleEvent mh (doc_Ctx r) (doc_Event r) x = (Ok tt, x').

(** What processing leaves alone. *)
Definition same_store (o o' : Outbox) : Prop :=
  docs o' = docs o /\ db o' = db o /\ handlers o' = handlers o /\ watchCh o' = watchCh o.

Lemma process_handlers_spec r types o x :
  match process_handlers r types (o, x) with
  | (Ok processed, (o', _)) =>
      same_store o o' /\ sublist processed types /\
      Forall (succeeded (handlers o) r) processed
  | (Err _, _) => False
  | (Panic _, (o', _)) => same_store o o'
  end.
Proof.
  revert o x. induction types as [|t types IH]; intros o x; [by split_and!|].
  cbn [process_handlers]. rewrite (bind_ok _ _ (o, x) (o, x) o) by done.
  destruct (handler t (handlers o)) as [mh|] eqn:Hmh.
  2: { specialize (IH o x). destruct (process_handlers _ _ _) as [[p|?|?] [o' x']]; [|done..].
       destruct IH as (? & ? & ?). split_and!; [done|by apply sublist_cons|done]. }
  destruct (mh_Match mh (doc_Event r)) eqn:Hm; cbn [negb].
  2: { specialize (IH o x). destruct (process_handlers _ _ _) as [[p|?|?] [o' x']]; [|done..].
       destruct IH as (? & ? & ?). split_and!; [done|by apply sublist_cons|done]. }
  unfold bind at 1, attempt, zoom_snd, zoom. simpl snd. simpl fst.
  destruct (mh_HandleEvent mh (doc_Ctx r) (doc_Event r) x) as [[[]|err|p] x1] eqn:Hh; simpl.
  - specialize (IH o x1). unfold bind.
    destruct (process_handlers r types (o, x1)) as [[ps|?|?] [o' x']]; [|done..].
    destruct IH as (? & ? & ?). split_and!; [done|by constructor|].
    constructor; [|done]. by exists mh, x, x1.
  - unfold report, zoom_fst, zoom, modify, bind. simpl.
    specialize (IH (mkOutbox (docs o) (db o) (handlers o) (watchCh o)
      (send errCh_cap (OutboxError (Some (Errorf ("could not handle event (" +:+ mh_HandlerType mh +:+ ")") err))
        (Some (doc_Ctx r)) (Some (doc_Event r))) (errCh o))) x1).
    destruct (process_handlers _ _ _) as [[ps|?|?] [o' x']]; [|done..].
    destruct IH as (? & ? & ?). split_and!; [done|by apply sublist_cons|done].
  - done.
Qed.

Lemma len_sublist {A} (l k : list A) : sublist l k -> len l = len k -> l = k.
Proof.
  unfold len. induction 1 as [|x l k Hs IH|x l k Hs IH]; intros Hl; [done| |].
  - f_equal. apply IH. simpl in Hl. lia.
  - apply sublist_length in Hs. simpl in Hl. lia.
Qed.

(** an event put into the outbox waits for exactly the handlers whose
    matcher accepts it, in the order they were added; nothing that was in the
    outbox is lost, even when the watch channel is full. *)
Theorem HandleEvent_waits_for_matching newID now ctx e o :
  copyable eventDataFactories copier_Copy e -> docs o !! newID = None ->
  exists o', HandleEvent newID now ctx (Some e) o = (Ok tt, o') /\
    db o' = {[newID]} ∪ db o /\
    docs o' !! newID = Some (mkDoc e ctx
      (mh_HandlerType <$> filter (fun h => mh_Match h e = true) (handlers o)) now 0) /\
    (forall id, id <> newID -> docs o' !! id = docs o !! id) /\
    handlers o' = handlers o /\ prefix (watchCh o) (watchCh o').
Proof.
  intros Hc Hnew. eexists. split.
  { unfold HandleEvent. rewrite (bind_ok _ _ o o o) by done. rewrite (bind_ok _ _ o o e) by done.
    rewrite (bind_ok _ _ o o e); [done|]. apply map_err_ok. by apply copyEvent_copyable. }
  simpl. split_and!; try done.
  - apply lookup_insert_eq.
  - intros. by apply lookup_insert_ne.
  - unfold send. case_match; [by eexists|done].
Qed.

(** Taking a record: the state its handlers run in. *)
Definition take (id : UUID) (now : Time) (r : outboxDoc) (o : Outbox) : Outbox :=
  set_docs <[id := mkDoc (doc_Event r) (doc_Ctx r) (doc_Handlers r) (doc_CreatedAt r) now]> o.

(** C28: at least once.  Processing a record lets go of a handler only after
    that handler ran on the record's event and succeeded: the record leaves the
    outbox only when all its handlers did, and otherwise keeps every handler
    that did not.  It never returns an error; a handler's panic leaves the
    record and all its handlers in place.  Other records are untouched. *)
Theorem processOutboxEvent_at_least_once id now o x r :
  docs o !! id = Some r -> id ∈ db o ->
  let '(out, (o', _)) := processOutboxEvent id now (o, x) in
  (exists r', docs o' !! id = Some r' /\ doc_Event r' = doc_Event r /\ doc_Ctx r' = doc_Ctx r /\
     (id ∈ db o' -> forall t, t ∈ doc_Handlers r -> t ∈ doc_Handlers r' \/ succeeded (handlers o) r t)) /\
  (id ∉ db o' -> Forall (succeeded (handlers o) r) (doc_Handlers r)) /\
  (forall err, out <> Err err) /\
  (forall id', id' <> id -> docs o' !! id' = docs o !! id' /\ (id' ∈ db o' <-> id' ∈ db o)).
Proof.
  intros Hr Hin. unfold processOutboxEvent.
  rewrite (bind_ok _ _ (o, x) (o, x) o) by done. rewrite Hr.
  rewrite (bind_ok _ _ (o, x) (o, x) r) by done.
  destruct (due r now); cbn [negb].
  2: { split_and!; [exists r; split_and!; by auto|done|done|done]. }
  rewrite (bind_ok _ _ (o, x) (take id now r o, x) tt) by done.
  set (r1 := mkDoc _ _ _ _ now).
  assert (forall t, succeeded (handlers o) r1 t -> succeeded (handlers o) r t) as Hsame by done.
  assert (docs (take id now r o) !! id = Some r1) as Htake by apply lookup_insert_eq.
  assert (forall id', id' <> id -> docs (take id now r o) !! id' = docs o !! id') as Hother
    by (intros; by apply lookup_insert_ne).
  pose proof (process_handlers_spec r1 (doc_Handlers r1) (take id now r o) x) as Hp.
  unfold bind. destruct (process_handlers r1 _ _) as [[ps|err|p] [o1 x1]]; [|done|].
  - destruct Hp as ((Hdocs & Hdb & Hhs & _) & Hsub & Hsucc).
    destruct (Z.eqb_spec (len ps) (len (doc_Handlers r1))) as [Hlen|Hlen].
    + apply len_sublist in Hlen as ->; [|done]. simpl. rewrite Hdocs. split_and!.
      * exists r1. split_and!; try done. set_solver.
      * intros _. eapply Forall_impl; [exact Hsucc|apply Hsame].
      * done.
      * intros id' Hne. rewrite Hdb. split; [by apply Hother|set_solver].
    + destruct (0 <? len ps); simpl; rewrite Hdocs, Hdb.
      * split_and!; [|set_solver|done|].
        -- eexists. split; [apply lookup_insert_eq|]. simpl. split_and!; try done.
           intros _ t Ht. rewrite remove_processed_spec.
           destruct (decide (t ∈ ps)) as [Hps|Hps].
           ++ right. apply Hsame. rewrite Forall_forall in Hsucc. by apply Hsucc.
           ++ left. apply list_elem_of_filter. done.
        -- intros id' Hne. rewrite lookup_insert_ne by done. split; [by apply Hother|done].
      * split_and!; [|set_solver|done|].
        -- exists r1. split_and!; try done. by auto.
        -- intros id' Hne. split; [by apply Hother|done].
  - destruct Hp as (Hdocs & Hdb & _ & _). rewrite Hdocs, Hdb. split_and!; [|done|done|].
    + exists r1. split_and!; try done. by auto.
    + intros id' Hne. split; [by apply Hother|done].
Qed.

(** ** Sweeping *)

(** The sweep's test and the processing test are one and the same once the
    clock is past the sweep age: the record was never taken, or was taken
    longer ago than the sweep age.  The cleanup age never matters. *)
Lemma due_spec r now :
  PeriodicSweepAge < now ->
  (due r now = true <-> doc_TakenAt r = 0 \/ doc_TakenAt r + PeriodicSweepAge < now) /\
  skipped r now = negb (due r now).
Proof.
  intros Hnow. unfold due, skipped, IsZero, Before, Add.
  destruct (Z.eqb_spec (doc_TakenAt r) 0) as [->|Hz]; simpl.
  - destruct (Z.ltb_spec 0 (now + - PeriodicSweepAge)); [|lia]. simpl. split; [|done]. tauto.
  - destruct (Z.ltb_spec (doc_TakenAt r) (now + - PeriodicSweepAge)); simpl;
      (split; [|done]); split; try done; lia.
Qed.

(** A record all of whose handlers are there, match and always succeed. *)
Definition handled_by (hs : list matcherHandler) (r : outboxDoc) : Prop :=
  Forall (fun t => exists mh, handler t hs = Some mh /\ mh_Match mh (doc_Event r) = true /\
    forall x, exists x', mh_HandleEvent mh (doc_Ctx r) (doc_Event r) x = (Ok tt, x'))
    (doc_Handlers r).

Lemma process_handlers_all r types o x :
  Forall (fun t => exists mh, handler t (handlers o) = Some mh /\ mh_Match mh (doc_Event r) = true /\
    forall x, exists x', mh_HandleEvent mh (doc_Ctx r) (doc_Event r) x = (Ok tt, x')) types ->
  exists x', process_handlers r types (o, x) = (Ok types, (o, x')).
Proof.
  intros HF. revert x. induction HF as [|t types (mh & Hmh & Hm & Hok) HF IH]; intros x; [by exists x|].
  cbn [process_handlers]. rewrite (bind_ok _ _ (o, x) (o, x) o) by done. rewrite Hmh, Hm. cbn [negb].
  destruct (Hok x) as (x1 & Hx1). destruct (IH x1) as (x' & Hx'). exists x'.
  rewrite (bind_ok _ _ (o, x) (o, x1) (inl tt)).
  - by rewrite (bind_ok _ _ (o, x1) (o, x') types).
  - apply attempt_ok. unfold zoom_snd, zoom. simpl. by rewrite Hx1.
Qed.

Lemma processOutboxEvent_handled id now o x r :
  docs o !! id = Some r -> due r now = true -> handled_by (handlers o) r ->
  exists o' x', processOutboxEvent id now (o, x) = (Ok tt, (o', x')) /\
    db o' = db o ∖ {[id]} /\ handlers o' = handlers o /\
    (forall id', id' <> id -> docs o' !! id' = docs o !! id').
Proof.
  intros Hr Hdue Hh. unfold processOutboxEvent.
  rewrite (bind_ok _ _ (o, x) (o, x) o) by done. rewrite Hr.
  rewrite (bind_ok _ _ (o, x) (o, x) r) by done. rewrite Hdue. cbn [negb].
  rewrite (bind_ok _ _ (o, x) (take id now r o, x) tt) by done.
  set (r1 := mkDoc _ _ _ _ now).
  destruct (process_handlers_all r1 (doc_Handlers r1) (take id now r o) x Hh) as (x' & Hp).
  rewrite (bind_ok _ _ _ _ _ Hp). rewrite Z.eqb_refl. eexists _, x'. split; [done|].
  simpl. split_and!; try done. intros. by apply lookup_insert_ne.
Qed.

(** nothing is forgotten.  One sweep over the outbox, in whatever order the
    map iteration takes, at a time when no record was taken within the sweep
    age, empties it if the handlers are there and succeed, also of records that
    never made it into the watch channel. *)
Theorem processFullOutbox_drains order now o x :
  PeriodicSweepAge < now -> NoDup order -> list_to_set order = db o ->
  (forall id, id ∈ db o -> exists r, docs o !! id = Some r /\ handled_by (handlers o) r /\
     (doc_TakenAt r = 0 \/ doc_TakenAt r + PeriodicSweepAge < now)) ->
  exists o' x', processFullOutbox order now (o, x) = (Ok tt, (o', x')) /\ db o' = ∅.
Proof.
  intros Hnow Hnd Hset Hall.
  cut (forall order o x, NoDup order -> db o = list_to_set order ->
    (forall id, id ∈ order -> exists r, docs o !! id = Some r /\ handled_by (handlers o) r /\
      (doc_TakenAt r = 0 \/ doc_TakenAt r + PeriodicSweepAge < now)) ->
    exists o' x', processFullOutbox order now (o, x) = (Ok tt, (o', x')) /\ db o' = ∅).
  { intros Hcut. apply Hcut; [done..|]. intros id Hid. apply Hall. set_solver. }
  clear x o order Hnd Hset Hall. intros order.
  induction order as [|id order IH]; intros o x Hnd Hset Hall; [by exists o, x|].
  apply NoDup_cons in Hnd as [Hid Hnd].
  destruct (Hall id ltac:(by left)) as (r & Hr & Hh & Ht).
  destruct (due_spec r now Hnow) as [Hdue Hskip]. apply Hdue in Ht.
  destruct (processOutboxEvent_handled id now o x r Hr Ht Hh) as (o1 & x1 & Hp & Hdb & Hhs & Hoth).
  destruct (IH o1 x1 Hnd) as (o' & x' & Hrun & Hempty).
  - rewrite Hdb, Hset. apply (not_elem_of_list_to_set (C := gset UUID)) in Hid.
    rewrite list_to_set_cons. set_solver.
  - intros id' Hid'. destruct (Hall id' ltac:(by right)) as (r' & ? & ? & ?).
    exists r'. rewrite Hhs, Hoth by (intros ->; done). done.
  - exists o', x'. split; [|done]. unfold processFullOutbox in *. cbn [for_range].
    rewrite (bind_ok _ _ (o, x) (o1, x1) tt); [done|].
    rewrite (bind_ok _ _ (o, x) (o, x) o) by done. rewrite Hr.
    rewrite (bind_ok _ _ (o, x) (o, x) r) by done. by rewrite Hskip, Ht.
Qed.

End Outbox.

(** ** Concrete inputs: a handler that counts and one that always fails *)

Definition count_handler : matcherHandler (X := Z) :=
  mkMatcherHandler (fun _ => true) "count" (fun _ _ => modify (fun n => n + 1)).

Definition fail_handler : matcherHandler (X := Z) :=
  mkMatcherHandler (fun _ => true) "fail" (fun _ _ => throw (ErrorString "no")).

Definition other_handler : matcherHandler (X := Z) :=
  mkMatcherHandler (fun e => negb (bool_decide (eventType e = "added"))) "other" (fun _ _ => ret tt).

Definition the_event : event := demo_event id1 2.

Definition demo_doc : outboxDoc := mkDoc the_event bg ["count"; "fail"] 5 0.

Definition demo_outbox : Outbox :=
  mkOutbox {[id2 := demo_doc]} {[id2]} [count_handler; fail_handler; other_handler] [id2] [].

Lemma HandleEvent_waits_for_matching_witness :
  exists o', HandleEvent demo_factories copier_assign id3 7 bg (Some the_event) demo_outbox = (Ok tt, o') /\
    doc_Handlers <$> (docs o' !! id3) = Some ["count"; "fail"] /\ docs o' !! id2 = Some demo_doc.
Proof.
  destruct (HandleEvent_waits_for_matching demo_factories copier_assign id3 7 bg the_event demo_outbox)
    as (o' & Ho & _ & Hd & Hoth & _).
  - reflexivity.
  - reflexivity.
  - exists o'. split; [exact Ho|]. split; [by rewrite Hd|]. by rewrite Hoth.
Defined.

Lemma processOutboxEvent_at_least_once_witness :
  let '(out, (o', x')) := processOutboxEvent id2 9 (demo_outbox, 0) in
  exists r', docs o' !! id2 = Some r' /\
    (id2 ∈ db o' -> forall t, t ∈ doc_Handlers demo_doc ->
       t ∈ doc_Handlers r' \/ succeeded (handlers demo_outbox) demo_doc t).
Proof.
  pose proof (processOutboxEvent_at_least_once id2 9 demo_outbox 0 demo_doc) as H.
  destruct (processOutboxEvent id2 9 (demo_outbox, 0)) as [out [o' x']].
  destruct H as ((r' & Hr & _ & _ & Ht) & _).
  - reflexivity.
  - simpl. by apply elem_of_singleton.
  - exists r'. split; [exact Hr|exact Ht].
Defined.

Definition counting_outbox : Outbox :=
  mkOutbox {[id2 := mkDoc the_event bg ["count"] 5 0]} {[id2]} [count_handler] [] [].

Lemma processFullOutbox_drains_witness :
  exists o' x', processFullOutbox [id2] (20 * Second) (counting_outbox, 0) = (Ok tt, (o', x')) /\ db o' = ∅.
Proof.
  apply (processFullOutbox_drains [id2] (20 * Second) counting_outbox 0).
  - reflexivity.
  - apply NoDup_singleton.
  - simpl. set_solver.
  - intros id Hid. simpl in Hid. apply elem_of_singleton in Hid as ->.
    eexists. split; [reflexivity|]. split; [|by left].
    repeat constructor. exists count_handler. split; [reflexivity|]. split; [reflexivity|].
    intros x. by eexists.
Defined.
