(* ===== verification/LocalBus.v ===== *)
(** * The local event bus ([eventbus/local/eventbus.go], [eventbus.go])

    The buses that share a group of channels ([WithGroup]); a bus of its own
    group is one alone.  Each added handler is a goroutine reading the channel
    of its type; [handle_one] is one turn of its loop.  The goroutines
    interleave freely: [steps] is any sequence of publications and turns.

    The codec is a parameter (the bus takes any [eh.EventCodec]; it works on
    the rest [X] of the program, where it may allocate), and so is the text of
    errors. *)

From stdpp Require Import base gmap strings list numbers option pretty.
From Stdlib Require Import Lia ZArith.
From S2P Require Import Prelude.
From S2P Require Import GoTypes.
From S2P Require Import Event.
From S2P Require Import Command.
From S2P Require Import Errors.
From S2P Require Import Fixtures.

Section LocalBus.
Context {X : Type}.

(** [eh.EventCodec]; a failing [UnmarshalEvent] also returns some context,
    possibly nil. *)
Context (MarshalEvent : context -> option event -> M X string).
Context (UnmarshalEvent : context -> string -> X -> ((event * context) + (option context * error)) * X).
Context (error_String : error -> string).

Definition DefaultQueueSize : Z := 1000.

Definition errCh_size : Z := 100.

(** A handler's goroutine; it runs until its loop returns. *)
Record handling : Type := mkHandling {
  h_Match : event -> bool;
  h_HandleEvent : context -> event -> M X unit;
  running : bool
}.

Record EventBus : Type := mkEventBus {
  registered : gmap string handling;
  errCh : list error
}.

(** [closed]: the channels are closed and the map of the group is nil; the
    goroutines still hold the channels. *)
Record Group : Type := mkGroup {
  bus : gmap string (list string);
  closed : bool
}.

Record Buses : Type := mkBuses {
  group : Group;
  buses : list EventBus
}.

Definition NewGroup : Group := mkGroup ∅ false.

(** [NewEventBus(WithGroup(group))]: one more bus, by its number. *)
Definition NewEventBus : M Buses nat := fun s =>
  (Ok (length (buses s)), mkBuses (group s) (buses s ++ [mkEventBus ∅ []])).

Definition set_bus (f : gmap string (list string) -> gmap string (list string)) (s : Buses) : Buses :=
  mkBuses (mkGroup (f (bus (group s))) (closed (group s))) (buses s).

Definition on_bus (b : nat) (f : EventBus -> EventBus) (s : Buses) : Buses :=
  mkBuses (group s) (alter f b (buses s)).

Definition set_handling (t : string) (h : handling) (b : EventBus) : EventBus :=
  mkEventBus (<[t := h]> (registered b)) (errCh b).

Definition buffered {A} (cap : Z) (x : A) (ch : list A) : list A :=
  if len ch <? cap then ch ++ [x] else ch.

(** [Group.publish]: to every channel, dropped where the queue is full; the
    nil map has none. *)
Definition publish (data : string) (s : Buses) : Buses :=
  if closed (group s) then s else set_bus (fmap (buffered DefaultQueueSize data)) s.

Abbreviation St := (Buses * X)%type.

Definition HandlerType : string := "eventbus".

Definition HandleEvent (ctx : context) (ev : option event) : M St unit :=
  let! data := map_err (Errorf "could not marshal event") (zoom_snd (MarshalEvent ctx ev)) in
  zoom_fst (modify (publish data)).

(** [Group.channel]: get or make the channel. *)
Definition channel (id : string) : M Buses unit :=
  let! g := gets group in
  if closed g then panic "assignment to entry in nil map"
  else
    match bus g !! id with
    | Some _ => ret tt
    | None => modify (set_bus <[id := []]>)
    end.

Definition AddHandler (b : nat) (m : option (event -> bool))
    (h : option (string * (context -> event -> M X unit))) : M Buses unit :=
  match m with
  | None => throw (Sentinel ErrMissingMatcher)
  | Some m =>
      match h with
      | None => throw (Sentinel ErrMissingHandler)
      | Some (t, h) =>
          let! s := gets (fun s => s) in
          let! self := deref (buses s !! b) in
          match registered self !! t with
          | Some _ => throw (Sentinel ErrHandlerAlreadyAdded)
          | None => do! channel t in modify (on_bus b (set_handling t (mkHandling m h true)))
          end
      end
  end.

Definition report (err : error) (b : EventBus) : EventBus :=
  mkEventBus (registered b) (buffered errCh_size err (errCh b)).

(** A receive from [Errors()] that does not block. *)
Definition receive_error (b : nat) : M Buses (option error) := fun s =>
  match buses s !! b with
  | Some (mkEventBus r (err :: rest)) => (Ok (Some err), on_bus b (fun _ => mkEventBus r rest) s)
  | _ => (Ok None, s)
  end.

(** What a receive from the channel of type [t] gives, if it does not block: a
    closed channel that is empty gives nil. *)
Definition next_data (t : string) (s : Buses) : option string :=
  match bus (group s) !! t with
  | Some (data :: _) => Some data
  | Some [] => if closed (group s) then Some "" else None
  | None => None
  end.

Definition handling_of (b : nat) (t : string) (s : Buses) : option handling :=
  self ← buses s !! b; registered self !! t.

(** One turn of [handle] for the handler of type [t] of the bus [b], when its
    channel has data.  A payload that cannot be decoded ends the loop. *)
Definition handle_one (b : nat) (t : string) : M St unit :=
  let! s := gets fst in
  match handling_of b t s with
  | None => ret tt
  | Some h =>
      if negb (running h) then ret tt
      else
        match next_data t s with
        | None => ret tt
        | Some data =>
            do! zoom_fst (modify (set_bus (alter tail t))) in
            let! decoded := zoom_snd (fun x => let '(r, x') := UnmarshalEvent Background data x in (Ok r, x')) in
            match decoded with
            | inr (ctx, err) =>
                do! zoom_fst (modify (on_bus b (report (EventBusError
                      (Some (Errorf "could not unmarshal event" err)) ctx None)))) in
                zoom_fst (modify (on_bus b (set_handling t (mkHandling (h_Match h) (h_HandleEvent h) false))))
            | inl (e, ctx) =>
                if negb (h_Match h e) then ret tt
                else
                  let! r := attempt (zoom_snd (h_HandleEvent h ctx e)) in
                  match r with
                  | inl _ => ret tt
                  | inr err =>
                      zoom_fst (modify (on_bus b (report (EventBusError
                        (Some (ErrorString ("could not handle event (" +:+ t +:+ "): " +:+ error_String err)))
                        (Some ctx) (Some e)))))
                  end
            end
        end
  end.

(** [Close]: the goroutines of the bus end, then the group's channels are
    closed. *)
Definition stop_all (b : EventBus) : EventBus :=
  mkEventBus ((fun h => mkHandling (h_Match h) (h_HandleEvent h) false) <$> registered b) (errCh b).

Definition close_group (g : Group) : Group := mkGroup (bus g) true.

Definition Close (b : nat) (s : Buses) : Buses :=
  let s := on_bus b stop_all s in mkBuses (close_group (group s)) (buses s).

(** ** Runs *)

Inductive bus_step : Type :=
| Publish (data : string)
| Turn (b : nat) (t : string).

(** The channel of a handler type. *)
Definition chan (t : string) (s : Buses) : option (list string) := bus (group s) !! t.

Definition queue (t : string) (s : Buses) : list string := default [] (chan t s).

(** What the handler of type [t] of [b] takes from its channel in its next
    turn. *)
Definition taking (b : nat) (t : string) (s : Buses) : option string :=
  match handling_of b t s with
  | Some h => if running h then next_data t s else None
  | None => None
  end.

(** A run of the program: every step, the final state, and the payloads each
    handler took, in order.  A handler that panics ends the program. *)
Inductive steps : list bus_step -> St -> list (nat * string * string) -> St -> Prop :=
| steps_nil st : steps [] st [] st
| steps_publish data l s x tr st' :
    steps l (publish data s, x) tr st' -> steps (Publish data :: l) (s, x) tr st'
| steps_turn b t l s x s1 x1 tr st' :
    handle_one b t (s, x) = (Ok tt, (s1, x1)) -> steps l (s1, x1) tr st' ->
    steps (Turn b t :: l) (s, x)
      (match taking b t s with Some d => (b, t, d) :: tr | None => tr end) st'.

(** The payloads published, those the handlers of one type took, on whatever
    bus, and those one handler took. *)
Fixpoint published (l : list bus_step) : list string :=
  match l with
  | [] => []
  | Publish d :: l' => d :: published l'
  | Turn _ _ :: l' => published l'
  end.

Definition taken (t : string) (tr : list (nat * string * string)) : list string :=
  snd <$> filter (fun p => p.1.2 = t) tr.

Definition taken_by (b : nat) (t : string) (tr : list (nat * string * string)) : list string :=
  snd <$> filter (fun p => p.1 = (b, t)) tr.

Lemma handling_on_bus b t s f :
  handling_of b t (on_bus b f s) = (self ← f <$> buses s !! b; registered self !! t).
Proof. unfold handling_of, on_bus. simpl. by rewrite list_lookup_alter_eq. Qed.

Lemma handling_on_bus_ne b b' t s f : b' <> b -> handling_of b' t (on_bus b f s) = handling_of b' t s.
Proof. intros Hne. unfold handling_of, on_bus. simpl. by rewrite list_lookup_alter_ne. Qed.

Lemma handling_report b b' t s err : handling_of b' t (on_bus b (report err) s) = handling_of b' t s.
Proof.
  destruct (decide (b' = b)) as [->|]; [|by apply handling_on_bus_ne].
  rewrite handling_on_bus. unfold handling_of. by destruct (buses s !! b).
Qed.

Lemma handling_set b t h b' t' s :
  (b', t') <> (b, t) -> handling_of b' t' (on_bus b (set_handling t h) s) = handling_of b' t' s.
Proof.
  intros Hne. destruct (decide (b' = b)) as [->|]; [|by apply handling_on_bus_ne].
  rewrite handling_on_bus. unfold handling_of. destruct (buses s !! b) as [self|]; [|done]. simpl.
  apply lookup_insert_ne. congruence.
Qed.

(** What a turn does: to the group, and to the goroutines of others. *)
Record turned (b : nat) (t : string) (s s1 : Buses) : Prop := {
  turned_queue : queue t s = opt_list (taking b t s) ++ queue t s1;
  turned_some : is_Some (chan t s1) <-> is_Some (chan t s);
  turned_open : closed (group s1) = closed (group s);
  turned_chan t' : t' <> t -> chan t' s1 = chan t' s;
  turned_others b' t' : (b', t') <> (b, t) -> handling_of b' t' s1 = handling_of b' t' s
}.

Lemma turned_idle b t s : taking b t s = None -> turned b t s s.
Proof. intros Hn. split; [by rewrite Hn|done..]. Qed.

Lemma turned_taken b t s s1 data rest :
  chan t s = Some (data :: rest) -> taking b t s = Some data ->
  group s1 = group (set_bus (alter tail t) s) ->
  (forall b' t', (b', t') <> (b, t) -> handling_of b' t' s1 = handling_of b' t' s) ->
  turned b t s s1.
Proof.
  intros Hc Ht Hg Hoth. unfold chan in Hc.
  split; [| | |intros t' Hne|exact Hoth]; unfold queue, chan; rewrite Hg; simpl; [| |done|].
  - rewrite Ht, lookup_alter_eq, Hc. done.
  - rewrite lookup_alter_eq, Hc. simpl. split; by eexists.
  - by rewrite lookup_alter_ne.
Qed.

Lemma handle_one_effect b t s x out s1 x1 :
  closed (group s) = false -> handle_one b t (s, x) = (out, (s1, x1)) -> turned b t s s1.
Proof.
  intros Hopen. unfold handle_one. rewrite (bind_ok _ _ (s, x) (s, x) s) by done.
  destruct (handling_of b t s) as [h|] eqn:Hh; [|intros [= <- <- <-]; apply turned_idle; unfold taking; by rewrite Hh].
  destruct (running h) eqn:Hrun; cbn [negb];
    [|intros [= <- <- <-]; apply turned_idle; unfold taking; by rewrite Hh, Hrun].
  assert (taking b t s = next_data t s) as Htk by (unfold taking; by rewrite Hh, Hrun).
  unfold next_data in *. rewrite Hopen in *.
  destruct (bus (group s) !! t) as [[|data rest]|] eqn:Hq; [intros [= <- <- <-]; by apply turned_idle| |
    intros [= <- <- <-]; by apply turned_idle].
  assert (forall s1, group s1 = group (set_bus (alter tail t) s) ->
    (forall b' t', (b', t') <> (b, t) -> handling_of b' t' s1 = handling_of b' t' s) -> turned b t s s1) as Hall
    by (intros; by apply (turned_taken b t s _ data rest)).
  unfold bind at 1, zoom_fst at 1, zoom, modify. simpl. unfold bind at 1, zoom_snd at 1, zoom. simpl.
  destruct (UnmarshalEvent Background data x) as [[[e ctx]|[ctx err]] x0].
  - destruct (h_Match h e); cbn [negb]; [|by intros [= <- <- <-]; apply Hall].
    unfold attempt, zoom_snd, zoom, bind. simpl.
    destruct (h_HandleEvent h ctx e x0) as [[[]|err|p] x2]; intros [= <- <- <-];
      apply Hall; try done. intros b' t' _. by rewrite handling_report.
  - intros [= <- <- <-]. apply Hall; [done|]. intros b' t' Hne.
    rewrite handling_set by done. by rewrite handling_report.
Qed.

Lemma publish_chan t data s :
  closed (group s) = false -> chan t (publish data s) = buffered DefaultQueueSize data <$> chan t s.
Proof. intros Ho. unfold chan, publish. rewrite Ho. simpl. apply lookup_fmap. Qed.

Lemma publish_open data s : closed (group (publish data s)) = closed (group s).
Proof. unfold publish. by destruct (closed (group s)) eqn:Ho. Qed.

Lemma publish_handling b t data s : handling_of b t (publish data s) = handling_of b t s.
Proof. unfold publish. by destruct (closed (group s)). Qed.

(** The queue of the handlers of one type never overflows during the run. *)
Fixpoint no_overflow (t : string) (l : list bus_step) (s : Buses) (x : X) : Prop :=
  match l with
  | [] => True
  | Publish d :: l' => len (queue t s) < DefaultQueueSize /\ no_overflow t l' (publish d s) x
  | Turn b t' :: l' =>
      let '(_, (s1, x1)) := handle_one b t' (s, x) in no_overflow t l' s1 x1
  end.

(** C27: the handlers of a type see every event, in publication order, and each
    event is taken by one of them.  In any interleaving of publications and
    handler turns on the buses of a group, what the handlers of one type have
    taken so far, whatever bus they were added to, followed by what still waits
    in their queue, is exactly what was published since the first was added, as
    long as the queue does not overflow; handlers of other types take nothing
    away from it. *)
Theorem handlers_take_published_in_order t l s x tr s' x' :
  closed (group s) = false -> is_Some (chan t s) -> queue t s = [] ->
  steps l (s, x) tr (s', x') -> no_overflow t l s x ->
  taken t tr ++ queue t s' = published l.
Proof.
  intros Hopen Hch Hq Hsteps Hno.
  cut (taken t tr ++ queue t s' = queue t s ++ published l); [by rewrite Hq|]. clear Hq.
  remember (s, x) as st eqn:Hst. remember (s', x') as st' eqn:Hst'.
  revert s x Hopen Hch Hst Hno.
  induction Hsteps as [st|data l s0 x0 tr st' Hs IH|b t' l s0 x0 s1 x1 tr st' Hh Hs IH];
    intros s x Hopen Hch Hst Hno; subst; simplify_eq.
  - by rewrite app_nil_r.
  - destruct Hno as [Hlen Hno]. specialize (IH eq_refl (publish data s) x).
    rewrite IH; [|by rewrite publish_open|rewrite publish_chan by done; by apply fmap_is_Some|done|done].
    unfold queue in *. rewrite publish_chan by done. destruct Hch as [q Hq]. rewrite Hq in *. simpl in *.
    unfold buffered. destruct (Z.ltb_spec (len q) DefaultQueueSize); [|lia].
    by rewrite <- app_assoc.
  - simpl in Hno. rewrite Hh in Hno. specialize (IH eq_refl s1 x1).
    destruct (handle_one_effect _ _ _ _ _ _ _ Hopen Hh) as [Hqueue Hsome Ho Hoth _].
    rewrite Hopen in Ho. destruct (decide (t' = t)) as [->|Hne].
    + rewrite Hqueue. simpl published. rewrite <- app_assoc, <- IH; [|done|by apply Hsome|done|done].
      rewrite app_assoc. f_equal.
      destruct (taking b t s) as [d|]; [|done].
      unfold taken. by rewrite filter_cons_True.
    + specialize (Hoth t (not_eq_sym Hne)).
      assert (queue t s1 = queue t s) as Hqeq by (unfold queue; by rewrite Hoth).
      rewrite <- Hqeq. simpl published. rewrite <- IH; [|done|by rewrite Hoth|done|done].
      destruct (taking b t' s) as [d|]; [|done].
      unfold taken. by rewrite filter_cons_False.
Qed.

Definition stopped (b : nat) (t : string) (s : Buses) : Prop :=
  exists h, handling_of b t s = Some h /\ running h = false.

Lemma stopped_turn b t s x : stopped b t s -> handle_one b t (s, x) = (Ok tt, (s, x)).
Proof.
  intros (h & Hh & Hr). unfold handle_one. rewrite (bind_ok _ _ (s, x) (s, x) s) by done. by rewrite Hh, Hr.
Qed.

Lemma handle_one_others b t s x out s1 x1 b' t' :
  handle_one b t (s, x) = (out, (s1, x1)) -> (b', t') <> (b, t) -> handling_of b' t' s1 = handling_of b' t' s.
Proof.
  unfold handle_one. rewrite (bind_ok _ _ (s, x) (s, x) s) by done. intros Hrun Hne. revert Hrun.
  destruct (handling_of b t s) as [h|]; [|by intros [= <- <- <-]].
  destruct (negb (running h)); [by intros [= <- <- <-]|].
  destruct (next_data t s) as [data|]; [|by intros [= <- <- <-]].
  unfold bind at 1, zoom_fst at 1, zoom, modify. simpl. unfold bind at 1, zoom_snd at 1, zoom. simpl.
  destruct (UnmarshalEvent Background data x) as [[[e ctx]|[ctx err]] x0].
  - destruct (negb (h_Match h e)); [by intros [= <- <- <-]|].
    unfold attempt, zoom_snd, zoom, bind. simpl.
    destruct (h_HandleEvent h ctx e x0) as [[[]|err|p] x2]; intros [= <- <- <-]; try done.
    by rewrite handling_report.
  - intros [= <- <- <-]. rewrite handling_set by done. by rewrite handling_report.
Qed.

Lemma stopped_handler_takes_nothing b t l s x tr st' :
  stopped b t s -> steps l (s, x) tr st' -> taken_by b t tr = [].
Proof.
  intros Hstop Hsteps. remember (s, x) as st eqn:Hst. revert s x Hstop Hst.
  induction Hsteps as [st|data l s0 x0 tr st' Hs IH|b' t' l s0 x0 s1 x1 tr st' Hh Hs IH];
    intros s x Hstop Hst; simplify_eq; [done| |].
  - eapply (IH (publish data s)); [|done]. destruct Hstop as (h & Hr & Hrun). exists h.
    by rewrite publish_handling.
  - destruct (decide ((b', t') = (b, t))) as [[= -> ->]|Hne].
    + rewrite (stopped_turn _ _ _ _ Hstop) in Hh. injection Hh as <- <-.
      destruct Hstop as (h & Hr & Hrun). unfold taking. rewrite Hr, Hrun. apply (IH s x); [by exists h|done].
    + assert (taken_by b t tr = []) as Htr.
      { apply (IH s1 x1); [|done]. destruct Hstop as (h & Hr & Hrun). exists h. split; [|done].
        rewrite <- Hr. by apply (handle_one_others _ _ _ _ _ _ _ b t Hh). }
      destruct (taking b' t' s) as [d|]; [|done]. unfold taken_by in *. by rewrite filter_cons_False.
Qed.

(** What becomes of a handler whose channel gives what cannot be decoded. *)
Lemma undecodable_turn b t s x data ctx err x1 h self :
  handling_of b t s = Some h -> running h = true -> next_data t s = Some data ->
  buses s !! b = Some self -> UnmarshalEvent Background data x = (inr (ctx, err), x1) ->
  len (errCh self) < errCh_size ->
  exists s1 self1, handle_one b t (s, x) = (Ok tt, (s1, x1)) /\ buses s1 !! b = Some self1 /\
    errCh self1 = errCh self ++ [EventBusError (Some (Errorf "could not unmarshal event" err)) ctx None] /\
    queue t s1 = tail (queue t s) /\ stopped b t s1.
Proof.
  intros Hh Hrun Hn Hb Hu Hlen. unfold handle_one.
  eexists _, _. split; [|split; [|split; [|split]]].
  - rewrite (bind_ok _ _ (s, x) (s, x) s) by done. rewrite Hh, Hrun, Hn. cbn [negb].
    rewrite (bind_ok _ _ (s, x) (set_bus (alter tail t) s, x) tt) by done.
    unfold bind at 1, zoom_snd at 1, zoom. simpl. rewrite Hu. done.
  - simpl. by rewrite !list_lookup_alter_eq, Hb.
  - simpl. unfold buffered. by destruct (Z.ltb_spec (len (errCh self)) errCh_size); [|lia].
  - unfold queue, chan. simpl. rewrite lookup_alter_eq. by destruct (bus (group s) !! t).
  - exists (mkHandling (h_Match h) (h_HandleEvent h) false). split; [|done].
    rewrite handling_on_bus. simpl. rewrite list_lookup_alter_eq, Hb. simpl. apply lookup_insert_eq.
Qed.

(** one bad payload silences a handler.  A payload the codec cannot decode
    is reported on the error channel and ends the handler's loop: in any
    continuation of the program the handler takes nothing more from its queue,
    however many events are published. *)
Theorem undecodable_payload_stops_handler b t s x data rest ctx err x1 h self :
  handling_of b t s = Some h -> running h = true -> chan t s = Some (data :: rest) ->
  buses s !! b = Some self -> UnmarshalEvent Background data x = (inr (ctx, err), x1) ->
  len (errCh self) < errCh_size ->
  exists s1 self1, handle_one b t (s, x) = (Ok tt, (s1, x1)) /\ buses s1 !! b = Some self1 /\
    errCh self1 = errCh self ++ [EventBusError (Some (Errorf "could not unmarshal event" err)) ctx None] /\
    queue t s1 = rest /\
    (forall l tr st', steps l (s1, x1) tr st' -> taken_by b t tr = []).
Proof.
  intros Hh Hrun Hc Hb Hu Hlen.
  destruct (undecodable_turn b t s x data ctx err x1 h self) as (s1 & self1 & Hr & Hb1 & He & Hq & Hs); try done.
  { unfold next_data. unfold chan in Hc. by rewrite Hc. }
  exists s1, self1. split_and!; try done.
  - rewrite Hq. unfold queue. by rewrite Hc.
  - intros l tr st'. by apply stopped_handler_takes_nothing.
Qed.

(** closing a bus closes its group: a handler of another bus that has
    emptied its queue reads the nil that a closed channel gives, which no codec
    decodes; it reports that and takes nothing more, and what is published
    through the bus that is still open goes nowhere. *)
Theorem closing_one_bus_stops_the_others b b' t s x ctx err x1 h self :
  b' <> b -> handling_of b' t s = Some h -> running h = true -> chan t s = Some [] ->
  buses s !! b' = Some self -> UnmarshalEvent Background "" x = (inr (ctx, err), x1) ->
  len (errCh self) < errCh_size ->
  (forall data, publish data (Close b s) = Close b s) /\
  exists s1 self1, handle_one b' t (Close b s, x) = (Ok tt, (s1, x1)) /\ buses s1 !! b' = Some self1 /\
    errCh self1 = errCh self ++ [EventBusError (Some (Errorf "could not unmarshal event" err)) ctx None] /\
    (forall l tr st', steps l (s1, x1) tr st' -> taken_by b' t tr = []).
Proof.
  intros Hne Hh Hrun Hc Hb Hu Hlen. split; [done|].
  destruct (undecodable_turn b' t (Close b s) x "" ctx err x1 h self) as (s1 & self1 & Hr & Hb1 & He & _ & Hs); try done.
  - rewrite <- Hh. apply handling_on_bus_ne. done.
  - unfold next_data. unfold chan in Hc. simpl. by rewrite Hc.
  - simpl. by rewrite list_lookup_alter_ne.
  - exists s1, self1. split_and!; try done. intros l tr st'. by apply stopped_handler_takes_nothing.
Qed.

End LocalBus.

(** ** Concrete inputs: a codec that knows two events, and two buses with a
    handler of the same type *)

Definition tiny_Unmarshal (ctx : context) (b : string) (x : Z)
    : ((event * context) + (option context * error)) * Z :=
  (if bool_decide (b = "1") then inl (demo_event id1 1, ctx)
   else if bool_decide (b = "2") then inl (demo_event id1 2, ctx)
   else inr (None, ErrorString "bad payload"), x).

Definition count_event (ctx : context) (e : event) : M Z unit := modify (fun n => n + version e).

Definition counting : handling := mkHandling (fun _ => true) count_event true.

Definition tiny_bus : Buses (X := Z) :=
  mkBuses (mkGroup {["h" := []]} false) [mkEventBus {["h" := counting]} []; mkEventBus {["h" := counting]} []].

Definition tiny_run : list bus_step := [Publish "1"; Publish "2"; Turn 1 "h"; Turn 0 "h"].

Abbreviation tiny_turn b := (handle_one (X := Z) tiny_Unmarshal (fun _ => "") b "h").

Lemma handlers_take_published_in_order_witness :
  exists tr s' x', steps (X := Z) tiny_Unmarshal (fun _ => "") tiny_run (tiny_bus, 0) tr (s', x') /\
    taken_by 1 "h" tr = ["1"] /\ taken_by 0 "h" tr = ["2"] /\ taken "h" tr ++ queue "h" s' = ["1"; "2"].
Proof.
  set (s2 := publish "2" (publish "1" tiny_bus)).
  destruct (tiny_turn 1 (s2, 0)) as [o [s3 x3]] eqn:Ht.
  assert (o = Ok tt) as -> by (apply (f_equal fst) in Ht; vm_compute in Ht; by subst o).
  assert (s3 = set_bus (alter tail "h") s2 /\ x3 = 1) as [-> ->]
    by (unfold handle_one in Ht; vm_compute in Ht; by injection Ht as <- <-).
  destruct (tiny_turn 0 (set_bus (alter tail "h") s2, 1)) as [o [s4 x4]] eqn:Ht4.
  assert (o = Ok tt) as -> by (apply (f_equal fst) in Ht4; vm_compute in Ht4; by subst o).
  assert (steps (X := Z) tiny_Unmarshal (fun _ => "") tiny_run (tiny_bus, 0)
    [(1%nat, "h", "1"); (0%nat, "h", "2")] (s4, x4)) as Hs.
  { apply steps_publish, steps_publish.
    apply (steps_turn _ _ 1 "h" [Turn 0 "h"] s2 0 _ 1 [(0%nat, "h", "2")] (s4, x4) Ht).
    apply (steps_turn _ _ 0 "h" [] _ 1 s4 x4 [] (s4, x4) Ht4). apply steps_nil. }
  exists [(1%nat, "h", "1"); (0%nat, "h", "2")], s4, x4. split; [exact Hs|]. split; [reflexivity|]. split; [reflexivity|].
  apply (handlers_take_published_in_order tiny_Unmarshal (fun _ => "") "h" tiny_run tiny_bus 0
           [(1%nat, "h", "1"); (0%nat, "h", "2")] s4 x4).
  - reflexivity.
  - by eexists.
  - reflexivity.
  - exact Hs.
  - simpl. split; [reflexivity|]. split; [reflexivity|]. fold s2. by rewrite Ht, Ht4.
Defined.

Definition stuck_bus : Buses (X := Z) :=
  mkBuses (mkGroup {["h" := ["7"; "1"]]} false) [mkEventBus {["h" := counting]} []].

Lemma undecodable_payload_stops_handler_witness :
  exists s1, tiny_turn 0 (stuck_bus, 0) = (Ok tt, (s1, 0)) /\ queue "h" s1 = ["1"] /\
    (forall l tr st', steps (X := Z) tiny_Unmarshal (fun _ => "") l (s1, 0) tr st' -> taken_by 0 "h" tr = []).
Proof.
  destruct (undecodable_payload_stops_handler tiny_Unmarshal (fun _ => "") 0 "h" stuck_bus 0
    "7" ["1"] None (ErrorString "bad payload") 0 counting (mkEventBus {["h" := counting]} []))
    as (s1 & self1 & Hb & _ & _ & Hq & Hs).
  - reflexivity.
  - reflexivity.
  - reflexivity.
  - reflexivity.
  - reflexivity.
  - reflexivity.
  - exists s1. split; [exact Hb|]. split; [exact Hq|exact Hs].
Defined.

Lemma closing_one_bus_stops_the_others_witness :
  exists s1, tiny_turn 1 (Close 0 tiny_bus, 0) = (Ok tt, (s1, 0)) /\
    (forall l tr st', steps (X := Z) tiny_Unmarshal (fun _ => "") l (s1, 0) tr st' -> taken_by 1 "h" tr = []).
Proof.
  destruct (closing_one_bus_stops_the_others tiny_Unmarshal (fun _ => "") 0 1 "h" tiny_bus 0
    None (ErrorString "bad payload") 0 counting (mkEventBus {["h" := counting]} []))
    as (_ & s1 & self1 & Hb & _ & _ & Hs).
  - done.
  - reflexivity.
  - reflexivity.
  - reflexivity.
  - reflexivity.
  - reflexivity.
  - reflexivity.
  - exists s1. split; [exact Hb|exact Hs].
Defined.
