(* ===== verification/Lock.v ===== *)
(** * One command per aggregate at a time ([middleware/commandhandler/lock])

    The [Lock] interface, the in-process [LocalLock], the middleware with its
    deferred unlock, and the goroutines that run it concurrently as a step
    relation. *)

From stdpp Require Import base gmap strings list numbers option pretty.
From Stdlib Require Import Lia ZArith.
From S2P Require Import Prelude.
From S2P Require Import GoTypes.
From S2P Require Import Event.
From S2P Require Import Command.
From S2P Require Import Errors.
From S2P Require Import Fixtures.
From S2P Require Import CommandCheck.
From S2P Require Import CommandHandler.

(** The interface, over the state [L] of the lock. *)
Record LockI (L : Type) : Type := mkLock {
  lock : string -> M L unit;
  unlock : string -> M L unit
}.
Arguments mkLock {L}.
Arguments lock {L}.
Arguments unlock {L}.

(** [LocalLock]: the set of locked IDs; each operation runs under its mutex. *)
Definition NewLocalLock : gset string := ∅.

Definition Lock (id : string) : M (gset string) unit :=
  let! locks := gets (fun l => l) in
  if decide (id ∈ locks) then throw (Sentinel ErrLockExists)
  else modify (fun l => {[id]} ∪ l).

Definition Unlock (id : string) : M (gset string) unit :=
  let! locks := gets (fun l => l) in
  if decide (id ∉ locks) then throw (Sentinel ErrNoLockExists)
  else modify (fun l => l ∖ {[id]}).

Definition LocalLock : LockI (gset string) := mkLock Lock Unlock.

(** [defer d()] around [m]: [d] runs whatever [m] does, panic included; its
    own error is only logged. *)
Definition deferred {S A} (m : M S A) (d : M S unit) : M S A :=
  fun s => let '(o, s1) := m s in (o, (d s1).2).

Definition lock_NewMiddleware {L S} (uuid_String : UUID -> string) (l : LockI L)
    (h : CommandHandlerFunc S) : CommandHandlerFunc (L * S) := fun ctx cmd =>
  let! c := deref cmd in
  do! zoom_fst (lock l (uuid_String (AggregateID c))) in
  deferred (zoom_snd (h ctx cmd)) (zoom_fst (unlock l (uuid_String (AggregateID c)))).

Lemma Lock_spec id locks :
  Lock id locks =
  if decide (id ∈ locks) then (Err (Sentinel ErrLockExists), locks) else (Ok tt, {[id]} ∪ locks).
Proof. unfold Lock, bind, gets, throw, modify. by case_decide. Qed.

Lemma Unlock_spec id locks :
  Unlock id locks =
  if decide (id ∈ locks) then (Ok tt, locks ∖ {[id]}) else (Err (Sentinel ErrNoLockExists), locks).
Proof.
  unfold Unlock, bind, gets, throw, modify. destruct (decide (id ∈ locks)).
  - by rewrite decide_False by tauto.
  - by rewrite decide_True.
Qed.

(** the lock middleware around any handler.  If the aggregate is not
    locked, the handler runs, its outcome is returned unchanged, and the locks
    are afterwards as before, also when the handler fails or panics; if it is
    locked, the command is refused with [ErrLockExists] and the handler is not
    run at all. *)
Theorem lock_middleware_releases {S} uuid_String (h : CommandHandlerFunc S) ctx c locks s :
  lock_NewMiddleware uuid_String LocalLock h ctx (Some c) (locks, s) =
  (if decide (uuid_String (AggregateID c) ∈ locks)
   then (Err (Sentinel ErrLockExists), (locks, s))
   else ((h ctx (Some c) s).1, (locks, (h ctx (Some c) s).2))).
Proof.
  unfold lock_NewMiddleware. rewrite (bind_ok _ _ (locks, s) (locks, s) c) by done.
  unfold zoom_fst at 1, zoom, bind. simpl fst. simpl lock. rewrite Lock_spec.
  case_decide as Hin; [done|]. simpl.
  unfold deferred, zoom_snd, zoom_fst, zoom. simpl.
  destruct (h ctx (Some c) s) as [o s1]. simpl. rewrite Unlock_spec, decide_True by set_solver.
  simpl. do 2 f_equal. set_solver.
Qed.

(** ** Concurrent goroutines *)

Inductive phase : Type := Waiting | Inside | Finished (refused : bool).

(** A goroutine: the aggregate of its command, and where it is. *)
Record goroutine : Type := mkGoroutine { g_id : string; g_phase : phase }.

Record world : Type := mkWorld { w_locks : gset string; w_gs : gmap nat goroutine }.

(** A new goroutine may call the middleware at any time; the lock and unlock
    calls are the atomic steps of the ones that are there. *)
Inductive lock_step : world -> world -> Prop :=
| step_call w n id :
    w_gs w !! n = None ->
    lock_step w (mkWorld (w_locks w) (<[n := mkGoroutine id Waiting]> (w_gs w)))
| step_lock w n id locks' :
    w_gs w !! n = Some (mkGoroutine id Waiting) ->
    Lock id (w_locks w) = (Ok tt, locks') ->
    lock_step w (mkWorld locks' (<[n := mkGoroutine id Inside]> (w_gs w)))
| step_refused w n id err locks' :
    w_gs w !! n = Some (mkGoroutine id Waiting) ->
    Lock id (w_locks w) = (Err err, locks') ->
    lock_step w (mkWorld locks' (<[n := mkGoroutine id (Finished true)]> (w_gs w)))
| step_unlock w n id o locks' :
    w_gs w !! n = Some (mkGoroutine id Inside) ->
    Unlock id (w_locks w) = (o, locks') ->
    lock_step w (mkWorld locks' (<[n := mkGoroutine id (Finished false)]> (w_gs w))).

Definition initial : world := mkWorld NewLocalLock ∅.

Inductive reachable : world -> Prop :=
| reachable_initial : reachable initial
| reachable_step w w' : reachable w -> lock_step w w' -> reachable w'.

Definition inside (w : world) (n : nat) (id : string) : Prop :=
  w_gs w !! n = Some (mkGoroutine id Inside).

(** The locked IDs are those of the goroutines inside, each inside alone. *)
Definition lock_inv (w : world) : Prop :=
  (forall id, id ∈ w_locks w <-> exists n, inside w n id) /\
  (forall n m id, inside w n id -> inside w m id -> n = m).

Lemma inside_insert w locks n g m id :
  inside (mkWorld locks (<[n := g]> (w_gs w))) m id <->
  (m = n /\ g = mkGoroutine id Inside) \/ (m <> n /\ inside w m id).
Proof.
  unfold inside. simpl. destruct (decide (m = n)) as [->|Hne].
  - rewrite lookup_insert_eq. naive_solver.
  - rewrite lookup_insert_ne by done. naive_solver.
Qed.

Lemma lock_inv_outside w n id p :
  lock_inv w -> (forall id', ~ inside w n id') -> p <> Inside ->
  lock_inv (mkWorld (w_locks w) (<[n := mkGoroutine id p]> (w_gs w))).
Proof.
  intros [Hl Hu] Hn Hp. split.
  - intros id'. simpl. rewrite Hl. setoid_rewrite inside_insert. split.
    + intros [m Hm]. exists m. right. split; [|done]. intros ->. by eapply Hn.
    + intros [m [[_ [= _ Hx]]|[_ Hm]]]; [done|by exists m].
  - intros m1 m2 id'. rewrite !inside_insert.
    intros [[_ [= _ Hx]]|[_ H1]] [[_ [= _ Hy]]|[_ H2]]; try done. by eapply Hu.
Qed.

Lemma lock_step_inv w w' : lock_inv w -> lock_step w w' -> lock_inv w'.
Proof.
  intros Hinv Hstep. pose proof Hinv as [Hl Hu].
  destruct Hstep as [w n id Hn|w n id locks' Hn Ho|w n id err locks' Hn Ho|w n id o locks' Hn Ho].
  - apply lock_inv_outside; [done| |done]. unfold inside. intros id'. congruence.
  - rewrite Lock_spec in Ho. case_decide as Hin; simplify_eq.
    assert (forall m, ~ inside w m id) as Hno by (intros m Hm; apply Hin, Hl; by exists m).
    split.
    + intros id'. simpl. rewrite elem_of_union, elem_of_singleton, Hl.
      setoid_rewrite inside_insert. split.
      * intros [->|[m Hm]]; [exists n; by left|]. exists m. right. split; [|done].
        intros ->. unfold inside in Hm. congruence.
      * intros [m [[-> [= ->]]|[_ Hm]]]; [by left|right; by exists m].
    + intros m1 m2 id'. rewrite !inside_insert.
      intros [[-> [= ->]]|[? H1]] [[-> Heq]|[? H2]]; try done.
      * by apply Hno in H2.
      * injection Heq as <-. by apply Hno in H1.
      * by eapply Hu.
  - rewrite Lock_spec in Ho. case_decide as Hin; simplify_eq.
    apply lock_inv_outside; [done| |done]. unfold inside. intros id'. congruence.
  - rewrite Unlock_spec, decide_True in Ho by (apply Hl; by exists n). simplify_eq.
    assert (forall m, inside w m id -> m = n) as Hown by (intros; by eapply Hu). split.
    + intros id'. simpl. rewrite elem_of_difference, elem_of_singleton, Hl.
      setoid_rewrite inside_insert. split.
      * intros [[m Hm] Hne]. exists m. right. split; [|done]. intros ->.
        unfold inside in Hm. congruence.
      * intros [m [[_ [=]]|[Hmn Hm]]]. split; [by exists m|]. intros ->. by apply Hown in Hm.
    + intros m1 m2 id'. rewrite !inside_insert.
      intros [[_ [=]]|[_ H1]] [[_ [=]]|[_ H2]]. by eapply Hu.
Qed.

(** C30: mutual exclusion.  However the goroutines interleave, two that are
    inside the wrapped handler at the same time work on different aggregates,
    and an aggregate is locked exactly while a goroutine is inside for it, so
    the lock of a finished command is always released. *)
Theorem lock_mutual_exclusion w :
  reachable w ->
  (forall n m id, inside w n id -> inside w m id -> n = m) /\
  (forall id, id ∈ w_locks w <-> exists n, inside w n id).
Proof.
  intros Hr. assert (lock_inv w) as [Hl Hu].
  { induction Hr as [|w w' _ IH Hs]; [|by eapply lock_step_inv].
    split; [|by intros n m id H]. intros id. simpl. split; [set_solver|].
    intros [n Hn]. unfold inside in Hn. simpl in Hn. by rewrite lookup_empty in Hn. }
  done.
Qed.

Lemma lock_mutual_exclusion_witness :
  let w1 := mkWorld ({["a"]} ∪ ∅) (<[0%nat := mkGoroutine "a" Inside]> ∅) in
  reachable w1 /\ forall n m id, inside w1 n id -> inside w1 m id -> n = m.
Proof.
  intros w1. assert (reachable w1) as Hr.
  { apply (reachable_step (mkWorld ∅ (<[0%nat := mkGoroutine "a" Waiting]> ∅))).
    - apply (reachable_step initial); [constructor|by constructor].
    - assert (w1 = mkWorld ({["a"]} ∪ ∅) (<[0%nat := mkGoroutine "a" Inside]>
        (<[0%nat := mkGoroutine "a" Waiting]> ∅))) as ->
        by (unfold w1; by rewrite insert_insert_eq).
      exact (step_lock (mkWorld ∅ (<[0%nat := mkGoroutine "a" Waiting]> ∅)) 0%nat "a"
               ({["a"]} ∪ ∅) eq_refl eq_refl). }
  split; [done|]. apply (lock_mutual_exclusion w1 Hr).
Defined.
