(* ===== verification/Handlers.v ===== *)
(** * Event handlers and their middlewares

    The saga handler ([eventhandler/saga]), the waiter with its listeners
    ([eventhandler/waiter]), and the event handler middlewares: observer,
    ephemeral, async ([middleware/eventhandler]). *)

From stdpp Require Import base gmap strings list numbers option pretty.
From Stdlib Require Import Lia ZArith.
From S2P Require Import Prelude.
From S2P Require Import GoTypes.
From S2P Require Import Event.
From S2P Require Import Command.
From S2P Require Import Errors.
From S2P Require Import Fixtures.
From S2P Require Import CommandHandler.

(** [eh.EventHandler], with the optional [EventHandlerChain] and
    [EphemeralHandler]. *)
Inductive EventHandler (S : Type) : Type := mkHandler {
  HandlerType : string;
  HandleEvent : context -> option event -> M S unit;
  IsEphemeralHandler : bool;
  InnerHandler : option (EventHandler S)
}.
Arguments mkHandler {S}.
Arguments HandlerType {S}.
Arguments HandleEvent {S}.
Arguments IsEphemeralHandler {S}.
Arguments InnerHandler {S}.

Abbreviation EventHandlerMiddleware S := (EventHandler S -> EventHandler S).

Definition UseEventHandlerMiddleware {S} (h : EventHandler S)
    (middleware : list (EventHandlerMiddleware S)) : EventHandler S :=
  applyMiddleware h middleware.

(** ** Middlewares *)

(** [observer.NewMiddleware]: the group's name is appended to the type. *)
Definition observer_NewMiddleware {S} (group : string) : EventHandlerMiddleware S := fun h =>
  mkHandler (HandlerType h +:+ "_" +:+ group) (HandleEvent h) false (Some h).

(** [observer.Group] by its name. *)
Definition NamedGroup (name : string) : string := name.

Definition UUIDGroup (uuid_String : UUID -> string) (id : UUID) : string := uuid_String id.

(** With the UUID that [uuid.New] gives. *)
Definition RandomGroup (uuid_String : UUID -> string) (newID : UUID) : string := uuid_String newID.

(** With what [os.Hostname] gives. *)
Definition HostnameGroup {S} (hostname : string + error) : M S string :=
  match hostname with
  | inl hostname => ret hostname
  | inr _ => panic "could not get hostname for HostnameGroup()"
  end.

Definition observer_Middleware {S} (uuid_String : UUID -> string) (newID : UUID) : EventHandlerMiddleware S :=
  observer_NewMiddleware (RandomGroup uuid_String newID).

Definition ephemeral_NewMiddleware {S} : EventHandlerMiddleware S := fun h =>
  mkHandler (HandlerType h) (HandleEvent h) true (Some h).

(** The async middleware starts a goroutine: its work is put on the list of
    goroutines, and nil is returned at once. *)
Definition async_NewMiddleware {S} (h : EventHandler S)
  : context -> option event -> M (list (context * option event) * S) unit :=
  fun ctx event => zoom_fst (modify (fun gs => gs ++ [(ctx, event)])).

(** One of the goroutines, run to its end: the error goes to the channel
    (which has room for 20; the goroutine, and nothing else, waits for room). *)
Definition async_run {S} (h : EventHandler S) (g : context * option event)
  : M (S * list error) unit :=
  let! r := attempt (zoom_fst (HandleEvent h g.1 g.2)) in
  match r with
  | inl _ => ret tt
  | inr err => zoom_snd (modify (fun errCh => errCh ++ [AsyncError err g.1 g.2]))
  end.

Definition async_command_NewMiddleware {S} (h : CommandHandlerFunc S)
  : context -> option command -> M (list (context * option command) * S) unit :=
  fun ctx cmd => zoom_fst (modify (fun gs => gs ++ [(ctx, cmd)])).

Definition async_command_run {S} (h : CommandHandlerFunc S) (g : context * option command)
  : M (S * list error) unit :=
  let! r := attempt (zoom_fst (h g.1 g.2)) in
  match r with
  | inl _ => ret tt
  | inr err => zoom_snd (modify (fun errCh => errCh ++ [AsyncCommandError err g.1 g.2]))
  end.

(** The middlewares that wrap a handler without changing what it does. *)
Inductive mw : Type := Observer (group : string) | Ephemeral.

Definition run_mw {S} (m : mw) : EventHandlerMiddleware S :=
  match m with
  | Observer g => observer_NewMiddleware g
  | Ephemeral => ephemeral_NewMiddleware
  end.

Definition mw_suffix (m : mw) : string :=
  match m with Observer g => "_" +:+ g | Ephemeral => "" end.

(** The handler [n] links down the chain. *)
Fixpoint inner_at {S} (n : nat) (h : EventHandler S) : option (EventHandler S) :=
  match n with
  | O => Some h
  | Datatypes.S n' => InnerHandler h ≫= inner_at n'
  end.

Lemma use_cons {S} (h : EventHandler S) m ms :
  UseEventHandlerMiddleware h (run_mw <$> (m :: ms)) =
  run_mw m (UseEventHandlerMiddleware h (run_mw <$> ms)).
Proof.
  unfold UseEventHandlerMiddleware, applyMiddleware. rewrite fmap_cons. simpl.
  by rewrite fold_left_app.
Qed.

(** The type of the wrapped handler: group names from the inside out. *)
Fixpoint wrapped_type (t : string) (ms : list mw) : string :=
  match ms with
  | [] => t
  | m :: ms' => wrapped_type t ms' +:+ mw_suffix m
  end.

Lemma append_empty (s : string) : s +:+ "" = s.
Proof.
  induction s as [|c s IH]; [done|].
  change (String.String c (s +:+ "") = String.String c s). by rewrite IH.
Qed.

(** middlewares keep the handling.  However many observer and ephemeral
    middlewares are stacked, the resulting handler handles events exactly as
    the innermost one, its type is the inner type with the group names of the
    observers appended from the inside out, and the wrapped handler can be
    reached through the chain. *)
Theorem event_middlewares_transparent {S} (h : EventHandler S) ms :
  let wrapped := UseEventHandlerMiddleware h (run_mw <$> ms) in
  HandleEvent wrapped = HandleEvent h /\
  HandlerType wrapped = wrapped_type (HandlerType h) ms /\
  inner_at (length ms) wrapped = Some h.
Proof.
  cbv zeta. induction ms as [|m ms (IH1 & IH2 & IH3)]; [done|]. rewrite use_cons.
  destruct m as [g|]; simpl; rewrite IH1, IH2, IH3; [done|]. by rewrite append_empty.
Qed.

(** ** Sagas *)

Section Saga.
Context {S : Type}.
(** The saga: its type, and [RunSaga], which may issue commands on the handler
    it is given. *)
Context (SagaType : string).
Context (RunSaga : context -> event -> CommandHandlerFunc S -> M S unit).

Definition saga_HandlerType : string := "saga_" +:+ SagaType.

Definition saga_HandleEvent (commandHandler : CommandHandlerFunc S) (ctx : context)
    (ev : option event) : M S unit :=
  match ev with
  | None => throw (SagaError (Sentinel ErrMissingEvent) SagaType)
  | Some e => map_err (fun err => SagaError err SagaType) (RunSaga ctx e commandHandler)
  end.

End Saga.

(** ** The waiter *)

Module Waiter.

(** A listener: its match function ([None] for nil) and its inbox, a channel
    with room for one event. *)
Record EventListener : Type := mkListener {
  l_match : option (event -> bool);
  l_inbox : list event;
  l_closed : bool
}.

(** The events handed over and not yet distributed, the listeners ever made,
    and those the goroutine distributes to. *)
Record EventHandler : Type := mkWaiter {
  inbox : list event;
  all : gmap UUID EventListener;
  listeners : gset UUID
}.

Definition NewEventHandler : EventHandler := mkWaiter [] ∅ ∅.

(** [HandleEvent]; [None]: the send blocks, the channel has room for one. *)
Definition HandleEvent (ctx : context) (ev : option event) (w : EventHandler)
  : option (result unit * EventHandler) :=
  match ev with
  | None => Some (Err (Sentinel ErrMissingEvent), w)
  | Some e =>
      if len (inbox w) <? 1
      then Some (Ok tt, mkWaiter (inbox w ++ [e]) (all w) (listeners w))
      else None
  end.

(** [Listen], with the new listener's ID, and the [register] case of [run]. *)
Definition Listen (id : UUID) (match_ : option (event -> bool)) (w : EventHandler) : EventHandler :=
  mkWaiter (inbox w) (<[id := mkListener match_ [] false]> (all w)) ({[id]} ∪ listeners w).

(** The [unregister] case of [run]; closing a closed channel would panic. *)
Definition unregister (id : UUID) : M EventHandler unit :=
  let! w := gets (fun w => w) in
  if decide (id ∈ listeners w) then
    let! l := deref (all w !! id) in
    do! modify (fun w => mkWaiter (inbox w) (all w) (listeners w ∖ {[id]})) in
    if l_closed l then panic "close of closed channel"
    else modify (fun w => mkWaiter (inbox w)
                            (<[id := mkListener (l_match l) (l_inbox l) true]> (all w)) (listeners w))
  else ret tt.

Definition matches (l : EventListener) (e : event) : bool :=
  match l_match l with None => true | Some f => f e end.

(** Delivery to one listener: dropped when the inbox is full. *)
Definition deliver (e : event) (l : EventListener) : EventListener :=
  if matches l e && (len (l_inbox l) <? 1)
  then mkListener (l_match l) (l_inbox l ++ [e]) (l_closed l)
  else l.

(** The [inbox] case of [run], once the event is received. *)
Definition distribute (e : event) (w : EventHandler) : EventHandler :=
  mkWaiter (inbox w)
    (map_imap (fun id l => Some (if decide (id ∈ listeners w) then deliver e l else l)) (all w))
    (listeners w).

(** [Wait]; [None]: it blocks.  When both cases of the [select] are ready one
    is picked at random ([pick_inbox]); a closed and empty inbox gives the nil
    event. *)
Definition Wait (ctx : context) (id : UUID) (pick_inbox : bool) (w : EventHandler)
  : option (result (option event) * EventHandler) :=
  l ← all w !! id;
  let received :=
    match l_inbox l with
    | e :: rest =>
        Some (Ok (Some e),
          mkWaiter (inbox w) (<[id := mkListener (l_match l) rest (l_closed l)]> (all w)) (listeners w))
    | [] => if l_closed l then Some (Ok None, w) else None
    end in
  let done := (fun err => (Err (Sentinel (CtxErr err)), w)) <$> ctx_err ctx in
  if pick_inbox
  then match received with Some r => Some r | None => done end
  else match done with Some r => Some r | None => received end.

(** What can happen to the handler: a [HandleEvent] call that goes through,
    and the cases of the [select] of [run]. *)
Inductive label : Type :=
| LHandle (e : event)
| LRegister (id : UUID) (m : option (event -> bool))
| LUnregister (id : UUID)
| LInbox (e : event).

Inductive wstep : EventHandler -> label -> EventHandler -> Prop :=
| step_handle e ctx w w' : HandleEvent ctx (Some e) w = Some (Ok tt, w') -> wstep w (LHandle e) w'
| step_register id m w : all w !! id = None -> wstep w (LRegister id m) (Listen id m w)
| step_unregister id w w' : unregister id w = (Ok tt, w') -> wstep w (LUnregister id) w'
| step_inbox e rest w :
    inbox w = e :: rest ->
    wstep w (LInbox e) (distribute e (mkWaiter rest (all w) (listeners w))).

Inductive wsteps : EventHandler -> list label -> EventHandler -> Prop :=
| wsteps_nil w : wsteps w [] w
| wsteps_cons w l w1 ls w2 : wstep w l w1 -> wsteps w1 ls w2 -> wsteps w (l :: ls) w2.

(** The listeners that are registered are known and open. *)
Definition waiter_ok (w : EventHandler) : Prop :=
  forall id, id ∈ listeners w -> exists l, all w !! id = Some l /\ l_closed l = false.

(** The events handed over in a run. *)
Definition handled (ls : list label) : list event :=
  omap (fun l => match l with LHandle e => Some e | _ => None end) ls.

(** The events distributed in a run. *)
Definition distributed (ls : list label) : list event :=
  omap (fun l => match l with LInbox e => Some e | _ => None end) ls.

Lemma distribute_lookup e w id :
  all (distribute e w) !! id =
  (fun l => if decide (id ∈ listeners w) then deliver e l else l) <$> all w !! id.
Proof. simpl. rewrite map_lookup_imap. by destruct (all w !! id). Qed.

Lemma deliver_fields e l :
  l_inbox (deliver e l) =
  (if matches l e && (len (l_inbox l) <? 1) then l_inbox l ++ [e] else l_inbox l) /\
  l_match (deliver e l) = l_match l /\ l_closed (deliver e l) = l_closed l.
Proof. unfold deliver. by destruct (matches l e && _). Qed.

Lemma HandleEvent_inv ctx e w w' :
  HandleEvent ctx (Some e) w = Some (Ok tt, w') ->
  w' = mkWaiter (inbox w ++ [e]) (all w) (listeners w).
Proof. simpl. destruct (_ <? _); naive_solver. Qed.

(** [unregister] succeeds on a well-formed waiter. *)
Lemma unregister_ok id w :
  waiter_ok w ->
  unregister id w = (Ok tt,
    match all w !! id with
    | Some l =>
        if decide (id ∈ listeners w)
        then mkWaiter (inbox w) (<[id := mkListener (l_match l) (l_inbox l) true]> (all w))
               (listeners w ∖ {[id]})
        else w
    | None => w
    end).
Proof.
  intros Hw. unfold unregister. rewrite (bind_ok _ _ w w w) by done.
  case_decide as Hid; [|by destruct (all w !! id)].
  destruct (Hw _ Hid) as (l & Hl & Hc). rewrite Hl.
  rewrite (bind_ok _ _ w w l) by done. by rewrite Hc.
Qed.

Lemma wstep_ok w l w' : wstep w l w' -> waiter_ok w -> waiter_ok w'.
Proof.
  intros Hs Hw id' Hid'. destruct Hs as [e ctx w w' He|id m w Hn|id w w' Hu|e rest w Hi].
  - apply HandleEvent_inv in He as ->. by apply Hw.
  - simpl in *. destruct (decide (id' = id)) as [->|].
    + eexists. by rewrite lookup_insert_eq.
    + rewrite lookup_insert_ne by done. apply Hw. set_solver.
  - rewrite unregister_ok in Hu by done. injection Hu as <-.
    destruct (all w !! id) as [l|]; [|by apply Hw]. case_decide; [|by apply Hw].
    simpl in *. rewrite lookup_insert_ne by set_solver. apply Hw. set_solver.
  - destruct (Hw _ Hid') as (l & Hl & Hc). rewrite distribute_lookup. simpl. rewrite Hl. simpl.
    eexists. split; [done|]. case_decide; [|done]. by destruct (deliver_fields e l) as (_ & _ & ->).
Qed.

(** The handler's inbox is a queue. *)
Lemma wsteps_queue w ls w' :
  waiter_ok w -> wsteps w ls w' -> inbox w ++ handled ls = distributed ls ++ inbox w'.
Proof.
  intros Hw Hs. induction Hs as [w|w l w1 ls w2 H1 _ IH]; [by rewrite app_nil_r|].
  specialize (IH (wstep_ok _ _ _ H1 Hw)). destruct H1 as [e ctx w w1 He|id m w Hn|id w w1 Hu|e rest w Hi].
  - apply HandleEvent_inv in He as ->. simpl in *. by rewrite <- IH, <- app_assoc.
  - done.
  - rewrite unregister_ok in Hu by done. injection Hu as <-.
    destruct (all w !! id); [|done]. by case_decide.
  - simpl in *. rewrite Hi. simpl. by rewrite IH.
Qed.

(** One step, seen by a registered listener. *)
Lemma wstep_listener id l0 w lb w' :
  wstep w lb w' -> waiter_ok w -> id ∈ listeners w -> all w !! id = Some l0 ->
  lb <> LUnregister id ->
  id ∈ listeners w' /\
  all w' !! id = Some (match lb with LInbox e => deliver e l0 | _ => l0 end).
Proof.
  intros Hs Hw Hin Hl Hne. destruct Hs as [e ctx w w' He|id' m w Hn|id' w w' Hu|e rest w Hi].
  - by apply HandleEvent_inv in He as ->.
  - simpl. rewrite lookup_insert_ne by congruence. split; [set_solver|done].
  - rewrite unregister_ok in Hu by done. injection Hu as <-.
    destruct (all w !! id') as [l|]; [|done]. case_decide; [|done].
    simpl. rewrite lookup_insert_ne by congruence. split; [set_solver|done].
  - split; [done|]. rewrite distribute_lookup. simpl. rewrite Hl. simpl. by rewrite decide_True.
Qed.

(** Delivery to a listener keeps the first match. *)
Lemma deliver_first e l es :
  len (l_inbox l) <= 1 ->
  len (l_inbox (deliver e l)) <= 1 /\
  take 1 (l_inbox (deliver e l) ++ filter (fun e' => matches (deliver e l) e' = true) es) =
  take 1 (l_inbox l ++ filter (fun e' => matches l e' = true) (e :: es)).
Proof.
  intros Hlen. destruct (deliver_fields e l) as (Hib & Hm & _).
  rewrite (list_filter_iff (fun e' => matches (deliver e l) e' = true) (fun e' => matches l e' = true))
    by (intros; unfold matches; by rewrite Hm).
  rewrite Hib, filter_cons. destruct (matches l e); simpl; [|done].
  destruct (l_inbox l) as [|e0 r]; [done|]. rewrite len_cons in *. pose proof (len_nonneg r).
  destruct (Z.ltb_spec (1 + len r) 1); [lia|]. by rewrite len_cons.
Qed.

Lemma wsteps_listener id l0 w ls w' :
  wsteps w ls w' -> waiter_ok w -> id ∈ listeners w -> all w !! id = Some l0 ->
  len (l_inbox l0) <= 1 -> Forall (fun lb => lb <> LUnregister id) ls ->
  l_inbox <$> all w' !! id =
    Some (take 1 (l_inbox l0 ++ filter (fun e => matches l0 e = true) (distributed ls))).
Proof.
  intros Hs. revert l0. induction Hs as [w|w lb w1 ls w2 H1 _ IH]; intros l0 Hw Hin Hl Hlen Hne.
  - rewrite Hl. simpl. rewrite app_nil_r. do 2 f_equal. symmetry. apply take_ge.
    unfold len in Hlen. lia.
  - apply Forall_cons in Hne as [Hne Hrest].
    destruct (wstep_listener _ _ _ _ _ H1 Hw Hin Hl Hne) as [Hin1 Hl1].
    pose proof (wstep_ok _ _ _ H1 Hw) as Hw1.
    destruct lb as [e|id' m|id'|e]; [by apply IH..|].
    destruct (deliver_first e l0 (distributed ls) Hlen) as [Hlen' Heq].
    etrans; [by apply IH|]. f_equal. exact Heq.
Qed.

(** C32: a listener gets the first matching event.  From the moment it is
    registered until it is taken or unregistered, in any interleaving with
    handled events and with other listeners coming and going, its inbox holds
    exactly the first event its match function accepts among those
    distributed since (none yet if there was none).  The distributed events
    are those handed to the handler, in order and without loss, and no step
    can close a channel twice. *)
Theorem listener_gets_first_match id m ls w w' :
  waiter_ok w ->
  wsteps w (LRegister id m :: ls) w' ->
  Forall (fun lb => lb <> LUnregister id) ls ->
  l_inbox <$> all w' !! id =
    Some (take 1 (filter (fun e => matches (mkListener m [] false) e = true) (distributed ls))) /\
  inbox w ++ handled ls = distributed ls ++ inbox w' /\
  (forall id', exists w2, unregister id' w' = (Ok tt, w2)).
Proof.
  intros Hw Hs Hne.
  assert (waiter_ok w') as Hw'.
  { clear Hne. revert Hw. induction Hs; [done|]. eauto using wstep_ok. }
  split; [|split].
  - inversion Hs as [|? ? w1 ? ? H1 Hrest]; subst. pose proof (wstep_ok _ _ _ H1 Hw) as Hw1.
    inversion H1; subst.
    apply (wsteps_listener id (mkListener m [] false) _ _ _ Hrest Hw1); [..|done|done].
    + simpl. set_solver.
    + simpl. apply lookup_insert_eq.
  - by apply (wsteps_queue w (LRegister id m :: ls) w').
  - intros id'. eexists. by apply unregister_ok.
Qed.

Lemma listener_gets_first_match_witness :
  exists w', wsteps NewEventHandler [LRegister id1 (Some (fun e => negb (is_nil (data e))));
      LRegister id2 None; LHandle (demo_event id3 1); LInbox (demo_event id3 1);
      LUnregister id2; LUnregister id2; LHandle (demo_event id3 2); LInbox (demo_event id3 2);
      LHandle (demo_event id3 4); LInbox (demo_event id3 4)] w' /\
    l_inbox <$> all w' !! id1 = Some [demo_event id3 2].
Proof.
  eexists. match goal with |- ?A /\ _ => assert A as Hs end.
  { eapply wsteps_cons; [by apply step_register|].
    eapply wsteps_cons; [by apply step_register|].
    do 2 (eapply wsteps_cons; [first [by apply (step_handle _ bg)|by eapply step_inbox]|]).
    do 2 (eapply wsteps_cons; [by apply step_unregister|]).
    do 4 (eapply wsteps_cons; [first [by apply (step_handle _ bg)|by eapply step_inbox]|]).
    apply wsteps_nil. }
  split; [exact Hs|].
  apply (listener_gets_first_match _ _ _ NewEventHandler _) in Hs as (Hi & _).
  - exact Hi.
  - intros id Hid. by apply not_elem_of_empty in Hid.
  - repeat constructor; discriminate.
Defined.

End Waiter.
