(* ===== verification/Tracing.v ===== *)
(** * Tracing ([tracing])

    Wrappers that report every operation to a tracer: the event store, the
    repository, the command and event handler middlewares, the event bus and
    the outbox, and the context functions that carry a span with an event.
    OpenTracing is a parameter; its state is the first component of the
    state.  The wrapped stores keep their contracts, the wrapped handlers give
    the same outcome, and with a tracer that writes down its calls the spans
    are properly nested.

    The lines that [log.Printf] writes when a span cannot be carried are left
    out. *)

From stdpp Require Import base gmap strings list numbers option pretty.
From Stdlib Require Import Lia ZArith.
From S2P Require Import Prelude.
From S2P Require Import GoTypes.
From S2P Require Import Event.
From S2P Require Import Command.
From S2P Require Import Errors.
From S2P Require Import Fixtures.
From S2P Require Import EventStoreSpec.
From S2P Require Import MemStore.
From S2P Require Import CommandHandler.
From S2P Require Import Context.
From S2P Require Import Repo.
From S2P Require Import Wrappers.
From S2P Require Import Handlers.

Module Tracing.

(** What the packages call of OpenTracing; the tracer never fails. *)
Record OpenTracing (T Span : Type) : Type := mkOpenTracing {
  StartSpanFromContext : context -> string -> T -> Span * context * T;
  SetTag : Span -> string -> any -> T -> T;
  LogError : Span -> error -> T -> T;
  Finish : Span -> T -> T
}.
Arguments mkOpenTracing {T Span}.
Arguments StartSpanFromContext {T Span}.
Arguments SetTag {T Span}.
Arguments LogError {T Span}.
Arguments Finish {T Span}.

Section Tracing.
Context {T Span S : Type} (opentracing : OpenTracing T Span).
Abbreviation St := (T * S)%type.

Definition start_span (ctx : context) (op : string) : M St (Span * context) := fun st =>
  let '(sp, ctx', t) := StartSpanFromContext opentracing ctx op st.1 in (Ok (sp, ctx'), (t, st.2)).

Definition on_tracer (f : T -> T) : M St unit := zoom_fst (modify f).

Definition log_error (sp : Span) (err : error) : M St unit := on_tracer (LogError opentracing sp err).

Definition finish (sp : Span) : M St unit := on_tracer (Finish opentracing sp).

Definition set_tags (sp : Span) (tags : list (string * any)) : M St unit :=
  for_range tags (fun kv => on_tracer (SetTag opentracing sp kv.1 kv.2)).

(** The tags of an event; the methods of a nil event panic. *)
Definition tag_event (sp : Span) (ev : option event) : M St unit :=
  let! e := deref ev in
  set_tags sp [("eh.event_type", ANamed "EventType" (eventType e));
               ("eh.aggregate_type", ANamed "AggregateType" (aggregateType e));
               ("eh.aggregate_id", AUUID (aggregateID e));
               ("eh.version", AInt (version e))].

(** The tags of the first event, if there is one. *)
Definition tag_first (sp : Span) (events : list (option event)) : M St unit :=
  match events with
  | [] => ret tt
  | e :: _ => tag_event sp e
  end.

(** Returning what an attempt gave. *)
Definition give {A} (r : A + error) : M St A :=
  match r with inl a => ret a | inr err => throw err end.

(** [if err != nil { ext.LogError(sp, err) }] *)
Definition log_if {A} (sp : Span) (r : A + error) : M St unit :=
  match r with inl _ => ret tt | inr err => log_error sp err end.

(** The shape of every traced operation: a span is started, the inner
    operation runs in the span's context, the tracer is told of the result,
    the span is finished and the result returned.  A panic of the inner
    operation leaves the span unfinished. *)
Definition traced {A} (op : string) (inner : context -> M St A) (tell : Span -> A + error -> M St unit)
    (ctx : context) : M St A :=
  let! p := start_span ctx op in
  let '(sp, ctx) := p in
  let! r := attempt (inner ctx) in
  do! tell sp r in
  do! finish sp in
  give r.

(** ** The event store ([eventstore.go]) *)

Section Store.
Context (inner : EventStore St).

Definition Save (ctx : context) (events : list (option event)) (originalVersion : Z) : M St unit :=
  traced "EventStore.Save" (fun ctx => es_Save inner ctx events originalVersion)
    (fun sp r => do! log_if sp r in tag_first sp events) ctx.

(** A failed load has no events. *)
Definition Load (ctx : context) (id : UUID) : M St (list (option event)) :=
  traced "EventStore.Load" (fun ctx => es_Load inner ctx id)
    (fun sp r => do! log_if sp r in
                 tag_first sp (match r with inl events => events | inr _ => [] end)) ctx.

(** The embedded store has the other methods. *)
Definition traced_EventStore : EventStore St :=
  mkEventStore Save Load (es_LoadFrom inner) (es_Close inner).

End Store.

Definition NewEventStore (eventStore : option (EventStore St)) : option (EventStore St) :=
  traced_EventStore <$> eventStore.

(** ** The repository ([repo.go]) *)

Section Repository.
Context {E : Type} `{Entity E} (inner : ReadWriteRepo St E).

(** An entity that is not found is no error to the tracer. *)
Definition Find (ctx : context) (id : UUID) : M St E :=
  traced "Repo.Find" (fun ctx => Repo.Find inner ctx id)
    (fun sp r =>
       do! set_tags sp [("eh.aggregate_id", AUUID id)] in
       match r with
       | inl _ => ret tt
       | inr err => if errors_Is err ErrEntityNotFound then ret tt else log_error sp err
       end) ctx.

Definition FindAll (ctx : context) : M St (list E) :=
  traced "Repo.FindAll" (Repo.FindAll inner) log_if ctx.

(** A nil entity panics after the inner repository has had its say. *)
Definition repo_Save (ctx : context) (entity : option E) : M St unit :=
  traced "Repo.Save" (fun ctx => Repo.Save inner ctx entity)
    (fun sp r =>
       do! log_if sp r in
       let! e := deref entity in
       set_tags sp [("eh.aggregate_id", AUUID (EntityID e))]) ctx.

Definition Remove (ctx : context) (id : UUID) : M St unit :=
  traced "Repo.Remove" (fun ctx => Repo.Remove inner ctx id)
    (fun sp r => do! log_if sp r in set_tags sp [("eh.aggregate_id", AUUID id)]) ctx.

Definition NewRepo : ReadWriteRepo St E :=
  mkRepo Find FindAll repo_Save Remove (Repo.Close inner).

End Repository.

(** [tracing.Repo] in a stack of repositories. *)
Definition tracing_InnerRepo (repo : repo_value) : repo_value := RepoValue "tracing.Repo" (Some repo).

Definition tracing_IntoRepo (repo : option repo_value) : option repo_value := IntoRepo "tracing.Repo" repo.

(** ** The middlewares ([commandhandler.go], [eventhandler.go]) *)

Definition NewCommandHandlerMiddleware : CommandHandlerMiddleware St := fun h ctx cmd =>
  let! c := deref cmd in
  traced ("Command(" +:+ CommandType c +:+ ")") (fun ctx => h ctx cmd)
    (fun sp r =>
       do! set_tags sp [("eh.command_type", ANamed "CommandType" (CommandType c));
                        ("eh.aggregate_type", ANamed "AggregateType" (AggregateType c));
                        ("eh.aggregate_id", AUUID (AggregateID c))] in
       log_if sp r) ctx.

Definition handle_event (h : EventHandler St) (ctx : context) (ev : option event) : M St unit :=
  let! e := deref ev in
  traced (HandlerType h +:+ ".Event(" +:+ eventType e +:+ ")") (fun ctx => HandleEvent h ctx ev)
    (fun sp r => do! log_if sp r in tag_event sp ev) ctx.

Definition NewEventHandlerMiddleware : EventHandlerMiddleware St := fun h =>
  mkHandler (HandlerType h) (handle_event h) false (Some h).

(** ** The event bus and the outbox ([eventbus.go], [outbox.go]) *)

(** What the wrappers use of an [eh.EventBus] or an [eh.Outbox]: its event
    handler part, and [AddHandler]. *)
Record Bus : Type := mkBus {
  bus_handler : EventHandler St;
  bus_AddHandler : context -> option (event -> bool) -> option (EventHandler St) -> M St unit
}.

Definition wrapped_AddHandler (bus : Bus) (ctx : context) (m : option (event -> bool))
    (h : option (EventHandler St)) : M St unit :=
  match h with
  | None => throw (Sentinel ErrMissingHandler)
  | Some h => bus_AddHandler bus ctx m (Some (UseEventHandlerMiddleware h [NewEventHandlerMiddleware]))
  end.

(** The wrapper's type is the bus's; it handles through the middleware. *)
Definition wrapped_handler (bus : Bus) : EventHandler St :=
  mkHandler (HandlerType (bus_handler bus))
    (HandleEvent (UseEventHandlerMiddleware (bus_handler bus) [NewEventHandlerMiddleware])) false None.

Definition NewEventBus (eventBus : Bus) : Bus :=
  mkBus (wrapped_handler eventBus) (wrapped_AddHandler eventBus).

Definition outbox_AddHandler (outbox : Bus) (ctx : context) (m : option (event -> bool))
    (h : option (EventHandler St)) : M St unit :=
  match h with
  | None => throw (Sentinel ErrMissingHandler)
  | Some h => bus_AddHandler outbox ctx m (Some (UseEventHandlerMiddleware h [NewEventHandlerMiddleware]))
  end.

Definition NewOutbox (outbox : Bus) : Bus :=
  mkBus (wrapped_handler outbox) (outbox_AddHandler outbox).

(** ** Around an operation *)

Lemma start_span_run ctx op t (s : S) :
  exists sp ctx' t', StartSpanFromContext opentracing ctx op t = (sp, ctx', t') /\
    start_span ctx op (t, s) = (Ok (sp, ctx'), (t', s)).
Proof.
  unfold start_span. simpl. destruct (StartSpanFromContext opentracing ctx op t) as [[sp ctx'] t'].
  by exists sp, ctx', t'.
Qed.

(** Calls that only tell the tracer. *)
Definition tells (m : M St unit) : Prop := forall t s, exists t', m (t, s) = (Ok tt, (t', s)).

Lemma tells_on_tracer f : tells (on_tracer f).
Proof. intros t s. by exists (f t). Qed.

Lemma tells_ret : tells (ret tt).
Proof. intros t s. by exists t. Qed.

Lemma tells_set_tags sp tags : tells (set_tags sp tags).
Proof.
  induction tags as [|kv tags IH]; intros t s; [by exists t|]. unfold set_tags in *. cbn [for_range].
  rewrite (bind_ok _ _ (t, s) (SetTag opentracing sp kv.1 kv.2 t, s) tt) by done. apply IH.
Qed.

Lemma tells_tag_event sp e : tells (tag_event sp (Some e)).
Proof. intros t s. unfold tag_event. rewrite (bind_ok _ _ (t, s) (t, s) e) by done. apply tells_set_tags. Qed.

Lemma tells_tag_first sp evs : tells (tag_first sp (somes evs)).
Proof. destruct evs as [|e evs]; [apply tells_ret|apply tells_tag_event]. Qed.

Lemma tells_log_if {A} sp (r : A + error) : tells (log_if sp r).
Proof. destruct r; [apply tells_ret|apply tells_on_tracer]. Qed.

Lemma tells_bind {A} (m : M St unit) (k : M St A) o :
  tells m -> (forall t s, exists t', k (t, s) = (o, (t', s))) ->
  forall t s, exists t', (do! m in k) (t, s) = (o, (t', s)).
Proof.
  intros Hm Hk t s. destruct (Hm t s) as (t1 & H1). rewrite (bind_ok _ _ _ _ _ H1). apply Hk.
Qed.

(** Ending an operation: the span is finished and the outcome given. *)
Lemma gives_back {A} sp (r : A + error) t s :
  exists t', (do! finish sp in give r) (t, s) = (match r with inl a => Ok a | inr err => Err err end, (t', s)).
Proof.
  apply tells_bind; [apply tells_on_tracer|]. clear. intros t s. exists t. by destruct r.
Qed.

Lemma traced_wraps {A} (good : A -> Prop) op (inner : context -> M St A) tell :
  (forall sp r, match r with inl a => good a | inr _ => True end -> tells (tell sp r)) ->
  wraps_op good (traced op inner tell) inner.
Proof.
  intros Ht ctx t s. destruct (start_span_run ctx op t s) as (sp & ctx' & t1 & _ & Hs).
  exists ctx', t1. unfold traced. rewrite (bind_ok _ _ _ _ _ Hs).
  unfold bind at 1, attempt. destruct (inner ctx' (t1, s)) as [[a|err|pn] [t2 s2]].
  - intros Hg. apply (tells_bind _ _ (Ok a)); [by apply Ht|]. intros t' s'. apply (gives_back sp (inl a)).
  - intros _. apply (tells_bind _ _ (Err err)); [by apply Ht|]. intros t' s'. apply (gives_back sp (inr err)).
  - done.
Qed.

Lemma tells_seq (m k : M St unit) : tells m -> tells k -> tells (do! m in k).
Proof. intros Hm Hk t s. by apply (tells_bind m k (Ok tt)). Qed.

(** ** The wrapped stores keep their contracts *)

#[export] Instance traced_Wraps inner : Wraps (traced_EventStore inner) inner.
Proof.
  split; intros; simpl; [apply traced_wraps..|apply wraps_op_refl].
  - intros sp r _. apply tells_seq; [apply tells_log_if|apply tells_tag_first].
  - intros sp r Hr. apply tells_seq; [apply tells_log_if|].
    destruct r as [l|err]; [destruct Hr as (evs & ->)|]; [apply tells_tag_first|apply tells_ret].
Qed.

#[export] Instance traced_WrapsRepo {E} `{Entity E} (inner : ReadWriteRepo St E) : WrapsRepo (NewRepo inner) inner.
Proof.
  split; intros; simpl; apply traced_wraps; intros sp r _; try apply tells_seq;
    auto using tells_log_if, tells_set_tags.
  - destruct r as [a|err]; [apply tells_ret|]. destruct (errors_Is err _); [apply tells_ret|apply tells_on_tracer].
  - intros t s. rewrite (bind_ok _ _ (t, s) (t, s) e) by done. apply tells_set_tags.
Qed.

(** ** The wrapped handlers give the same outcome *)

Lemma middleware_wraps (h : CommandHandlerFunc St) c :
  wraps_op always (fun ctx => NewCommandHandlerMiddleware h ctx (Some c)) (fun ctx => h ctx (Some c)).
Proof.
  apply traced_wraps. intros sp r _. apply tells_seq; [apply tells_set_tags|apply tells_log_if].
Qed.

Lemma handle_event_wraps (h : EventHandler St) e :
  wraps_op always (fun ctx => HandleEvent (NewEventHandlerMiddleware h) ctx (Some e))
    (fun ctx => HandleEvent h ctx (Some e)).
Proof.
  apply traced_wraps. intros sp r _. apply tells_seq; [apply tells_log_if|apply tells_tag_event].
Qed.

End Tracing.
Arguments Bus : clear implicits.

(** A traced store around a lawful one, in whatever way that one is lawful. *)
Definition traced_EventStoreLaws {T Span S} (opentracing : OpenTracing T Span) (inner : EventStore (T * S))
    `{!EventStoreLaws inner} `{!Quiet inner} : EventStoreLaws (traced_EventStore opentracing inner) :=
  wrapper_EventStoreLaws (traced_EventStore opentracing inner) inner.

Definition traced_RepoLaws {T Span S E} `{Entity E} (opentracing : OpenTracing T Span)
    (inner : ReadWriteRepo (T * S) E) `{!RepoLaws inner} `{!QuietRepo inner} :
    RepoLaws (NewRepo opentracing inner) :=
  wrapper_RepoLaws (NewRepo opentracing inner) inner.

(** ** Carrying spans between processes ([context.go]) *)

Definition tracingSpanKeyStr : string := "eh_tracing_span".

Section Carrying.
(** A text map carrier, JSON, and the global tracer. *)
Context {T Span SpanContext : Type}.
Abbreviation TextMapCarrier := (gmap string string).
Context (SpanFromContext : context -> option Span) (ContextWithSpan : context -> Span -> context).
Context (Inject : Span -> TextMapCarrier + error).
Context (Extract : TextMapCarrier -> SpanContext + error).
Context (ErrSpanContextNotFound : error -> bool).
Context (json_Marshal : TextMapCarrier -> string + error).
Context (json_Unmarshal : string -> TextMapCarrier + error).
(** [StartSpan("eventbus", ext.RPCServerOption(parent))]; the parent may be nil. *)
Context (StartSpan : option SpanContext -> T -> Span * T).

(** The function given to [RegisterContextMarshaler]. *)
Definition tracing_marshaler : ContextMarshalFunc := fun ctx vals =>
  match SpanFromContext ctx with
  | None => vals
  | Some span =>
      match Inject span with
      | inr _ => vals
      | inl carrier =>
          match json_Marshal carrier with
          | inr _ => vals
          | inl js => <[tracingSpanKeyStr := AString js]> vals
          end
      end
  end.

(** The function given to [RegisterContextUnmarshaler], with the tracer. *)
Definition tracing_unmarshaler (ctx : context) (vals : gomap) (t : T) : context * T :=
  match as_string (at_key vals tracingSpanKeyStr) with
  | None => (ctx, t)
  | Some js =>
      match json_Unmarshal js with
      | inr _ => (ctx, t)
      | inl carrier =>
          let start parent := let '(span, t') := StartSpan parent t in (ContextWithSpan ctx span, t') in
          match Extract carrier with
          | inl parent => start (Some parent)
          | inr err => if ErrSpanContextNotFound err then start None else (ctx, t)
          end
      end
  end.

(** carrying spans never gets in the way: marshaling touches one key at most,
    unmarshaling either leaves the context and the tracer alone or puts one new
    span in the context; and when the codecs keep the span's context, the new
    span is a child of the span that was marshaled. *)
Theorem tracing_context_carried ctx vals t :
  (forall k, k <> tracingSpanKeyStr -> tracing_marshaler ctx vals !! k = vals !! k) /\
  (forall ctx' vals', tracing_unmarshaler ctx' vals' t = (ctx', t) \/
     exists parent, tracing_unmarshaler ctx' vals' t =
       let '(span, t') := StartSpan parent t in (ContextWithSpan ctx' span, t')) /\
  (forall span carrier js parent ctx',
     SpanFromContext ctx = Some span -> Inject span = inl carrier -> json_Marshal carrier = inl js ->
     json_Unmarshal js = inl carrier -> Extract carrier = inl parent ->
     tracing_unmarshaler ctx' (tracing_marshaler ctx vals) t =
       let '(span', t') := StartSpan (Some parent) t in (ContextWithSpan ctx' span', t')).
Proof.
  split; [|split].
  - intros k Hk. unfold tracing_marshaler. repeat case_match; try done. by rewrite lookup_insert_ne.
  - intros ctx' vals'. unfold tracing_unmarshaler. destruct (as_string _); [|by left].
    destruct (json_Unmarshal _); [|by left]. destruct (Extract _) as [parent|err]; [right; by exists (Some parent)|].
    destruct (ErrSpanContextNotFound err); [right; by exists None|by left].
  - intros span carrier js parent ctx' Hs Hi Hj Hu He. unfold tracing_marshaler, tracing_unmarshaler, at_key.
    rewrite Hs, Hi, Hj. rewrite lookup_insert_eq. simpl. by rewrite Hu, He.
Qed.

End Carrying.

(** ** Spans are nested *)

(** The tracer that writes down what it is told; spans are numbered. *)
Inductive call : Type :=
| Start (op : string) (sp : nat)
| Tag (sp : nat) (k : string) (v : any)
| Log (sp : nat) (err : error)
| Fin (sp : nat).

Definition started (t : list call) : nat :=
  foldr (fun c n => match c with Start _ _ => Datatypes.S n | _ => n end) 0%nat t.

Definition log_tracer : OpenTracing (list call) nat :=
  mkOpenTracing (fun ctx op t => (started t, ctx, t ++ [Start op (started t)]))
    (fun sp k v t => t ++ [Tag sp k v]) (fun sp err t => t ++ [Log sp err]) (fun sp t => t ++ [Fin sp]).

(** A remark on the span [sp]. *)
Definition remark (sp : nat) (c : call) : Prop :=
  match c with Tag sp' _ _ | Log sp' _ => sp' = sp | _ => False end.

(** Calls in which every span that is started is finished, after the spans
    started in it, and remarked on only in between. *)
Inductive nested : list call -> Prop :=
| nested_nil : nested []
| nested_app l k : nested l -> nested k -> nested (l ++ k)
| nested_span op sp body remarks :
    nested body -> Forall (remark sp) remarks -> nested (Start op sp :: body ++ remarks ++ [Fin sp]).

(** An operation that does not panic and whose calls are nested. *)
Definition nests {S A} (m : M (list call * S) A) : Prop :=
  forall t s, let '(o, (t', _)) := m (t, s) in
    match o with Panic _ => True | _ => exists l, t' = t ++ l /\ nested l end.

Section Nesting.
Context {S : Type}.
Abbreviation St := (list call * S)%type.

(** A call that remarks on the span. *)
Definition remarks_on (sp : nat) (m : M St unit) : Prop :=
  forall t s, exists l, m (t, s) = (Ok tt, (t ++ l, s)) /\ Forall (remark sp) l.

Lemma remarks_ret sp : remarks_on sp (ret tt).
Proof. intros t s. exists []. by rewrite app_nil_r. Qed.

Lemma remarks_seq sp (m k : M St unit) : remarks_on sp m -> remarks_on sp k -> remarks_on sp (do! m in k).
Proof.
  intros Hm Hk t s. destruct (Hm t s) as (l & Hl & HFl). destruct (Hk (t ++ l) s) as (l' & Hl' & HFl').
  exists (l ++ l'). rewrite (bind_ok _ _ _ _ _ Hl), Hl', app_assoc. split; [done|by apply Forall_app].
Qed.

Lemma remarks_set_tags sp tags : remarks_on sp (set_tags log_tracer sp tags).
Proof.
  induction tags as [|kv tags IH]; [apply remarks_ret|]. unfold set_tags in *. cbn [for_range].
  apply remarks_seq; [|exact IH]. intros t s. exists [Tag sp kv.1 kv.2]. split; [done|by repeat constructor].
Qed.

Lemma remarks_log_if {A} sp (r : A + error) : remarks_on sp (log_if log_tracer sp r).
Proof.
  destruct r as [a|err]; [apply remarks_ret|]. intros t s. exists [Log sp err]. split; [done|by repeat constructor].
Qed.

Lemma traced_nests {A} op (inner : context -> M St A) tell ctx :
  (forall ctx', nests (inner ctx')) ->
  (forall sp r t s, (exists pn t' s', tell sp r (t, s) = (Panic pn, (t', s'))) \/
     exists l, tell sp r (t, s) = (Ok tt, (t ++ l, s)) /\ Forall (remark sp) l) ->
  nests (traced log_tracer op inner tell ctx).
Proof.
  intros Hi Ht t s. unfold traced.
  rewrite (bind_ok _ _ (t, s) (t ++ [Start op (started t)], s) (started t, ctx)) by done.
  set (sp := started t). set (t1 := t ++ [Start op sp]).
  unfold bind at 1, attempt. specialize (Hi ctx t1 s).
  assert (forall (r : A + error) t2 s2, (exists l, t2 = t1 ++ l /\ nested l) ->
    let '(o, (t', _)) := (do! tell sp r in do! finish log_tracer sp in give r) (t2, s2) in
    match o with Panic _ => True | _ => exists l, t' = t ++ l /\ nested l end) as Hend.
  { intros r t2 s2 (body & -> & Hb). unfold bind at 1.
    destruct (Ht sp r (t1 ++ body) s2) as [(pn & t' & s' & ->)|(l & -> & Hl)]; [done|].
    assert (exists l0, (t1 ++ body) ++ l ++ [Fin sp] = t ++ l0 /\ nested l0) as Hspan.
    { exists (Start op sp :: body ++ l ++ [Fin sp]). unfold t1. rewrite <- !app_assoc.
      split; [done|by constructor]. }
    destruct r as [a|err]; cbn; by rewrite <- app_assoc. }
  destruct (inner ctx (t1, s)) as [[a|err|pn] [t2 s2]]; [by apply (Hend (inl a))|by apply (Hend (inr err))|done].
Qed.

Lemma remarks_or {sp} {m : M St unit} t s : remarks_on sp m ->
  (exists pn t' s', m (t, s) = (Panic pn, (t', s'))) \/
  exists l, m (t, s) = (Ok tt, (t ++ l, s)) /\ Forall (remark sp) l.
Proof. intros Hm. right. apply Hm. Qed.

Lemma tag_event_or sp e t s :
  (exists pn t' s', tag_event log_tracer sp e (t, s) = (Panic pn, (t', s'))) \/
  exists l, tag_event log_tracer sp e (t, s : S) = (Ok tt, (t ++ l, s)) /\ Forall (remark sp) l.
Proof.
  destruct e as [e|]; [|left; by eexists _, t, s]. apply remarks_or. intros t' s'. unfold tag_event.
  rewrite (bind_ok _ _ (t', s') (t', s') e) by done. apply remarks_set_tags.
Qed.

(** After a remark, the rest. *)
Lemma seq_or {sp} (m k : M St unit) t s : remarks_on sp m ->
  (forall t s, (exists pn t' s', k (t, s) = (Panic pn, (t', s'))) \/
     exists l, k (t, s) = (Ok tt, (t ++ l, s)) /\ Forall (remark sp) l) ->
  (exists pn t' s', (do! m in k) (t, s) = (Panic pn, (t', s'))) \/
  exists l, (do! m in k) (t, s) = (Ok tt, (t ++ l, s)) /\ Forall (remark sp) l.
Proof.
  intros Hm Hk. destruct (Hm t s) as (l & Hl & HF). rewrite (bind_ok _ _ _ _ _ Hl).
  destruct (Hk (t ++ l) s) as [Hp|(l' & -> & HF')]; [by left|]. right. exists (l ++ l').
  rewrite app_assoc. split; [done|by apply Forall_app].
Qed.

(** C38: spans are properly nested: whatever is wrapped in tracing, stores and
    handlers and handlers of handlers, if the spans of the inner operation are
    nested then so are those of the traced one, unless it panics. *)
Theorem traced_spans_nested (h : EventHandler St) (ch : CommandHandlerFunc St) (store : EventStore St)
    ctx ev cmd evs v id :
  (forall ctx e, nests (HandleEvent h ctx e)) -> (forall ctx c, nests (ch ctx c)) ->
  (forall ctx evs v, nests (es_Save store ctx evs v)) -> (forall ctx id, nests (es_Load store ctx id)) ->
  nests (HandleEvent (NewEventHandlerMiddleware log_tracer h) ctx ev) /\
  nests (NewCommandHandlerMiddleware log_tracer ch ctx cmd) /\
  nests (es_Save (traced_EventStore log_tracer store) ctx evs v) /\
  nests (es_Load (traced_EventStore log_tracer store) ctx id).
Proof.
  intros Hh Hc Hs Hl.
  assert (forall sp l t (s : S), (exists pn t' s', tag_first log_tracer sp l (t, s) = (Panic pn, (t', s'))) \/
    exists r, tag_first log_tracer sp l (t, s) = (Ok tt, (t ++ r, s)) /\ Forall (remark sp) r) as Hfirst.
  { intros sp [|e l] t s; [apply remarks_or, remarks_ret|apply tag_event_or]. }
  split; [|split; [|split]].
  - simpl. unfold handle_event. destruct ev as [e|]; [|by intros t s].
    intros t s. rewrite (bind_ok _ _ (t, s) (t, s) e) by done. revert t s.
    apply traced_nests; [done|]. intros sp r t s.
    apply seq_or; [apply remarks_log_if|intros; apply tag_event_or].
  - unfold NewCommandHandlerMiddleware. destruct cmd as [c|]; [|by intros t s].
    intros t s. rewrite (bind_ok _ _ (t, s) (t, s) c) by done. revert t s.
    apply traced_nests; [done|]. intros sp r t s.
    apply remarks_or, remarks_seq; [apply remarks_set_tags|apply remarks_log_if].
  - apply traced_nests; [done|]. intros sp r t s. apply seq_or; [apply remarks_log_if|intros; apply Hfirst].
  - apply traced_nests; [done|]. intros sp r t s. apply seq_or; [apply remarks_log_if|intros; apply Hfirst].
Qed.

End Nesting.

(** Saving an event in a traced store whose inner store refuses it. *)
Lemma traced_spans_nested_witness :
  let refusing := mkEventStore (S := list call * unit) (fun _ _ _ => throw (Sentinel ErrEventConflictFromOtherSave))
    (fun _ _ => ret []) (fun _ _ _ => ret []) (ret tt) in
  let e := mkEvent "event" (AInt 1) 0 "list" (uuid_of_N 1) 1 None in
  let l := [Start "EventStore.Save" 0; Log 0 (Sentinel ErrEventConflictFromOtherSave);
            Tag 0 "eh.event_type" (ANamed "EventType" "event"); Tag 0 "eh.aggregate_type" (ANamed "AggregateType" "list");
            Tag 0 "eh.aggregate_id" (AUUID (uuid_of_N 1)); Tag 0 "eh.version" (AInt 1); Fin 0] in
  es_Save (traced_EventStore log_tracer refusing) Background [Some e] 0 ([], tt) =
    (Err (Sentinel ErrEventConflictFromOtherSave), (l, tt)) /\ nested l.
Proof.
  intros refusing e l.
  assert (forall A (o : outcome error A) , nests (S := unit) (fun st => (o, st))) as Hquiet.
  { intros A o t s. destruct o; try done; exists []; (split; [by rewrite app_nil_r|constructor]). }
  destruct (traced_spans_nested (S := unit) (mkHandler "quiet" (fun _ _ => ret tt) false None) (fun _ _ => ret tt) refusing
    Background (Some e) None [Some e] 0 (uuid_of_N 1)) as (_ & _ & Hs & _); try (intros; apply Hquiet).
  specialize (Hs [] tt). split; [reflexivity|].
  change (exists l', l = [] ++ l' /\ nested l') in Hs. destruct Hs as (l' & -> & Hn). exact Hn.
Defined.

End Tracing.
