(* ===== verification/Mocks.v ===== *)
(** * The mocks ([mocks/mocks.go])

    The test doubles that the repository's shared test suites use: an
    aggregate, commands, read models, and a mock of each interface that
    records what it is called with and fails on request.  A mock's mutex makes
    each of its methods one step; the current time is an argument. *)

From stdpp Require Import base gmap strings list numbers option pretty.
From Stdlib Require Import Lia ZArith.
From S2P Require Import Prelude.
From S2P Require Import GoTypes.
From S2P Require Import Event.
From S2P Require Import Command.
From S2P Require Import Errors.
From S2P Require Import Registry.
From S2P Require Import EventStoreSpec.
From S2P Require Import CommandHandler.
From S2P Require Import Context.
From S2P Require Import Repo.
From S2P Require Import Handlers.

Module Mocks.

Definition AggregateType : string := "Aggregate".
Definition EventType : string := "Event".
Definition EventOtherType : string := "EventOther".
Definition CommandType : string := "Command".
Definition CommandOtherType : string := "CommandOther".
Definition CommandOther2Type : string := "CommandOther2".

(** [&EventData{Content: content}] *)
Definition EventData (content : string) : any :=
  AStruct "EventData" [("Content", AString content)].

(** What [init] registers. *)
Definition init_event_data (quote : string -> string) : M (gmap string (unit -> any)) unit :=
  RegisterEventData quote EventType (fun _ => EventData "").

(** ** Commands *)

Definition string_fields (id : UUID) (content : string) : list field :=
  [mkField "ID" "" "" None (RUUID id); mkField "Content" "" "" None (RString content)].

Definition mock_command (ty goty : string) (id : UUID) (content : string) : command :=
  mkCommand id AggregateType ty None (string_fields id content)
    (AStruct goty [("ID", AUUID id); ("Content", AString content)]).

Definition Command : UUID -> string -> command := mock_command CommandType "Command".
Definition CommandOther : UUID -> string -> command := mock_command CommandOtherType "CommandOther".
Definition CommandOther2 : UUID -> string -> command := mock_command CommandOther2Type "CommandOther2".

(** ** The aggregate *)

Record Aggregate : Type := mkAggregate {
  ag_ID : UUID;
  ag_Commands : list (option command);
  ag_Context : option context;
  ag_Err : option error
}.

Definition NewAggregate (id : UUID) : Aggregate := mkAggregate id [] None None.

Definition ag_HandleCommand (ctx : context) (cmd : option command) : M Aggregate unit := fun a =>
  match ag_Err a with
  | Some err => (Err err, a)
  | None => (Ok tt, mkAggregate (ag_ID a) (ag_Commands a ++ [cmd]) (Some ctx) None)
  end.

(** The state of a snapshot is the aggregate itself, in an [any] whose dynamic
    type the other side checks: [to_any] and [of_any]. *)
Section Snapshot.
Context (to_any : Aggregate -> any) (of_any : any -> option Aggregate).

Definition CreateSnapshot (now : Time) (a : Aggregate) : Snapshot :=
  mkSnapshot 0 "" now (to_any a).

Definition ApplySnapshot (snapshot : Snapshot) (a : Aggregate) : Aggregate :=
  match of_any (snap_State snapshot) with
  | Some agg => mkAggregate (ag_ID agg) (ag_Commands agg) (ag_Context a) (ag_Err a)
  | None => a
  end.

End Snapshot.

(** ** Read models *)

Record Model : Type := mkModel {
  m_ID : UUID;
  m_Version : Z;
  m_Content : string;
  m_CreatedAt : Time
}.

#[export] Instance Model_eq_dec : EqDecision Model.
Proof. solve_decision. Defined.

#[export] Instance Model_Entity : Entity Model := {
  EntityID := m_ID;
  Versionable m := Some (m_Version m)
}.

Record SimpleModel : Type := mkSimpleModel {
  sm_ID : UUID;
  sm_Content : string
}.

#[export] Instance SimpleModel_Entity : Entity SimpleModel := {
  EntityID := sm_ID;
  Versionable _ := None
}.

(** ** The command handler *)

Record CommandHandler : Type := mkCommandHandler {
  ch_Commands : list (option command);
  ch_Context : option context;
  ch_Err : option error
}.

Definition ch_HandleCommand (ctx : context) (cmd : option command) : M CommandHandler unit := fun h =>
  match ch_Err h with
  | Some err => (Err err, h)
  | None => (Ok tt, mkCommandHandler (ch_Commands h ++ [cmd]) (Some ctx) None)
  end.

(** ** The event handler *)

(** [eh_Recv] is a channel with room for ten events. *)
Record EventHandler : Type := mkEventHandler {
  eh_Type : string;
  eh_Events : list (option event);
  eh_Context : context;
  eh_Time : Time;
  eh_Recv : list (option event);
  eh_Err : option error
}.

Definition NewEventHandler (handlerType : string) : EventHandler :=
  mkEventHandler handlerType [] Background 0 [] None.

(** [None]: the send blocks, with the mutex held. *)
Definition eh_HandleEvent (now : Time) (ctx : context) (e : option event) (m : EventHandler)
  : option (result unit * EventHandler) :=
  match eh_Err m with
  | Some err => Some (Err err, m)
  | None =>
      if len (eh_Recv m) <? 10
      then Some (Ok tt, mkEventHandler (eh_Type m) (eh_Events m ++ [e]) ctx now (eh_Recv m ++ [e]) None)
      else None
  end.

Definition Reset (m : EventHandler) : EventHandler :=
  mkEventHandler (eh_Type m) [] Background 0 (eh_Recv m) None.

(** [Wait]: an event that has been handled is received; with none, and none
    coming, the timer ends the wait. *)
Definition Wait (m : EventHandler) : bool * EventHandler :=
  match eh_Recv m with
  | _ :: rest => (true, mkEventHandler (eh_Type m) (eh_Events m) (eh_Context m) (eh_Time m) rest (eh_Err m))
  | [] => (false, m)
  end.

(** ** The aggregate store *)

Section AggregateStore.
Context {A : Type} (aggregate_id : A -> UUID) (snapshot_of : A -> option Snapshot).

(** The maps are [None] when they are nil: reading a nil map gives nothing,
    writing to one panics. *)
Record AggregateStore : Type := mkMockAggregateStore {
  as_Aggregates : option (gmap UUID A);
  as_Snapshots : option (gmap UUID Snapshot);
  as_Context : option context;
  as_Err : option error
}.

Definition map_set {V S : Type} (k : UUID) (v : V) (m : option (gmap UUID V)) : M S (option (gmap UUID V)) :=
  match m with
  | Some m => ret (Some (<[k := v]> m))
  | None => panic "assignment to entry in nil map"
  end.

Definition mock_as_Load (ctx : context) (aggregateType : string) (id : UUID)
  : M AggregateStore (option A) := fun m =>
  match as_Err m with
  | Some err => (Err err, m)
  | None =>
      (Ok (as_Aggregates m ≫= (fun l => l !! id)),
       mkMockAggregateStore (as_Aggregates m) (as_Snapshots m) (Some ctx) None)
  end.

Definition mock_as_Save (ctx : context) (aggregate : A) : M AggregateStore unit :=
  let! m := gets (fun m => m) in
  match as_Err m with
  | Some err => throw err
  | None =>
      do! modify (fun m => mkMockAggregateStore (as_Aggregates m) (as_Snapshots m) (Some ctx) None) in
      let! l := map_set (aggregate_id aggregate) aggregate (as_Aggregates m) in
      modify (fun m => mkMockAggregateStore l (as_Snapshots m) (as_Context m) None)
  end.

Definition TakeSnapshot (ctx : context) (agg : A) : M AggregateStore unit :=
  let! m := gets (fun m => m) in
  match as_Err m with
  | Some err => throw err
  | None =>
      match snapshot_of agg with
      | None => ret tt
      | Some sn =>
          do! modify (fun m => mkMockAggregateStore (as_Aggregates m) (as_Snapshots m) (Some ctx) None) in
          let! l := map_set (aggregate_id agg) sn (as_Snapshots m) in
          modify (fun m => mkMockAggregateStore (as_Aggregates m) l (as_Context m) None)
      end
  end.

Definition mock_AggregateStore : AggregateStoreI AggregateStore A := mkAggregateStore mock_as_Load mock_as_Save.

End AggregateStore.

(** ** The event store *)

Record EventStore : Type := mkMockEventStore {
  es_Events : list (option event);
  es_Snapshot : Snapshot;
  es_Loaded : UUID;
  es_Context : option context;
  es_Err : option error
}.

(** [if m.Err != nil { return m.Err }], then the context is kept. *)
Definition unless_err {A} (m : M EventStore A) : M EventStore A :=
  let! e := gets es_Err in
  match e with Some err => throw err | None => m end.

Definition set_events (ctx : context) (evs : list (option event)) (m : EventStore) : EventStore :=
  mkMockEventStore evs (es_Snapshot m) (es_Loaded m) (Some ctx) (es_Err m).

Definition set_loaded (ctx : context) (id : UUID) (m : EventStore) : EventStore :=
  mkMockEventStore (es_Events m) (es_Snapshot m) id (Some ctx) (es_Err m).

Definition mock_es_Save (ctx : context) (events : list (option event)) (originalVersion : Z)
  : M EventStore unit :=
  unless_err (modify (fun m => set_events ctx (es_Events m ++ events) m)).

Definition mock_es_Load (ctx : context) (id : UUID) : M EventStore (list (option event)) :=
  unless_err (do! modify (set_loaded ctx id) in gets es_Events).

(** The loop of [LoadFrom]; a nil event panics. *)
Fixpoint from_version {S} (version : Z) (l : list (option event)) : M S (list (option event)) :=
  match l with
  | [] => ret []
  | e :: l' =>
      let! ev := deref e in
      let! rest := from_version version l' in
      ret (if version <=? Event.version ev then e :: rest else rest)
  end.

Definition mock_es_LoadFrom (ctx : context) (id : UUID) (version : Z) : M EventStore (list (option event)) :=
  unless_err (do! modify (set_loaded ctx id) in
              let! evs := gets es_Events in
              from_version version evs).

Definition mock_es_Replace (ctx : context) (e : option event) : M EventStore unit :=
  unless_err (modify (set_events ctx [e])).

Definition mock_es_Close : M EventStore unit := ret tt.

Definition mock_LoadSnapshot (ctx : context) (id : UUID) : M EventStore (option Snapshot) :=
  do! modify (set_loaded ctx id) in
  let! sn := gets es_Snapshot in ret (Some sn).

Definition mock_SaveSnapshot (ctx : context) (id : UUID) (snapshot : Snapshot) : M EventStore unit :=
  unless_err (modify (fun m => mkMockEventStore (es_Events m) snapshot (es_Loaded m) (Some ctx) (es_Err m))).

Definition mock_EventStore : EventStoreSpec.EventStore EventStore :=
  EventStoreSpec.mkEventStore mock_es_Save mock_es_Load mock_es_LoadFrom mock_es_Close.

Definition mock_SnapshotStore : SnapshotStore EventStore := mkSnapshotStore mock_LoadSnapshot mock_SaveSnapshot.

(** ** The event bus *)

Record EventBus : Type := mkMockEventBus {
  eb_Events : list (option event);
  eb_Context : option context;
  eb_Err : option error
}.

Definition eb_HandlerType : string := "event-bus".

Definition eb_HandleEvent (ctx : context) (e : option event) : M EventBus unit := fun b =>
  match eb_Err b with
  | Some err => (Err err, b)
  | None => (Ok tt, mkMockEventBus (eb_Events b ++ [e]) (Some ctx) None)
  end.

Definition eb_AddHandler (ctx : context) (m : option (event -> bool))
    (h : option (Handlers.EventHandler EventBus)) : M EventBus unit := ret tt.

Definition eb_Close : M EventBus unit := ret tt.

(** ** The repository *)

Section Repo.
Context {E : Type}.

(** The entity, and so what [Find] returns without an error, may be nil. *)
Record Repo : Type := mkMockRepo {
  ParentRepo : option repo_value;
  rp_Entity : option E;
  rp_Entities : list (option E);
  LoadErr : option error;
  SaveErr : option error;
  FindCalled : bool;
  FindAllCalled : bool;
  SaveCalled : bool;
  RemoveCalled : bool
}.

Definition rp_InnerRepo (r : Repo) : option repo_value := ParentRepo r.

Definition rp_Find (ctx : context) (id : UUID) : M Repo (option E) := fun r =>
  let r := mkMockRepo (ParentRepo r) (rp_Entity r) (rp_Entities r) (LoadErr r) (SaveErr r)
             true (FindAllCalled r) (SaveCalled r) (RemoveCalled r) in
  match LoadErr r with Some err => (Err err, r) | None => (Ok (rp_Entity r), r) end.

Definition rp_FindAll (ctx : context) : M Repo (list (option E)) := fun r =>
  let r := mkMockRepo (ParentRepo r) (rp_Entity r) (rp_Entities r) (LoadErr r) (SaveErr r)
             (FindCalled r) true (SaveCalled r) (RemoveCalled r) in
  match LoadErr r with Some err => (Err err, r) | None => (Ok (rp_Entities r), r) end.

Definition set_entity (entity : option E) (r : Repo) : Repo :=
  mkMockRepo (ParentRepo r) entity (rp_Entities r) (LoadErr r) (SaveErr r)
    (FindCalled r) (FindAllCalled r) (SaveCalled r) (RemoveCalled r).

Definition rp_Save (ctx : context) (entity : option E) : M Repo unit := fun r =>
  let r := mkMockRepo (ParentRepo r) (rp_Entity r) (rp_Entities r) (LoadErr r) (SaveErr r)
             (FindCalled r) (FindAllCalled r) true (RemoveCalled r) in
  match SaveErr r with Some err => (Err err, r) | None => (Ok tt, set_entity entity r) end.

Definition rp_Remove (ctx : context) (id : UUID) : M Repo unit := fun r =>
  let r := mkMockRepo (ParentRepo r) (rp_Entity r) (rp_Entities r) (LoadErr r) (SaveErr r)
             (FindCalled r) (FindAllCalled r) (SaveCalled r) true in
  match SaveErr r with Some err => (Err err, r) | None => (Ok tt, set_entity None r) end.

Definition rp_Close : M Repo unit := ret tt.

End Repo.

(** ** A value in contexts *)

Definition contextKeyOne : ctx_key := otherKey 0.

Definition contextKeyOneStr : string := "context_one".

Definition WithContextOne (ctx : context) (val : string) : context := WithValue ctx contextKeyOne (AString val).

Definition ContextOne (ctx : context) : option string := as_string (Value ctx contextKeyOne).

Definition one_marshaler : ContextMarshalFunc := fun ctx vals =>
  set_val contextKeyOneStr (AString <$> ContextOne ctx) vals.

Definition one_unmarshaler : ContextUnmarshalFunc := fun ctx vals =>
  match as_string (at_key vals contextKeyOneStr) with
  | Some val => WithContextOne ctx val
  | None => ctx
  end.

(** the value travels with an event, next to what the packages register *)
Lemma context_one_carried ctx vals to val :
  ContextOne ctx = Some val ->
  ContextOne (one_unmarshaler to (one_marshaler ctx vals)) = Some val.
Proof.
  intros H1. unfold one_marshaler, one_unmarshaler, at_key. rewrite H1. simpl.
  rewrite lookup_insert_eq. simpl. unfold ContextOne, WithContextOne. by rewrite Value_WithValue_eq.
Qed.

(** An event handler that succeeds hands each event to one [Wait], in order;
    ten that nobody waited for block the next. *)
Lemma mock_handler_blocks now ctx e m :
  eh_Err m = None -> (eh_HandleEvent now ctx e m = None <-> 10 <= len (eh_Recv m)).
Proof.
  intros He. unfold eh_HandleEvent. rewrite He. destruct (Z.ltb_spec (len (eh_Recv m)) 10); split; [done|lia|lia|done].
Qed.

End Mocks.
