(* ===== verification/Http.v ===== *)
(** * HTTP utilities ([httputils])

    Handlers that expose command handlers, repositories and an event bus over
    HTTP: [CommandHandler] ([command.go]), [QueryHandler] ([query.go]) and
    [EventBusHandler] ([eventbus.go]), with what they use of [net/http]:
    requests, responses and [ServeMux].  Parsing JSON and UUIDs and printing
    errors of other packages are parameters; log lines are left out. *)

From stdpp Require Import base gmap strings list numbers option pretty.
From Stdlib Require Import Lia ZArith Ascii.
From S2P Require Import Prelude.
From S2P Require Import GoTypes.
From S2P Require Import Event.
From S2P Require Import Command.
From S2P Require Import Errors.
From S2P Require Import Fixtures.
From S2P Require Import ErrorText.
From S2P Require Import Registry.
From S2P Require Import EventStoreSpec.
From S2P Require Import CommandHandler.
From S2P Require Import Repo.
From S2P Require Import Handlers.

Import ErrorText.

Module Http.

(** ** [net/http] *)

Definition MethodGet : string := "GET".
Definition MethodPost : string := "POST".

Definition StatusSwitchingProtocols : Z := 101.
Definition StatusOK : Z := 200.
Definition StatusMovedPermanently : Z := 301.
Definition StatusBadRequest : Z := 400.
Definition StatusNotFound : Z := 404.
Definition StatusMethodNotAllowed : Z := 405.
Definition StatusInternalServerError : Z := 500.

(** [Body] is what [io.ReadAll(r.Body)] gives. *)
Record Request : Type := mkRequest {
  Method : string;
  URL_Path : string;
  Body : string + error;
  Context : context
}.

Record Response : Type := mkResponse {
  status : Z;
  Content_Type : string;
  body : string
}.

(** A newline. *)
Definition nl : string := String.String (ascii_of_nat 10) "".

(** [http.Error] *)
Definition http_Error (message : string) (code : Z) : Response :=
  mkResponse code "text/plain; charset=utf-8" (message +:+ nl).

(** [w.WriteHeader(code)] and nothing else. *)
Definition header_only (code : Z) : Response := mkResponse code "" "".

Abbreviation Handler S := (Request -> M S Response).

(** Paths as their parts between slashes. *)
Fixpoint split_slash (s : string) : list string :=
  match s with
  | EmptyString => [""]
  | String.String c s' =>
      if Ascii.eqb c "/" then "" :: split_slash s'
      else match split_slash s' with
           | [] => [String.String c ""]
           | x :: l => String.String c x :: l
           end
  end.

(** [path.Split]: the part after the last slash. *)
Definition path_file (p : string) : string := List.last (split_slash p) "".

(** [path.Clean] of a rooted path: the parts that stay, last first. *)
Fixpoint clean_parts (parts : list string) (kept : list string) : list string :=
  match parts with
  | [] => kept
  | x :: parts' =>
      if bool_decide (x = "") || bool_decide (x = ".") then clean_parts parts' kept
      else if bool_decide (x = "..") then clean_parts parts' (tail kept)
      else clean_parts parts' (x :: kept)
  end.

Fixpoint join_slash (parts : list string) : string :=
  match parts with
  | [] => ""
  | x :: parts' => "/" +:+ x +:+ join_slash parts'
  end.

(** [cleanPath] of [ServeMux]: the cleaned path, with the trailing slash it
    had. *)
Definition cleanPath (p : string) : string :=
  match rev (clean_parts (split_slash p) []) with
  | [] => "/"
  | parts => join_slash parts +:+ (if bool_decide (path_file p = "") then "/" else "")
  end.

(** A pattern that ends in a slash is that of a subtree. *)
Definition is_subtree (pattern : string) : bool := bool_decide (path_file pattern = "").

Inductive routed (H : Type) : Type :=
| Route (h : H)
| Redirect (path : string)
| NoRoute.
Arguments Route {H}.
Arguments Redirect {H}.
Arguments NoRoute {H}.

Section Mux.
Context {H : Type}.

Fixpoint exact_route (routes : list (string * H)) (p : string) : option H :=
  match routes with
  | [] => None
  | (pattern, h) :: routes' => if bool_decide (pattern = p) then Some h else exact_route routes' p
  end.

Fixpoint starts_with (pre s : string) : bool :=
  match pre, s with
  | EmptyString, _ => true
  | String.String c pre', String.String d s' => Ascii.eqb c d && starts_with pre' s'
  | String.String _ _, EmptyString => false
  end.

(** The longest subtree the path is in. *)
Fixpoint subtree_route (routes : list (string * H)) (p : string) (best : option (string * H))
  : option (string * H) :=
  match routes with
  | [] => best
  | (pattern, h) :: routes' =>
      let better :=
        is_subtree pattern && starts_with pattern p &&
        match best with
        | Some (b, _) => (String.length b <? String.length pattern)%nat
        | None => true
        end in
      subtree_route routes' p (if better then Some (pattern, h) else best)
  end.

(** [ServeMux] finds the handler of a path: that of the exact pattern, or of
    the longest subtree; a path that lacks the slash of a subtree, or that is
    not clean, is redirected. *)
Definition mux_route (routes : list (string * H)) (path : string) : routed H :=
  let p := cleanPath path in
  match exact_route routes p with
  | Some h => if bool_decide (p = path) then Route h else Redirect p
  | None =>
      match exact_route routes (p +:+ "/") with
      | Some _ => Redirect (p +:+ "/")
      | None =>
          if bool_decide (p = path)
          then match subtree_route routes p None with
               | Some (_, h) => Route h
               | None => NoRoute
               end
          else Redirect p
      end
  end.

End Mux.

Definition ServeMux {S} (routes : list (string * Handler S)) : Handler S := fun r =>
  match mux_route routes (URL_Path r) with
  | Route h => h r
  | Redirect p => ret (mkResponse StatusMovedPermanently "text/html; charset=utf-8" p)
  | NoRoute => ret (http_Error "404 page not found" StatusNotFound)
  end.

(** ** Paths that end in a name *)

Fixpoint has_slash (s : string) : bool :=
  match s with
  | EmptyString => false
  | String.String c s' => Ascii.eqb c "/" || has_slash s'
  end.

Lemma split_slash_none s : has_slash s = false -> split_slash s = [s].
Proof.
  induction s as [|c s IH]; [done|]. simpl. destruct (Ascii.eqb c "/"); [done|]. simpl. intros Hs. by rewrite IH.
Qed.

Lemma split_slash_prefix x t y l :
  has_slash x = false -> split_slash t = y :: l -> split_slash (x +:+ t) = (x +:+ y) :: l.
Proof.
  induction x as [|c x IH]; intros Hx Ht; [done|]. simpl in Hx. destruct (Ascii.eqb c "/") eqn:Hc; [done|].
  change (split_slash (String.String c (x +:+ t)) = String.String c (x +:+ y) :: l). simpl. by rewrite Hc, IH.
Qed.

(** A clean directory, by its parts. *)
Definition directory (parts : list string) : string := join_slash parts +:+ "/".

Definition plain (x : string) : Prop := x <> "" /\ x <> "." /\ x <> ".." /\ has_slash x = false.

Lemma plain_long s : has_slash s = false -> (3 <= String.length s)%nat -> plain s.
Proof. intros Hs Hl. split_and!; try (intros ->; simpl in Hl; lia). done. Qed.

Lemma split_directory parts s :
  Forall plain parts -> has_slash s = false -> split_slash (directory parts +:+ s) = "" :: parts ++ [s].
Proof.
  intros HF Hs. unfold directory. rewrite string_app_assoc. induction HF as [|x parts (_ & _ & _ & Hx) _ IH].
  - change ("" :: split_slash s = ["" ; s]). by rewrite split_slash_none.
  - simpl join_slash. rewrite !string_app_assoc.
    change ("" :: split_slash (x +:+ join_slash parts +:+ "/" +:+ s) = "" :: x :: parts ++ [s]).
    f_equal. rewrite (split_slash_prefix _ _ _ _ Hx IH). by rewrite string_app_empty.
Qed.

Lemma clean_plain parts kept : Forall plain parts -> clean_parts parts kept = rev parts ++ kept.
Proof.
  intros HF. revert kept. induction HF as [|x parts (H1 & H2 & H3 & _) _ IH]; intros kept; [done|]. simpl.
  rewrite !bool_decide_false by done. simpl. by rewrite IH, <- app_assoc.
Qed.

(** [path.Split] of a file in a directory, and [cleanPath] of a clean path. *)
Lemma path_file_app dir parts s :
  dir = directory parts -> parts <> [] -> Forall plain parts -> has_slash s = false ->
  path_file (dir +:+ s) = s.
Proof.
  intros -> Hne HF Hs. unfold path_file. rewrite split_directory by done.
  by rewrite app_comm_cons, List.last_last.
Qed.

Lemma join_slash_app l k : join_slash (l ++ k) = join_slash l +:+ join_slash k.
Proof.
  induction l as [|x l IH]; [done|]. simpl. rewrite IH. change ("/" +:+ x +:+ join_slash l +:+ join_slash k =
    ("/" +:+ x +:+ join_slash l) +:+ join_slash k). by rewrite !string_app_assoc.
Qed.

Lemma cleanPath_file dir parts s :
  dir = directory parts -> parts <> [] -> Forall plain parts -> plain s -> cleanPath (dir +:+ s) = dir +:+ s.
Proof.
  intros -> Hne HF Hs. pose proof Hs as (Hs1 & _ & _ & Hs4). unfold cleanPath.
  rewrite (path_file_app (directory parts) parts), split_directory by done. cbn [clean_parts bool_decide].
  rewrite bool_decide_true by done. cbn [orb].
  rewrite clean_plain by (apply Forall_app; split; [done|by apply Forall_singleton]).
  rewrite app_nil_r, rev_involutive, bool_decide_false by done.
  destruct (parts ++ [s]) eqn:Hp; [by destruct parts|]. rewrite <- Hp, string_app_empty, join_slash_app.
  unfold directory. rewrite string_app_assoc. simpl. by rewrite string_app_empty.
Qed.

(** No pattern is a path that is longer than all of them. *)
Lemma exact_route_long {H} (routes : list (string * H)) p :
  Forall (fun r => (String.length r.1 < String.length p)%nat) routes -> exact_route routes p = None.
Proof.
  induction 1 as [|[q h] routes Hlt _ IH]; [done|]. simpl in *. rewrite bool_decide_false; [done|].
  intros ->. lia.
Qed.

(** ** The handlers *)

Section Handlers.
Context {S : Type}.
Context (uuid_String : UUID -> string) (foreign : sentinel -> string).

(** [err.Error()] *)
Definition err_Error (err : error) : M S string :=
  match Error uuid_String foreign err with
  | Some t => ret t
  | None => panic "nil pointer dereference"
  end.

(** [http.Error(w, message + err.Error(), code)] *)
Definition fail_with (message : string) (err : error) (code : Z) : M S Response :=
  let! t := err_Error err in ret (http_Error (message +:+ t) code).

Section Commands.
Context (commands : gmap string (unit -> option command)).
(** [json.Unmarshal(b, &cmd)] into the interface: the text [null] makes it
    nil, any other goes to the command it holds. *)
Context (json_Unmarshal : string -> option command -> option command + error).

Definition CommandHandler (commandHandler : CommandHandlerFunc S) (commandType : string) : Handler S := fun r =>
  if bool_decide (Method r <> MethodPost)
  then ret (http_Error ("unsupported method: " +:+ Method r) StatusMethodNotAllowed)
  else
    let! created := attempt (CreateCommand commands commandType) in
    match created with
    | inr err => fail_with "could not create command: " err StatusBadRequest
    | inl cmd =>
        match Body r with
        | inr err => fail_with "could not read command: " err StatusBadRequest
        | inl b =>
            match json_Unmarshal b cmd with
            | inr err => fail_with "could not decode command: " err StatusBadRequest
            | inl cmd =>
                let! handled := attempt (commandHandler Background cmd) in
                match handled with
                | inr err => fail_with "could not handle command: " err StatusBadRequest
                | inl _ => ret (header_only StatusOK)
                end
            end
        end
    end.

(** What a request is answered with, as a function of what handling gives. *)
Definition command_answer (o : result unit) : result Response :=
  match o with
  | Ok _ => Ok (header_only StatusOK)
  | Err err =>
      match Error uuid_String foreign err with
      | Some t => Ok (http_Error ("could not handle command: " +:+ t) StatusBadRequest)
      | None => Panic "nil pointer dereference"
      end
  | Panic p => Panic p
  end.

Lemma CommandHandler_decoded ch ct r factory b cmd (s : S) :
  Method r = MethodPost -> commands !! ct = Some factory -> Body r = inl b ->
  json_Unmarshal b (factory tt) = inl cmd ->
  CommandHandler ch ct r s = (command_answer (ch Background cmd s).1, (ch Background cmd s).2).
Proof.
  intros Hm Hf Hb Hj. unfold CommandHandler. rewrite Hm, bool_decide_false by (intros []; done).
  rewrite (bind_ok _ _ s s (inl (factory tt))) by (apply attempt_ok; unfold CreateCommand; by rewrite Hf).
  rewrite Hb, Hj. destruct (ch Background cmd s) as [[u|err|p] s'] eqn:Hch; simpl.
  - rewrite (bind_ok _ _ s s' (inl u)) by (by apply attempt_ok). by destruct u.
  - rewrite (bind_ok _ _ s s' (inr err)) by (by apply attempt_err).
    unfold fail_with, err_Error, bind. by destruct (Error _ _ err).
  - unfold bind, attempt. by rewrite Hch.
Qed.

Lemma fail_with_run message err code t (s : S) :
  Error uuid_String foreign err = Some t ->
  fail_with message err code s = (Ok (http_Error (message +:+ t) code), s).
Proof. intros Ht. unfold fail_with, err_Error. by rewrite Ht. Qed.

(** a POST with a body that decodes into a command of the route's type is
    answered 200 when the command handler accepts the command, and 400 with the
    error's text when it refuses it, in the state the command handler leaves;
    any other method is answered 405, an unknown type, an unreadable or an
    undecodable body 400, and then the command handler is not called. *)
Theorem CommandHandler_answers ch ct r (s : S) :
  (Method r <> MethodPost -> exists m, CommandHandler ch ct r s = (Ok (http_Error m StatusMethodNotAllowed), s)) /\
  (Method r = MethodPost ->
   match commands !! ct, Body r with
   | None, _ => exists m, CommandHandler ch ct r s = (Ok (http_Error m StatusBadRequest), s)
   | Some _, inr err => printable err ->
       exists m, CommandHandler ch ct r s = (Ok (http_Error m StatusBadRequest), s)
   | Some factory, inl b =>
       match json_Unmarshal b (factory tt) with
       | inr err => printable err ->
           exists m, CommandHandler ch ct r s = (Ok (http_Error m StatusBadRequest), s)
       | inl cmd =>
           CommandHandler ch ct r s = (command_answer (ch Background cmd s).1, (ch Background cmd s).2)
       end
   end).
Proof.
  split.
  { intros Hm. eexists. unfold CommandHandler. by rewrite bool_decide_true. }
  intros Hm. destruct (commands !! ct) as [factory|] eqn:Hf.
  - destruct (Body r) as [b|err] eqn:Hb.
    + destruct (json_Unmarshal b (factory tt)) as [cmd|err] eqn:Hj; [by eapply CommandHandler_decoded|].
      intros (t & Ht)%(printable_text uuid_String foreign). eexists. unfold CommandHandler.
      rewrite bool_decide_false by (intros []; done).
      rewrite (bind_ok _ _ s s (inl (factory tt))) by (apply attempt_ok; unfold CreateCommand; by rewrite Hf).
      rewrite Hb, Hj. by apply fail_with_run.
    + intros (t & Ht)%(printable_text uuid_String foreign). eexists. unfold CommandHandler.
      rewrite bool_decide_false by (intros []; done).
      rewrite (bind_ok _ _ s s (inl (factory tt))) by (apply attempt_ok; unfold CreateCommand; by rewrite Hf).
      rewrite Hb. by apply fail_with_run.
  - eexists. unfold CommandHandler. rewrite bool_decide_false by (intros []; done).
    rewrite (bind_ok _ _ s s (inr (Sentinel ErrCommandNotRegistered)))
      by (apply attempt_err; unfold CreateCommand; by rewrite Hf).
    by apply fail_with_run.
Qed.

End Commands.

Section Queries.
Context {E : Type} `{Entity E} (uuid_Parse : string -> UUID + error).
(** [json.Marshal(data)] of an entity and of a list of them. *)
Context (json_Marshal : E -> string + error) (json_Marshal_all : list E -> string + error).

Definition write_json (b : string + error) : M S Response :=
  match b with
  | inr err => fail_with "could not encode result: " err StatusInternalServerError
  | inl b => ret (mkResponse StatusOK "application/json" b)
  end.

Definition QueryHandler (repo : ReadWriteRepo S E) : Handler S := fun r =>
  if bool_decide (Method r <> MethodGet)
  then ret (http_Error ("unsupported method: " +:+ Method r) StatusMethodNotAllowed)
  else
    let idStr := path_file (URL_Path r) in
    if bool_decide (idStr = "") then
      let! data := attempt (FindAll repo (Context r)) in
      match data with
      | inr err => fail_with "could not find items: " err StatusInternalServerError
      | inl data => write_json (json_Marshal_all data)
      end
    else
      match uuid_Parse idStr with
      | inr err => fail_with "could not parse ID: " err StatusBadRequest
      | inl id =>
          let! data := attempt (Find repo (Context r) id) in
          match data with
          | inr err =>
              if errors_Is err ErrEntityNotFound
              then ret (http_Error "could not find item" StatusNotFound)
              else fail_with "could not find item: " err StatusInternalServerError
          | inl data => write_json (json_Marshal data)
          end
      end.

(** What [write_json] answers. *)
Definition json_answer (b : string + error) (resp : Response) : Prop :=
  match b with
  | inl b => resp = mkResponse StatusOK "application/json" b
  | inr err => exists t, Error uuid_String foreign err = Some t /\
      resp = http_Error ("could not encode result: " +:+ t) StatusInternalServerError
  end.

Definition encodes (b : string + error) : Prop := match b with inl _ => True | inr err => printable err end.

Lemma write_json_run b (s : S) : encodes b -> exists resp, write_json b s = (Ok resp, s) /\ json_answer b resp.
Proof.
  unfold encodes, write_json, json_answer. destruct b as [b|err]; [by eexists|].
  intros (t & Ht)%(printable_text uuid_String foreign). eexists.
  unfold fail_with, err_Error. rewrite Ht. split; [done|by exists t].
Qed.

Context (repo : ReadWriteRepo S E) `{!RepoLaws repo}.

Lemma QueryHandler_all r (s : S) :
  Method r = MethodGet -> path_file (URL_Path r) = "" -> repo_ok s ->
  (forall es, encodes (json_Marshal_all es)) ->
  exists es resp s', QueryHandler repo r s = (Ok resp, s') /\
    es ≡ₚ (map_to_list (entities s)).*2 /\ json_answer (json_Marshal_all es) resp /\
    repo_ok s' /\ entities s' = entities s.
Proof.
  intros Hm Hp Hok Henc. destruct (law_find_all (Context r) s Hok) as (es & s' & Hf & Hok' & He & Hperm).
  destruct (write_json_run (json_Marshal_all es) s' (Henc es)) as (resp & Hw & Hj).
  exists es, resp, s'. split; [|done]. unfold QueryHandler.
  rewrite Hm, bool_decide_false by (intros []; done). rewrite Hp, bool_decide_true by done.
  rewrite (bind_ok _ _ s s' (inl es)) by (by apply attempt_ok). done.
Qed.

Lemma QueryHandler_one r id e (s : S) :
  Method r = MethodGet -> path_file (URL_Path r) <> "" -> uuid_Parse (path_file (URL_Path r)) = inl id ->
  repo_ok s -> entities s !! id = Some e -> encodes (json_Marshal e) ->
  exists resp s', QueryHandler repo r s = (Ok resp, s') /\ json_answer (json_Marshal e) resp /\
    repo_ok s' /\ entities s' = entities s.
Proof.
  intros Hm Hp Hid Hok He Henc. destruct (law_find (Context r) s id e Hok He) as (s' & Hf & Hok' & He').
  destruct (write_json_run (json_Marshal e) s' Henc) as (resp & Hw & Hj).
  exists resp, s'. split; [|done]. unfold QueryHandler.
  rewrite Hm, bool_decide_false by (intros []; done). rewrite bool_decide_false, Hid by done.
  rewrite (bind_ok _ _ s s' (inl e)) by (by apply attempt_ok). done.
Qed.

Lemma QueryHandler_missing r id (s : S) :
  Method r = MethodGet -> path_file (URL_Path r) <> "" -> uuid_Parse (path_file (URL_Path r)) = inl id ->
  repo_ok s -> entities s !! id = None ->
  exists s', QueryHandler repo r s = (Ok (http_Error "could not find item" StatusNotFound), s') /\
    repo_ok s' /\ entities s' = entities s.
Proof.
  intros Hm Hp Hid Hok He.
  destruct (law_find_missing (Context r) s id Hok He) as (err & s' & Hf & Hnf & _ & Hok' & He').
  exists s'. split; [|done]. unfold QueryHandler.
  rewrite Hm, bool_decide_false by (intros []; done). rewrite bool_decide_false, Hid by done.
  rewrite (bind_ok _ _ s s' (inr err)) by (by apply attempt_err). by rewrite Hnf.
Qed.

(** queries answer from the repository.  A GET of a path that ends in a
    slash is answered with all entities, in some order; of a path that ends in
    an ID with that entity, or 404 when there is none; any other last part is
    400 and any other method 405.  No request changes what is stored. *)
Theorem QueryHandler_answers r (s : S) :
  repo_ok s -> (forall e, encodes (json_Marshal e)) -> (forall es, encodes (json_Marshal_all es)) ->
  (forall idStr err, uuid_Parse idStr = inr err -> printable err) ->
  exists resp s', QueryHandler repo r s = (Ok resp, s') /\ repo_ok s' /\ entities s' = entities s /\
    (Method r <> MethodGet -> status resp = StatusMethodNotAllowed) /\
    (Method r = MethodGet ->
      if bool_decide (path_file (URL_Path r) = "") then
        exists es, es ≡ₚ (map_to_list (entities s)).*2 /\ json_answer (json_Marshal_all es) resp
      else
        match uuid_Parse (path_file (URL_Path r)) with
        | inr _ => status resp = StatusBadRequest
        | inl id =>
            match entities s !! id with
            | Some e => json_answer (json_Marshal e) resp
            | None => resp = http_Error "could not find item" StatusNotFound
            end
        end).
Proof.
  intros Hok He Hes Hp. destruct (decide (Method r = MethodGet)) as [Hm|Hm].
  - case_bool_decide as Hf.
    { destruct (QueryHandler_all r s Hm Hf Hok Hes) as (es & resp & s' & Hr & Hperm & Hj & Hok' & He').
      exists resp, s'. split_and!; try done. intros _. by exists es. }
    destruct (uuid_Parse _) as [id|err] eqn:Hid.
    + destruct (entities s !! id) as [e|] eqn:Hid'.
      * destruct (QueryHandler_one r id e s Hm Hf Hid Hok Hid' (He e)) as (resp & s' & Hr & Hj & Hok' & He').
        exists resp, s'. by split_and!.
      * destruct (QueryHandler_missing r id s Hm Hf Hid Hok Hid') as (s' & Hr & Hok' & He').
        eexists _, s'. by split_and!.
    + destruct (printable_text uuid_String foreign err (Hp _ _ Hid)) as (t & Ht).
      exists (http_Error ("could not parse ID: " +:+ t) StatusBadRequest), s. split; [|by split_and!].
      unfold QueryHandler.
      rewrite Hm, bool_decide_false by (intros []; done). rewrite bool_decide_false, Hid by done.
      unfold fail_with, err_Error. rewrite Ht. reflexivity.
  - exists (http_Error ("unsupported method: " +:+ Method r) StatusMethodNotAllowed), s.
    split; [unfold QueryHandler; by rewrite bool_decide_true|]. by split_and!.
Qed.

End Queries.
End Handlers.

(** ** The event bus over websockets *)

Module Websocket.

(** A connection: the queue of its channel, whether its goroutine still reads
    it, and what it has written. *)
Record conn : Type := mkConn {
  queue : list (option event);
  reading : bool;
  written : list string
}.

Record EventBusHandler : Type := mkEventBusHandler { chs : list conn }.

Definition NewEventBusHandler : EventBusHandler := mkEventBusHandler [].

Definition HandlerType : string := "websocket".

(** The channels have room for ten events; a full one misses the event. *)
Definition offer (ev : option event) (c : conn) : conn :=
  if len (queue c) <? 10 then mkConn (queue c ++ [ev]) (reading c) (written c) else c.

Definition HandleEvent (ctx : context) (ev : option event) : M EventBusHandler unit :=
  modify (fun h => mkEventBusHandler (offer ev <$> chs h)).

Definition websocket_EventHandler : EventHandler EventBusHandler := mkHandler HandlerType HandleEvent false None.

(** [ServeHTTP] up to its loop; [upgrade] is what the upgrader returns, which
    has answered the request when it fails. *)
Definition ServeHTTP (upgrade : Request -> option Response) : Handler EventBusHandler := fun r =>
  match upgrade r with
  | Some resp => ret resp
  | None =>
      do! modify (fun h => mkEventBusHandler (chs h ++ [mkConn [] true []])) in
      ret (header_only StatusSwitchingProtocols)
  end.

Section Steps.
(** [h.codec.MarshalEvent]; a nil event panics, which ends the goroutine. *)
Context (MarshalEvent : event -> string + error).

(** One turn of a connection's loop; [write_ok]: the peer takes the message.
    It breaks out of the loop on an error, and the channel stays. *)
Definition turn (write_ok : bool) (c : conn) : option conn :=
  match reading c, queue c with
  | true, ev :: q =>
      match ev with
      | Some e =>
          match MarshalEvent e with
          | inl data =>
              Some (if write_ok then mkConn q true (written c ++ [data]) else mkConn q false (written c))
          | inr _ => Some (mkConn q false (written c))
          end
      | None => Some (mkConn q false (written c))
      end
  | _, _ => None
  end.

Inductive label : Type :=
| Publish (e : event)
| Connect
| Turn (i : nat) (write_ok : bool).

Definition step (l : label) (h : EventBusHandler) : option EventBusHandler :=
  match l with
  | Publish e => Some (HandleEvent Background (Some e) h).2
  | Connect => Some (mkEventBusHandler (chs h ++ [mkConn [] true []]))
  | Turn i ok => c ← chs h !! i; c' ← turn ok c; Some (mkEventBusHandler (<[i := c']> (chs h)))
  end.

Fixpoint steps (ls : list label) (h : EventBusHandler) : option EventBusHandler :=
  match ls with
  | [] => Some h
  | l :: ls => h' ← step l h; steps ls h'
  end.

(** ** What a connection is sent *)

(** The events published since each connection was made. *)
Fixpoint published (ls : list label) (pubs : list (list event)) : list (list event) :=
  match ls with
  | [] => pubs
  | Publish e :: ls => published ls ((fun p => p ++ [e]) <$> pubs)
  | Connect :: ls => published ls (pubs ++ [[]])
  | Turn _ _ :: ls => published ls pubs
  end.

(** The connection took some of the events, in order: those it wrote, the one
    it broke off at, and those that wait. *)
Record follows (pub : list event) (c : conn) : Prop := mkFollows {
  f_sent : list event;
  f_lost : list event;
  f_waiting : list event;
  f_queue : queue c = somes f_waiting;
  f_room : len f_waiting <= 10;
  f_written : Forall2 (fun e t => MarshalEvent e = inl t) f_sent (written c);
  f_order : f_sent ++ f_lost ++ f_waiting `sublist_of` pub;
  f_reading : reading c = true -> f_lost = [];
  f_all : len pub <= 10 -> f_sent ++ f_lost ++ f_waiting = pub
}.

Lemma follows_new : follows [] (mkConn [] true []).
Proof. by eapply (mkFollows [] _ [] [] []). Qed.

Lemma follows_offer pub e c : follows pub c -> follows (pub ++ [e]) (offer (Some e) c).
Proof.
  intros [sent lost waiting Hq Hr Hw Ho Hl Ha]. unfold offer. rewrite Hq.
  destruct (Z.ltb_spec (len (somes waiting)) 10) as [Hlt|Hge].
  - eapply (mkFollows _ _ sent lost (waiting ++ [e])); simpl; try done.
    + by rewrite somes_app.
    + autorewrite with len in *. lia.
    + rewrite !app_assoc in *. by apply sublist_app.
    + intros Hp. rewrite <- Ha by (autorewrite with len in Hp; lia). by rewrite !app_assoc.
  - eapply (mkFollows _ _ sent lost waiting); try done.
    + by apply sublist_inserts_r.
    + intros Hp. autorewrite with len in *. pose proof (Ha ltac:(lia)) as Hpub.
      apply (f_equal len) in Hpub. int_lia.
Qed.

Lemma follows_turn pub ok c c' : follows pub c -> turn ok c = Some c' -> follows pub c'.
Proof.
  intros [sent lost waiting Hq Hr Hw Ho Hl Ha] Ht. unfold turn in Ht.
  destruct (reading c) eqn:Hrd; [|done]. rewrite (Hl eq_refl) in *. simpl in *. rewrite Hq in Ht.
  destruct waiting as [|e w]; [done|]. simpl in Ht.
  assert (len w <= 10) by (rewrite len_cons in Hr; lia).
  assert (sent ++ e :: w = (sent ++ [e]) ++ w) as Happ by apply app_cons_snoc.
  destruct (MarshalEvent e) as [data|err] eqn:Hm; [destruct ok|]; injection Ht as <-.
  - eapply (mkFollows _ _ (sent ++ [e]) [] w); simpl; try done; [|by rewrite <- Happ..].
    apply Forall2_app; [done|]. by repeat constructor.
  - by eapply (mkFollows _ _ sent [e] w).
  - by eapply (mkFollows _ _ sent [e] w).
Qed.

Lemma step_follows l h h' pubs :
  Forall2 follows pubs (chs h) -> step l h = Some h' -> Forall2 follows (published [l] pubs) (chs h').
Proof.
  intros HF Hs. destruct l as [e| |i ok]; simpl in *.
  - injection Hs as <-. simpl. apply Forall2_fmap_l, Forall2_fmap_r.
    eapply Forall2_impl; [exact HF|]. intros. by apply follows_offer.
  - injection Hs as <-. simpl. apply Forall2_app; [done|]. constructor; [apply follows_new|constructor].
  - apply bind_Some in Hs as (c & Hc & Hs). apply bind_Some in Hs as (c' & Ht & [= <-]). simpl.
    destruct (Forall2_lookup_r _ _ _ _ _ HF Hc) as (pub & Hp & Hf).
    rewrite <- (list_insert_id pubs i pub) by done. apply Forall2_insert; [done|]. by eapply follows_turn.
Qed.

Lemma steps_follow ls h h' pubs :
  Forall2 follows pubs (chs h) -> steps ls h = Some h' -> Forall2 follows (published ls pubs) (chs h').
Proof.
  revert h pubs. induction ls as [|l ls IH]; intros h pubs HF Hs; simpl in Hs; [by simplify_eq|].
  apply bind_Some in Hs as (h1 & Hl & Hs). pose proof (step_follows l h h1 pubs HF Hl) as H1.
  pose proof (IH h1 _ H1 Hs) as H2. by destruct l.
Qed.

(** observers over websockets see the events in order.  Whatever the order
    in which events are published, connections made and queues read, every
    connection has written, in order and each once, texts of events published
    since it was made, with at most ten waiting; as long as no more than ten
    were published, none was missed.  Every connection ever made keeps its
    channel. *)
Theorem websocket_in_order ls h :
  steps ls NewEventBusHandler = Some h -> Forall2 follows (published ls []) (chs h).
Proof. apply steps_follow. constructor. Qed.

(** a connection that has ended is never let go: nothing is written to it any
    more, and its channel goes on taking events until it is full *)
Lemma ended_connection_stays ls h h' i c :
  steps ls h = Some h' -> chs h !! i = Some c -> reading c = false ->
  exists c', chs h' !! i = Some c' /\ reading c' = false /\ written c' = written c /\
    len (queue c) <= len (queue c').
Proof.
  revert h c. induction ls as [|l ls IH]; intros h c Hs Hc Hr; simpl in Hs.
  { simplify_eq. exists c. split_and!; [done..|lia]. }
  apply bind_Some in Hs as (h1 & Hl & Hs).
  assert (exists c1, chs h1 !! i = Some c1 /\ reading c1 = false /\ written c1 = written c /\
    len (queue c) <= len (queue c1)) as (c1 & Hc1 & Hr1 & Hw1 & Hq1).
  { destruct l as [e| |j ok]; simpl in Hl.
    - simplify_eq. simpl. rewrite list_lookup_fmap, Hc. exists (offer (Some e) c). split; [done|].
      unfold offer. case_match; simpl; [|by split_and!]. split_and!; [done..|]. autorewrite with len. lia.
    - simplify_eq. simpl. exists c. rewrite lookup_app_l by (by eapply lookup_lt_Some). by split_and!.
    - apply bind_Some in Hl as (c0 & Hc0 & Hl). apply bind_Some in Hl as (c0' & Ht & [= <-]).
      assert (i <> j) as Hne.
      { intros ->. simplify_eq. unfold turn in Ht. by rewrite Hr in Ht. }
      exists c. simpl. rewrite list_lookup_insert_ne by done. by split_and!. }
  destruct (IH h1 c1 Hs Hc1 Hr1) as (c' & ? & ? & Hw & ?). exists c'. split_and!; [done..|congruence|lia].
Qed.

End Steps.
End Websocket.
End Http.
