(* ===== verification/Testing.v ===== *)
(** * Tests ([testing.T] as the shared test suites use it)

    A test runs the operations of what it tests and inspects the errors they
    return; [t.Error] notes a failure and goes on, [t.Fatal] ends the test.  A
    test passes when it ends with no failure noted. *)

From stdpp Require Import base gmap strings list numbers option pretty.
From Stdlib Require Import Lia ZArith.
From S2P Require Import Prelude.
From S2P Require Import GoTypes.
From S2P Require Import Errors.

(** The end of a test by [t.Fatal]. *)
Inductive fatal : Type := FailNow.

(** The failures noted so far are kept beside the state. *)
Abbreviation test S := (prog fatal (S * list string)).

Section Test.
Context {S : Type}.

(** Calling an operation of what is tested: its error is a value. *)
Definition call {A} (m : M S A) : test S (A + error) := fun st =>
  match m st.1 with
  | (Ok a, s') => (Ok (inl a), (s', st.2))
  | (Err e, s') => (Ok (inr e), (s', st.2))
  | (Panic p, s') => (Panic p, (s', st.2))
  end.

Definition t_Error (msg : string) : test S unit := modify (fun st => (st.1, st.2 ++ [msg])).

Definition t_Fatal (msg : string) : test S unit := do! t_Error msg in throw FailNow.

(** [if !b { t.Error(msg) }] *)
Definition expect (b : bool) (msg : string) : test S unit := if b then ret tt else t_Error msg.

Definition require (b : bool) (msg : string) : test S unit := if b then ret tt else t_Fatal msg.

End Test.

(** The time the tests use: [time.Date(2009, time.November, 10, 23, 0, 0, 0, time.UTC)] *)
Definition date : Time := 63393490800 * Second.

(** What a call returned: its value, nil with an error, and its error. *)
Definition value {A} (r : A + error) : option A := match r with inl a => Some a | inr _ => None end.

Definition no_error {A} (r : A + error) : bool := match r with inl _ => true | inr _ => false end.

Definition is_error {A} (r : A + error) (target : sentinel) : bool :=
  match r with inl _ => false | inr e => errors_Is e target end.

(** [errors.As(err, &e)] for the type that [as_T] recognises. *)
Definition as_error {A T} (r : A + error) (as_T : error -> option T) : option T :=
  match r with inl _ => None | inr e => errors_As as_T e end.

Definition is_as {A T} (r : A + error) (as_T : error -> option T) : bool :=
  match as_error r as_T with Some _ => true | None => false end.

(** The test ends with no failure noted, in a state with [Q]. *)
Definition passes {S A} (m : test S A) (s : S) (Q : A -> S -> Prop) : Prop :=
  exists a s', m (s, []) = (Ok a, (s', [])) /\ Q a s'.

Section Rules.
Context {S : Type}.

Lemma passes_ret {A} (a : A) (s : S) Q : Q a s -> passes (ret a) s Q.
Proof. intros HQ. by exists a, s. Qed.

(** A step whose run is known. *)
Lemma passes_step {A B} (m : test S A) (k : A -> test S B) s a s' Q :
  m (s, []) = (Ok a, (s', [])) -> passes (k a) s' Q -> passes (bind m k) s Q.
Proof. intros Hm (b & s2 & Hk & HQ). exists b, s2. by rewrite (bind_ok _ _ _ _ _ Hm). Qed.

Lemma passes_call {A B} (m : M S A) (k : A + error -> test S B) s o s' Q :
  m s = (o, s') ->
  match o with
  | Ok a => passes (k (inl a)) s' Q
  | Err e => passes (k (inr e)) s' Q
  | Panic _ => False
  end -> passes (bind (call m) k) s Q.
Proof.
  intros Hm Hk. destruct o as [a|e|p]; [| |done]; destruct Hk as (b & s1 & Hk & HQ); exists b, s1;
    (split; [|done]); unfold bind, call; simpl; by rewrite Hm.
Qed.

Lemma passes_expect {B} b msg (k : unit -> test S B) s Q :
  b = true -> passes (k tt) s Q -> passes (bind (expect b msg) k) s Q.
Proof. intros -> (x & s1 & Hk & HQ). exists x, s1. by split. Qed.

Lemma passes_expect_last b msg (s : S) (Q : unit -> S -> Prop) :
  b = true -> Q tt s -> passes (expect b msg) s Q.
Proof. intros -> HQ. by exists tt, s. Qed.

Lemma passes_require {B} b msg (k : unit -> test S B) s Q :
  b = true -> passes (k tt) s Q -> passes (bind (require b msg) k) s Q.
Proof. intros -> (x & s1 & Hk & HQ). exists x, s1. by split. Qed.

Lemma passes_bind {A B} (m : test S A) (k : A -> test S B) s P Q :
  passes m s P -> (forall a s', P a s' -> passes (k a) s' Q) -> passes (bind m k) s Q.
Proof.
  intros (a & s1 & Hm & HP) Hk. destruct (Hk _ _ HP) as (b & s2 & Hb & HQ). exists b, s2.
  split; [|done]. by rewrite (bind_ok _ _ _ _ _ Hm).
Qed.

(** A test on a concrete state, by its run. *)
Lemma passes_run {A} (m : test S A) s (Q : A -> S -> Prop) :
  match m (s, []) with (Ok a, (s', [])) => Q a s' | _ => False end -> passes m s Q.
Proof. destruct (m (s, [])) as [[a| |] [s' [|? ?]]] eqn:Hm; try done. intros HQ. by exists a, s'. Qed.

Lemma passes_weaken {A} (m : test S A) s (P Q : A -> S -> Prop) :
  passes m s P -> (forall a s', P a s' -> Q a s') -> passes m s Q.
Proof. intros (a & s1 & Hm & HP) HPQ. exists a, s1. split; [done|]. by apply HPQ. Qed.

End Rules.

(** A call whose outcome is known, then the expectations that compute. *)
Ltac t_call H := eapply passes_call; [exact H|].

Ltac t_expect :=
  first [apply passes_expect_last|apply passes_expect|apply passes_require].
