(* ===== verification/RepoAcceptance.v ===== *)
(** * The acceptance test of repositories ([repo/acceptance_testing.go])

    The test as a program over any repository of the mock read model, and the
    theorem that every repository with the contract [RepoLaws] that refuses
    what it should ([RepoRefuses]) passes it.  New UUIDs are arguments. *)

From stdpp Require Import base gmap strings list numbers option pretty.
From Stdlib Require Import Lia ZArith.
From S2P Require Import Prelude.
From S2P Require Import GoTypes.
From S2P Require Import Event.
From S2P Require Import Command.
From S2P Require Import Errors.
From S2P Require Import Fixtures.
From S2P Require Import ErrorText.
From S2P Require Import Repo.
From S2P Require Import Wrappers.
From S2P Require Import CacheRepo.
From S2P Require Import Mocks.
From S2P Require Import Testing.
Import ErrorText Mocks.


Module RepoAcceptance.

Definition entity_of (id : UUID) (content : string) : Model := mkModel id 0 content date.

Section Test.
Context {S : Type} (repo : ReadWriteRepo S Model).
Context (uuid_String : UUID -> string) (foreign : sentinel -> string).

Definition same_entity (r : Model + error) (e : Model) : bool := bool_decide (value r = Some e).

(** [repoErr.Err.Error()] of a nil [Err] panics. *)
Definition expect_repo_error {A} (r : A + error) (text : string) : test S unit :=
  match as_error r as_RepoError with
  | None => t_Error "there should be a repo error"
  | Some err =>
      let! e := deref err in
      expect (bool_decide (Error uuid_String foreign e = Some text)) "there should be a repo error"
  end.

(** [AcceptanceTest], in its four parts: an empty repository, one item, two
    items, and their removal. *)
Definition test_empty (ctx : context) (id0 : UUID) : test S unit :=
  (* Find non-existing item. *)
  let! r := call (Find repo ctx id0) in
  do! expect (is_error r ErrEntityNotFound) "there should be a ErrEntityNotFound error" in
  do! expect (bool_decide (value r = None)) "there should be no entity" in
  (* FindAll with no items. *)
  let! all := call (FindAll repo ctx) in
  do! expect (no_error all) "there should be no error" in
  do! expect (len (default [] (value all)) =? 0) "there should be no items" in
  (* Save model without ID. *)
  let! r := call (Save repo ctx (Some (entity_of Nil "entity1"))) in
  expect_repo_error r "missing entity ID".

(** Saving an entity and finding it. *)
Definition save_and_find (ctx : context) (e : Model) : test S unit :=
  let! r := call (Save repo ctx (Some e)) in
  do! expect (no_error r) "there should be no error" in
  let! r := call (Find repo ctx (EntityID e)) in
  do! expect (no_error r) "there should be no error" in
  expect (same_entity r e) "the item should be correct".

Definition test_one (ctx : context) (entity1 : Model) : test S unit :=
  (* Save and find one item. *)
  do! save_and_find ctx entity1 in
  (* FindAll with one item. *)
  let! all := call (FindAll repo ctx) in
  do! expect (no_error all) "there should be no error" in
  do! expect (len (default [] (value all)) =? 1) "there should be one item" in
  expect (bool_decide (value all = Some [entity1])) "the item should be correct".

Definition test_two (ctx : context) (entity1Alt entity2 : Model) : test S unit :=
  (* Save and overwrite with same ID. *)
  do! save_and_find ctx entity1Alt in
  (* Save with another ID. *)
  do! save_and_find ctx entity2 in
  (* FindAll with two items; retrieval in any order is accepted. *)
  let! all := call (FindAll repo ctx) in
  do! expect (no_error all) "there should be no error" in
  do! expect (len (default [] (value all)) =? 2) "there should be two items" in
  expect (bool_decide (value all = Some [entity1Alt; entity2]) ||
          bool_decide (value all = Some [entity2; entity1Alt])) "the items should be correct".

Definition test_remove (ctx : context) (entity1Alt : Model) : test S unit :=
  (* Remove item. *)
  let! r := call (Remove repo ctx (EntityID entity1Alt)) in
  do! expect (no_error r) "there should be no error" in
  let! r := call (Find repo ctx (EntityID entity1Alt)) in
  do! expect (is_error r ErrEntityNotFound) "there should be a ErrEntityNotFound error" in
  do! expect (bool_decide (value r = None)) "there should be no entity" in
  (* Remove non-existing item. *)
  let! r := call (Remove repo ctx (EntityID entity1Alt)) in
  expect (is_error r ErrEntityNotFound) "there should be a ErrEntityNotFound error".

Definition AcceptanceTest (ctx : context) (id0 id1 id2 : UUID) : test S unit :=
  let entity1 := entity_of id1 "entity1" in
  let entity1Alt := entity_of (EntityID entity1) "entity1Alt" in
  let entity2 := entity_of id2 "entity2" in
  do! test_empty ctx id0 in
  do! test_one ctx entity1 in
  do! test_two ctx entity1Alt entity2 in
  test_remove ctx entity1Alt.

(** ** Every repository that keeps the contract passes *)

Context `{!RepoLaws repo} `{!RepoRefuses repo}.

Lemma find_passes {B} ctx s id e (k : Model + error -> test S B) Q :
  repo_ok s -> entities s !! id = Some e ->
  (forall s', repo_ok s' -> entities s' = entities s -> passes (k (inl e)) s' Q) ->
  passes (bind (call (Find repo ctx id)) k) s Q.
Proof.
  intros Hok He Hk. destruct (law_find ctx s id e Hok He) as (s' & Hr & Hok' & He').
  eapply passes_call; [exact Hr|]. by apply Hk.
Qed.

Lemma find_missing_passes {B} ctx s id (k : Model + error -> test S B) Q :
  repo_ok s -> entities s !! id = None ->
  (forall err s', errors_Is err ErrEntityNotFound = true -> repo_ok s' -> entities s' = entities s ->
     passes (k (inr err)) s' Q) ->
  passes (bind (call (Find repo ctx id)) k) s Q.
Proof.
  intros Hok He Hk. destruct (law_find_missing ctx s id Hok He) as (err & s' & Hr & Hnf & _ & Hok' & He').
  eapply passes_call; [exact Hr|]. by apply Hk.
Qed.

Lemma find_all_passes {B} ctx s (k : list Model + error -> test S B) Q :
  repo_ok s ->
  (forall es s', es ≡ₚ (map_to_list (entities s)).*2 -> repo_ok s' -> entities s' = entities s ->
     passes (k (inl es)) s' Q) ->
  passes (bind (call (FindAll repo ctx)) k) s Q.
Proof.
  intros Hok Hk. destruct (law_find_all ctx s Hok) as (es & s' & Hr & Hok' & He' & Hp).
  eapply passes_call; [exact Hr|]. by apply Hk.
Qed.

Lemma save_passes {B} ctx s e (k : unit + error -> test S B) Q :
  repo_ok s -> keepable e -> EntityID e <> Nil ->
  (forall s', repo_ok s' -> entities s' = <[EntityID e := e]> (entities s) -> passes (k (inl tt)) s' Q) ->
  passes (bind (call (Save repo ctx (Some e))) k) s Q.
Proof.
  intros Hok He Hn Hk. destruct (law_save ctx s e Hok He Hn) as (s' & Hr & Hok' & He').
  eapply passes_call; [exact Hr|]. by apply Hk.
Qed.

(** The repository is well formed and holds [m]. *)
Definition has (m : gmap UUID Model) (s : S) : Prop := repo_ok s /\ entities s = m.

Lemma empty_passes ctx id0 s : has ∅ s -> passes (test_empty ctx id0) s (fun _ => has ∅).
Proof.
  intros [Hok He]. unfold test_empty.
  apply find_missing_passes; [done|by rewrite He|]. intros err s1 Hnf Hok1 He1.
  apply passes_expect; [done|]. apply passes_expect; [done|].
  apply find_all_passes; [done|]. intros es s2 Hp Hok2 He2. rewrite He1, He, map_to_list_empty in Hp.
  apply Permutation_nil_r in Hp as ->. apply passes_expect; [done|]. apply passes_expect; [done|].
  destruct (law_save_nil ctx s2 (entity_of Nil "entity1") Hok2 eq_refl) as (err1 & s3 & Hr & Ha & Hok3 & He3).
  eapply passes_call; [exact Hr|]. unfold expect_repo_error. simpl. rewrite Ha.
  apply passes_expect_last; [by apply bool_decide_true|]. split; [done|congruence].
Qed.

Lemma save_and_find_passes ctx e m s :
  has m s -> keepable e -> EntityID e <> Nil ->
  passes (save_and_find ctx e) s (fun _ => has (<[EntityID e := e]> m)).
Proof.
  intros [Hok He] Hk Hn. unfold save_and_find.
  apply save_passes; [done..|]. intros s1 Hok1 He1. apply passes_expect; [done|].
  apply (find_passes ctx s1 _ e); [done|rewrite He1; apply lookup_insert_eq|]. intros s2 Hok2 He2.
  apply passes_expect; [done|]. apply passes_expect_last; [by apply bool_decide_true|].
  split; [done|congruence].
Qed.

Lemma one_passes ctx e s :
  has ∅ s -> keepable e -> EntityID e <> Nil ->
  passes (test_one ctx e) s (fun _ => has {[ EntityID e := e ]}).
Proof.
  intros Hs Hk Hn. unfold test_one. eapply passes_bind; [by apply save_and_find_passes|].
  intros [] s1 [Hok1 He1]. rewrite insert_empty in He1.
  apply find_all_passes; [done|]. intros es s2 Hp Hok2 He2. rewrite He1 in Hp, He2.
  rewrite map_to_list_singleton in Hp. apply Permutation_singleton_r in Hp as ->.
  apply passes_expect; [done|]. apply passes_expect; [done|].
  apply passes_expect_last; [by apply bool_decide_true|done].
Qed.

Lemma two_passes ctx e1 e1' e2 s :
  has {[ EntityID e1 := e1 ]} s -> EntityID e1 = EntityID e1' -> EntityID e1' <> EntityID e2 ->
  keepable e1' -> EntityID e1' <> Nil -> keepable e2 -> EntityID e2 <> Nil ->
  passes (test_two ctx e1' e2) s (fun _ => has {[ EntityID e1' := e1'; EntityID e2 := e2 ]}).
Proof.
  intros Hs Hid Hne Hk1 Hn1 Hk2 Hn2. rewrite Hid in Hs. unfold test_two.
  eapply passes_bind; [by apply save_and_find_passes|]. intros [] s1 Hs1. rewrite insert_singleton_eq in Hs1.
  eapply passes_bind; [by apply save_and_find_passes|]. intros [] s2 [Hok2 He2].
  rewrite insert_singleton_commute in He2 || rewrite insert_insert_ne in He2 || idtac.
  apply find_all_passes; [done|]. intros es s3 Hp Hok3 He3. rewrite He2 in Hp.
  rewrite map_to_list_insert, map_to_list_singleton in Hp by (by rewrite lookup_singleton_ne).
  apply passes_expect; [done|]. apply passes_expect; [unfold len; simpl; by rewrite Hp|].
  apply passes_expect_last.
  { apply orb_true_iff. symmetry in Hp. simpl in Hp.
    apply Permutation_length_2_inv in Hp as [-> | ->]; simpl; rewrite !bool_decide_eq_true; auto. }
  split; [done|]. rewrite He3, He2. by apply insert_insert_ne.
Qed.

Lemma remove_passes ctx e1 e2 s :
  has {[ EntityID e1 := e1; EntityID e2 := e2 ]} s -> EntityID e1 <> EntityID e2 ->
  passes (test_remove ctx e1) s (fun _ => has {[ EntityID e2 := e2 ]}).
Proof.
  intros [Hok He] Hne. unfold test_remove.
  destruct (law_remove ctx s (EntityID e1) e1 Hok) as (s1 & Hr1 & Hok1 & He1); [by rewrite He, lookup_insert_eq|].
  eapply passes_call; [exact Hr1|]. apply passes_expect; [done|].
  rewrite He, delete_insert_id in He1 by (by rewrite lookup_singleton_ne).
  apply find_missing_passes; [done|by rewrite He1, lookup_singleton_ne|].
  intros err2 s2 Hnf2 Hok2 He2. apply passes_expect; [done|]. apply passes_expect; [done|].
  destruct (law_remove_missing ctx s2 (EntityID e1) Hok2) as (err3 & s3 & Hr3 & Hnf3 & Hok3 & He3).
  { by rewrite He2, He1, lookup_singleton_ne. }
  eapply passes_call; [exact Hr3|]. apply passes_expect_last; [done|]. split; [done|congruence].
Qed.

(** acceptance of repositories.  Every repository with the contract that
    refuses what it should passes the shared acceptance test, when it is empty,
    can keep the test's entities and the test's new IDs are new; it is left
    with the second entity only. *)
Theorem repo_acceptance_passes ctx id0 id1 id2 s :
  repo_ok s -> entities s = ∅ -> id1 <> Nil -> id2 <> Nil -> id1 <> id2 ->
  Forall keepable [entity_of id1 "entity1"; entity_of id1 "entity1Alt"; entity_of id2 "entity2"] ->
  passes (AcceptanceTest ctx id0 id1 id2) s
    (fun _ s' => repo_ok s' /\ entities s' = {[ id2 := entity_of id2 "entity2" ]}).
Proof.
  intros Hok He Hn1 Hn2 Hne Hk. inversion_clear Hk as [|? ? Hk1 Hk']. inversion_clear Hk' as [|? ? Hk1' Hk''].
  inversion_clear Hk'' as [|? ? Hk2 _]. unfold AcceptanceTest.
  eapply passes_bind; [by apply empty_passes|]. intros [] s1 Hs1.
  eapply passes_bind; [by apply one_passes|]. intros [] s2 Hs2.
  eapply passes_bind; [by eapply two_passes|]. intros [] s3 Hs3. by eapply remove_passes.
Qed.

End Test.

(** ** The in-memory repository, with and without the cache, passes *)

(** A text of models with its parser, for [encoding/json]. *)
#[local] Instance Model_countable : Countable Model.
Proof.
  refine (inj_countable' (fun m => (m_ID m, m_Version m, m_Content m, m_CreatedAt m))
            (fun '(i, v, c, t) => mkModel i v c t) _). by intros [].
Defined.

Definition model_Marshal (m : Model) : list Byte.byte + error := inl (to_bytes m).

Definition model_Unmarshal (b : list Byte.byte) (m : Model) : Model + error :=
  match of_bytes b with
  | Some m => inl m
  | None => inr (ErrorString "invalid character")
  end.

Definition zero_model : Model := mkModel Nil 0 "" 0.

Lemma model_keepable m : MemRepo.json_roundtrips model_Marshal model_Unmarshal zero_model m.
Proof.
  exists (to_bytes m). split; [done|]. unfold model_Unmarshal. by rewrite of_to_bytes.
Qed.

#[local] Instance model_laws : RepoLaws (MemRepo.memory_Repo model_Marshal model_Unmarshal) :=
  MemRepo.memory_RepoLaws model_Marshal model_Unmarshal zero_model.

#[local] Instance model_refuses : RepoRefuses (MemRepo.memory_Repo model_Marshal model_Unmarshal) :=
  MemRepo.memory_RepoRefuses model_Marshal model_Unmarshal zero_model.

Definition new_model_repo : MemRepo.Repo :=
  MemRepo.SetEntityFactory (Some (fun _ => zero_model)) MemRepo.NewRepo.

Abbreviation cached := (cache_Repo (MemRepo.memory_Repo model_Marshal model_Unmarshal)).

Lemma repo_acceptance_passes_witness :
  passes (AcceptanceTest cached uuid_print (fun _ => "") bg id3 id1 id2) (new_model_repo, ∅)
    (fun _ st => repo_ok (repo := cached) st /\
       entities (repo := cached) st = {[ id2 := entity_of id2 "entity2" ]}).
Proof.
  apply (repo_acceptance_passes cached uuid_print (fun _ => "") bg id3 id1 id2 (new_model_repo, ∅));
    try (intros Hid; by apply (f_equal uuid_bits) in Hid).
  - split; [|done]. split; [split; [constructor|]|split; [by eexists|apply map_Forall_empty]].
    intros id. split; [by intros ?%not_elem_of_nil|by intros []].
  - done.
  - repeat constructor; apply model_keepable.
Defined.

End RepoAcceptance.
