(* ===== verification/EventStoreAcceptance.v ===== *)
(** * The acceptance tests of event stores ([eventstore/acceptance_testing.go],
      [eventstore/maintenance_testing.go])

    [AcceptanceTest] as a program over any event store, and the theorem that
    every store with the contract [EventStoreLaws] that refuses malformed
    batches ([EventStoreRefuses]) and keeps the details of events
    ([KeepsDetails]) passes it.  New UUIDs and the metadata map that the test
    makes are arguments. *)

From stdpp Require Import functions base gmap strings list numbers option pretty.
From Stdlib Require Import Lia ZArith.
From S2P Require Import Prelude.
From S2P Require Import GoTypes.
From S2P Require Import Event.
From S2P Require Import Command.
From S2P Require Import Errors.
From S2P Require Import Fixtures.
From S2P Require Import EventStoreSpec.
From S2P Require Import Match.
From S2P Require Import Context.
From S2P Require Import Mocks.
From S2P Require Import Testing.
Import Mocks.

Module EventStoreAcceptance.

(** [eh.NewEvent(et, d, timestamp, eh.ForAggregate(at, id, v))], with the
    option [eh.WithMetadata(md)] if there is a map. *)
Definition new_event (et : string) (d : any) (at' : string) (id : UUID) (v : Z) (md : option loc) : event :=
  (NewEvent et d date
     (Some (ForAggregate at' id v) :: match md with Some l => [Some (WithMetadata (Some l))] | None => [] end) ∅).2.

Definition mock_event (content : string) (id : UUID) (v : Z) : event :=
  new_event EventType (EventData content) AggregateType id v None.

Definition other_event (id : UUID) (v : Z) : event := new_event EventOtherType ANil AggregateType id v None.

(** The map of the second event: [{"meta": "data", "num": 42.0}]. *)
Definition event2_metadata : gomap := {["meta" := AString "data"; "num" := AFloat64 (SpecFloat.S754_finite false 5910974510923776 (-47))]}.

Definition testkey : ctx_key := otherKey 1.

Section Test.
Context {S : Type} (store : EventStoreSpec.EventStore S) (heap_of : S -> heap).
Context (fmt_time : Time -> string) (uuid_String : UUID -> string) (fmt_any : any -> string) (fmt_map : gomap -> string).

Definition expect_store_error {A} (r : A + error) (target : sentinel) : test S unit :=
  expect (is_as r as_EventStoreError && is_error r target) "there should be a event store error".

Definition expect_saved {A} (r : A + error) : test S unit := expect (no_error r) "there should be no error".

(** A save that must succeed, and one that must fail. *)
Definition save (ctx : context) (evs : list event) (v : Z) : test S unit :=
  let! r := call (es_Save store ctx (somes evs) v) in
  expect_saved r.

Definition save_refused (ctx : context) (evs : list event) (v : Z) (err : sentinel) : test S unit :=
  let! r := call (es_Save store ctx (somes evs) v) in
  expect_store_error r err.

(** [CompareEvents] with the test's options on a loaded event; comparing a nil
    event panics. *)
Definition compare_loaded (ev : option event) (expected : event) (opts : list (option CompareOption)) : test S unit :=
  let! e := deref ev in
  let! h := gets (fun st => heap_of st.1) in
  expect (bool_decide (CompareEvents fmt_time uuid_String fmt_any fmt_map h e expected opts = None))
    "the event was incorrect".

(** The loop over loaded events; [expectedEvents[i]] panics beyond its end. *)
Fixpoint check_events (i : Z) (events : list (option event)) (expected : list event) : test S unit :=
  match events, expected with
  | [], _ => ret tt
  | ev :: events', x :: expected' =>
      do! compare_loaded ev x [Some IgnoreVersion; Some IgnorePositionMetadata] in
      let! e := deref ev in
      do! expect (version e =? i + 1) "the event version should be correct" in
      check_events (i + 1) events' expected'
  | _ :: _, [] => panic "index out of range"
  end.

Definition load_and_check (ctx : context) (id : UUID) (expected : list event) : test S unit :=
  let! r := call (es_Load store ctx id) in
  do! expect_saved r in
  let events := default [] (value r) in
  do! expect (len events =? len expected) "incorrect number of loaded events" in
  check_events 0 events expected.

(** The first event, and what a store refuses. *)
Definition test_first (ctx : context) (event1 : event) : test S unit :=
  (* Save no events. *)
  do! save_refused ctx [] 0 ErrMissingEvents in
  (* Save event, version 1. *)
  do! save ctx [event1] 0 in
  (* Try to save same event twice. *)
  save_refused ctx [event1] 1 ErrIncorrectEventVersion.

(** The versions 2 to 6. *)
Definition test_more (ctx : context) (event2 event3 : event) (events456 : list event) : test S unit :=
  do! save ctx [event2] 1 in
  do! save ctx [event3] 2 in
  save ctx events456 3.

Definition test_mismatched (ctx : context) (same otherID otherType : event) : test S unit :=
  (* Save event for different aggregate IDs. *)
  do! save_refused ctx [same; otherID] 6 ErrMismatchedEventAggregateIDs in
  (* Save event of different aggregate types. *)
  save_refused ctx [same; otherType] 6 ErrMismatchedEventAggregateTypes.

Definition test_missing (ctx : context) (id0 : UUID) : test S unit :=
  let! r := call (es_Load store ctx id0) in
  do! expect (is_as r as_EventStoreError && is_error r ErrAggregateNotFound) "there should be a not found error" in
  expect (len (default [] (value r)) =? 0) "there should be no loaded events".

Definition AcceptanceTest (ctx : context) (id idOther id2 id0 : UUID) (metadata2 : loc) : test S (list event) :=
  let ctx := WithValue ctx testkey (AString "testval") in
  let event1 := mock_event "event1" id 1 in
  let event2 := new_event EventType (EventData "event2") AggregateType id 2 (Some metadata2) in
  let event3 := other_event id 3 in
  let events456 := [other_event id 4; other_event id 5; other_event id 6] in
  do! test_first ctx event1 in
  do! test_more ctx event2 event3 events456 in
  do! test_mismatched ctx (other_event id 7) (other_event idOther 8)
        (new_event EventOtherType ANil "OtherAggregate" id 8 None) in
  (* Save event for another aggregate. *)
  let event7 := mock_event "event7" id2 1 in
  do! save ctx [event7] 0 in
  do! test_missing ctx id0 in
  do! load_and_check ctx id ([event1; event2; event3] ++ events456) in
  do! load_and_check ctx id2 [event7] in
  ret ([event1; event2; event3] ++ events456 ++ [event7]).

(** ** Every store that keeps the contract passes *)

Context `{!EventStoreLaws store} `{!EventStoreRefuses store} `{Hdetails : !KeepsDetails store heap_of}.
Context (ids : list UUID) (metadata2 : loc).

(** The test's events carry no metadata map but [metadata2]. *)
Definition mine (e : event) : Prop := metadata e = None \/ metadata e = Some metadata2.

Definition expected_detail (e : event) : Time * gomap :=
  (timestamp e, match metadata e with Some _ => event2_metadata | None => ∅ end).

Lemma detail_expected h e : h !! metadata2 = Some event2_metadata -> mine e -> detail h e = expected_detail e.
Proof.
  intros Hh [Hm|Hm]; unfold detail, expected_detail; rewrite Hm; simpl; [by rewrite delete_empty|].
  rewrite Hh. simpl. by rewrite delete_id.
Qed.

(** Data that [reflect.DeepEqual] takes for themselves. *)
Definition comparable (e : event) : Prop := DeepEqual (data e) (data e) = true.

Lemma compare_same h x e :
  same_event x e -> detail h e = expected_detail x -> h !! metadata2 = Some event2_metadata -> mine x ->
  comparable x ->
  CompareEvents fmt_time uuid_String fmt_any fmt_map h e x [Some IgnoreVersion; Some IgnorePositionMetadata] = None.
Proof.
  intros (Het & Hd & Hat & Hid & Hv) Hdet Hh Hx Hc. apply CompareEvents_agree.
  assert (detail h x = expected_detail x) as Hdx by (by apply detail_expected).
  unfold agree. simpl. rewrite Het, Hd, Hat, Hid. split_and!; try done.
  - intros _. rewrite <- Hdx in Hdet. by injection Hdet.
  - unfold equal_metadata, compared_map. simpl. apply (f_equal snd) in Hdet, Hdx. simpl in Hdet, Hdx.
    rewrite Hdet, Hdx. by destruct (metadata x).
Qed.

(** Of the streams of [ids], the store holds the events [M], and has room. *)
Record holding (M : UUID -> list event) (room : Z) (s : S) : Prop := mkHolding {
  h_ok : store_ok s;
  h_streams id : id ∈ ids -> Forall2 same_event (M id) (stream s id);
  h_details id : id ∈ ids -> details s id = expected_detail <$> M id;
  h_map : heap_of s !! metadata2 = Some event2_metadata;
  h_room : holds s room
}.

Lemma holding_len M room s id : holding M room s -> id ∈ ids -> len (stream s id) = len (M id).
Proof. intros Hs Hid. unfold len. by rewrite (Forall2_length _ _ _ (h_streams _ _ _ Hs id Hid)). Qed.

Lemma unchanged_holding n M room s s' : holding M (n + room) s -> unchanged n s s' -> holding M room s'.
Proof.
  intros [Hok Hst Hd Hm Hr] Hu. destruct (law_unchanged n s s' Hok Hu) as (Hok' & Hs & Hh). split; [done| | | |by apply Hh].
  - intros id Hid. rewrite Hs. by apply Hst.
  - intros id Hid. destruct (law_details_unchanged n s s' id Hok Hu) as [_ ->]. by apply Hd.
  - destruct (law_details_unchanged n s s' Nil Hok Hu) as [Hsub _]. by eapply lookup_weaken.
Qed.

Lemma same_event_trans e1 e2 e3 : same_event e1 e2 -> same_event e2 e3 -> same_event e1 e3.
Proof. unfold same_event. intuition congruence. Qed.

Lemma store_save_passes ctx id evs v M room s :
  holding M (len evs + room) s -> id ∈ ids -> v = len (M id) -> batch_for id v evs -> Forall storable evs ->
  Forall mine evs -> 0 <= room ->
  passes (save ctx evs v) s (fun _ => holding (<[id := M id ++ evs]> M) room).
Proof.
  intros Hs Hid -> Hb Hst Hmine Hroom. pose proof Hs as [Hok Hstr Hd Hm Hr].
  assert (holds s (len evs)) as Hr' by (by eapply law_holds_le).
  rewrite <- (holding_len _ _ _ _ Hs Hid) in Hb |- *.
  destruct (law_save ctx s id evs Hok Hb Hst Hr') as (s' & evs' & Hrun & Hok' & Hs' & HF & Hoth & Hh).
  destruct (law_details_save ctx s id evs s' Hok Hb Hst Hr' Hrun) as (Hsub & Hd' & Hdo).
  eapply passes_call; [exact Hrun|]. apply passes_expect_last; [done|].
  split; [done| | |by eapply lookup_weaken|by apply Hh].
  - intros id' Hid'. destruct (decide (id' = id)) as [->|Hne].
    + rewrite fn_lookup_insert, Hs'. apply Forall2_app; [by apply Hstr|].
      eapply Forall2_impl; [exact HF|]. intros. by apply law_kept.
    + rewrite fn_lookup_insert_ne, Hoth by done. by apply Hstr.
  - intros id' Hid'. destruct (decide (id' = id)) as [->|Hne].
    + rewrite fn_lookup_insert, Hd', fmap_app, Hd by done. f_equal. apply list_fmap_ext.
      intros i e He. apply detail_expected; [done|]. by eapply Forall_lookup_1 in He.
    + rewrite fn_lookup_insert_ne, Hdo by done. by apply Hd.
Qed.

Lemma refuse_passes ctx evs v err M room s :
  holding M (len evs + room) s -> Forall storable evs -> 0 <= room -> batch_error v evs = Some err ->
  passes (save_refused ctx evs v err) s (fun _ => holding M room).
Proof.
  intros Hs Hst Hroom Hb. pose proof Hs as [Hok _ _ _ Hr].
  destruct (law_refuse ctx s v evs err Hok Hst) as (e & s' & Hrun & Hu & [t Ht] & He); [by eapply law_holds_le|done|].
  eapply passes_call; [exact Hrun|]. apply passes_expect_last; [unfold is_as, as_error; by rewrite Ht|].
  by eapply unchanged_holding.
Qed.

Lemma check_passes i evs expected (s : S) (Q : unit -> S -> Prop) :
  Forall2 same_event expected evs -> detail (heap_of s) <$> evs = expected_detail <$> expected ->
  heap_of s !! metadata2 = Some event2_metadata -> Forall mine expected -> Forall comparable expected ->
  (forall k e, expected !! k = Some e -> version e = i + Z.of_nat k + 1) -> Q tt s ->
  passes (check_events i (somes evs) expected) s Q.
Proof.
  intros HF Hd Hh Hm Hc Hv HQ. revert i Hd Hm Hc Hv. induction HF as [|x e expected evs Hxe _ IH]; intros i Hd Hm Hc Hv.
  { by apply passes_ret. }
  pose proof (f_equal (fun l => default (0, ∅) (head l)) Hd) as Hde. apply (f_equal tail) in Hd. simpl in Hde, Hd.
  inversion_clear Hm as [|? ? Hmx Hm']. inversion_clear Hc as [|? ? Hcx Hc'].
  simpl. eapply (passes_bind _ _ _ (fun _ s' => s' = s)).
  { unfold compare_loaded. exists tt, s. split; [|done].
    rewrite (bind_ok _ _ (s, []) (s, []) e), (bind_ok _ _ (s, []) (s, []) (heap_of s)) by done.
    unfold expect. rewrite bool_decide_true; [done|]. apply compare_same; try done. }
  intros [] s' ->. eapply (passes_bind _ _ _ (fun a s' => a = e /\ s' = s)); [by exists e, s|].
  intros a s' [-> ->]. apply passes_expect.
  - destruct Hxe as (_ & _ & _ & _ & ->). pose proof (Hv 0%nat x eq_refl). lia.
  - apply IH; try done. intros k y Hy. rewrite (Hv (Datatypes.S k) y Hy). lia.
Qed.

Lemma load_passes ctx id M room s :
  holding M room s -> id ∈ ids -> M id <> [] -> serial id 0 (M id) -> Forall mine (M id) -> Forall comparable (M id) ->
  passes (load_and_check ctx id (M id)) s (fun _ => holding M room).
Proof.
  intros Hs Hid Hne Hser Hm Hc. pose proof Hs as [Hok Hstr Hd Hh Hr]. pose proof (Hstr id Hid) as HF.
  assert (stream s id <> []) as Hne' by (intros Hnil; rewrite Hnil in HF; by inversion HF; destruct (M id)).
  destruct (law_load ctx s id (es_Load store ctx id)) as (evs & s' & Hrun & Hu & HK); [by left|done..|].
  assert (holding M room s') as Hs' by (by eapply (unchanged_holding 0)).
  assert (Forall2 same_event (M id) evs) as HF'.
  { eapply Forall2_trans; [apply same_event_trans|exact HF|]. eapply Forall2_impl; [exact HK|apply law_kept]. }
  unfold load_and_check. eapply passes_call; [exact Hrun|]. simpl. apply passes_expect; [done|].
  apply passes_expect.
  { apply Z.eqb_eq. rewrite len_somes. unfold len. by rewrite (Forall2_length _ _ _ HF'). }
  apply check_passes; try done; [|apply Hs'|].
  - rewrite (law_details_load ctx s id evs s' Hok Hne' Hrun). by apply Hd.
  - intros k e He. by destruct (serial_lookup _ _ _ _ _ Hser He).
Qed.

Ltac check_refused :=
  unfold batch_error; repeat (cbn [check_batch]; case_bool_decide;
    [first [done|match goal with H : ?x <> ?x |- _ => by destruct H end]|try done]).

Ltac small_batch :=
  split; [done|]; split; [by repeat split|]; split; [eexists; by repeat constructor|];
  vm_compute; repeat split; discriminate.

Lemma missing_passes ctx id0 M room s :
  holding M room s -> id0 ∈ ids -> M id0 = [] -> passes (test_missing ctx id0) s (fun _ => holding M room).
Proof.
  intros Hs Hid HM. pose proof (h_streams _ _ _ Hs id0 Hid) as HF. rewrite HM in HF. apply Forall2_nil_inv_l in HF.
  destruct (law_missing ctx s id0 (h_ok _ _ _ Hs) HF) as (e & s' & Hrun & Hu & [t Ht] & He).
  eapply passes_call; [exact Hrun|]. apply passes_expect; [unfold is_as, as_error; by rewrite Ht|].
  apply passes_expect_last; [done|]. by apply (unchanged_holding 0 M room s).
Qed.

Lemma holding_ext M M' room s : (forall id, M id = M' id) -> holding M room s -> holding M' room s.
Proof.
  intros HM [Hok Hst Hd Hm Hr]. split; [done|..|done|done]; intros id Hid; rewrite <- HM; auto.
Qed.

(** Two streams and no other. *)
Definition streams (id id2 : UUID) (l l2 : list event) (x : UUID) : list event :=
  if decide (x = id) then l else if decide (x = id2) then l2 else [].

Lemma append_passes ctx id id2 evs v l room s :
  holding (streams id id2 l []) (len evs + room) s -> id ∈ ids -> v = len l -> batch_for id v evs ->
  Forall storable evs -> Forall mine evs -> 0 <= room ->
  passes (save ctx evs v) s (fun _ => holding (streams id id2 (l ++ evs) []) room).
Proof.
  intros Hs Hid -> Hb Hst Hm Hroom.
  assert (streams id id2 l [] id = l) as Hl by (unfold streams; by rewrite decide_True).
  eapply passes_weaken.
  - eapply (store_save_passes ctx id); [exact Hs|done|by rewrite Hl|done..].
  - intros [] s'. rewrite Hl. apply holding_ext. intros x. unfold streams. destruct (decide (x = id)) as [->|Hne].
    + by rewrite fn_lookup_insert.
    + rewrite fn_lookup_insert_ne by done. by rewrite decide_False.
Qed.

Definition event2_of (id : UUID) : event :=
  new_event EventType (EventData "event2") AggregateType id 2 (Some metadata2).

Definition first_events (id : UUID) : list event :=
  [mock_event "event1" id 1; event2_of id; other_event id 3; other_event id 4; other_event id 5; other_event id 6].

(** The events the test tries to save. *)
Definition tried (id idOther id2 : UUID) : list event :=
  first_events id ++
  [other_event id 7; other_event idOther 8; new_event EventOtherType ANil "OtherAggregate" id 8 None;
   mock_event "event7" id2 1].

Lemma first_passes ctx id id2 room s :
  holding (streams id id2 [] []) (2 + room) s -> id ∈ ids -> 0 <= room -> storable (mock_event "event1" id 1) ->
  passes (test_first ctx (mock_event "event1" id 1)) s
    (fun _ => holding (streams id id2 [mock_event "event1" id 1] []) room).
Proof.
  intros Hs Hid Hroom Hst. unfold test_first.
  eapply (passes_bind _ _ _ (fun _ => holding (streams id id2 [] []) (2 + room))).
  { apply refuse_passes; [by rewrite Z.add_0_l|done|lia|done]. }
  intros [] s1 Hs1. eapply passes_bind.
  { eapply (append_passes ctx id id2 [mock_event "event1" id 1] 0 [] (1 + room)); try done; try lia;
      [by rewrite Z.add_assoc|small_batch|by constructor|by repeat constructor]. }
  intros [] s2 Hs2. apply refuse_passes; [done|by constructor|lia|].
  by check_refused.
Qed.

Lemma more_passes ctx id id2 room s :
  holding (streams id id2 [mock_event "event1" id 1] []) (5 + room) s -> id ∈ ids -> 0 <= room ->
  Forall storable (first_events id) ->
  passes (test_more ctx (event2_of id) (other_event id 3) [other_event id 4; other_event id 5; other_event id 6]) s
    (fun _ => holding (streams id id2 (first_events id) []) room).
Proof.
  intros Hs Hid Hroom Hst. unfold first_events in Hst. repeat (apply Forall_cons in Hst as [? Hst]). clear Hst.
  unfold test_more. eapply passes_bind.
  { eapply (append_passes ctx id id2 [event2_of id] 1 [mock_event "event1" id 1] (4 + room)); try done; try lia;
      [by rewrite Z.add_assoc|small_batch|by constructor|by constructor; [right|]]. }
  intros [] s1 Hs1. eapply passes_bind.
  { eapply (append_passes ctx id id2 [other_event id 3] 2 [mock_event "event1" id 1; event2_of id] (3 + room)); try done; try lia;
      [by rewrite Z.add_assoc|small_batch|by constructor|by repeat constructor]. }
  intros [] s2 Hs2.
  eapply (append_passes ctx id id2 [other_event id 4; other_event id 5; other_event id 6] 3
    [mock_event "event1" id 1; event2_of id; other_event id 3] room);
    try done; [small_batch|by repeat constructor|by repeat constructor].
Qed.

Lemma mismatched_passes ctx id idOther id2 M room s :
  holding M (4 + room) s -> 0 <= room -> idOther <> id -> Forall storable (tried id idOther id2) ->
  passes (test_mismatched ctx (other_event id 7) (other_event idOther 8)
            (new_event EventOtherType ANil "OtherAggregate" id 8 None)) s (fun _ => holding M room).
Proof.
  intros Hs Hroom Hne Hst. apply Forall_app in Hst as [_ Hst]. repeat (apply Forall_cons in Hst as [? Hst]). clear Hst.
  unfold test_mismatched. eapply (passes_bind _ _ _ (fun _ => holding M (2 + room))).
  - apply refuse_passes; [by rewrite Z.add_assoc|by repeat constructor|lia|].
    by check_refused.
  - intros [] s1 Hs1. apply refuse_passes; [done|by repeat constructor|lia|].
    by check_refused.
Qed.

(** C21: acceptance of event stores.  Every store with the contract that refuses
    malformed batches and keeps the details of events passes the shared
    acceptance test, when the test's IDs are new to it, it can keep the test's
    events and has room for the twelve that are tried; it then holds the events
    the test answers. *)
Theorem event_store_acceptance_passes ctx id idOther id2 id0 s :
  ids = [id; id2; id0] -> NoDup ids -> idOther <> id ->
  store_ok s -> (forall x, x ∈ ids -> stream s x = []) -> holds s 12 ->
  heap_of s !! metadata2 = Some event2_metadata -> Forall storable (tried id idOther id2) ->
  passes (AcceptanceTest ctx id idOther id2 id0 metadata2) s
    (fun saved s' => store_ok s' /\ Forall2 same_event saved (stream s' id ++ stream s' id2) /\ len saved = 7).
Proof.
  intros Hids Hnd Hother Hok Hnew Hroom Hmd Hst. rewrite Hids in Hnd.
  apply NoDup_cons in Hnd as [Hid Hnd]. apply NoDup_cons in Hnd as [Hid2 _].
  rewrite !not_elem_of_cons in Hid. rewrite not_elem_of_cons in Hid2.
  destruct Hid as (Hne2 & Hne0 & _). destruct Hid2 as (Hne02 & _).
  assert (id ∈ ids /\ id2 ∈ ids /\ id0 ∈ ids) as (Hi & Hi2 & Hi0) by (rewrite Hids; set_solver).
  assert (holding (streams id id2 [] []) 12 s) as Hs.
  { split; try done; intros x Hx; pose proof (Hnew x Hx) as Hn.
    - rewrite Hn. unfold streams. by repeat case_decide.
    - pose proof (law_details_length s x Hok) as Hl. rewrite Hn in Hl. apply length_zero_iff_nil in Hl.
      rewrite Hl. unfold streams. by repeat case_decide. }
  pose proof Hst as Hst'. apply Forall_app in Hst' as [Hst1 Hst2].
  repeat (apply Forall_cons in Hst2 as [? Hst2]). clear Hst2. unfold AcceptanceTest.
  eapply passes_bind. { eapply (first_passes _ id id2 10); try done; try lia. by apply Forall_inv in Hst1. }
  intros [] s1 Hs1. eapply passes_bind. { by eapply (more_passes _ id id2 5). }
  intros [] s2 Hs2. eapply passes_bind. { by eapply (mismatched_passes _ id idOther id2 _ 1). }
  intros [] s3 Hs3. eapply (passes_bind _ _ _ (fun _ => holding (streams id id2 (first_events id) [mock_event "event7" id2 1]) 0)).
  { eapply passes_weaken.
    - eapply (store_save_passes _ id2 [mock_event "event7" id2 1] 0 _ 0); try done; try lia.
      + unfold streams. by rewrite decide_False, decide_True.
      + small_batch. + by constructor. + by repeat constructor.
    - intros [] s4. apply holding_ext. intros x. destruct (decide (x = id2)) as [->|Hne].
      + rewrite fn_lookup_insert. unfold streams. by rewrite !(decide_False (P := id2 = id)), !decide_True by done.
      + rewrite fn_lookup_insert_ne by done. unfold streams. case_decide; [done|]. by rewrite !decide_False. }
  intros [] s4 Hs4. eapply passes_bind.
  { eapply missing_passes; [exact Hs4|done|]. unfold streams. by rewrite !decide_False. }
  intros [] s5 Hs5. 
  assert (streams id id2 (first_events id) [mock_event "event7" id2 1] id = first_events id) as Hl
    by (unfold streams; by rewrite decide_True).
  assert (streams id id2 (first_events id) [mock_event "event7" id2 1] id2 = [mock_event "event7" id2 1]) as Hl2
    by (unfold streams; by rewrite decide_False, decide_True).
  eapply passes_bind.
  { pose proof (load_passes (WithValue ctx testkey (AString "testval")) id _ 0 s5 Hs5 Hi) as Hp. rewrite Hl in Hp.
    apply Hp; [done|by repeat split| |by repeat constructor].
    constructor; [by left|]. constructor; [by right|]. by repeat constructor. }
  intros [] s6 Hs6. eapply passes_bind.
  { pose proof (load_passes (WithValue ctx testkey (AString "testval")) id2 _ 0 s6 Hs6 Hi2) as Hp. rewrite Hl2 in Hp.
    apply Hp; [done|by repeat split|by repeat constructor..]. }
  intros [] s7 Hs7. apply passes_ret. split; [apply Hs7|]. split; [|done].
  pose proof (h_streams _ _ _ Hs7 id Hi) as HF. pose proof (h_streams _ _ _ Hs7 id2 Hi2) as HF2.
  rewrite Hl in HF. rewrite Hl2 in HF2. exact (Forall2_app HF HF2).
Qed.

End Test.

(** ** Maintenance *)

Section Maintenance.
Context {S : Type} (store : EventStoreSpec.EventStore S) (heap_of : S -> heap).
Context (fmt_time : Time -> string) (uuid_String : UUID -> string) (fmt_any : any -> string) (fmt_map : gomap -> string).

Abbreviation save := (save store).
Abbreviation compare_loaded := (compare_loaded heap_of fmt_time uuid_String fmt_any fmt_map).
Abbreviation check_events := (check_events heap_of fmt_time uuid_String fmt_any fmt_map).

(** [EventStoreMaintenance], as far as the test uses it. *)
Context (Replace : context -> option event -> M S unit) (RenameEvent : context -> string -> string -> M S unit).

(** Three events: one that no aggregate has, one that its aggregate lacks, and
    one that is replaced. *)
Definition test_replace (ctx : context) (id idNone : UUID) : test S unit :=
  let event1 := mock_event "event1" id 1 in
  let event3 := mock_event "event1" id 3 in
  do! save ctx [event1; mock_event "event1" id 2; event3] 0 in
  (* Replace event, no aggregate. *)
  let! r := call (Replace ctx (Some (mock_event "event" idNone 1))) in
  do! expect (is_error r ErrAggregateNotFound) "there should be an aggregate not found error" in
  (* Replace event, invalid event version. *)
  let! r := call (Replace ctx (Some (mock_event "event20" id 20))) in
  do! expect_store_error r ErrEventNotFound in
  (* Replace event. *)
  let event2Mod := mock_event "event2_mod" id 2 in
  let! r := call (Replace ctx (Some event2Mod)) in
  do! expect_saved r in
  let! r := call (es_Load store ctx id) in
  do! expect_saved r in
  check_events 0 (default [] (value r)) [event1; event2Mod; event3].

(** The renamed event of an aggregate that has one event. *)
Definition check_renamed (ctx : context) (et : string) (id : UUID) : test S unit :=
  let! r := call (es_Load store ctx id) in
  do! expect_saved r in
  match default [] (value r) with
  | [ev] => compare_loaded ev (new_event et ANil AggregateType id 1 None) [Some IgnorePositionMetadata]
  | _ => t_Fatal "there should be one event"
  end.

Definition test_rename (ctx : context) (id1 id2 : UUID) : test S unit :=
  (* Save events of the old type. *)
  do! save ctx [new_event "old_event_type" ANil AggregateType id1 1 None] 0 in
  do! save ctx [new_event "old_event_type" ANil AggregateType id2 1 None] 0 in
  (* Rename events to the new type. *)
  let! r := call (RenameEvent ctx "old_event_type" "new_event_type") in
  do! expect_saved r in
  do! check_renamed ctx "new_event_type" id1 in
  check_renamed ctx "new_event_type" id2.

Definition MaintenanceAcceptanceTest (ctx : context) (id idNone id1 id2 : UUID) : test S unit :=
  let ctx := WithValue ctx testkey (AString "testval") in
  do! test_replace ctx id idNone in
  test_rename ctx id1 id2.

End Maintenance.

(** ** Snapshots *)

Section Snapshots.
Context {S : Type} (snapshots : option (SnapshotStore S)).

Definition TestData (content : string) : any := AStruct "TestData" [("Data", AString content)].

(** [SaveSnapshot] must fail with an [EventStoreError]. *)
Definition refuse_snapshot (st : SnapshotStore S) (ctx : context) (id : UUID) (snapshot : Snapshot) : test S unit :=
  let! r := call (SaveSnapshot st ctx id snapshot) in
  expect (is_as r as_EventStoreError) "there should be a event store error".

(** [assert.Equal] on the three fields; a nil snapshot panics. *)
Definition expect_snapshot (r : option Snapshot + error) (snapshot : Snapshot) : test S unit :=
  do! expect_saved r in
  let! loaded := deref (default None (value r)) in
  do! expect (snap_Version snapshot =? snap_Version loaded) "Not equal" in
  do! expect (bool_decide (snap_AggregateType snapshot = snap_AggregateType loaded)) "Not equal" in
  expect (DeepEqual (snap_State snapshot) (snap_State loaded)) "Not equal".

Definition save_and_load_snapshot (st : SnapshotStore S) (ctx : context) (id : UUID) (snapshot : Snapshot) : test S unit :=
  let! r := call (SaveSnapshot st ctx id snapshot) in
  do! expect_saved r in
  let! r := call (LoadSnapshot st ctx id) in
  expect_snapshot r snapshot.

(** The snapshot data the test registers are those of the store's registry;
    [now] and [later] are the times [time.Now] gives. *)
Definition SnapshotAcceptanceTest (ctx : context) (id idNone : UUID) (now later : Time) : test S unit :=
  match snapshots with
  | None => ret tt
  | Some st =>
      do! refuse_snapshot st ctx id (mkSnapshot 0 "" 0 ANil) in
      do! refuse_snapshot st ctx id (mkSnapshot 0 "test" 0 ANil) in
      let snapshot := mkSnapshot 1 "test" now (TestData "this is incredible data") in
      let! r := call (SaveSnapshot st ctx id snapshot) in
      do! expect_saved r in
      let! r := call (LoadSnapshot st ctx idNone) in
      do! expect (match value r with Some (Some _) => false | _ => true end) "snapshot should be nil, it doesnt exists" in
      do! expect_saved r in
      let! r := call (LoadSnapshot st ctx id) in
      do! expect_snapshot r snapshot in
      save_and_load_snapshot st ctx id (mkSnapshot 2 "test" later (TestData "this is new incredible data"))
  end.

End Snapshots.
End EventStoreAcceptance.
