(* ===== verification/EventBusAcceptance.v ===== *)
(** * The acceptance tests of event buses ([eventbus/acceptance_testing.go])

    [TestAddHandler] and [AcceptanceTest] as programs over any event bus.  The
    test, the buses and the mock handlers share a state: [B] is that of the
    buses, the rest is the heap and the mock handlers, which are pointers
    ([nat]).  [run k] is what the other goroutines do while the test sleeps or
    waits for the [k]th time; a handler that has nothing then did not receive
    its event in time.  New UUIDs are arguments.  The load test is in
    [Benchmarks]. *)

From stdpp Require Import base gmap strings list numbers option pretty.
From Stdlib Require Import Lia ZArith.
From S2P Require Import Prelude.
From S2P Require Import GoTypes.
From S2P Require Import Event.
From S2P Require Import Command.
From S2P Require Import Errors.
From S2P Require Import ErrorText.
From S2P Require Import Fixtures.
From S2P Require Import Match.
From S2P Require Import Context.
From S2P Require Import Handlers.
From S2P Require Import Mocks.
From S2P Require Import Testing.
From S2P Require Import EventStoreAcceptance.

Import Mocks.
Import EventStoreAcceptance.

Module EventBusAcceptance.

Abbreviation mock := Mocks.EventHandler.
Abbreviation rest := (heap * list mock)%type.

(** [eh.EventBus], and [eh.Outbox] but for its [Start]; [receive] is a receive
    from [Errors()] that does not block. *)
Record EventBus (B : Type) : Type := mkEventBus {
  bus_HandleEvent : context -> option event -> M (B * rest) unit;
  bus_AddHandler : context -> option (event -> bool) -> option (string * (context -> event -> M rest unit)) ->
    M (B * rest) unit;
  receive : M (B * rest) (option error);
  bus_Close : M (B * rest) unit
}.
Arguments mkEventBus {B}.
Arguments bus_HandleEvent {B}.
Arguments bus_AddHandler {B}.
Arguments receive {B}.
Arguments bus_Close {B}.

Section Test.
Context {B : Type} (run : nat -> M (B * rest) unit).
Context (fmt_time : Time -> string) (uuid_String : UUID -> string) (fmt_any : any -> string) (fmt_map : gomap -> string).
Context (foreign : sentinel -> string).
(** The time the mocks read. *)
Context (now : Time).

Abbreviation S := (B * rest)%type.

(** ** The mock handlers *)

Definition heap_now : test S heap := gets (fun st => st.1.2.1).

Definition new_map (m : gomap) : test S loc := fun '((b, (h, hs)), fs) =>
  let '(h', l) := alloc m h in (Ok l, ((b, (h', hs)), fs)).

Definition mock_at (i : nat) : test S mock :=
  let! hs := gets (fun st => st.1.2.2) in deref (hs !! i).

Definition set_mock (i : nat) (m : mock) : test S unit :=
  modify (fun '((b, (h, hs)), fs) => ((b, (h, <[i := m]> hs)), fs)).

(** [mocks.NewEventHandler(t)] *)
Definition new_handler (t : string) : test S nat := fun '((b, (h, hs)), fs) =>
  (Ok (length hs), ((b, (h, hs ++ [NewEventHandler t])), fs)).

(** A mock as an event handler; a send that blocks for ever ends the run. *)
Definition mock_HandleEvent (i : nat) (ctx : context) (e : option event) : M rest unit := fun '(h, hs) =>
  match hs !! i with
  | None => (Panic "invalid memory address or nil pointer dereference", (h, hs))
  | Some m =>
      match eh_HandleEvent now ctx e m with
      | Some (r, m') => (r, (h, <[i := m']> hs))
      | None => (Panic "blocked", (h, hs))
      end
  end.

Definition as_handler (t : string) (i : nat) : Handlers.EventHandler rest :=
  mkHandler t (mock_HandleEvent i) false None.

(** A handler as the buses take it. *)
Definition given (h : Handlers.EventHandler rest) : option (string * (context -> event -> M rest unit)) :=
  Some (HandlerType h, fun ctx e => HandleEvent h ctx (Some e)).

Definition matcher (m : EventMatcher) : option (event -> bool) := Some (fun e => Match m (Some e)).

(** [o.AddHandler(ctx, m, h)], which must not fail. *)
Definition add (b : EventBus B) (ctx : context) (m : EventMatcher) (h : Handlers.EventHandler rest) : test S unit :=
  let! r := call (bus_AddHandler b ctx (matcher m) (given h)) in
  require (no_error r) "there should be no error".

(** A new mock that is added. *)
Definition add_handler (b : EventBus B) (ctx : context) (m : EventMatcher) (t : string) : test S nat :=
  let! i := new_handler t in
  do! add b ctx m (as_handler t i) in
  ret i.

(** ** Steps of the tests *)

Definition handle (b : EventBus B) (ctx : context) (e : event) : test S unit :=
  let! r := call (bus_HandleEvent b ctx (Some e)) in
  expect (no_error r) "there should be no error".

(** [time.Sleep(timeout)] *)
Definition sleep (k : nat) : test S unit := do! call (run k) in ret tt.

(** [h.Wait(timeout)] *)
Definition wait (k : nat) (i : nat) : test S bool :=
  do! sleep k in
  let! m := mock_at i in
  let '(ok, m') := Wait m in
  do! set_mock i m' in
  ret ok.

Definition expect_wait (k : nat) (i : nat) : test S unit :=
  let! ok := wait k i in expect ok "did not receive event in time".

Fixpoint deref_all (l : list (option event)) : test S (list event) :=
  match l with
  | [] => ret []
  | e :: l' => let! e := deref e in let! l := deref_all l' in ret (e :: l)
  end.

Definition events_at (i : nat) : test S (list event) :=
  let! m := mock_at i in deref_all (eh_Events m).

(** [eh.CompareEventSlices] on what a mock has received. *)
Definition received (i : nat) (expected : list event) : test S bool :=
  let! evs := events_at i in
  let! h := heap_now in
  ret (CompareEventSlices fmt_time uuid_String fmt_any fmt_map h evs expected []).

Definition expect_received (i : nat) (expected : list event) : test S unit :=
  let! ok := received i expected in expect ok "the events were incorrect".

Definition correct_context (i : nat) : test S bool :=
  let! m := mock_at i in ret (bool_decide (ContextOne (eh_Context m) = Some "testval")).

Definition expect_context (i : nat) : test S unit :=
  let! ok := correct_context i in expect ok "the context should be correct".

(** The loop over what an observer received; [expectedEvents[i]] panics beyond
    its end. *)
Fixpoint compare_events (events expected : list event) : test S unit :=
  match events, expected with
  | [], _ => ret tt
  | e :: events', x :: expected' =>
      let! h := heap_now in
      do! expect (bool_decide (CompareEvents fmt_time uuid_String fmt_any fmt_map h e x [] = None))
            "the event was incorrect" in
      compare_events events' expected'
  | _ :: _, [] => panic "index out of range"
  end.

(** [checkBusErrors]: until the channel, which has room for 100 errors, is
    empty. *)
Fixpoint drain (fuel : nat) (b : EventBus B) : test S unit :=
  match fuel with
  | O => ret tt
  | Datatypes.S fuel' =>
      let! r := call (receive b) in
      match value r with
      | Some (Some _) => do! t_Error "there should be no previous error" in drain fuel' b
      | _ => ret tt
      end
  end.

Definition checkBusErrors (b : EventBus B) : test S unit := drain 101 b.

(** [select] of [time.After] and [Errors()]: the text of the error. *)
Definition expect_async (k : nat) (b : EventBus B) (text : string) : test S unit :=
  do! sleep k in
  let! r := call (receive b) in
  match value r with
  | Some (Some err) => expect (bool_decide (ErrorText.Error uuid_String foreign err = Some text)) "incorrect error sent"
  | _ => t_Error "there should be an async error"
  end.

(** A mock that fails, with [errors.New("handler error")]. *)
Definition failing_handler (b : EventBus B) (ctx : context) (m : EventMatcher) (t : string) : test S nat :=
  let! i := new_handler t in
  do! set_mock i (mkEventHandler t [] Background 0 [] (Some (ErrorString "handler error"))) in
  do! add b ctx m (as_handler t i) in
  ret i.

(** The second event of the stores' test, but for the name and the version. *)
Definition mock_event (content : string) (id : UUID) (v : Z) (md : loc) : event :=
  new_event EventType (EventData content) AggregateType id v (Some md).

Definition new_mock_event (content : string) (id : UUID) (v : Z) : test S event :=
  let! md := new_map event2_metadata in ret (mock_event content id v md).

Definition without_data (id : UUID) : event := new_event EventOtherType ANil AggregateType id 1 None.

Definition TestAddHandler (b : EventBus B) (ctx : context) : test S unit :=
  (* Error on nil matcher. *)
  let! i := new_handler "no-matcher" in
  let! r := call (bus_AddHandler b ctx None (given (as_handler "no-matcher" i))) in
  do! expect (is_error r ErrMissingMatcher) "the error should be correct" in
  (* Error on nil handler. *)
  let! r := call (bus_AddHandler b ctx (matcher (MatchAll [])) None) in
  do! expect (is_error r ErrMissingHandler) "the error should be correct" in
  (* Error on multiple registrations. *)
  do! add_handler b ctx (MatchAll []) "multi" in
  let! j := new_handler "multi" in
  let! r := call (bus_AddHandler b ctx (matcher (MatchAll [])) (given (as_handler "multi" j))) in
  expect (is_error r ErrHandlerAlreadyAdded) "the error should be correct".

(** ** The acceptance test *)

(** An event no handler is there for, and one without data. *)
Definition test_other (b : EventBus B) (ctx : context) (event1 eventWithoutData : event) : test S unit :=
  do! handle b ctx event1 in
  let! otherHandler := add_handler b ctx (MatchEvents [EventOtherType]) "other-handler" in
  do! sleep 0 in
  do! handle b ctx eventWithoutData in
  do! expect_wait 1 otherHandler in
  expect_received otherHandler [eventWithoutData].

(** An observer of every event, unique by its random group. *)
Definition add_observer (b : EventBus B) (ctx : context) (group : UUID) : test S nat :=
  let! i := new_handler "observer" in
  do! add b ctx (MatchAll [])
        (UseEventHandlerMiddleware (as_handler "observer" i) [observer_Middleware uuid_String group]) in
  ret i.

(** One of the two handlers of a type has received the event. *)
Definition check_one_of (h1 h2 : nat) (expectedEvents : list event) : test S unit :=
  let! ok1 := wait 3 h1 in
  let! ok := (if ok1 then ret true else wait 4 h2) in
  do! expect ok "did not receive event in time" in
  let! got1 := received h1 expectedEvents in
  let! got2 := received h2 expectedEvents in
  do! expect (got1 || got2) "the events were incorrect" in
  let! evs2 := events_at h2 in
  let! both := received h1 evs2 in
  do! expect (negb both) "only one handler should receive the events" in
  let! ctx1 := correct_context h1 in
  let! ctx2 := correct_context h2 in
  expect (ctx1 || ctx2) "the context should be correct".

Definition check_observer (k : nat) (i : nat) (expectedEvents : list event) : test S unit :=
  do! expect_wait k i in
  let! evs := events_at i in
  do! compare_events evs expectedEvents in
  expect_context i.

(** An event with data, to handlers on both buses and an observer on each. *)
Definition test_handlers (bus1 bus2 : EventBus B) (ctx : context) (id group1 group2 : UUID) : test S unit :=
  let! handlerBus1 := add_handler bus1 ctx (MatchEvents [EventType]) "handler" in
  let! handlerBus2 := add_handler bus2 ctx (MatchEvents [EventType]) "handler" in
  let! anotherHandlerBus2 := add_handler bus2 ctx (MatchEvents [EventType]) "another_handler" in
  let! observerBus1 := add_observer bus1 ctx group1 in
  let! observerBus2 := add_observer bus2 ctx group2 in
  do! sleep 2 in
  let! event2 := new_mock_event "event2" id 2 in
  do! handle bus1 ctx event2 in
  do! check_one_of handlerBus1 handlerBus2 [event2] in
  do! expect_wait 5 anotherHandlerBus2 in
  do! expect_received anotherHandlerBus2 [event2] in
  do! expect_context anotherHandlerBus2 in
  do! check_observer 6 observerBus1 [event2] in
  check_observer 7 observerBus2 [event2].

(** The error of a handler comes out of the bus it was added to. *)
Definition test_errors (b : EventBus B) (ctx : context) (id : UUID) : test S unit :=
  do! failing_handler b ctx (MatchAll []) "error_handler" in
  do! sleep 8 in
  let! event3 := new_mock_event "event3" id 3 in
  do! handle b ctx event3 in
  expect_async 9 b
    ("event bus: could not handle event (error_handler): handler error [Event(" +:+ uuid_String id +:+ ", v3)]").

Definition close (b : EventBus B) : test S unit :=
  let! r := call (bus_Close b) in expect (no_error r) "there should be no error".

Definition AcceptanceTest (bus1 bus2 : EventBus B) (id idOther group1 group2 : UUID) : test S unit :=
  let ctx := WithContextOne Background "testval" in
  let! event1 := new_mock_event "event1" id 1 in
  do! test_other bus1 ctx event1 (without_data idOther) in
  do! test_handlers bus1 bus2 ctx id group1 group2 in
  (* Check and clear all errors before the error tests. *)
  do! checkBusErrors bus1 in
  do! checkBusErrors bus2 in
  do! test_errors bus1 ctx id in
  do! close bus1 in
  close bus2.

End Test.
End EventBusAcceptance.
