(* ===== verification/OutboxAcceptance.v ===== *)
(** * The acceptance tests of outboxes ([outbox/acceptance_testing.go])

    As programs over any outbox, with the mocks and the steps of
    [EventBusAcceptance].  The benchmark is in
    [Benchmarks]. *)

From stdpp Require Import base gmap strings list numbers option pretty.
From Stdlib Require Import Lia ZArith.
From S2P Require Import Prelude.
From S2P Require Import GoTypes.
From S2P Require Import Event.
From S2P Require Import Command.
From S2P Require Import Errors.
From S2P Require Import ErrorText.
From S2P Require Import Fixtures.
From S2P Require Import Match.
From S2P Require Import Context.
From S2P Require Import Handlers.
From S2P Require Import Mocks.
From S2P Require Import Testing.
From S2P Require Import EventStoreAcceptance.
From S2P Require Import EventBusAcceptance.

Import Mocks.
Import EventBusAcceptance.

Module OutboxAcceptance.

Section Test.
Context {B : Type} (run : nat -> M (B * rest) unit).
Context (fmt_time : Time -> string) (uuid_String : UUID -> string) (fmt_any : any -> string) (fmt_map : gomap -> string).
Context (foreign : sentinel -> string) (now : Time).

Abbreviation S := (B * rest)%type.
Abbreviation Outbox := (EventBus B).
Abbreviation add_handler := (EventBusAcceptance.add_handler now).
Abbreviation expect_wait := (EventBusAcceptance.expect_wait run).
Abbreviation expect_received := (EventBusAcceptance.expect_received fmt_time uuid_String fmt_any fmt_map).

Definition TestAddHandler (o : Outbox) (ctx : context) : test S unit := EventBusAcceptance.TestAddHandler now o ctx.

Definition checkOutboxErrors (o : Outbox) : test S unit := drain 101 o.

(** An event without data, in its own handler. *)
Definition test_other (o : Outbox) (ctx : context) (prefix : string) (id : UUID) : test S unit :=
  let! otherHandler := add_handler o ctx (MatchEvents [EventOtherType]) (prefix +:+ "_other_handler") in
  do! handle o ctx (without_data id) in
  do! expect_wait 0 otherHandler in
  expect_received otherHandler [without_data id].

Definition check_handler (k : nat) (i : nat) (expectedEvents : list event) : test S unit :=
  do! expect_wait k i in
  do! expect_received i expectedEvents in
  expect_context i.

(** An event with data, in two handlers. *)
Definition test_handlers (o : Outbox) (ctx : context) (prefix : string) (id : UUID) : test S unit :=
  let! handler := add_handler o ctx (MatchEvents [EventType]) (prefix +:+ "_handler") in
  let! anotherHandler := add_handler o ctx (MatchEvents [EventType]) (prefix +:+ "_another_handler") in
  let! event2 := new_mock_event "event2" id 2 in
  do! handle o ctx event2 in
  (* Check for correct event in handler. *)
  do! check_handler 1 handler [event2] in
  (* Check the other handler. *)
  check_handler 2 anotherHandler [event2].

(** The error of a handler, which gets the event again once it has none. *)
Definition test_errors (o : Outbox) (ctx : context) (prefix : string) (id : UUID) : test S unit :=
  let! errorHandler := failing_handler now o ctx (MatchAll []) (prefix +:+ "_error_handler") in
  let! event3 := new_mock_event "event3" id 3 in
  do! handle o ctx event3 in
  do! expect_async run uuid_String foreign 3 o
    ("outbox: could not handle event (" +:+ prefix +:+ "_error_handler): handler error [Event(" +:+
       uuid_String id +:+ ", v3)]") in
  (* Reset error and let the periodic sweep process it. *)
  let! m := mock_at errorHandler in
  do! set_mock errorHandler (Reset m) in
  do! expect_wait 4 errorHandler in
  expect_received errorHandler [event3].

Definition AcceptanceTest (o : Outbox) (ctx : context) (prefix : string) (id idOther : UUID) : test S unit :=
  let ctx := WithContextOne ctx "testval" in
  (* Without handler. *)
  let! event1 := new_mock_event "event1" id 1 in
  do! handle o ctx event1 in
  do! test_other o ctx prefix idOther in
  do! test_handlers o ctx prefix id in
  (* Check and clear all errors before the error tests. *)
  do! checkOutboxErrors o in
  do! test_errors o ctx prefix id in
  checkOutboxErrors o.

End Test.
End OutboxAcceptance.
