(* ===== verification/Benchmarks.v ===== *)
(** * Benchmarks and the load test ([eventstore/performance_testing.go],
      [eventbus/acceptance_testing.go], [outbox/performance_testing.go])

    As programs over any event store, event bus and outbox: what they do and
    check, not how long it takes.  The number of iterations, new UUIDs and the
    aggregates chosen at random are arguments.  After an event is published, and then for as
    many rounds as the timeout leaves, the other goroutines run ([run]) and every
    receiving goroutine takes a turn. *)

From stdpp Require Import base gmap strings list numbers option pretty.
From Stdlib Require Import Lia ZArith.
From S2P Require Import Prelude.
From S2P Require Import GoTypes.
From S2P Require Import Event.
From S2P Require Import Errors.
From S2P Require Import Fixtures.
From S2P Require Import EventStoreSpec.
From S2P Require Import MemStore.
From S2P Require Import Match.
From S2P Require Import Mocks.
From S2P Require Import Testing.
From S2P Require Import EventStoreAcceptance.
From S2P Require Import EventBusAcceptance.

Import Mocks.
Import EventBusAcceptance.

Module Benchmarks.

(** ** Event stores *)

Section Store.
Context {S : Type} (store : EventStoreSpec.EventStore S) (TimeNow : nat -> Time).

Definition store_event (id : UUID) (n : nat) : event :=
  (NewEvent EventType (EventData "event1") (TimeNow n)
     [Some (ForAggregate AggregateType id (iadd (Z.of_nat n) 1))] ∅).2.

(** One iteration: the event is saved and all of them loaded. *)
Definition store_iteration (ctx : context) (id : UUID) (n : nat) : test S unit :=
  let! r := call (es_Save store ctx [Some (store_event id n)] (Z.of_nat n)) in
  do! expect (no_error r) "could not save event" in
  let! r := call (es_Load store ctx id) in
  expect (no_error r) "could not load events".

Definition store_Benchmark (N : nat) (id : UUID) : test S unit :=
  for_range (seq 0 N) (store_iteration Background id).

Context `{!EventStoreLaws store}.

(** What holds before iteration [n] of [N]. *)
Record benchmarked (id : UUID) (N n : nat) (s : S) : Prop := mkBenchmarked {
  b_ok : store_ok s;
  b_len : len (stream s id) = Z.of_nat n;
  b_room : holds s (Z.of_nat N - Z.of_nat n)
}.

Lemma iteration_passes ctx id N n s :
  benchmarked id N n s -> (n < N)%nat -> is_int (Z.of_nat N) -> storable (store_event id n) ->
  passes (store_iteration ctx id n) s (fun _ => benchmarked id N (Datatypes.S n)).
Proof.
  intros [Hok Hlen Hroom] Hn Hint Hst.
  assert (is_int (Z.of_nat n + 1)) as Hn1 by (unfold is_int, MinInt, MaxInt in *; lia).
  assert (holds s (len [store_event id n])) as Hr.
  { apply (law_holds_le s _ (Z.of_nat N - Z.of_nat n - 1)); [|lia].
    rewrite len_cons, len_nil. by replace (1 + 0 + _) with (Z.of_nat N - Z.of_nat n) by lia. }
  destruct (law_save ctx s id [store_event id n] Hok) as (s1 & evs' & Hs & Hok1 & Hstr & HF & _ & Hh); [|by repeat constructor|done|].
  { split; [done|]. rewrite Hlen. split; [simpl; by rewrite iadd_id by done|].
    split; [exists AggregateType; by repeat constructor|]. unfold is_int, MinInt, MaxInt in *. rewrite len_cons, len_nil. lia. }
  rewrite Hlen in Hs. unfold store_iteration. eapply passes_call; [exact Hs|].
  apply passes_expect; [done|].
  assert (len (stream s1 id) = Z.of_nat (Datatypes.S n)) as Hlen1.
  { rewrite Hstr, len_app, Hlen. apply Forall2_length in HF. unfold len. rewrite <- HF. simpl. lia. }
  destruct (law_load ctx s1 id (es_Load store ctx id)) as (evs & s2 & Hl & Hu & _); [by left|done| |].
  { intros Hnil. rewrite Hnil, len_nil in Hlen1. lia. }
  eapply passes_call; [exact Hl|]. apply passes_expect_last; [done|].
  destruct (law_unchanged 0 s1 s2 Hok1 Hu) as (Hok2 & Hs2 & Hh2). split; [done|by rewrite Hs2|].
  apply Hh2, Hh. rewrite len_cons, len_nil. by replace (_ + _) with (Z.of_nat N - Z.of_nat n) by lia.
Qed.

(** the benchmark of event stores runs.  Over every store with the contract
    and room for the events, however many iterations it is given, no save and no
    load fails, and the aggregate is left with one event per iteration. *)
Theorem store_benchmark_passes N id s :
  store_ok s -> stream s id = [] -> holds s (Z.of_nat N) -> is_int (Z.of_nat N) ->
  (forall n, storable (store_event id n)) ->
  passes (store_Benchmark N id) s (fun _ s' => store_ok s' /\ len (stream s' id) = Z.of_nat N).
Proof.
  intros Hok Hnil Hroom Hint Hst.
  assert (forall k n s, benchmarked id N n s -> (n + k)%nat = N ->
    passes (for_range (seq n k) (store_iteration Background id)) s (fun _ => benchmarked id N N)) as Hall.
  { intros k. induction k as [|k IH]; intros n s1 Hb Hn; [apply passes_ret; by replace N with n at 2 by lia|].
    cbn [seq for_range]. eapply passes_bind; [apply (iteration_passes _ id N); try done; lia|].
    intros [] s2 Hs2. apply IH; [done|lia]. }
  eapply passes_weaken; [apply (Hall N 0%nat); [|lia]|].
  - split; [done|by rewrite Hnil|by rewrite Z.sub_0_r].
  - intros [] s' [? ? ?]. by split.
Qed.

End Store.

(** ** The load of event buses and outboxes *)

(** The aggregates: an ID and the version of the last event. *)
Abbreviation aggregates := (list (UUID * Z)).

Definition new_aggregates (ids : list UUID) : aggregates := (fun id => (id, 0)) <$> ids.

(** The [n]th event is for the aggregate [i]; [None] is an index out of range. *)
Definition next_event (n i : nat) (l : aggregates) : option (event * aggregates) :=
  match l !! i with
  | None => None
  | Some (id, v) =>
      let v := iadd v 1 in
      Some ((NewEvent EventType (EventData ("event" +:+ pretty n)) (date + Z.of_nat n * Minute)
               [Some (ForAggregate AggregateType id v)] ∅).2,
            <[i := (id, v)]> l)
  end.

Fixpoint load_events (n : nat) (picks : list nat) (l : aggregates) : option (list event) :=
  match picks with
  | [] => Some []
  | i :: picks' =>
      '(e, l') ← next_event n i l; rest ← load_events (Datatypes.S n) picks' l'; Some (e :: rest)
  end.

(** The events of an aggregate. *)
Definition events_of (id : UUID) (l : list event) : list event := filter (fun e => aggregateID e = id) l.

Lemma next_event_spec n i l id v :
  l !! i = Some (id, v) -> is_int (v + 1) ->
  exists e, next_event n i l = Some (e, <[i := (id, v + 1)]> l) /\ aggregateID e = id /\ version e = v + 1.
Proof.
  intros Hl Hv. unfold next_event. rewrite Hl, iadd_id by done. eexists. split; [reflexivity|]. by split.
Qed.

Lemma insert_fst (l : aggregates) i id v w : l !! i = Some (id, v) -> (<[i := (id, w)]> l).*1 = l.*1.
Proof.
  intros Hl. rewrite list_fmap_insert. simpl. apply list_insert_id. by rewrite list_lookup_fmap, Hl.
Qed.

Lemma load_events_from n picks l :
  NoDup l.*1 -> Forall (fun i => (i < length l)%nat) picks ->
  (forall i id v, l !! i = Some (id, v) -> 0 <= v /\ is_int (v + len picks)) ->
  exists evs, load_events n picks l = Some evs /\ len evs = len picks /\
    Forall (fun e => aggregateID e ∈ l.*1) evs /\
    forall i id v, l !! i = Some (id, v) -> serial id v (events_of id evs).
Proof.
  revert n l. induction picks as [|i picks IH]; intros n l Hnd Hp Hv.
  { exists []. split_and!; [done|done|by constructor|done]. }
  apply Forall_cons in Hp as [Hi Hp]. apply lookup_lt_is_Some in Hi as [[id v] Hi].
  pose proof (len_nonneg picks) as Hlp. pose proof (Hv i id v Hi) as [Hv0 Hint]. rewrite len_cons in Hint.
  destruct (next_event_spec n i l id v Hi) as (e & He & Hid & Hev); [unfold is_int, MinInt, MaxInt in *; lia|].
  pose proof (insert_fst l i id v (v + 1) Hi) as Hfst.
  destruct (IH (Datatypes.S n) (<[i := (id, v + 1)]> l)) as (evs & Hl & Hlen & Hin & Hser).
  - by rewrite Hfst.
  - by rewrite length_insert.
  - intros j id' v' [(<- & [= <- <-] & _)|[Hne Hj]]%list_lookup_insert_Some.
    + split; [lia|]. by replace (v + 1 + len picks) with (v + (1 + len picks)) by lia.
    + destruct (Hv j id' v' Hj) as [? Hint']. rewrite len_cons in Hint'. split; [done|].
      unfold is_int, MinInt, MaxInt in *. lia.
  - exists (e :: evs). cbn [load_events]. rewrite He. cbn [mbind option_bind]. rewrite Hl. split; [done|].
    split; [rewrite !len_cons; lia|]. rewrite Hfst in Hin. split.
    { constructor; [|done]. rewrite Hid. apply list_elem_of_fmap. exists (id, v). split; [done|]. by eapply list_elem_of_lookup_2. }
    intros j id' v' Hj. unfold events_of. rewrite filter_cons. destruct (decide (i = j)) as [<-|Hne].
    + rewrite Hi in Hj. injection Hj as <- <-. rewrite decide_True by done. split; [done|]. split; [done|].
      apply (Hser i). apply list_lookup_insert_eq. by eapply lookup_lt_Some.
    + rewrite decide_False.
      * apply (Hser j). by rewrite list_lookup_insert_ne.
      * rewrite Hid. intros <-. apply Hne. apply (NoDup_lookup _ _ _ id Hnd); by rewrite list_lookup_fmap, ?Hi, ?Hj.
Qed.

(** the load is one stream per aggregate.  Whatever aggregates are chosen,
    the events published are one per choice, each of one of the aggregates, and
    those of an aggregate have the serial versions from 1 on. *)
Theorem load_events_serial picks ids :
  NoDup ids -> Forall (fun i => (i < length ids)%nat) picks -> is_int (len picks) ->
  exists evs, load_events 0 picks (new_aggregates ids) = Some evs /\ len evs = len picks /\
    Forall (fun e => aggregateID e ∈ ids) evs /\
    forall id, id ∈ ids -> serial id 0 (events_of id evs).
Proof.
  intros Hnd Hp Hint.
  assert ((new_aggregates ids).*1 = ids) as Hfst.
  { unfold new_aggregates. rewrite <- list_fmap_compose. apply list_fmap_id. }
  destruct (load_events_from 0 picks (new_aggregates ids)) as (evs & Hl & Hlen & Hin & Hser).
  - by rewrite Hfst.
  - unfold new_aggregates. by rewrite length_fmap.
  - unfold new_aggregates. intros i id v Hi. rewrite list_lookup_fmap in Hi.
    destruct (ids !! i); [|done]. injection Hi as <- <-. by rewrite Z.add_0_l.
  - exists evs. rewrite Hfst in Hin. split; [done|]. split; [done|]. split; [done|].
    intros id [i Hi]%list_elem_of_lookup. apply (Hser i). unfold new_aggregates. by rewrite list_lookup_fmap, Hi.
Qed.

(** ** Event buses and outboxes *)

Section Test.
Context {B : Type} (run : nat -> M (B * rest) unit) (now : Time).
Abbreviation S := (B * rest)%type.

(** The handlers [i], [i + 1] and so on. *)
Fixpoint add_handlers (b : EventBus B) (ctx : context) (numHandlers i : nat) : test S (list nat) :=
  match numHandlers with
  | O => ret []
  | Datatypes.S k =>
      let! h := add_handler now b ctx (MatchAll []) ("handler-" +:+ pretty i) in
      let! hs := add_handlers b ctx k (Datatypes.S i) in
      ret (h :: hs)
  end.

(** A turn of the goroutine that receives from a handler, with the number of
    events it has received. *)
Definition receive_turn (numEvents : Z) (g : nat * Z) : test S (nat * Z) :=
  let '(h, numEventsReceived) := g in
  if numEventsReceived =? numEvents then ret g
  else
    let! m := mock_at h in
    let '(ok, m') := Wait m in
    do! set_mock h m' in
    ret (h, if ok then numEventsReceived + 1 else numEventsReceived).

Fixpoint receive_turns (numEvents : Z) (gs : list (nat * Z)) : test S (list (nat * Z)) :=
  match gs with
  | [] => ret []
  | g :: gs' =>
      let! g := receive_turn numEvents g in
      let! gs := receive_turns numEvents gs' in
      ret (g :: gs)
  end.

Definition round (k : nat) (numEvents : Z) (gs : list (nat * Z)) : test S (list (nat * Z)) :=
  do! sleep run k in receive_turns numEvents gs.

(** The loop that publishes; [msg] is what is reported of an error. *)
Fixpoint publish_events (b : EventBus B) (ctx : context) (msg : string) (numEvents : Z) (first : nat)
    (n : nat) (picks : list nat) (l : aggregates) (gs : list (nat * Z)) : test S (list (nat * Z)) :=
  match picks with
  | [] => ret gs
  | i :: picks' =>
      match next_event n i l with
      | None => panic "index out of range"
      | Some (e, l') =>
          let! r := call (bus_HandleEvent b ctx (Some e)) in
          do! expect (no_error r) msg in
          let! gs := round (first + n) numEvents gs in
          publish_events b ctx msg numEvents first (Datatypes.S n) picks' l' gs
      end
  end.

(** [wg.Wait()]: [rounds] fit in the timeout of the goroutines. *)
Fixpoint wait_all (rounds k : nat) (numEvents : Z) (gs : list (nat * Z)) : test S unit :=
  if forallb (fun g => g.2 =? numEvents) gs then ret tt
  else
    match rounds with
    | O => for_range gs (fun g => expect (g.2 =? numEvents) "did not receive message within timeout")
    | Datatypes.S rounds' =>
        let! gs := round k numEvents gs in wait_all rounds' (Datatypes.S k) numEvents gs
    end.

(** The first round is the [first] of the schedule. *)
Definition load (b : EventBus B) (ctx : context) (msg : string) (first : nat) (ids : list UUID)
    (picks : list nat) (handlers : list nat) (rounds : nat) : test S unit :=
  let numEvents := len picks in
  let! gs := publish_events b ctx msg numEvents first 0 picks (new_aggregates ids)
              ((fun h => (h, 0)) <$> handlers) in
  wait_all rounds (first + length picks) numEvents gs.

(** The [n]th new UUID, and the [n]th choice of an aggregate. *)
Context (uuid_New : nat -> UUID) (rand_IntN : nat -> nat).

Definition benchmark (b : EventBus B) (numAggregates numHandlers numEvents rounds : nat) : test S unit :=
  let ctx := Background in
  let! handlers := add_handlers b ctx numHandlers 0 in
  do! sleep run 0 in
  do! load b ctx "there should be no error" 1 (uuid_New <$> seq 0 numAggregates) (rand_IntN <$> seq 0 numEvents)
        handlers rounds in
  close b.

Definition LoadTest (b : EventBus B) (rounds : nat) : test S unit := benchmark b 20 10 1000 rounds.

Definition Benchmark (b : EventBus B) (N rounds : nat) : test S unit := benchmark b 20 10 N rounds.

Definition checkOutboxBenchErrors (o : EventBus B) : test S unit := drain 101 o.

Definition outbox_Benchmark (o : EventBus B) (N rounds : nat) : test S unit :=
  let! handlers := add_handlers o Background 3 0 in
  do! load o Background "could not handle event" 0 (uuid_New <$> seq 0 50) (rand_IntN <$> seq 0 N) handlers rounds in
  checkOutboxBenchErrors o.

End Test.

End Benchmarks.
