(* ===== verification/Scheduler.v ===== *)
(** * Scheduled commands ([middleware/commandhandler/scheduler])

    The middleware, the scheduler's methods, and its goroutines: the loop
    [run], which takes commands off the queue, and one goroutine per command,
    which waits for the command's time, its cancellation or the scheduler's
    end.  A channel that is only ever closed is named by the goroutine that
    waits for it.

    The repository of the persisted commands and the codec are parameters.
    Sends on the error channel wait for room in the code; here they append. *)

From stdpp Require Import base gmap strings list numbers option pretty.
From Stdlib Require Import Lia ZArith.
From S2P Require Import Prelude.
From S2P Require Import GoTypes.
From S2P Require Import Event.
From S2P Require Import Command.
From S2P Require Import Errors.
From S2P Require Import Fixtures.
From S2P Require Import CommandHandler.
From S2P Require Import Repo.

Definition ScheduledCommandsQueueSize : Z := 100.

(** A command value as the middleware tells them apart: without [ExecuteAt],
    with one of its own, or wrapped by [CommandWithExecuteTime]. *)
Inductive timed_command : Type :=
| Plain (cmd : option command)
| Own (cmd : command) (t : Time)
| Wrapped (cmd : option command) (t : Time).

Definition CommandWithExecuteTime (cmd : option command) (t : Time) : timed_command :=
  Wrapped cmd t.

Record scheduledCommand : Type := mkScheduled {
  sc_id : UUID;
  sc_ctx : context;
  sc_cmd : option command;
  sc_executeAt : Time
}.

Record PersistedCommand : Type := mkPersisted {
  pc_ID : UUID;
  IDStr : string;
  RawCommand : list Byte.byte;
  ExecuteAt : Time;
  pc_Command : option command;
  pc_Context : option context
}.

(** [cctx] is [None] before [Start], then whether it is done; [looping]: the
    loop of [run] has not ended.  [goroutines] are those that wait, [closed]
    the closed cancel channels. *)
Record Scheduler : Type := mkScheduler {
  handler_set : bool;
  cmdCh : list scheduledCommand;
  cancelScheduling : gmap UUID nat;
  closed : gset nat;
  goroutines : gmap nat scheduledCommand;
  next : nat;
  errCh : list error;
  cctx : option bool;
  looping : bool
}.

Definition NewScheduler : Scheduler := mkScheduler false [] ∅ ∅ ∅ 0 [] None false.

Definition setHandler : M Scheduler unit :=
  let! s := gets (fun s => s) in
  if handler_set s then panic "eventhorizon: handler already set for outbox"
  else modify (fun s => mkScheduler true (cmdCh s) (cancelScheduling s) (closed s) (goroutines s)
                          (next s) (errCh s) (cctx s) (looping s)).

Definition Start : M Scheduler unit :=
  let! s := gets (fun s => s) in
  if negb (handler_set s) then throw (ErrorString "command handler not set")
  else modify (fun s => mkScheduler true (cmdCh s) (cancelScheduling s) (closed s) (goroutines s)
                          (next s) (errCh s) (Some false) true).

(** [Stop] up to its wait for [done]: [s.cancel] is nil before [Start]. *)
Definition Stop : M Scheduler unit :=
  let! s := gets (fun s => s) in
  do! deref (cctx s) in
  modify (fun s => mkScheduler (handler_set s) (cmdCh s) (cancelScheduling s) (closed s) (goroutines s)
                     (next s) (errCh s) (Some true) (looping s)).

(** [done] is closed once the loop and every goroutine have ended. *)
Definition stopped (s : Scheduler) : Prop := looping s = false /\ goroutines s = ∅.

Definition report (ctx : context) (cmd : option command) (err : error) : M Scheduler unit :=
  modify (fun s => mkScheduler (handler_set s) (cmdCh s) (cancelScheduling s) (closed s) (goroutines s)
                     (next s) (errCh s ++ [ScheduleError err ctx cmd]) (cctx s) (looping s)).

(** [select { case s.cmdCh <- sc: default: .. }] *)
Definition enqueue (sc : scheduledCommand) (full : error) : M Scheduler unit :=
  let! s := gets (fun s => s) in
  if len (cmdCh s) <? ScheduledCommandsQueueSize
  then modify (fun s => mkScheduler (handler_set s) (cmdCh s ++ [sc]) (cancelScheduling s) (closed s)
                          (goroutines s) (next s) (errCh s) (cctx s) (looping s))
  else throw full.

Definition CancelCommand (uuid_String : UUID -> string) (id : UUID) : M Scheduler unit :=
  let! s := gets (fun s => s) in
  match cancelScheduling s !! id with
  | None => throw (ErrorString ("command " +:+ uuid_String id +:+ " not scheduled"))
  | Some cancel =>
      if decide (cancel ∈ closed s) then panic "close of closed channel"
      else modify (fun s => mkScheduler (handler_set s) (cmdCh s) (cancelScheduling s)
                              ({[cancel]} ∪ closed s) (goroutines s) (next s) (errCh s) (cctx s) (looping s))
  end.

(** The [cmdCh] case of [run]. *)
Definition receive (s : Scheduler) : Scheduler :=
  match cmdCh s with
  | [] => s
  | sc :: rest =>
      mkScheduler (handler_set s) rest (<[sc_id sc := next s]> (cancelScheduling s)) (closed s)
        (<[next s := sc]> (goroutines s)) (Datatypes.S (next s)) (errCh s) (cctx s) (looping s)
  end.

(** The [Done] case of [run]. *)
Definition break_loop (s : Scheduler) : Scheduler :=
  mkScheduler (handler_set s) (cmdCh s) (cancelScheduling s) (closed s) (goroutines s)
    (next s) (errCh s) (cctx s) false.

(** A goroutine returns. *)
Definition finish (n : nat) (s : Scheduler) : Scheduler :=
  mkScheduler (handler_set s) (cmdCh s) (cancelScheduling s) (closed s) (delete n (goroutines s))
    (next s) (errCh s) (cctx s) (looping s).

Section Scheduler.
Context {R E X : Type} `{Entity E}.
Context (repo : ReadWriteRepo R E).

(** [*PersistedCommand] as an [eh.Entity], the type assertion back, and the
    text of an entity's dynamic type. *)
Context (entity_of : PersistedCommand -> E) (as_PersistedCommand : E -> option PersistedCommand).
Context (type_String : E -> string).

(** [eh.CommandCodec], and the text of UUIDs. *)
Context (MarshalCommand : context -> option command -> list Byte.byte + error).
Context (UnmarshalCommand : context -> list Byte.byte -> (option command * context) + error).
Context (uuid_String : UUID -> string) (uuid_Parse : string -> UUID + error).

Definition persist (id : UUID) (b : list Byte.byte) (executeAt : Time) : PersistedCommand :=
  mkPersisted id (uuid_String id) b executeAt None None.

(** [ScheduleCommand]; [newID] is the ID [uuid.New] makes. *)
Definition ScheduleCommand (newID : UUID) (ctx : context) (cmd : option command) (executeAt : Time)
  : M (Scheduler * R) UUID :=
  let fail err := ScheduleError err ctx cmd in
  match MarshalCommand ctx cmd with
  | inr err => throw (fail (Errorf "could not marshal command" err))
  | inl b =>
      let id := default newID (cmd ≫= CommandID) in
      do! map_err (fun err => fail (Errorf "could not persist command" err))
            (zoom_snd (Save repo ctx (Some (entity_of (persist id b executeAt))))) in
      do! zoom_fst (enqueue (mkScheduled id ctx cmd executeAt) (fail (ErrorString "command queue full"))) in
      ret id
  end.

(** The loop of [Commands]. *)
Fixpoint restore_each (ctx : context) (entities : list E) : list PersistedCommand + error :=
  match entities with
  | [] => inl []
  | e :: entities' =>
      match as_PersistedCommand e with
      | None => inr (ErrorString ("command is not schedulable: " +:+ type_String e))
      | Some c =>
          match UnmarshalCommand ctx (RawCommand c) with
          | inr err => inr (Errorf "could not unmarshal command" err)
          | inl (cmd, cctx) =>
              match (if bool_decide (IDStr c <> "") then uuid_Parse (IDStr c) else inl (pc_ID c)) with
              | inr err => inr (Errorf "could not parse command ID" err)
              | inl id =>
                  match restore_each ctx entities' with
                  | inr err => inr err
                  | inl cs => inl (mkPersisted id (IDStr c) [] (ExecuteAt c) cmd (Some cctx) :: cs)
                  end
              end
          end
      end
  end.

Definition Commands (ctx : context) : M R (list PersistedCommand) :=
  let! entities := map_err (Errorf "could not load scheduled commands") (FindAll repo ctx) in
  match restore_each ctx entities with
  | inl commands => ret commands
  | inr err => throw err
  end.

(** The context of a restored command is not nil. *)
Definition scheduled_of (pc : PersistedCommand) : scheduledCommand :=
  mkScheduled (pc_ID pc) (default Background (pc_Context pc)) (pc_Command pc) (ExecuteAt pc).

Definition Load (ctx : context) : M (Scheduler * R) unit :=
  let! commands := map_err (Errorf "could not load scheduled commands") (zoom_snd (Commands ctx)) in
  for_range commands (fun pc =>
    zoom_fst (enqueue (scheduled_of pc)
      (ErrorString "could not schedule command, command queue full"))).

(** The middleware around [h]; [wrapper] is the wrapped command seen as a
    command. *)
Definition NewMiddleware (wrapper : option command -> Time -> command) (h : CommandHandlerFunc X)
    (newID : UUID) (ctx : context) (cmd : timed_command) : M (Scheduler * R * X) unit :=
  match cmd with
  | Plain cmd => zoom_snd (h ctx cmd)
  | Own cmd t =>
      if negb (IsZero t) then do! zoom_fst (ScheduleCommand newID ctx (Some cmd) t) in ret tt
      else zoom_snd (h ctx (Some cmd))
  | Wrapped cmd t =>
      if negb (IsZero t) then do! zoom_fst (ScheduleCommand newID ctx cmd t) in ret tt
      else zoom_snd (h ctx (Some (wrapper cmd t)))
  end.

(** ** The goroutines *)

Context (h : CommandHandlerFunc X).

Abbreviation St := (Scheduler * R * X)%type.

Definition on_scheduler {A} (m : M Scheduler A) : M St A := zoom_fst (zoom_fst m).

Definition remove_persisted (sc : scheduledCommand) : M St unit :=
  let! r := attempt (zoom_fst (zoom_snd (Remove repo (sc_ctx sc) (sc_id sc)))) in
  match r with
  | inl _ => ret tt
  | inr err => on_scheduler (report (sc_ctx sc) (sc_cmd sc) (Errorf "could not remove persisted command" err))
  end.

(** The timer's case. *)
Definition execute (sc : scheduledCommand) : M St unit :=
  let! r := attempt (zoom_snd (h (sc_ctx sc) (sc_cmd sc))) in
  do! match r with
      | inl _ => ret tt
      | inr err => on_scheduler (report (sc_ctx sc) (sc_cmd sc) err)
      end in
  remove_persisted sc.

(** The cancel channel's case. *)
Definition cancelled (sc : scheduledCommand) : M St unit :=
  do! remove_persisted sc in
  on_scheduler (report (sc_ctx sc) (sc_cmd sc) (Sentinel ErrCanceled)).

(** What can happen: calls of the methods, and the cases of the two
    [select]s.  [LFull]: [ScheduleCommand] failed after the command was encoded
    (for a command that can be persisted, on a full queue); [LLoad ctx q]: a
    call of [Load], which put [q] on the queue before it ended. *)
Inductive label : Type :=
| LSchedule (sc : scheduledCommand)
| LFull (sc : scheduledCommand)
| LLoad (ctx : context) (q : list scheduledCommand)
| LReceive
| LExecute (sc : scheduledCommand) (now : Time)
| LCancelled (sc : scheduledCommand)
| LStopped (sc : scheduledCommand)
| LCancel (id : UUID)
| LControl.

Inductive sched_step : St -> label -> St -> Prop :=
| step_schedule newID ctx cmd t id s r x s' r' :
    ScheduleCommand newID ctx cmd t (s, r) = (Ok id, (s', r')) ->
    sched_step (s, r, x) (LSchedule (mkScheduled id ctx cmd t)) (s', r', x)
| step_full newID ctx cmd t b err s r x s' r' :
    MarshalCommand ctx cmd = inl b ->
    ScheduleCommand newID ctx cmd t (s, r) = (Err err, (s', r')) ->
    sched_step (s, r, x) (LFull (mkScheduled (default newID (cmd ≫= CommandID)) ctx cmd t)) (s', r', x)
| step_not_encoded newID ctx cmd t e err s r x s' r' :
    MarshalCommand ctx cmd = inr e ->
    ScheduleCommand newID ctx cmd t (s, r) = (Err err, (s', r')) ->
    sched_step (s, r, x) LControl (s', r', x)
| step_load ctx q o s r x s' r' :
    Load ctx (s, r) = (o, (s', r')) -> (forall p, o <> Panic p) -> cmdCh s' = cmdCh s ++ q ->
    sched_step (s, r, x) (LLoad ctx q) (s', r', x)
| step_receive s r x :
    looping s = true -> sched_step (s, r, x) LReceive (receive s, r, x)
| step_timer n sc now s r x st' :
    goroutines s !! n = Some sc -> sc_executeAt sc <= now ->
    (do! execute sc in on_scheduler (modify (finish n))) (s, r, x) = (Ok tt, st') ->
    sched_step (s, r, x) (LExecute sc now) st'
| step_cancelled n sc s r x st' :
    goroutines s !! n = Some sc -> n ∈ closed s ->
    (do! cancelled sc in on_scheduler (modify (finish n))) (s, r, x) = (Ok tt, st') ->
    sched_step (s, r, x) (LCancelled sc) st'
| step_done n sc s r x :
    goroutines s !! n = Some sc -> cctx s = Some true ->
    sched_step (s, r, x) (LStopped sc) (finish n s, r, x)
| step_cancel id s s' r x :
    CancelCommand uuid_String id s = (Ok tt, s') -> sched_step (s, r, x) (LCancel id) (s', r, x)
| step_start s s' r x : Start s = (Ok tt, s') -> sched_step (s, r, x) LControl (s', r, x)
| step_stop s s' r x : Stop s = (Ok tt, s') -> sched_step (s, r, x) LControl (s', r, x)
| step_break s r x : cctx s = Some true -> sched_step (s, r, x) LControl (break_loop s, r, x).

Inductive sched_steps : St -> list label -> St -> Prop :=
| steps_nil st : sched_steps st [] st
| steps_cons st l st1 ls st2 : sched_step st l st1 -> sched_steps st1 ls st2 -> sched_steps st (l :: ls) st2.

Definition scheduled (ls : list label) : list scheduledCommand :=
  omap (fun l => match l with LSchedule sc => Some sc | _ => None end) ls.

Definition executed (ls : list label) : list (scheduledCommand * Time) :=
  omap (fun l => match l with LExecute sc now => Some (sc, now) | _ => None end) ls.

Definition was_cancelled (ls : list label) : list scheduledCommand :=
  omap (fun l => match l with LCancelled sc => Some sc | _ => None end) ls.

(** Commands dropped when the scheduler stopped, refused by a full queue, and
    put on the queue again by [Load]. *)
Definition dropped (ls : list label) : list scheduledCommand :=
  omap (fun l => match l with LStopped sc => Some sc | _ => None end) ls.

Definition refused (ls : list label) : list scheduledCommand :=
  omap (fun l => match l with LFull sc => Some sc | _ => None end) ls.

Definition loaded (ls : list label) : list scheduledCommand :=
  concat ((fun l => match l with LLoad _ q => q | _ => [] end) <$> ls).

(** What the rest of the program sees: the calls of the handler, by what they
    do to its state, and the errors sent on the error channel. *)
Definition observe (seen : X * list error) (l : label) : X * list error :=
  let (x, errs) := seen in
  match l with
  | LExecute sc _ =>
      let (o, x') := h (sc_ctx sc) (sc_cmd sc) x in
      (x', errs ++ match o with Err err => [ScheduleError err (sc_ctx sc) (sc_cmd sc)] | _ => [] end)
  | LCancelled sc => (x, errs ++ [ScheduleError (Sentinel ErrCanceled) (sc_ctx sc) (sc_cmd sc)])
  | _ => (x, errs)
  end.

(** The commands that still wait: in the queue or in a goroutine. *)
Definition waiting (s : Scheduler) : list scheduledCommand :=
  cmdCh s ++ (map_to_list (goroutines s)).*2.

(** ** The persisted commands *)

Context `{!RepoLaws repo}.

(** The part of a context that the codec keeps. *)
Context {K : Type} (kept : context -> K).

(** What is to be done: the command, its ID and time, and its context as far
    as the codec keeps it. *)
Definition what (sc : scheduledCommand) : UUID * option command * Time * K :=
  (sc_id sc, sc_cmd sc, sc_executeAt sc, kept (sc_ctx sc)).

Definition stored (sc : scheduledCommand) (e : E) : Prop :=
  exists ctx b, MarshalCommand ctx (sc_cmd sc) = inl b /\ kept ctx = kept (sc_ctx sc) /\
    e = entity_of (persist (sc_id sc) b (sc_executeAt sc)).

(** The repository keeps exactly the commands of [l]. *)
Definition keeps (r : R) (l : list scheduledCommand) : Prop :=
  repo_ok r /\ NoDup (sc_id <$> l) /\
  (forall id, is_Some (entities r !! id) -> id ∈ sc_id <$> l) /\
  Forall (fun sc => exists e, entities r !! sc_id sc = Some e /\ stored sc e) l.

Lemma keeps_perm r l l' : l ≡ₚ l' -> keeps r l -> keeps r l'.
Proof.
  intros Hp (Hok & Hnd & Hdom & HF). split; [done|]. split; [by rewrite <- Hp|].
  split; [|by rewrite <- Hp]. intros id Hid. rewrite <- Hp. by apply Hdom.
Qed.

#[local] Instance keeps_proper r : Proper ((≡ₚ) ==> iff) (keeps r).
Proof. intros l l' Hp. split; by apply keeps_perm. Qed.

Lemma keeps_add r r' sc e l :
  keeps r l -> entities r !! sc_id sc = None -> repo_ok r' ->
  entities r' = <[sc_id sc := e]> (entities r) -> stored sc e -> keeps r' (sc :: l).
Proof.
  intros (Hok & Hnd & Hdom & HF) Hn Hok' He Hst.
  assert (sc_id sc ∉ sc_id <$> l) as Hfresh.
  { intros (sc' & Heq & Hin)%list_elem_of_fmap. rewrite Forall_forall in HF.
    destruct (HF _ Hin) as (e' & He' & _). congruence. }
  split; [done|]. split; [simpl; by apply NoDup_cons|]. split.
  - intros id. rewrite He. destruct (decide (id = sc_id sc)) as [->|Hne]; [intros; by left|].
    rewrite lookup_insert_ne by done. intros ?. right. by apply Hdom.
  - constructor; [exists e; by rewrite He, lookup_insert_eq|].
    apply Forall_forall. intros sc' Hin. rewrite Forall_forall in HF.
    destruct (HF _ Hin) as (e' & He' & Hs'). exists e'. split; [|done].
    rewrite He, lookup_insert_ne; [done|]. intros Heq. apply Hfresh. rewrite Heq.
    by apply list_elem_of_fmap_2.
Qed.

Lemma keeps_remove r r' sc l :
  keeps r (sc :: l) -> repo_ok r' -> entities r' = delete (sc_id sc) (entities r) -> keeps r' l.
Proof.
  intros (Hok & Hnd & Hdom & HF) Hok' He. simpl in Hnd. apply NoDup_cons in Hnd as [Hni Hnd].
  apply Forall_cons in HF as [_ HF]. split; [done|]. split; [done|]. split.
  - intros id. rewrite He. destruct (decide (id = sc_id sc)) as [->|Hne].
    + rewrite lookup_delete_eq. by intros [].
    + rewrite lookup_delete_ne by done. intros Hs. apply Hdom in Hs. simpl in Hs.
      by apply elem_of_cons in Hs as [|].
  - apply Forall_forall. intros sc' Hin. rewrite Forall_forall in HF.
    destruct (HF _ Hin) as (e' & He' & Hs'). exists e'. split; [|done].
    rewrite He, lookup_delete_ne; [done|]. intros Heq. apply Hni. rewrite Heq.
    by apply list_elem_of_fmap_2.
Qed.

(** Which of the commands with the same [what] are meant does not matter. *)
Lemma stored_what sc sc' e : what sc = what sc' -> stored sc e -> stored sc' e.
Proof.
  unfold what. intros [= Hid Hc Ht Hk] (ctx & b & Hm & Hkept & ->).
  exists ctx, b. rewrite <- Hc, <- Hk, <- Hid, <- Ht. done.
Qed.

Lemma keeps_what r l l' : what <$> l = what <$> l' -> keeps r l -> keeps r l'.
Proof.
  intros Heq (Hok & Hnd & Hdom & HF).
  assert (sc_id <$> l = sc_id <$> l') as Hids.
  { pose proof (f_equal (fmap (fun w => w.1.1.1)) Heq) as Hi.
    rewrite <- !list_fmap_compose in Hi. exact Hi. }
  split; [done|]. rewrite <- Hids. split; [done|]. split; [done|]. clear Hnd Hdom Hids.
  revert l' Heq. induction HF as [|sc l (e & He & Hs) _ IH]; intros [|sc' l'] Heq; try done.
  pose proof (f_equal head Heq) as Hw. pose proof (f_equal tail Heq) as Hl. simpl in Hw, Hl.
  assert (what sc = what sc') as Hw' by congruence.
  constructor; [|by apply IH]. exists e. split; [|by eapply stored_what].
  replace (sc_id sc') with (sc_id sc); [done|]. unfold what in Hw'. congruence.
Qed.

(** The repository's entities are the stored forms of the commands it keeps. *)
Lemma keeps_entities r l :
  keeps r l -> exists es, Forall2 stored l es /\ (map_to_list (entities r)).*2 ≡ₚ es.
Proof.
  intros (_ & Hnd & Hdom & HF).
  assert (exists es, Forall2 stored l es /\
    Forall2 (fun sc e => entities r !! sc_id sc = Some e) l es) as (es & Hst & Hlk).
  { clear Hnd Hdom. induction HF as [|sc l (e & He & Hs) _ (es & IH1 & IH2)]; [by exists []|].
    exists (e :: es). by repeat constructor. }
  exists es. split; [done|]. pose proof (Forall2_length _ _ _ Hst) as Hlen.
  assert (entities r = list_to_map (zip (sc_id <$> l) es)) as Heq.
  { assert ((zip (sc_id <$> l) es).*1 = sc_id <$> l) as Hfst
      by (apply fst_zip; rewrite length_fmap; lia).
    apply map_eq. intros id. destruct (entities r !! id) as [e|] eqn:He.
    - symmetry. apply elem_of_list_to_map_1; [by rewrite Hfst|].
      assert (id ∈ sc_id <$> l) as (sc & -> & Hin)%list_elem_of_fmap by (apply Hdom; by eexists).
      apply list_elem_of_lookup in Hin as [k Hk].
      destruct (Forall2_lookup_l _ _ _ _ _ Hlk Hk) as (e' & He' & Heq).
      apply list_elem_of_lookup. exists k. apply lookup_zip_Some.
      rewrite list_lookup_fmap, Hk. simpl. split; [done|congruence].
    - symmetry. apply not_elem_of_list_to_map_1. rewrite Hfst.
      intros (sc & -> & Hin)%list_elem_of_fmap. rewrite Forall_forall in HF.
      destruct (HF _ Hin) as (e & He' & _). congruence. }
  rewrite Heq, map_to_list_to_map.
  - rewrite snd_zip; [done|]. rewrite length_fmap. lia.
  - rewrite fst_zip; [done|]. rewrite length_fmap. lia.
Qed.

(** ** The operations on a repository that keeps the commands *)

Context (entity_of_ID : forall pc, EntityID (entity_of pc) = pc_ID pc).

(** [s'] differs from [s] at most in its errors and its life cycle. *)
Definition same_work (s s' : Scheduler) : Prop :=
  cmdCh s' = cmdCh s /\ goroutines s' = goroutines s /\ next s' = next s /\
  closed s' = closed s /\ cancelScheduling s' = cancelScheduling s.

Definition queued (q : list scheduledCommand) (s : Scheduler) : Scheduler :=
  mkScheduler (handler_set s) (cmdCh s ++ q) (cancelScheduling s) (closed s)
    (goroutines s) (next s) (errCh s) (cctx s) (looping s).

Definition pushed (sc : scheduledCommand) : Scheduler -> Scheduler := queued [sc].

Lemma enqueue_spec sc full s :
  enqueue sc full s =
  if len (cmdCh s) <? ScheduledCommandsQueueSize then (Ok tt, pushed sc s) else (Err full, s).
Proof. unfold enqueue, bind, gets, modify, throw. by destruct (_ <? _). Qed.

(** A command with a new ID, which the repository can keep. *)
Definition new_command (r : R) (sc : scheduledCommand) : Prop :=
  entities r !! sc_id sc = None /\ sc_id sc <> Nil /\
  forall b, MarshalCommand (sc_ctx sc) (sc_cmd sc) = inl b ->
    keepable (entity_of (persist (sc_id sc) b (sc_executeAt sc))).

Lemma ScheduleCommand_spec newID ctx cmd t b s r :
  let id := default newID (cmd ≫= CommandID) in
  let sc := mkScheduled id ctx cmd t in
  repo_ok r -> new_command r sc -> MarshalCommand ctx cmd = inl b ->
  exists r', repo_ok r' /\ entities r' = <[id := entity_of (persist id b t)]> (entities r) /\
    stored sc (entity_of (persist id b t)) /\
    ScheduleCommand newID ctx cmd t (s, r) =
    if len (cmdCh s) <? ScheduledCommandsQueueSize then (Ok id, (pushed sc s, r'))
    else (Err (ScheduleError (ErrorString "command queue full") ctx cmd), (s, r')).
Proof.
  intros id sc Hok (Hn & Hnil & Hk) Hm. specialize (Hk _ Hm).
  destruct (law_save ctx r (entity_of (persist id b t)) Hok Hk) as (r' & Hs & Hok' & He).
  { by rewrite entity_of_ID. }
  rewrite entity_of_ID in He. exists r'. split; [done|]. split; [done|]. split; [by exists ctx, b|].
  unfold ScheduleCommand. rewrite Hm. fold id.
  rewrite (bind_ok _ _ _ (s, r') tt) by (apply map_err_ok; unfold zoom_snd, zoom; simpl; by rewrite Hs).
  unfold bind at 1, zoom_fst at 1, zoom. simpl fst. rewrite enqueue_spec. by destruct (_ <? _).
Qed.

Lemma ScheduleCommand_ID newID ctx cmd t s r id st' :
  ScheduleCommand newID ctx cmd t (s, r) = (Ok id, st') -> id = default newID (cmd ≫= CommandID).
Proof.
  unfold ScheduleCommand. destruct (MarshalCommand ctx cmd); [|done].
  intros ([] & st1 & _ & ([] & st2 & _ & [= <- _])%bind_inv_ok)%bind_inv_ok. done.
Qed.

Lemma remove_persisted_spec sc l s r x :
  keeps r (sc :: l) ->
  exists r', remove_persisted sc (s, r, x) = (Ok tt, (s, r', x)) /\ keeps r' l.
Proof.
  intros Hk. pose proof Hk as (Hok & _ & _ & HF). apply Forall_cons in HF as [(e & He & _) _].
  destruct (law_remove (sc_ctx sc) r (sc_id sc) e Hok He) as (r' & Hr & Hok' & He').
  exists r'. split; [|by eapply keeps_remove].
  unfold remove_persisted. rewrite (bind_ok _ _ _ (s, r', x) (inl tt)); [done|].
  apply attempt_ok. unfold zoom_fst, zoom_snd, zoom. simpl. by rewrite Hr.
Qed.

Lemma execute_spec sc now l s r x st' :
  keeps r (sc :: l) -> execute sc (s, r, x) = (Ok tt, st') ->
  exists s' r' x', st' = (s', r', x') /\ same_work s s' /\ keeps r' l /\
    (x', errCh s') = observe (x, errCh s) (LExecute sc now).
Proof.
  intros Hk He. unfold execute, bind at 1 in He.
  unfold attempt at 1, zoom_snd at 1, zoom in He. simpl snd in He. simpl fst in He. simpl observe.
  destruct (h (sc_ctx sc) (sc_cmd sc) x) as [[[]|err|p] x1]; [| |done].
  - destruct (remove_persisted_spec sc l s r x1 Hk) as (r' & Hr & Hk').
    rewrite (bind_ok _ _ _ (s, r, x1) tt), Hr in He by done. injection He as <-.
    exists s, r', x1. by rewrite app_nil_r.
  - set (s1 := (report (sc_ctx sc) (sc_cmd sc) err s).2).
    destruct (remove_persisted_spec sc l s1 r x1 Hk) as (r' & Hr & Hk').
    rewrite (bind_ok _ _ _ (s1, r, x1) tt), Hr in He by done. injection He as <-.
    by exists s1, r', x1.
Qed.

Lemma cancelled_spec sc l s r x :
  keeps r (sc :: l) ->
  exists s' r', cancelled sc (s, r, x) = (Ok tt, (s', r', x)) /\ same_work s s' /\ keeps r' l /\
    (x, errCh s') = observe (x, errCh s) (LCancelled sc).
Proof.
  intros Hk. destruct (remove_persisted_spec sc l s r x Hk) as (r' & Hr & Hk').
  eexists _, r'. split; [unfold cancelled; by rewrite (bind_ok _ _ _ _ _ Hr)|done].
Qed.

(** ** The scheduler's own state *)

Definition sched_ok (s : Scheduler) : Prop :=
  (forall n, is_Some (goroutines s !! n) -> (n < next s)%nat) /\
  (forall n, n ∈ closed s -> (n < next s)%nat) /\
  (forall id n, cancelScheduling s !! id = Some n ->
     (n < next s)%nat /\ forall sc, goroutines s !! n = Some sc -> sc_id sc = id).

Lemma same_work_ok s s' : same_work s s' -> sched_ok s -> sched_ok s' /\ waiting s' = waiting s.
Proof.
  intros (Hq & Hg & Hn & Hc & Hm) (H1 & H2 & H3). unfold sched_ok, waiting.
  rewrite Hq, Hg, Hn, Hc, Hm. done.
Qed.

Lemma finish_ok n sc s :
  goroutines s !! n = Some sc -> sched_ok s ->
  sched_ok (finish n s) /\ waiting s ≡ₚ sc :: waiting (finish n s).
Proof.
  clear uuid_Parse. intros Hn (H1 & H2 & H3). split.
  - split; [|split; [done|]]; simpl.
    + intros m [sc' Hm%lookup_delete_Some]. apply H1. naive_solver.
    + intros id m Hm. destruct (H3 id m Hm) as [Hlt Hid]. split; [done|].
      intros sc' Hsc%lookup_delete_Some. naive_solver.
  - unfold waiting. simpl. rewrite <- (map_to_list_delete _ _ _ Hn). simpl.
    by rewrite Permutation_middle.
Qed.

Lemma receive_ok s : sched_ok s -> sched_ok (receive s) /\ waiting (receive s) ≡ₚ waiting s.
Proof.
  intros Hs. pose proof Hs as (H1 & H2 & H3). unfold receive. destruct (cmdCh s) as [|sc rest] eqn:Hq; [done|].
  assert (goroutines s !! next s = None) as Hfresh.
  { apply eq_None_not_Some. intros Hx%H1. lia. }
  split.
  - split; [|split]; simpl.
    + intros n [sc' Hn]. destruct (decide (n = next s)) as [->|]; [lia|].
      rewrite lookup_insert_ne in Hn by done. apply Nat.lt_lt_succ_r, H1. by eexists.
    + intros n Hn%H2. lia.
    + intros id n Hn. destruct (decide (id = sc_id sc)) as [->|].
      * rewrite lookup_insert_eq in Hn. injection Hn as <-. split; [lia|].
        intros sc'. rewrite lookup_insert_eq. by intros [= <-].
      * rewrite lookup_insert_ne in Hn by done. destruct (H3 _ _ Hn) as [Hlt Hid].
        split; [lia|]. intros sc'. rewrite lookup_insert_ne by lia. apply Hid.
  - unfold waiting. rewrite Hq. simpl. rewrite map_to_list_insert by done. simpl.
    by rewrite <- Permutation_middle.
Qed.

Lemma CancelCommand_inv id s s' :
  CancelCommand uuid_String id s = (Ok tt, s') ->
  exists n, cancelScheduling s !! id = Some n /\
    s' = mkScheduler (handler_set s) (cmdCh s) (cancelScheduling s) ({[n]} ∪ closed s)
           (goroutines s) (next s) (errCh s) (cctx s) (looping s).
Proof.
  unfold CancelCommand. rewrite (bind_ok _ _ s s s) by done.
  destruct (cancelScheduling s !! id) as [n|]; [|done]. case_decide; [done|].
  intros [= <-]. by exists n.
Qed.

Lemma control_same s s' : Start s = (Ok tt, s') \/ Stop s = (Ok tt, s') -> same_work s s'.
Proof.
  unfold Start, Stop, bind, gets, modify, throw, deref, ret, panic. intros [Hs|Hs].
  - destruct (handler_set s); simpl in Hs; by simplify_eq.
  - destruct (cctx s); simpl in Hs; by simplify_eq.
Qed.

(** ** [Load] *)

Context (as_entity_of : forall pc, as_PersistedCommand (entity_of pc) = Some pc).
Context (uuid_Parse_String : forall id, uuid_Parse (uuid_String id) = inl id).

(** What is decoded in [ctx'] is what was encoded, with the context as far as
    it is kept. *)
Definition decodes_in (ctx' : context) : Prop :=
  forall ctx cmd b cmd' c, MarshalCommand ctx cmd = inl b -> UnmarshalCommand ctx' b = inl (cmd', c) ->
  cmd' = cmd /\ kept c = kept ctx.

Lemma restore_each_what ctx l es pcs :
  decodes_in ctx -> Forall2 stored l es -> restore_each ctx es = inl pcs ->
  what <$> (scheduled_of <$> pcs) = what <$> l.
Proof.
  intros Hd HF. revert pcs. induction HF as [|sc e l es (c0 & b & Hm & Hkept & ->) _ IH]; intros pcs; simpl.
  { by intros [= <-]. }
  rewrite as_entity_of. simpl. destruct (UnmarshalCommand ctx b) as [[cmd c]|err] eqn:Hu; [|done].
  destruct (Hd _ _ _ _ _ Hm Hu) as [-> Hc]. rewrite uuid_Parse_String.
  destruct (if bool_decide _ then _ else _) as [id|err] eqn:Hid; [|done].
  assert (id = sc_id sc) as -> by (case_bool_decide; congruence).
  destruct (restore_each ctx es) as [cs|err]; [|done]. intros [= <-]. simpl.
  f_equal; [|by apply IH]. unfold what, scheduled_of. simpl. by rewrite Hc, Hkept.
Qed.

Lemma queued_app q1 q2 s : queued q2 (queued q1 s) = queued (q1 ++ q2) s.
Proof. unfold queued. simpl. by rewrite <- app_assoc. Qed.

Lemma queued_nil s : queued [] s = s.
Proof. unfold queued. destruct s. simpl. by rewrite app_nil_r. Qed.

(** The loop of [Load] queues a prefix. *)
Lemma enqueue_prefix full pcs s (r : R) o s' r' :
  for_range pcs (fun pc => zoom_fst (enqueue (scheduled_of pc) full)) (s, r) = (o, (s', r')) ->
  r' = r /\ exists k, s' = queued (take k (scheduled_of <$> pcs)) s.
Proof.
  revert s. induction pcs as [|pc pcs IH]; intros s; simpl.
  { intros [= <- <- <-]. split; [done|]. exists 0%nat. by rewrite queued_nil. }
  unfold bind at 1, zoom_fst at 1, zoom. simpl. rewrite enqueue_spec.
  destruct (_ <? _); simpl.
  - intros (-> & k & ->)%IH. split; [done|]. exists (Datatypes.S k). unfold pushed. by rewrite queued_app.
  - intros [= <- <- <-]. split; [done|]. exists 0%nat. by rewrite queued_nil.
Qed.

Lemma Load_queues ctx s r o s' r' : Load ctx (s, r) = (o, (s', r')) -> exists q, s' = queued q s.
Proof.
  unfold Load, bind at 1, map_err, zoom_snd at 1, zoom. simpl.
  destruct (Commands ctx r) as [[pcs|err|p] r1]; simpl.
  - intros (_ & k & ->)%enqueue_prefix. by eexists.
  - intros [= <- <- <-]. exists []. by rewrite queued_nil.
  - intros [= <- <- <-]. exists []. by rewrite queued_nil.
Qed.

(** [Load] in a scheduler in which nothing waits takes what it queues from the
    persisted commands; the others stay left over. *)
Lemma Load_takes ctx s r o s' r' l :
  keeps r l -> decodes_in ctx -> Load ctx (s, r) = (o, (s', r')) ->
  exists q l', s' = queued q s /\ keeps r' (q ++ l') /\ what <$> l ≡ₚ what <$> (l' ++ q).
Proof.
  intros Hk Hd Hload. pose proof Hk as (Hok & _).
  destruct (law_find_all ctx r Hok) as (es & r1 & Hall & Hok1 & He & Hperm).
  assert (keeps r1 l) as Hk1 by (split; [done|]; rewrite He; apply Hk).
  unfold Load, bind at 1, map_err, zoom_snd at 1, zoom, Commands in Hload. simpl in Hload.
  rewrite (bind_ok _ _ _ r1 es) in Hload by (by apply map_err_ok).
  destruct (restore_each ctx es) as [pcs|err] eqn:Hres; simpl in Hload; cycle 1.
  { injection Hload as <- <- <-. exists [], l. rewrite queued_nil, app_nil_r. done. }
  apply enqueue_prefix in Hload as (-> & k & ->).
  destruct (keeps_entities r l Hk) as (es' & Hst & Hperm').
  destruct (Permutation_Forall2 (P := fun e sc => stored sc e) (l1 := es') (l1' := es) (l2 := l))
    as (l2 & Hl2 & Hst2%Forall2_flip); [by rewrite Hperm, Hperm'|by apply Forall2_flip|].
  pose proof (restore_each_what ctx l2 es pcs Hd Hst2 Hres) as Hw.
  exists (take k (scheduled_of <$> pcs)), (drop k (scheduled_of <$> pcs)). split; [done|]. split.
  - rewrite take_drop. apply (keeps_what _ l2); [done|]. by apply (keeps_perm _ l).
  - rewrite Permutation_app_comm, take_drop, Hw. by rewrite Hl2.
Qed.

(** ** Runs *)

(** A closed channel a goroutine waits for was so before, or a call of
    [CancelCommand] for that goroutine's command just closed it. *)
Definition closed_by (s : Scheduler) (l : label) (s' : Scheduler) : Prop :=
  forall n sc, n ∈ closed s' -> goroutines s' !! n = Some sc ->
    (n ∈ closed s /\ goroutines s !! n = Some sc) \/ l = LCancel (sc_id sc).

Lemma closed_by_finish n s l s' : closed_by s l s' -> closed_by s l (finish n s').
Proof.
  intros Hc m sc Hm Hn. simpl in Hn. apply lookup_delete_Some in Hn as [_ Hn]. by apply Hc.
Qed.

Lemma closed_by_same s l s' : same_work s s' -> closed_by s l s'.
Proof. intros (_ & Hg & _ & Hc & _) n sc. rewrite Hg, Hc. by left. Qed.

Lemma closed_by_receive s l : sched_ok s -> closed_by s l (receive s).
Proof.
  intros (_ & H2 & _) n sc. unfold receive. destruct (cmdCh s); [by left|]. simpl.
  intros Hn. pose proof (H2 _ Hn). rewrite lookup_insert_ne by lia. by left.
Qed.

(** [L] are the commands that are persisted although nothing waits for them,
    before the step, and [L'] after it. *)
Definition step_ok (s : Scheduler) (r : R) (x : X) (l : label) (s' : Scheduler) (r' : R) (x' : X)
    (L L' : list scheduledCommand) : Prop :=
  sched_ok s' /\ closed_by s l s' /\
  waiting s ++ scheduled [l] ++ loaded [l] ≡ₚ
    waiting s' ++ (executed [l]).*1 ++ was_cancelled [l] ++ dropped [l] /\
  what <$> (L ++ refused [l] ++ dropped [l]) ≡ₚ what <$> (L' ++ loaded [l]) /\
  keeps r' (waiting s' ++ L') /\
  (x', errCh s') = observe (x, errCh s) l.

(** The parts of a single label. *)
Ltac one_label := unfold loaded; simpl; rewrite ?app_nil_r.

(** A step that leaves the waiting commands and the repository alone. *)
Lemma quiet_step s r x l s' L :
  sched_ok s' -> closed_by s l s' -> waiting s' ≡ₚ waiting s -> errCh s' = errCh s ->
  keeps r (waiting s ++ L) -> (l = LReceive \/ l = LControl \/ exists id, l = LCancel id) ->
  step_ok s r x l s' r x L L.
Proof.
  intros Hs Hc Hw He Hk Hl. split; [done|]. split; [done|].
  destruct Hl as [->|[->|[id ->]]]; one_label; rewrite Hw, He;
    (split; [done|]); (split; [done|]); done.
Qed.

Lemma waiting_queued q s : waiting (queued q s) ≡ₚ waiting s ++ q.
Proof.
  unfold waiting. simpl. rewrite <- !app_assoc. apply Permutation_app_head, Permutation_app_comm.
Qed.

Lemma schedule_step newID ctx cmd t b s r x o s' r' L :
  let sc := mkScheduled (default newID (cmd ≫= CommandID)) ctx cmd t in
  sched_ok s -> keeps r (waiting s ++ L) -> new_command r sc -> MarshalCommand ctx cmd = inl b ->
  ScheduleCommand newID ctx cmd t (s, r) = (o, (s', r')) ->
  (o = Ok (sc_id sc) /\ step_ok s r x (LSchedule sc) s' r' x L L) \/
  ((exists err, o = Err err) /\ step_ok s r x (LFull sc) s' r' x L (sc :: L)).
Proof.
  intros sc Hs Hk Hf Hm Hr. pose proof Hk as (Hok & _).
  destruct (ScheduleCommand_spec newID ctx cmd t b s r Hok Hf Hm) as (r1 & Hok1 & He1 & Hst & Hspec).
  rewrite Hspec in Hr. fold sc in Hr, Hst, He1.
  pose proof (keeps_add r r1 sc _ _ Hk (proj1 Hf) Hok1 He1 Hst) as Hk1.
  pose proof (waiting_queued [sc] s) as Hp.
  destruct (_ <? _); injection Hr as <- <- <-; [left|right].
  - split; [done|]. split; [done|]. split; [by intros n sc' ??; left|]. one_label.
    split; [by rewrite Hp|]. split; [done|]. split; [|done].
    eapply keeps_perm; [|done]. rewrite Hp. simpl. by rewrite <- Permutation_cons_append.
  - split; [by eexists|]. split; [done|]. split; [by apply closed_by_same|]. one_label.
    split; [done|]. split; [by rewrite <- Permutation_cons_append|]. split; [|done].
    eapply keeps_perm; [|done]. by rewrite Permutation_middle.
Qed.

Lemma load_step ctx q o s r x s' r' L :
  sched_ok s -> keeps r (waiting s ++ L) -> waiting s = [] -> decodes_in ctx ->
  Load ctx (s, r) = (o, (s', r')) -> cmdCh s' = cmdCh s ++ q ->
  exists L', step_ok s r x (LLoad ctx q) s' r' x L L'.
Proof.
  intros Hs Hk Hw Hd Hload Hq. rewrite Hw in Hk.
  destruct (Load_takes ctx s r o s' r' L Hk Hd Hload) as (q' & L' & -> & Hk' & Hwhat).
  simpl in Hq. apply app_inv_head in Hq as ->.
  exists L'. split; [done|]. split; [by intros n sc ??; left|].
  one_label. rewrite (waiting_queued q s), Hw. done.
Qed.

(** A goroutine's last step: [m] removes the persisted command. *)
Lemma goroutine_step n sc l (m : M St unit) s r x st' L :
  goroutines s !! n = Some sc -> sched_ok s -> keeps r (waiting s ++ L) ->
  (forall l' st1, keeps r (sc :: l') -> m (s, r, x) = (Ok tt, st1) ->
     exists s1 r1 x1, st1 = (s1, r1, x1) /\ same_work s s1 /\ keeps r1 l' /\
       (x1, errCh s1) = observe (x, errCh s) l) ->
  (do! m in on_scheduler (modify (finish n))) (s, r, x) = (Ok tt, st') ->
  (l = LCancelled sc \/ exists now, l = LExecute sc now) ->
  exists s' r' x', st' = (s', r', x') /\ step_ok s r x l s' r' x' L L.
Proof.
  intros Hn Hs Hk Hm Hr Hl.
  apply bind_inv_ok in Hr as ([] & st1 & Hr1 & Hfin).
  destruct (finish_ok n sc s Hn Hs) as [_ Hw].
  destruct (Hm (waiting (finish n s) ++ L) st1) as (s1 & r1 & x1 & -> & Hsame & Hk1 & Hobs); [|done|].
  { eapply keeps_perm; [|done]. by rewrite Hw. }
  destruct (same_work_ok _ _ Hsame Hs) as [Hs1 Hw1].
  assert (goroutines s1 !! n = Some sc) as Hn1 by (destruct Hsame as (_ & -> & _); done).
  destruct (finish_ok n sc s1 Hn1 Hs1) as [Hs1' Hw1'].
  injection Hfin as <-. exists (finish n s1), r1, x1. split; [done|].
  assert (waiting (finish n s1) = waiting (finish n s)) as Heq.
  { unfold waiting. simpl. by destruct Hsame as (-> & -> & _). }
  split; [done|]. split; [by apply closed_by_finish, closed_by_same|].
  rewrite Heq. split; [|split; [|split; [done|done]]].
  - destruct Hl as [->|[now ->]]; one_label; rewrite Hw; by rewrite Permutation_app_comm.
  - by destruct Hl as [->|[now ->]].
Qed.

(** How the scheduler is meant to be used: commands have new IDs, and [Load]
    is called while no command waits, with a context in which commands are
    decoded as they were encoded. *)
Definition tidy (st : St) (l : label) : Prop :=
  match l with
  | LSchedule sc | LFull sc => new_command st.1.2 sc
  | LLoad ctx _ => waiting st.1.1 = [] /\ decodes_in ctx
  | _ => True
  end.

Lemma stopped_step n sc s r x L :
  goroutines s !! n = Some sc -> sched_ok s -> keeps r (waiting s ++ L) ->
  step_ok s r x (LStopped sc) (finish n s) r x L (sc :: L).
Proof.
  intros Hn Hs Hk. destruct (finish_ok n sc s Hn Hs) as [Hs' Hw].
  split; [done|]. split; [by apply closed_by_finish, closed_by_same|]. one_label.
  split; [rewrite Hw; by rewrite <- Permutation_cons_append|].
  split; [by rewrite <- Permutation_cons_append|]. split; [|done].
  eapply keeps_perm; [|done]. rewrite Hw. simpl. by rewrite Permutation_middle.
Qed.

Lemma cancel_step id s s' r x L :
  CancelCommand uuid_String id s = (Ok tt, s') -> sched_ok s -> keeps r (waiting s ++ L) ->
  step_ok s r x (LCancel id) s' r x L L.
Proof.
  intros (n & Hn & ->)%CancelCommand_inv Hs Hk.
  destruct Hs as (H1 & H2 & H3). destruct (H3 _ _ Hn) as [Hlt Hid].
  apply quiet_step; try done; [| |by eauto].
  - split; [done|]. split; [|done].
    simpl. intros m [->%elem_of_singleton|Hm]%elem_of_union; [done|by apply H2].
  - intros m sc [->%elem_of_singleton|Hm]%elem_of_union Hsc; [right|by left].
    by rewrite (Hid _ Hsc).
Qed.

Lemma control_step s s' r x L :
  same_work s s' -> errCh s' = errCh s -> sched_ok s -> keeps r (waiting s ++ L) ->
  step_ok s r x LControl s' r x L L.
Proof.
  intros Hc He Hs Hk. destruct (same_work_ok _ _ Hc Hs) as [? Hw].
  apply quiet_step; try done; [by apply closed_by_same|by rewrite Hw|by eauto].
Qed.

Lemma control_errors s s' : Start s = (Ok tt, s') \/ Stop s = (Ok tt, s') -> errCh s' = errCh s.
Proof.
  unfold Start, Stop, bind, gets, modify, throw, deref, ret, panic. intros [Hs|Hs].
  - destruct (handler_set s); simpl in Hs; by simplify_eq.
  - destruct (cctx s); simpl in Hs; by simplify_eq.
Qed.

Lemma sched_step_ok s r x l st' L :
  sched_step (s, r, x) l st' -> tidy (s, r, x) l -> sched_ok s -> keeps r (waiting s ++ L) ->
  exists s' r' x' L', st' = (s', r', x') /\ step_ok s r x l s' r' x' L L'.
Proof.
  intros Hstep Htidy Hs Hk. remember (s, r, x) as st eqn:Hst. revert Hst Htidy.
  destruct Hstep as [newID ctx cmd t id s1 r1 x1 s' r' Hr|newID ctx cmd t b err s1 r1 x1 s' r' Hm Hr|
    newID ctx cmd t e err s1 r1 x1 s' r' Hm Hr|ctx q o s1 r1 x1 s' r' Hr Ho Hq|
    s1 r1 x1 Hl|n sc now s1 r1 x1 st' Hn Ht Hr|n sc s1 r1 x1 st' Hn Hc Hr|n sc s1 r1 x1 Hn Hc|
    id s1 s' r1 x1 Hc|s1 s' r1 x1 Hc|s1 s' r1 x1 Hc|s1 r1 x1 Hc]; intros [= -> -> ->] Htidy; simpl in Htidy.
  - destruct (MarshalCommand ctx cmd) as [b|err] eqn:Hm.
    + assert (id = default newID (cmd ≫= CommandID)) as -> by (by eapply ScheduleCommand_ID).
      destruct (schedule_step newID ctx cmd t b s r x _ s' r' L Hs Hk Htidy Hm Hr)
        as [[_ H1]|[[? [=]] _]]. by exists s', r', x, L.
    + unfold ScheduleCommand in Hr. by rewrite Hm in Hr.
  - destruct (schedule_step newID ctx cmd t b s r x _ s' r' L Hs Hk Htidy Hm Hr) as [[[=] _]|[_ H1]].
    by eexists s', r', x, _.
  - unfold ScheduleCommand in Hr. rewrite Hm in Hr. injection Hr as <- <- <-.
    exists s, r, x, L. split; [done|]. by apply control_step.
  - destruct Htidy as [Hw Hd]. destruct (load_step ctx q o s r x s' r' L Hs Hk Hw Hd Hr Hq) as [L' H1].
    by exists s', r', x, L'.
  - destruct (receive_ok s Hs) as [Hs' Hw]. exists (receive s), r, x, L. split; [done|].
    apply quiet_step; try done; [by apply closed_by_receive| |by eauto].
    unfold receive. by destruct (cmdCh s).
  - destruct (goroutine_step n sc (LExecute sc now) (execute sc) s r x st' L Hn Hs Hk)
      as (s1 & r1 & x1 & ? & ?); [intros l st1; apply execute_spec|done|by eauto|]. by exists s1, r1, x1, L.
  - destruct (goroutine_step n sc (LCancelled sc) (cancelled sc) s r x st' L Hn Hs Hk)
      as (s1 & r1 & x1 & ? & ?); [|done|by eauto|by exists s1, r1, x1, L].
    intros l st1 Hkeep Hrun. destruct (cancelled_spec sc l s r x Hkeep) as (s1 & r1 & Heq & H1).
    rewrite Heq in Hrun. injection Hrun as <-. by exists s1, r1, x.
  - exists (finish n s), r, x, (sc :: L). split; [done|]. by apply stopped_step.
  - exists s', r, x, L. split; [done|]. by apply cancel_step.
  - exists s', r, x, L. split; [done|]. apply control_step; auto using control_same, control_errors.
  - exists s', r, x, L. split; [done|]. apply control_step; auto using control_same, control_errors.
  - exists (break_loop s), r, x, L. split; [done|]. by apply control_step.
Qed.

Lemma labels_cons l ls :
  scheduled (l :: ls) = scheduled [l] ++ scheduled ls /\
  refused (l :: ls) = refused [l] ++ refused ls /\
  executed (l :: ls) = executed [l] ++ executed ls /\
  was_cancelled (l :: ls) = was_cancelled [l] ++ was_cancelled ls /\
  dropped (l :: ls) = dropped [l] ++ dropped ls /\
  loaded (l :: ls) = loaded [l] ++ loaded ls.
Proof. unfold loaded. destruct l; simpl; by rewrite ?app_nil_r. Qed.

Lemma balance_trans {A} (W W1 W2 S1 F1 E1 C1 L1 S2 F2 E2 C2 L2 : list A) :
  W ++ S1 ++ F1 ≡ₚ W1 ++ E1 ++ C1 ++ L1 ->
  W1 ++ S2 ++ F2 ≡ₚ W2 ++ E2 ++ C2 ++ L2 ->
  W ++ (S1 ++ S2) ++ F1 ++ F2 ≡ₚ W2 ++ (E1 ++ E2) ++ (C1 ++ C2) ++ L1 ++ L2.
Proof.
  intros H1 H2. trans ((W ++ S1 ++ F1) ++ S2 ++ F2).
  { rewrite <- !app_assoc. do 2 apply Permutation_app_head. apply Permutation_app_swap_app. }
  rewrite H1. trans ((W1 ++ S2 ++ F2) ++ E1 ++ C1 ++ L1).
  { rewrite <- (app_assoc W1), <- (app_assoc W1). apply Permutation_app_head, Permutation_app_comm. }
  rewrite H2, <- !app_assoc. apply Permutation_app_head.
  rewrite (Permutation_app_swap_app L2 E1), (Permutation_app_swap_app C2 E1), (Permutation_app_swap_app E2 E1).
  do 2 apply Permutation_app_head.
  rewrite (Permutation_app_swap_app L2 C1), (Permutation_app_swap_app C2 C1).
  do 2 apply Permutation_app_head. apply Permutation_app_comm.
Qed.

(** What a step executes is due, and what it cancels has a closed channel. *)
Lemma step_ends s r x l st' :
  sched_step (s, r, x) l st' ->
  Forall (fun p => sc_executeAt p.1 <= p.2) (executed [l]) /\
  (forall sc, sc ∈ was_cancelled [l] -> exists n, n ∈ closed s /\ goroutines s !! n = Some sc).
Proof.
  intros Hs. inversion Hs; subst; simpl; split; try (by constructor); try (intros ? Hx; by apply elem_of_nil in Hx).
  intros sc' ->%list_elem_of_singleton. by exists n.
Qed.

Inductive tidy_steps : St -> list label -> St -> Prop :=
| tidy_nil st : tidy_steps st [] st
| tidy_cons st l st1 ls st2 :
    sched_step st l st1 -> tidy st l -> tidy_steps st1 ls st2 -> tidy_steps st (l :: ls) st2.

Lemma tidy_steps_are_steps st ls st' : tidy_steps st ls st' -> sched_steps st ls st'.
Proof. induction 1; econstructor; eauto. Qed.

Lemma run_ok st ls st' :
  tidy_steps st ls st' -> forall s r x L pre,
  st = (s, r, x) -> sched_ok s -> keeps r (waiting s ++ L) ->
  (forall n sc, n ∈ closed s -> goroutines s !! n = Some sc -> LCancel (sc_id sc) ∈ pre) ->
  exists s' r' x' L', st' = (s', r', x') /\ sched_ok s' /\
    waiting s ++ scheduled ls ++ loaded ls ≡ₚ
      waiting s' ++ (executed ls).*1 ++ was_cancelled ls ++ dropped ls /\
    what <$> (L ++ refused ls ++ dropped ls) ≡ₚ what <$> (L' ++ loaded ls) /\
    keeps r' (waiting s' ++ L') /\
    (x', errCh s') = foldl observe (x, errCh s) ls /\
    Forall (fun p => sc_executeAt p.1 <= p.2) (executed ls) /\
    (forall sc, sc ∈ was_cancelled ls -> LCancel (sc_id sc) ∈ pre ++ ls).
Proof.
  induction 1 as [st|st l st1 ls st2 H1 Ht1 _ IH]; intros s r x L pre -> Hs Hk Hpre.
  { exists s, r, x, L. split; [done|]. split; [done|]. split; [done|]. split; [done|]. split; [done|].
    split; [done|]. split; [constructor|]. intros sc Hsc. by apply elem_of_nil in Hsc. }
  destruct (step_ends _ _ _ _ _ H1) as [Htime Hcan].
  destruct (sched_step_ok _ _ _ _ _ L H1 Ht1 Hs Hk)
    as (s1 & r1 & x1 & L1 & -> & Hs1 & Hc1 & Hp1 & Hq1 & Hk1 & Ho1).
  destruct (IH s1 r1 x1 L1 (pre ++ [l]) eq_refl Hs1 Hk1)
    as (s2 & r2 & x2 & L2 & -> & Hs2 & Hp2 & Hq2 & Hk2 & Ho2 & Ht2 & Hcan2).
  { intros n sc Hn Hg. destruct (Hc1 n sc Hn Hg) as [[? ?]| ->]; [|set_solver].
    apply elem_of_app. left. by eapply Hpre. }
  exists s2, r2, x2, L2. split; [done|]. split; [done|].
  destruct (labels_cons l ls) as (-> & -> & -> & -> & -> & ->).
  rewrite fmap_app. split; [by eapply balance_trans|]. split; [|split; [done|split; [|split]]].
  - rewrite !fmap_app in *.
    pose proof (balance_trans (what <$> L) (what <$> L1) (what <$> L2) (what <$> refused [l])
      (what <$> dropped [l]) [] [] (what <$> loaded [l]) (what <$> refused ls)
      (what <$> dropped ls) [] [] (what <$> loaded ls) Hq1 Hq2) as Hb. exact Hb.
  - rewrite Ho1 in Ho2. exact Ho2.
  - by apply Forall_app.
  - intros sc [Hsc|Hsc]%elem_of_app.
    + destruct (Hcan sc Hsc) as (n & Hn & Hg). apply elem_of_app. left. by eapply Hpre.
    + specialize (Hcan2 sc Hsc). by rewrite <- app_assoc in Hcan2.
Qed.

(** C29: every scheduled command ends once.  Start from a scheduler with nothing
    cancelled and a repository that keeps exactly the commands that wait and
    some left over ([L]), and take any interleaving of the scheduler's calls and
    the cases of its goroutines, each one step, in which commands are scheduled
    under new IDs and [Load] is called while nothing waits (as after a restart)
    and decodes commands as they were encoded.  Each command that was waiting, was scheduled or was loaded is afterwards in
    exactly one place: still waiting, executed, cancelled, or dropped when the
    scheduler stopped.  The repository keeps exactly the commands that wait and
    those left over; and what was left over, was refused by a full queue or was
    dropped is still left over or has been loaded again.  The handler ran
    exactly for the executed commands, in that order and once each, and the
    errors sent are its errors and one [ErrCanceled] per cancelled command.  No
    command is executed before its time, and none is cancelled without a
    [CancelCommand] for it. *)
Theorem scheduled_commands_accounted s r x L ls st' :
  tidy_steps (s, r, x) ls st' ->
  sched_ok s -> keeps r (waiting s ++ L) -> closed s = ∅ ->
  exists s' r' x' L', st' = (s', r', x') /\
    waiting s ++ scheduled ls ++ loaded ls ≡ₚ
      waiting s' ++ (executed ls).*1 ++ was_cancelled ls ++ dropped ls /\
    what <$> (L ++ refused ls ++ dropped ls) ≡ₚ what <$> (L' ++ loaded ls) /\
    keeps r' (waiting s' ++ L') /\
    (x', errCh s') = foldl observe (x, errCh s) ls /\
    Forall (fun p => sc_executeAt p.1 <= p.2) (executed ls) /\
    (forall sc, sc ∈ was_cancelled ls -> LCancel (sc_id sc) ∈ ls).
Proof.
  intros Hr Hs Hk Hc.
  destruct (run_ok _ _ _ Hr s r x L [] eq_refl Hs Hk)
    as (s' & r' & x' & L' & -> & _ & Hrest); [|by exists s', r', x', L'].
  intros n sc. rewrite Hc. set_solver.
Qed.

(** ** Cancelling twice *)

Lemma remove_persisted_same sc s r x o s' r' x' :
  remove_persisted sc (s, r, x) = (o, (s', r', x')) -> same_work s s'.
Proof.
  unfold remove_persisted, bind, attempt, zoom_fst, zoom_snd, zoom. simpl.
  destruct (Remove repo _ _ r) as [[[]|err|p] r1]; simpl; intros [= <- <- <- <-]; done.
Qed.

Lemma execute_same sc s r x o s' r' x' :
  execute sc (s, r, x) = (o, (s', r', x')) -> same_work s s'.
Proof.
  unfold execute, bind at 1, attempt, zoom_snd at 1, zoom. simpl.
  destruct (h _ _ x) as [[[]|err|p] x1]; [| |by intros [= <- <- <- <-]].
  - rewrite (bind_ok _ _ _ (s, r, x1) tt) by done. apply remove_persisted_same.
  - rewrite (bind_ok _ _ _ ((report (sc_ctx sc) (sc_cmd sc) err s).2, r, x1) tt) by done.
    apply remove_persisted_same.
Qed.

(** The channel of [id] is there and closed. *)
Definition closed_for (id : UUID) (s : Scheduler) : Prop :=
  exists n, cancelScheduling s !! id = Some n /\ n ∈ closed s.

Lemma closed_for_same id s s' : same_work s s' -> closed_for id s -> closed_for id s'.
Proof. unfold closed_for. by intros (_ & _ & _ & -> & ->). Qed.

Lemma ScheduleCommand_queues newID ctx cmd t s r o s' r' :
  ScheduleCommand newID ctx cmd t (s, r) = (o, (s', r')) -> exists q, s' = queued q s.
Proof.
  assert (exists q, s = queued q s) as Hsame by (exists []; by rewrite queued_nil).
  unfold ScheduleCommand. destruct (MarshalCommand ctx cmd) as [b|]; [|by intros [= _ <- _]].
  unfold bind at 1, map_err, zoom_snd, zoom. simpl.
  destruct (Save repo _ _ r) as [[[]|e|p] r0]; simpl; [|by intros [= _ <- _]|by intros [= _ <- _]].
  unfold bind, zoom_fst, zoom. simpl. rewrite enqueue_spec.
  destruct (_ <? _); intros [= _ <- _]; [by eexists|done].
Qed.

Lemma closed_for_step id s r x l s' r' x' :
  sched_step (s, r, x) l (s', r', x') -> l <> LReceive -> closed_for id s -> closed_for id s'.
Proof.
  assert (forall n (m : M St unit) st', (forall o s' r' x', m (s, r, x) = (o, (s', r', x')) -> same_work s s') ->
    (do! m in on_scheduler (modify (finish n))) (s, r, x) = (Ok tt, st') -> closed_for id s ->
    closed_for id st'.1.1) as Hfin.
  { intros n m st' Hm ([] & [[s1 r1] x1] & H1 & H2)%bind_inv_ok Hc. injection H2 as <-.
    exact (closed_for_same id s s1 (Hm _ _ _ _ H1) Hc). }
  intros Hs Hl Hc. inversion Hs; subst; try done;
    try (by match goal with Hr : ScheduleCommand _ _ _ _ _ = _ |- _ =>
              destruct (ScheduleCommand_queues _ _ _ _ _ _ _ _ _ Hr) as [q ->] end).
  - by match goal with Hr : Load _ _ = _ |- _ => destruct (Load_queues _ _ _ _ _ _ Hr) as [q' ->] end.
  - eapply (Hfin _ _ (s', r', x')); [|done|done]. intros o s1 r1 x1. apply execute_same.
  - eapply (Hfin _ _ (s', r', x')); [|done|done]. intros o s1 r1 x1. unfold cancelled, bind.
    destruct (remove_persisted sc (s, r, x)) as [[[]|err|p] [[s2 r2] x2]] eqn:Hrem;
      apply remove_persisted_same in Hrem; by intros [= <- <- <- <-].
  - match goal with Hcc : CancelCommand _ _ _ = _ |- _ => apply CancelCommand_inv in Hcc as (n & Hn & ->) end.
    destruct Hc as (m & Hm & Hin). exists m. split; [done|]. by apply elem_of_union_r.
  - eapply closed_for_same; [|done]. apply control_same. by left.
  - eapply closed_for_same; [|done]. apply control_same. by right.
Qed.

(** cancelling a command twice crashes the program.  The entry of a
    cancelled command is never removed: after a [CancelCommand] that succeeded,
    whatever runs next, as long as no further command is taken off the queue,
    another one for the same ID closes the closed channel and panics. *)
Theorem CancelCommand_twice_panics id s s1 r x ls s2 r2 x2 :
  CancelCommand uuid_String id s = (Ok tt, s1) ->
  sched_steps (s1, r, x) ls (s2, r2, x2) -> Forall (fun l => l <> LReceive) ls ->
  CancelCommand uuid_String id s2 = (Panic "close of closed channel", s2).
Proof.
  intros (n & Hn & ->)%CancelCommand_inv Hr Hl.
  assert (closed_for id s2) as (m & Hm & Hin).
  { remember (s2, r2, x2) as st2 eqn:Hst2. revert s2 r2 x2 Hst2.
    match type of Hr with sched_steps ?st _ _ => remember st as st1 eqn:Hst1 end.
    assert (closed_for id st1.1.1) as Hc by (subst st1; exists n; split; [done|]; by apply elem_of_union_l, elem_of_singleton). clear Hst1.
    induction Hr as [st|st l st1 ls st2 H1 _ IH]; intros s2 r2 x2 ->; [done|].
    apply Forall_cons in Hl as [Hl1 Hl]. eapply (IH Hl); [|done].
    destruct st as [[sa ra] xa], st1 as [[sb rb] xb]. by eapply closed_for_step. }
  unfold CancelCommand. rewrite (bind_ok _ _ s2 s2 s2) by done. by rewrite Hm, decide_True.
Qed.

(** ** Restarting *)

Context (restore : context -> context).

(** The codec gives back the command, and the context as far as it encodes it. *)
Definition readable (ctx : context) (sc : scheduledCommand) : Prop :=
  forall ctx0 b, MarshalCommand ctx0 (sc_cmd sc) = inl b -> kept ctx0 = kept (sc_ctx sc) ->
  UnmarshalCommand ctx b = inl (sc_cmd sc, restore (sc_ctx sc)).

Definition restored (sc : scheduledCommand) : scheduledCommand :=
  mkScheduled (sc_id sc) (restore (sc_ctx sc)) (sc_cmd sc) (sc_executeAt sc).

Lemma restore_each_stored ctx l es :
  Forall2 stored l es -> Forall (readable ctx) l ->
  exists pcs, restore_each ctx es = inl pcs /\ scheduled_of <$> pcs = restored <$> l.
Proof.
  induction 1 as [|sc e l es (c0 & b & Hm & Hkept & ->) _ IH]; intros Hr; [by exists []|].
  apply Forall_cons in Hr as [Hr Hrest]. destruct (IH Hrest) as (pcs & Hp & Hl).
  exists (mkPersisted (sc_id sc) (uuid_String (sc_id sc)) [] (sc_executeAt sc) (sc_cmd sc)
            (Some (restore (sc_ctx sc))) :: pcs).
  simpl. rewrite as_entity_of. simpl. rewrite (Hr _ _ Hm Hkept), uuid_Parse_String, Hp.
  split; [by case_bool_decide|]. apply (f_equal (cons (restored sc)) Hl).
Qed.

Lemma enqueue_all full pcs s (r : R) :
  let m := for_range pcs (fun pc => zoom_fst (enqueue (scheduled_of pc) full)) in
  if len (cmdCh s) + len pcs <=? ScheduledCommandsQueueSize
  then exists s' : Scheduler, m (s, r) = (Ok tt, (s', r)) /\ cmdCh s' = cmdCh s ++ (scheduled_of <$> pcs)
  else len (cmdCh s) <= ScheduledCommandsQueueSize -> exists s' : Scheduler, m (s, r) = (Err full, (s', r)).
Proof.
  revert s. induction pcs as [|pc pcs IH]; intros s; cbn zeta.
  - destruct (Z.leb_spec (len (cmdCh s) + len (@nil PersistedCommand)) ScheduledCommandsQueueSize) as [_|Hgt].
    + exists s. simpl. by rewrite app_nil_r.
    + int_lia.
  - assert (forall f : unit -> M (Scheduler * R) unit,
      bind (zoom_fst (enqueue (scheduled_of pc) full)) f (s, r) =
      if len (cmdCh s) <? ScheduledCommandsQueueSize then f tt (pushed (scheduled_of pc) s, r)
      else (Err full, (s, r))) as Hstep.
    { intros f. unfold bind, zoom_fst, zoom. simpl. rewrite enqueue_spec. by destruct (_ <? _). }
    cbn [for_range]. rewrite Hstep. specialize (IH (pushed (scheduled_of pc) s)). cbn zeta in IH.
    assert (len (cmdCh (pushed (scheduled_of pc) s)) = len (cmdCh s) + 1) as Hl
      by (simpl; rewrite len_app; reflexivity).
    rewrite Hl in IH. rewrite len_cons. pose proof (len_nonneg pcs).
    replace (len (cmdCh s) + (1 + len pcs)) with (len (cmdCh s) + 1 + len pcs) by lia.
    destruct (Z.ltb_spec (len (cmdCh s)) ScheduledCommandsQueueSize).
    + destruct (_ <=? _).
      * destruct IH as (s' & Hr & Hq). exists s'. split; [done|]. rewrite Hq. simpl. by rewrite <- app_assoc.
      * intros _. apply IH. lia.
    + destruct (Z.leb_spec (len (cmdCh s) + 1 + len pcs) ScheduledCommandsQueueSize); [lia|].
      intros _. by eexists.
Qed.

(** a restarted scheduler picks up what the last one left.  Whatever
    commands the repository keeps, [Load] on a scheduler with an empty queue
    puts exactly those on the queue, each with its ID, command and time and
    with the context as far as the codec keeps it, and leaves them persisted;
    more commands than the queue holds are an error. *)
Theorem Load_restores_commands ctx l s r :
  keeps r l -> Forall (readable ctx) l -> cmdCh s = [] ->
  exists o s' r', Load ctx (s, r) = (o, (s', r')) /\ keeps r' l /\
    (if len l <=? ScheduledCommandsQueueSize
     then o = Ok tt /\ cmdCh s' ≡ₚ restored <$> l
     else o = Err (ErrorString "could not schedule command, command queue full")).
Proof.
  intros Hk Hread Hq. pose proof Hk as (Hok & Hnd & Hdom & HF).
  destruct (law_find_all ctx r Hok) as (es & r' & Hall & Hok' & He & Hperm).
  destruct (keeps_entities r l Hk) as (es' & Hst & Hperm').
  destruct (Permutation_Forall2 (P := fun e sc => stored sc e) (l1 := es') (l1' := es) (l2 := l)) as (l' & Hl' & Hst').
  { by rewrite Hperm, Hperm'. }
  { apply Forall2_flip. done. }
  apply Forall2_flip in Hst'.
  destruct (restore_each_stored ctx l' es Hst') as (pcs & Hres & Hsc); [by rewrite <- Hl'|].
  assert (keeps r' l) as Hk'.
  { split; [done|]. rewrite He. done. }
  set (full := ErrorString "could not schedule command, command queue full").
  pose proof (enqueue_all full pcs s r') as Henq. cbv zeta in Henq.
  assert (len pcs = len l) as Hlen.
  { rewrite <- (len_fmap scheduled_of pcs), Hsc, len_fmap. unfold len. by rewrite Hl'. }
  assert (Load ctx (s, r) = for_range pcs (fun pc => zoom_fst (enqueue (scheduled_of pc) full)) (s, r')) as Hload.
  { unfold Load. rewrite (bind_ok _ _ _ (s, r') pcs); [done|]. apply map_err_ok.
    unfold zoom_snd, zoom, Commands. simpl.
    rewrite (bind_ok _ _ _ r' es) by (by apply map_err_ok). by rewrite Hres. }
  rewrite Hload, Hq, Hlen in *. change (len (@nil scheduledCommand)) with 0 in Henq. rewrite Z.add_0_l in Henq.
  destruct (_ <=? _).
  - destruct Henq as (s' & Hr & Hqs). exists (Ok tt), s', r'. split; [done|]. split; [done|]. split; [done|].
    rewrite Hqs, Hsc. simpl. by rewrite Hl'.
  - destruct Henq as (s' & Hr); [done|]. by exists (Err full), s', r'.
Qed.

End Scheduler.

(** ** Concrete inputs: a repository that is a map, a codec that knows two
    commands, a handler that counts *)

#[export] Instance PersistedCommand_Entity : Entity PersistedCommand := {
  EntityID := pc_ID;
  Versionable := fun _ => None
}.

Abbreviation map_R := (gmap UUID PersistedCommand).

Definition map_repo : ReadWriteRepo map_R PersistedCommand :=
  mkRepo
    (fun ctx id m =>
       match m !! id with
       | Some e => (Ok e, m)
       | None => (Err (RepoError (Some (Sentinel ErrEntityNotFound)) RepoOpFind id), m)
       end)
    (fun ctx m => (Ok (map_to_list m).*2, m))
    (fun ctx e => let! e := deref e in modify <[pc_ID e := e]>)
    (fun ctx id => modify (delete id))
    (ret tt).

#[export] Program Instance map_RepoLaws : RepoLaws map_repo := {
  repo_ok := map_Forall (fun id e => pc_ID e = id);
  entities := fun m => m;
  keepable := fun _ => True
}.
Next Obligation. intros s id e Hs He. by apply Hs in He. Qed.
Next Obligation. intros ctx s id e Hs He. exists s. simpl. by rewrite He. Qed.
Next Obligation.
  intros ctx s id Hs He. eexists _, s. simpl. rewrite He. split; [done|]. done.
Qed.
Next Obligation. intros ctx s Hs. by exists (map_to_list s).*2, s. Qed.
Next Obligation.
  intros ctx s e Hs _ Hnil. eexists. split; [done|]. split; [|done].
  by apply map_Forall_insert_2.
Qed.
Next Obligation.
  intros ctx s id e Hs He. eexists. split; [done|]. split; [|done]. by apply map_Forall_delete.
Qed.

Definition cmd_one : command := mkCommand id1 "todo" "one" None [] ANil.
Definition cmd_two : command := mkCommand id2 "todo" "two" None [] ANil.

Definition two_Marshal (ctx : context) (cmd : option command) : list Byte.byte + error :=
  match cmd with
  | Some (mkCommand i ty name None [] ANil) =>
      if bool_decide (i = id1 /\ ty = "todo" /\ name = "one") then inl [Byte.x01]
      else if bool_decide (i = id2 /\ ty = "todo" /\ name = "two") then inl [Byte.x02]
      else inr (ErrorString "unknown command")
  | _ => inr (ErrorString "unknown command")
  end.

Definition two_Unmarshal (ctx : context) (b : list Byte.byte) : (option command * context) + error :=
  match b with
  | [Byte.x01] => inl (Some cmd_one, bg)
  | [Byte.x02] => inl (Some cmd_two, bg)
  | _ => inr (ErrorString "bad payload")
  end.

Definition count_command (ctx : context) (cmd : option command) : M Z unit := modify (fun n => n + 1).

(** A started scheduler. *)
Definition s_started : Scheduler := mkScheduler true [] ∅ ∅ ∅ 0 [] (Some false) true.

(** The codec keeps nothing of the context. *)
Definition nothing_kept (ctx : context) : unit := tt.

Definition demo_Parse (u : string) : UUID + error := inl (default Nil (uuid_of_bits u)).

Abbreviation demo_step :=
  (sched_step map_repo id Some (fun _ => "") two_Marshal two_Unmarshal uuid_to_bits demo_Parse count_command).
Abbreviation demo_steps :=
  (sched_steps map_repo id Some (fun _ => "") two_Marshal two_Unmarshal uuid_to_bits demo_Parse count_command).
Abbreviation demo_tidy_steps :=
  (tidy_steps map_repo id Some (fun _ => "") two_Marshal two_Unmarshal uuid_to_bits demo_Parse count_command
     nothing_kept).
Abbreviation demo_keeps := (keeps (E := PersistedCommand) map_repo id two_Marshal uuid_to_bits nothing_kept).

Definition sc_one : scheduledCommand := mkScheduled id3 bg (Some cmd_one) 5.

Definition sc_two : scheduledCommand := mkScheduled id2 bg (Some cmd_two) 50.

Definition r_one : map_R := <[id3 := persist uuid_to_bits id3 [Byte.x01] 5]> ∅.

Lemma s_started_ok : sched_ok s_started.
Proof.
  split; [|split]; simpl.
  - intros n. rewrite lookup_empty. by intros [].
  - intros n Hn. by apply not_elem_of_empty in Hn.
  - intros i n. by rewrite lookup_empty.
Qed.

Lemma empty_kept : demo_keeps (∅ : map_R) [].
Proof.
  split; [apply map_Forall_empty|]. split; [apply NoDup_nil_2|].
  split; [|constructor]. intros i. simpl. rewrite lookup_empty. by intros [].
Qed.

Lemma one_kept : demo_keeps r_one [sc_one].
Proof.
  apply (keeps_add map_repo id two_Marshal uuid_to_bits nothing_kept ∅ r_one sc_one
    (persist uuid_to_bits id3 [Byte.x01] 5) [] empty_kept).
  - reflexivity.
  - apply map_Forall_insert_2; [reflexivity|apply map_Forall_empty].
  - reflexivity.
  - by exists bg, [Byte.x01].
Qed.

Lemma two_decodes : decodes_in two_Marshal two_Unmarshal nothing_kept bg.
Proof.
  intros ctx [[i ty name [u|] [|f fs] d]|] raw cmd c; try discriminate.
  destruct d; try discriminate. simpl.
  case_bool_decide as H1; [destruct H1 as (-> & -> & ->); by intros [= <-] [= <- <-]|].
  case_bool_decide as H2; [destruct H2 as (-> & -> & ->); by intros [= <-] [= <- <-]|done].
Qed.

(** After a restart the command the last run left is loaded; another is
    scheduled, both are received, the second is cancelled, and the first is
    executed. *)
Definition restart_story : list label :=
  [LLoad bg [sc_one]; LSchedule sc_two; LReceive; LReceive; LCancel id2;
   LExecute sc_one 7; LCancelled sc_two].

Definition r_two : map_R := <[id2 := persist uuid_to_bits id2 [Byte.x02] 50]> r_one.

Definition s_loaded : Scheduler := queued [sc_one] s_started.

Definition s_received : Scheduler := receive (receive (pushed sc_two s_loaded)).

Definition s_cancelled : Scheduler := (CancelCommand uuid_to_bits id2 s_received).2.

Definition s_ended : Scheduler :=
  finish 1 (report bg (Some cmd_two) (Sentinel ErrCanceled) (finish 0 s_cancelled)).2.

Lemma load_one : demo_step (s_started, r_one, 0) (LLoad bg [sc_one]) (s_loaded, r_one, 0).
Proof. by apply (step_load _ _ _ _ _ _ _ _ _ bg [sc_one] (Ok tt)). Qed.

Lemma schedule_two : demo_step (s_loaded, r_one, 0) (LSchedule sc_two) (pushed sc_two s_loaded, r_two, 0).
Proof. by apply (step_schedule _ _ _ _ _ _ _ _ _ id2 bg (Some cmd_two) 50 id2). Qed.

Lemma restart_run :
  demo_tidy_steps (s_started, r_one, 0) restart_story (s_ended, delete id2 (delete id3 r_two), 1).
Proof.
  eapply tidy_cons; [apply load_one|split; [reflexivity|exact two_decodes]|].
  eapply tidy_cons; [apply schedule_two|split; [reflexivity|split; [discriminate|intros b _; exact I]]|].
  eapply tidy_cons; [apply step_receive; reflexivity|exact I|].
  eapply tidy_cons; [apply step_receive; reflexivity|exact I|].
  eapply tidy_cons; [apply (step_cancel _ _ _ _ _ _ _ _ _ id2 s_received s_cancelled); reflexivity|exact I|].
  eapply tidy_cons; [eapply (step_timer _ _ _ _ _ _ _ _ _ 0%nat); [reflexivity|vm_compute; discriminate|reflexivity]
    |exact I|].
  eapply tidy_cons; [eapply (step_cancelled _ _ _ _ _ _ _ _ _ 1%nat);
    [reflexivity| |reflexivity]|exact I|].
  - apply elem_of_union. left. by apply elem_of_singleton.
  - apply tidy_nil.
Qed.

Lemma id_EntityID (pc : PersistedCommand) : EntityID (id pc) = pc_ID pc.
Proof. reflexivity. Qed.

Lemma demo_Parse_String i : demo_Parse (uuid_to_bits i) = inl i.
Proof. unfold demo_Parse. by rewrite uuid_of_to_bits. Qed.

Lemma scheduled_commands_accounted_witness :
  exists s' r' L', demo_tidy_steps (s_started, r_one, 0) restart_story (s', r', 1) /\
    [sc_two; sc_one] ≡ₚ waiting s' ++ [sc_one; sc_two] /\
    demo_keeps r' (waiting s' ++ L') /\
    errCh s' = [ScheduleError (Sentinel ErrCanceled) bg (Some cmd_two)].
Proof.
  pose proof restart_run as Hrun.
  destruct (scheduled_commands_accounted map_repo id Some (fun _ => "") two_Marshal two_Unmarshal uuid_to_bits
    demo_Parse count_command nothing_kept id_EntityID (fun _ => eq_refl) demo_Parse_String
    s_started r_one 0 [sc_one] restart_story _ Hrun s_started_ok one_kept eq_refl)
    as (s' & r' & x' & L' & Heq & Hp & _ & Hk & Ho & _).
  simpl in Ho. injection Ho as Hx He. injection Heq as Hs Hr Hx'. subst s' r'.
  exists s_ended, (delete id2 (delete id3 r_two)), L'. split; [exact Hrun|]. split; [exact Hp|]. split; [exact Hk|exact He].
Defined.

(** *** Untidy use *)

Lemma schedule_one : demo_step (s_started, ∅, 0) (LSchedule sc_one) (pushed sc_one s_started, r_one, 0).
Proof. by apply (step_schedule _ _ _ _ _ _ _ _ _ id3 bg (Some cmd_one) 5 id3). Qed.

(** [Load] while a command waits puts it on the queue again: it is executed
    twice. *)
Lemma Load_while_waiting_executes_twice :
  exists s' r', demo_steps (s_started, ∅, 0)
    [LSchedule sc_one; LLoad bg [sc_one]; LReceive; LReceive; LExecute sc_one 7; LExecute sc_one 7]
    (s', r', 2).
Proof.
  do 2 eexists.
  eapply steps_cons; [apply schedule_one|].
  eapply (steps_cons _ _ _ _ _ _ _ _ _ _ _ (queued [sc_one] (pushed sc_one s_started), r_one, 0));
    [by apply (step_load _ _ _ _ _ _ _ _ _ bg [sc_one] (Ok tt))|].
  eapply steps_cons; [apply step_receive; reflexivity|].
  eapply steps_cons; [apply step_receive; reflexivity|].
  eapply steps_cons; [eapply (step_timer _ _ _ _ _ _ _ _ _ 0%nat); [reflexivity|vm_compute; discriminate|reflexivity]|].
  eapply steps_cons; [eapply (step_timer _ _ _ _ _ _ _ _ _ 1%nat); [reflexivity|vm_compute; discriminate|reflexivity]|].
  apply steps_nil.
Qed.

Definition sc_late : scheduledCommand := mkScheduled id3 bg (Some cmd_two) 50.

(** Two commands under one ID share one persisted entry: once the first was
    executed the second still waits, but is no longer persisted. *)
Lemma same_ID_shares_persisted_entry :
  exists s', demo_steps (s_started, ∅, 0)
    [LSchedule sc_one; LSchedule sc_late; LReceive; LReceive; LExecute sc_one 7] (s', ∅, 1) /\
    waiting s' = [sc_late].
Proof.
  eexists. split.
  - eapply steps_cons; [apply schedule_one|].
    eapply (steps_cons _ _ _ _ _ _ _ _ _ _ _
      (pushed sc_late (pushed sc_one s_started), <[id3 := persist uuid_to_bits id3 [Byte.x02] 50]> r_one, 0));
      [by apply (step_schedule _ _ _ _ _ _ _ _ _ id3 bg (Some cmd_two) 50 id3)|].
    eapply steps_cons; [apply step_receive; reflexivity|].
    eapply steps_cons; [apply step_receive; reflexivity|].
    eapply steps_cons; [eapply (step_timer _ _ _ _ _ _ _ _ _ 0%nat); [reflexivity|vm_compute; discriminate|reflexivity]|].
    apply steps_nil.
  - reflexivity.
Qed.

Definition s_one : Scheduler := pushed sc_one s_started.

Lemma CancelCommand_twice_panics_witness :
  exists s1, CancelCommand uuid_to_bits id3 (receive s_one) = (Ok tt, s1) /\
    demo_steps (s1, r_one, 0) [LCancelled sc_one]
      (finish 0 (report bg (Some cmd_one) (Sentinel ErrCanceled) s1).2, delete id3 r_one, 0) /\
    CancelCommand uuid_to_bits id3 (finish 0 (report bg (Some cmd_one) (Sentinel ErrCanceled) s1).2) =
      (Panic "close of closed channel",
       finish 0 (report bg (Some cmd_one) (Sentinel ErrCanceled) s1).2).
Proof.
  set (s1 := (CancelCommand uuid_to_bits id3 (receive s_one)).2).
  assert (CancelCommand uuid_to_bits id3 (receive s_one) = (Ok tt, s1)) as Hc by reflexivity.
  assert (demo_steps (s1, r_one, 0) [LCancelled sc_one]
    (finish 0 (report bg (Some cmd_one) (Sentinel ErrCanceled) s1).2, delete id3 r_one, 0)) as Hs.
  { eapply steps_cons; [|apply steps_nil].
    apply (step_cancelled _ _ _ _ _ _ _ _ _ 0%nat); [reflexivity| |reflexivity].
    apply elem_of_union. left. by apply elem_of_singleton. }
  exists s1. split; [exact Hc|]. split; [exact Hs|].
  eapply (CancelCommand_twice_panics map_repo id Some (fun _ => "") two_Marshal two_Unmarshal uuid_to_bits
    demo_Parse count_command); [exact Hc|exact Hs|].
  repeat constructor. discriminate.
Defined.

Lemma Load_restores_commands_witness :
  exists s' r', Load map_repo Some (fun _ => "") two_Unmarshal demo_Parse bg
      (NewScheduler, r_one) = (Ok tt, (s', r')) /\ cmdCh s' ≡ₚ [sc_one].
Proof.
  destruct (Load_restores_commands map_repo id Some (fun _ => "") two_Marshal two_Unmarshal uuid_to_bits
    demo_Parse nothing_kept (fun _ => eq_refl) demo_Parse_String (fun _ => bg)
    bg [sc_one] NewScheduler r_one one_kept) as (o & s' & r' & Hl & _ & Ho).
  - repeat constructor. intros ctx b [= <-] _. reflexivity.
  - reflexivity.
  - destruct Ho as [-> Hq]. exists s', r'. split; [exact Hl|exact Hq].
Defined.
