(* ===== verification/Mongo.v ===== *)
(** * What the code relies on of MongoDB

    The driver and the server are not code of the repository: a collection is
    a record of the operations the stores call, over the state [S] of the
    server, and [CollectionLaws] is their documented behaviour against an
    abstract view: a finite map from [_id] to document.  A filter document is
    the predicate it stands for, an update document the function.  The laws
    are for the states in which the server answers ([up]).

    [SessionLaws] is the behaviour of a transaction: its callback may be run
    several times, only the last run's writes stay, and none do when it fails.

    The second half is a database of finite maps, which has the laws. *)

From stdpp Require Import base gmap strings list numbers option pretty sorting.
From Stdlib Require Import Lia ZArith Ascii.
From S2P Require Import Prelude.
From S2P Require Import GoTypes.
From S2P Require Import Event.
From S2P Require Import Command.
From S2P Require Import Errors.

(** A cursor, read to its end: what each [Next] and [Decode] gave, the error
    that ended it early if one did, and the error of [Close]. *)
Record Cursor (D : Type) : Type := mkCursor {
  c_items : list (D + error);
  c_err : option error;
  c_close : option error
}.
Arguments mkCursor {D}.
Arguments c_items {D}.
Arguments c_err {D}.
Arguments c_close {D}.

(** [K]: the [_id]s; [D]: the documents; [I]: the [_id]s as an insertion
    reports them.  The sort of a query is the function to sort by, ascending.
    A single result is what its [Decode] gives, [Err] what its [Err] does. *)
Record Collection (S K D I : Type) : Type := mkCollection {
  InsertOne : context -> D -> M S unit;
  InsertMany : context -> list D -> M S (list I);
  FindOne : context -> (D -> bool) -> option (D -> Z) -> M S (D + error);
  Find : context -> (D -> bool) -> option (D -> Z) -> M S (Cursor D);
  CountDocuments : context -> (D -> bool) -> M S Z;
  UpdateOne : context -> (D -> bool) -> (D -> D) -> M S Z;
  UpdateMany : context -> (D -> bool) -> (D -> D) -> M S Z;
  UpsertOne : context -> K -> (option D -> D) -> M S unit;
  FindOneAndUpdate : context -> (D -> bool) -> (D -> D) -> M S (D + error);
  ReplaceOne : context -> (D -> bool) -> D -> M S Z;
  DeleteOne : context -> (D -> bool) -> M S Z;
  Drop : context -> M S unit;
  CreateIndex : context -> string -> M S unit
}.
Arguments mkCollection {S K D I}.
Arguments InsertOne {S K D I}.
Arguments InsertMany {S K D I}.
Arguments FindOne {S K D I}.
Arguments Find {S K D I}.
Arguments CountDocuments {S K D I}.
Arguments UpdateOne {S K D I}.
Arguments UpdateMany {S K D I}.
Arguments UpsertOne {S K D I}.
Arguments FindOneAndUpdate {S K D I}.
Arguments ReplaceOne {S K D I}.
Arguments DeleteOne {S K D I}.
Arguments Drop {S K D I}.
Arguments CreateIndex {S K D I}.

(** The client: the state the callback of a transaction runs on is the
    server's and any other state of the program. *)
Record Client (S : Type) : Type := mkClient {
  Ping : M S unit;
  StartSession : M S unit;
  WithTransaction : forall X, context -> (context -> M (S * X) unit) -> M (S * X) unit;
  Disconnect : M S unit
}.
Arguments mkClient {S}.
Arguments Ping {S}.
Arguments StartSession {S}.
Arguments WithTransaction {S}.
Arguments Disconnect {S}.

(** Documents in the order of a sorted query. *)
Definition le_by {D} (g : D -> Z) (a b : D) : Prop := g a <= g b.

#[export] Instance le_by_dec {D} (g : D -> Z) a b : Decision (le_by g a b).
Proof. unfold le_by. apply _. Defined.

(** [cursor.Next] and [cursor.Decode] until the end, collecting with [f]. *)
Fixpoint decode_all {D A} (f : D -> A + error) (fail : list A -> error -> error)
    (items : list (D + error)) (acc : list A) : list A + error :=
  match items with
  | [] => inl acc
  | inr err :: _ => inr (fail acc err)
  | inl d :: items' =>
      match f d with
      | inl a => decode_all f fail items' (acc ++ [a])
      | inr err => inr err
      end
  end.

(** ** The documented behaviour *)

Section Laws.
Context {S V : Type} (up : S -> Prop) (view : S -> V).

(** [m] run from [s] gives [o] and the view [v']. *)
Definition gives {A} (m : M S A) (s : S) (o : result A) (v' : V) : Prop :=
  exists s', m s = (o, s') /\ up s' /\ view s' = v'.

Section Collection.
Context {K D I : Type} `{Countable K}.
(** The collection within the view; the [_id] of a document that has one; what
    is read back of a document that was written. *)
Context (get : V -> gmap K D) (put : gmap K D -> V -> V).
Context (key : D -> option K) (wire : D -> D).
Context (is_id : K -> I -> Prop) (dup : error -> bool).
Context (c : Collection S K D I).

(** A document the filter matches, under its [_id]. *)
Definition matches (v : V) (f : D -> bool) (k : K) (d : D) : Prop :=
  get v !! k = Some d /\ f d = true.

Definition no_match (v : V) (f : D -> bool) : Prop :=
  forall k d, get v !! k = Some d -> f d = false.

Definition sorted_by (sort : option (D -> Z)) (l : list D) : Prop :=
  match sort with
  | Some g => StronglySorted (le_by g) l
  | None => True
  end.

Definition all_matching (v : V) (f : D -> bool) (l : list D) : Prop :=
  l ≡ₚ filter (fun d => f d = true) (map_to_list (get v)).*2.

Definition insert_doc (k : K) (d : D) (v : V) : V := put (<[k := wire d]> (get v)) v.

Class CollectionLaws : Prop := {
  law_insert_one ctx s d k : up s -> key d = Some k -> get (view s) !! k = None ->
    gives (InsertOne c ctx d) s (Ok tt) (insert_doc k d (view s));

  law_insert_one_dup ctx s d k : up s -> key d = Some k -> is_Some (get (view s) !! k) ->
    exists e, dup e = true /\ gives (InsertOne c ctx d) s (Err e) (view s);

  law_insert_many ctx s ds ks : up s ->
    Forall2 (fun d k => key d = Some k) ds ks -> NoDup ks ->
    Forall (fun k => get (view s) !! k = None) ks ->
    exists made, Forall2 is_id ks made /\
      gives (InsertMany c ctx ds) s (Ok made)
        (foldl (fun v '(k, d) => insert_doc k d v) (view s) (zip ks ds));

  law_find_one ctx s f sort : up s ->
    (no_match (view s) f /\ gives (FindOne c ctx f sort) s (Err (Sentinel ErrNoDocuments)) (view s)) \/
    (exists k d, matches (view s) f k d /\
       (forall g k' d', sort = Some g -> matches (view s) f k' d' -> g d <= g d') /\
       gives (FindOne c ctx f sort) s (Ok (inl d)) (view s));

  law_find ctx s f sort : up s ->
    exists ds, all_matching (view s) f ds /\ sorted_by sort ds /\
      gives (Find c ctx f sort) s (Ok (mkCursor (inl <$> ds) None None)) (view s);

  law_count ctx s f : up s ->
    exists ds, all_matching (view s) f ds /\ gives (CountDocuments c ctx f) s (Ok (len ds)) (view s);

  law_update_one ctx s f u : up s ->
    (no_match (view s) f /\ gives (UpdateOne c ctx f u) s (Ok 0) (view s)) \/
    (exists k d, matches (view s) f k d /\
       gives (UpdateOne c ctx f u) s (Ok 1) (insert_doc k (u d) (view s)));

  law_update_many ctx s f u : up s ->
    exists n, gives (UpdateMany c ctx f u) s (Ok n)
      (put ((fun d => if f d then wire (u d) else d) <$> get (view s)) (view s));

  law_upsert ctx s k u : up s ->
    gives (UpsertOne c ctx k u) s (Ok tt) (insert_doc k (u (get (view s) !! k)) (view s));

  law_find_one_and_update ctx s f u : up s ->
    (no_match (view s) f /\
       gives (FindOneAndUpdate c ctx f u) s (Err (Sentinel ErrNoDocuments)) (view s)) \/
    (exists k d, matches (view s) f k d /\
       gives (FindOneAndUpdate c ctx f u) s (Ok (inl d)) (insert_doc k (u d) (view s)));

  law_replace_one ctx s f d : up s ->
    (no_match (view s) f /\ gives (ReplaceOne c ctx f d) s (Ok 0) (view s)) \/
    (exists k d0, matches (view s) f k d0 /\
       (key d = Some k -> gives (ReplaceOne c ctx f d) s (Ok 1) (insert_doc k d (view s))));

  law_delete_one ctx s f : up s ->
    (no_match (view s) f /\ gives (DeleteOne c ctx f) s (Ok 0) (view s)) \/
    (exists k d, matches (view s) f k d /\
       gives (DeleteOne c ctx f) s (Ok 1) (put (delete k (get (view s))) (view s)));

  law_drop ctx s : up s -> gives (Drop c ctx) s (Ok tt) (put ∅ (view s));

  law_create_index ctx s field : up s -> gives (CreateIndex c ctx field) s (Ok tt) (view s);

  law_get_put m v : get (put m v) = m;
  law_put_put m m' v : put m (put m' v) = put m v;
  law_put_get v : put (get v) v = v
}.

(** A document without an [_id] is given a new one; [with_id] is the document
    with it. *)
Class GeneratesIDs (with_id : K -> D -> D) : Prop := {
  law_insert_one_new ctx s d : up s -> key d = None ->
    exists k, get (view s) !! k = None /\
      gives (InsertOne c ctx d) s (Ok tt) (insert_doc k (with_id k d) (view s))
}.

End Collection.

(** ** Transactions *)

(** The runs of a transaction's callback [body]. *)
Inductive tx_run {X} (body : M (S * X) unit) : S * X -> result unit -> S * X -> Prop :=
| tx_commit s x s1 x1 s2 :
    body (s, x) = (Ok tt, (s1, x1)) -> up s2 -> view s2 = view s1 ->
    tx_run body (s, x) (Ok tt) (s2, x1)
| tx_abort s x e s1 x1 s2 :
    body (s, x) = (Err e, (s1, x1)) -> up s2 -> view s2 = view s ->
    tx_run body (s, x) (Err e) (s2, x1)
| tx_panic s x p s1 x1 s2 :
    body (s, x) = (Panic p, (s1, x1)) -> up s2 -> view s2 = view s ->
    tx_run body (s, x) (Panic p) (s2, x1)
| tx_retry s x r s1 x1 s2 o st :
    body (s, x) = (r, (s1, x1)) -> (forall p, r <> Panic p) -> up s2 -> view s2 = view s ->
    tx_run body (s2, x1) o st -> tx_run body (s, x) o st.

Class SessionLaws (client : Client S) : Prop := {
  law_ping s : up s -> gives (Ping client) s (Ok tt) (view s);
  law_start_session s : up s -> gives (StartSession client) s (Ok tt) (view s);
  law_with_transaction {X} ctx (body : context -> M (S * X) unit) s x o st :
    up s -> WithTransaction client X ctx body (s, x) = (o, st) ->
    exists ctx', tx_run (body ctx') (s, x) o st
}.

(** To reason about a transaction, reason about one run of its callback from
    any state with the view before it; [I] is what the rest of the program
    keeps over failed runs. *)
Lemma tx_run_rule {X} (body : M (S * X) unit) (I : X -> Prop) (Q : result unit -> V -> X -> Prop) v :
  (forall s x, up s -> view s = v -> I x ->
     let '(r, (s1, x1)) := body (s, x) in
     I x1 /\ Q r (match r with Ok _ => view s1 | _ => v end) x1) ->
  forall st o st', tx_run body st o st' -> up st.1 -> view st.1 = v -> I st.2 ->
  Q o (view st'.1) st'.2 /\ I st'.2 /\ up st'.1.
Proof.
  intros Hbody st o st' Hr.
  induction Hr as [s x s1 x1 s2 Hb Hu2 Hv2|s x e s1 x1 s2 Hb Hu2 Hv2|s x p s1 x1 s2 Hb Hu2 Hv2|
    s x r s1 x1 s2 o st Hb Hp Hu2 Hv2 _ IH]; simpl; intros Hu Hv HI;
    specialize (Hbody s x Hu Hv HI); rewrite Hb in Hbody; destruct Hbody as [HI1 HQ].
  - by rewrite Hv2.
  - by rewrite Hv2, Hv.
  - by rewrite Hv2, Hv.
  - apply IH; simpl; [done|congruence|done].
Qed.

Lemma gives_ret {A} (a : A) s : up s -> gives (ret a) s (Ok a) (view s).
Proof. intros Hu. by exists s. Qed.

Lemma gives_bind {A B} (m : M S A) (f : A -> M S B) s a o v' v'' :
  gives m s (Ok a) v' ->
  (forall s', up s' -> view s' = v' -> gives (f a) s' o v'') ->
  gives (bind m f) s o v''.
Proof.
  intros (s' & Hm & Hu & Hv) Hf. destruct (Hf s' Hu Hv) as (s'' & Hm' & ?).
  exists s''. by rewrite (bind_ok _ _ _ _ _ Hm).
Qed.

Lemma gives_bind_err {A B} (m : M S A) (f : A -> M S B) s e v' :
  gives m s (Err e) v' -> gives (bind m f) s (Err e) v'.
Proof. intros (s' & Hm & ?). exists s'. by rewrite (bind_err _ _ _ _ _ Hm). Qed.

Lemma gives_map_err {A} w (m : M S A) s o v' :
  gives m s o v' ->
  gives (map_err w m) s (match o with Ok a => Ok a | Err e => Err (w e) | Panic p => Panic p end) v'.
Proof. intros (s' & Hm & ?). exists s'. unfold map_err. rewrite Hm. by destruct o. Qed.

Lemma gives_attempt_ok {A} (m : M S A) s a v' :
  gives m s (Ok a) v' -> gives (attempt m) s (Ok (inl a)) v'.
Proof. intros (s' & Hm & ?). exists s'. by rewrite (attempt_ok _ _ _ _ Hm). Qed.

Lemma gives_attempt_err {A} (m : M S A) s e v' :
  gives m s (Err e) v' -> gives (attempt m) s (Ok (inr e)) v'.
Proof. intros (s' & Hm & ?). exists s'. by rewrite (attempt_err _ _ _ _ Hm). Qed.

(** Running an operation of the server within a program over more state. *)
Lemma gives_zoom {X A} (m : M S A) s o v' (x : X) :
  gives m s o v' -> exists s', zoom_fst m (s, x) = (o, (s', x)) /\ up s' /\ view s' = v'.
Proof. intros (s' & Hm & ?). exists s'. unfold zoom_fst, zoom. simpl. by rewrite Hm. Qed.

Lemma zoom_bind {X A B} (m : M S A) (f : A -> M (S * X) B) s (x : X) a v'
    (P : result B * (S * X) -> Prop) :
  gives m s (Ok a) v' -> (forall s', up s' -> view s' = v' -> P (f a (s', x))) ->
  P (bind (zoom_fst m) f (s, x)).
Proof.
  intros Hm Hf. destruct (gives_zoom m s (Ok a) v' x Hm) as (s' & Hz & Hu & Hv).
  rewrite (bind_ok _ _ _ _ _ Hz). by apply Hf.
Qed.

Lemma zoom_bind_err {X A B} (m : M S A) (f : A -> M (S * X) B) s (x : X) e v'
    (P : result B * (S * X) -> Prop) :
  gives m s (Err e) v' -> (forall s', up s' -> view s' = v' -> P (Err e, (s', x))) ->
  P (bind (zoom_fst m) f (s, x)).
Proof.
  intros Hm Hf. destruct (gives_zoom m s (Err e) v' x Hm) as (s' & Hz & Hu & Hv).
  rewrite (bind_err _ _ _ _ _ Hz). by apply Hf.
Qed.

Lemma zoom_map_bind {X A B} w (m : M S A) (f : A -> M (S * X) B) s (x : X) a v'
    (P : result B * (S * X) -> Prop) :
  gives m s (Ok a) v' -> (forall s', up s' -> view s' = v' -> P (f a (s', x))) ->
  P (bind (map_err w (zoom_fst m)) f (s, x)).
Proof.
  intros Hm Hf. destruct (gives_zoom m s (Ok a) v' x Hm) as (s' & Hz & Hu & Hv).
  rewrite (bind_ok _ _ _ _ _ (map_err_ok w _ _ _ _ Hz)). by apply Hf.
Qed.

Lemma attempt_zoom {X A} (m : M S A) s (x : X) o s' :
  m s = (o, s') ->
  attempt (zoom_fst m) (s, x) =
  (match o with Ok a => Ok (inl a) | Err e => Ok (inr e) | Panic p => Panic p end, (s', x)).
Proof. intros Hm. unfold attempt, zoom_fst, zoom. simpl. rewrite Hm. by destruct o. Qed.

End Laws.
Arguments insert_doc {V K D _ _} get put wire k d v.
Arguments law_insert_one {S V up view K D I _ _ get put key wire is_id dup c _}.
Arguments law_insert_one_dup {S V up view K D I _ _ get put key wire is_id dup c _}.
Arguments law_insert_one_new {S V up view K D I _ _ get put key wire c with_id _}.
Arguments law_insert_many {S V up view K D I _ _ get put key wire is_id dup c _}.
Arguments law_find_one {S V up view K D I _ _ get put key wire is_id dup c _}.
Arguments law_find {S V up view K D I _ _ get put key wire is_id dup c _}.
Arguments law_count {S V up view K D I _ _ get put key wire is_id dup c _}.
Arguments law_update_one {S V up view K D I _ _ get put key wire is_id dup c _}.
Arguments law_update_many {S V up view K D I _ _ get put key wire is_id dup c _}.
Arguments law_upsert {S V up view K D I _ _ get put key wire is_id dup c _}.
Arguments law_find_one_and_update {S V up view K D I _ _ get put key wire is_id dup c _}.
Arguments law_replace_one {S V up view K D I _ _ get put key wire is_id dup c _}.
Arguments law_delete_one {S V up view K D I _ _ get put key wire is_id dup c _}.
Arguments law_drop {S V up view K D I _ _ get put key wire is_id dup c _}.
Arguments law_create_index {S V up view K D I _ _ get put key wire is_id dup c _}.
Arguments law_get_put {S V up view K D I _ _ get put key wire is_id dup c _}.
Arguments law_put_put {S V up view K D I _ _ get put key wire is_id dup c _}.
Arguments law_put_get {S V up view K D I _ _ get put key wire is_id dup c _}.
Arguments law_ping {S V up view client _}.
Arguments law_start_session {S V up view client _}.
Arguments law_with_transaction {S V up view client _ X}.

(** ** A database of finite maps *)

Definition duplicate_key : error := ErrorString "duplicate key".

Definition is_duplicate_key (e : error) : bool :=
  match e with ErrorString msg => bool_decide (msg = "duplicate key") | _ => false end.

Section MapCollection.
Context {V K D I : Type} `{Countable K}.
Context (get : V -> gmap K D) (put : gmap K D -> V -> V).
Context (key : D -> option K) (with_id : K -> D -> D) (wire : D -> D).
Context (new_id : gmap K D -> K) (to_id : K -> I).

Definition found (f : D -> bool) (v : V) : list (K * D) :=
  filter (fun kd => f kd.2 = true) (map_to_list (get v)).

Definition sort_docs (sort : option (D -> Z)) (l : list D) : list D :=
  match sort with
  | Some g => merge_sort (le_by g) l
  | None => l
  end.

Definition store_doc (k : K) (d : D) : V -> V := insert_doc get put wire k d.

Definition map_insert_one (d : D) : M V unit := fun v =>
  let k := default (new_id (get v)) (key d) in
  match get v !! k with
  | Some _ => (Err duplicate_key, v)
  | None => (Ok tt, store_doc k (match key d with Some _ => d | None => with_id k d end) v)
  end.

Fixpoint map_insert_many (ds : list D) : M V (list I) :=
  match ds with
  | [] => ret []
  | d :: ds' =>
      let! v := gets (fun v => v) in
      do! map_insert_one d in
      let! made := map_insert_many ds' in
      ret (to_id (default (new_id (get v)) (key d)) :: made)
  end.

Definition map_update_one (f : D -> bool) (u : D -> D) : M V Z := fun v =>
  match found f v with
  | [] => (Ok 0, v)
  | (k, d) :: _ => (Ok 1, store_doc k (u d) v)
  end.

Definition map_collection : Collection V K D I :=
  mkCollection
    (fun _ d => map_insert_one d)
    (fun _ ds => map_insert_many ds)
    (fun _ f sort v =>
       match sort_docs sort (found f v).*2 with
       | [] => (Err (Sentinel ErrNoDocuments), v)
       | d :: _ => (Ok (inl d), v)
       end)
    (fun _ f sort v => (Ok (mkCursor (inl <$> sort_docs sort (found f v).*2) None None), v))
    (fun _ f v => (Ok (len (found f v)), v))
    (fun _ => map_update_one)
    (fun _ f u v =>
       (Ok (len (found f v)), put ((fun d => if f d then wire (u d) else d) <$> get v) v))
    (fun _ k u => modify (fun v => store_doc k (u (get v !! k)) v))
    (fun _ f u v =>
       match found f v with
       | [] => (Err (Sentinel ErrNoDocuments), v)
       | (k, d) :: _ => (Ok (inl d), store_doc k (u d) v)
       end)
    (fun _ f d => map_update_one f (fun _ => d))
    (fun _ f v =>
       match found f v with
       | [] => (Ok 0, v)
       | (k, d) :: _ => (Ok 1, put (delete k (get v)) v)
       end)
    (fun _ => modify (put ∅))
    (fun _ _ => ret tt).

Context (is_id : K -> I -> Prop) (Hid : forall k, is_id k (to_id k)).
Context (Hget_put : forall m v, get (put m v) = m).
Context (Hput_put : forall m m' v, put m (put m' v) = put m v).
Context (Hput_get : forall v, put (get v) v = v).

Abbreviation mgives := (gives (fun _ : V => True) (fun v => v)).

Lemma mgives_eq {A} (m : M V A) v o v' : m v = (o, v') -> mgives m v o v'.
Proof. intros Hm. by exists v'. Qed.

Lemma found_spec f v :
  (found f v = [] /\ no_match get v f) \/
  (exists k d rest, found f v = (k, d) :: rest /\ matches get v f k d).
Proof.
  unfold found, no_match, matches.
  destruct (filter _ _) as [|[k d] rest] eqn:Hf; [left|right].
  - split; [done|]. intros k d Hk. destruct (f d) eqn:Hd; [|done]. exfalso.
    assert ((k, d) ∈ @nil (K * D)) as Hin; [|by apply elem_of_nil in Hin].
    rewrite <- Hf. apply list_elem_of_filter. split; [done|]. by apply elem_of_map_to_list.
  - exists k, d, rest. split; [done|].
    assert ((k, d) ∈ (k, d) :: rest) as Hin by (by left).
    rewrite <- Hf in Hin. apply list_elem_of_filter in Hin as [? Hin].
    by apply elem_of_map_to_list in Hin.
Qed.

Lemma found_docs f v : (found f v).*2 = filter (fun d => f d = true) (map_to_list (get v)).*2.
Proof.
  unfold found. induction (map_to_list (get v)) as [|[k d] l IH]; [done|].
  rewrite fmap_cons, !filter_cons. simpl. destruct (decide (f d = true)); [|done].
  by rewrite fmap_cons, IH.
Qed.

Lemma sort_docs_spec sort l : sort_docs sort l ≡ₚ l /\ sorted_by sort (sort_docs sort l).
Proof.
  destruct sort as [g|]; simpl; [|done]. split; [apply merge_sort_Permutation|].
  apply StronglySorted_merge_sort.
  - intros a b d. unfold le_by. lia.
  - intros a b. unfold le_by. lia.
Qed.

Lemma found_all f sort v :
  all_matching get v f (sort_docs sort (found f v).*2).
Proof. unfold all_matching. rewrite (proj1 (sort_docs_spec _ _)). by rewrite found_docs. Qed.

Lemma map_insert_many_spec ds ks v :
  Forall2 (fun d k => key d = Some k) ds ks -> NoDup ks ->
  Forall (fun k => get v !! k = None) ks ->
  map_insert_many ds v =
    (Ok (to_id <$> ks), foldl (fun v '(k, d) => store_doc k d v) v (zip ks ds)).
Proof.
  intros HF. revert v. induction HF as [|d k ds ks Hk _ IH]; intros v Hnd Hn; [done|].
  apply NoDup_cons in Hnd as [Hni Hnd]. apply Forall_cons in Hn as [Hk0 Hn]. simpl.
  rewrite (bind_ok _ _ v v v) by done.
  rewrite (bind_ok _ _ v (store_doc k d v) tt) by (unfold map_insert_one; rewrite Hk; simpl; by rewrite Hk0).
  rewrite Hk. simpl. unfold bind at 1. rewrite IH; [done|done|].
  apply Forall_forall. intros k' Hk'. unfold store_doc, insert_doc. rewrite Hget_put.
  rewrite lookup_insert_ne by (intros ->; done). rewrite Forall_forall in Hn. by apply Hn.
Qed.

#[export] Instance map_CollectionLaws :
  CollectionLaws (fun _ : V => True) (fun v => v) get put key wire is_id is_duplicate_key map_collection.
Proof.
  split.
  - intros ctx v d k _ Hk Hn. apply mgives_eq. simpl. unfold map_insert_one. rewrite Hk. simpl. by rewrite Hn.
  - intros ctx v d k _ Hk [d' Hd']. exists duplicate_key. split; [done|].
    apply mgives_eq. simpl. unfold map_insert_one. rewrite Hk. simpl. by rewrite Hd'.
  - intros ctx v ds ks _ HF Hnd Hn. exists (to_id <$> ks). split.
    + apply Forall2_fmap_r, Forall_Forall2_diag, Forall_forall. auto.
    + apply mgives_eq. by apply map_insert_many_spec.
  - intros ctx v f sort _. simpl. destruct (sort_docs_spec sort (found f v).*2) as [Hp Hs].
    destruct (found_spec f v) as [[Hf Hno]|(k0 & d0 & rest & Hf & _)].
    + left. split; [done|]. apply mgives_eq. simpl. rewrite Hf in Hp |- *. simpl in Hp |- *.
      by rewrite (proj1 (Permutation_nil_r _) Hp).
    + right. destruct (sort_docs sort (found f v).*2) as [|d l] eqn:Hl.
      { rewrite Hf in Hp. simpl in Hp. symmetry in Hp. by apply Permutation_nil_r in Hp. }
      assert (forall d', d' ∈ d :: l <-> exists k', matches get v f k' d') as Hin.
      { intros d'. rewrite Hp, found_docs, list_elem_of_filter, list_elem_of_fmap.
        split.
        - intros [Hfd ([k' d''] & -> & Hk'%elem_of_map_to_list)]. by exists k'.
        - intros (k' & Hk' & Hfd). split; [done|]. exists (k', d'). split; [done|].
          by apply elem_of_map_to_list. }
      destruct (proj1 (Hin d) ltac:(by left)) as (k & Hk). exists k, d. split; [done|]. split.
      * intros g k' d' -> Hm. apply StronglySorted_inv in Hs as [_ Hs].
        pose proof (proj2 (Hin d') (ex_intro _ k' Hm)) as Hd'.
        apply elem_of_cons in Hd' as [->|Hd']; [lia|].
        rewrite Forall_forall in Hs. by apply Hs.
      * apply mgives_eq. simpl. by rewrite Hl.
  - intros ctx v f sort _. exists (sort_docs sort (found f v).*2).
    split; [apply found_all|]. split; [apply sort_docs_spec|]. by apply mgives_eq.
  - intros ctx v f _. exists (found f v).*2. split; [apply (found_all f None)|].
    apply mgives_eq. simpl. by rewrite len_fmap.
  - intros ctx v f u _. destruct (found_spec f v) as [[Hf Hno]|(k & d & rest & Hf & Hm)].
    + left. split; [done|]. apply mgives_eq. simpl. unfold map_update_one. by rewrite Hf.
    + right. exists k, d. split; [done|]. apply mgives_eq. simpl. unfold map_update_one. by rewrite Hf.
  - intros ctx v f u _. eexists. by apply mgives_eq.
  - intros ctx v k u _. by apply mgives_eq.
  - intros ctx v f u _. destruct (found_spec f v) as [[Hf Hno]|(k & d & rest & Hf & Hm)].
    + left. split; [done|]. apply mgives_eq. simpl. by rewrite Hf.
    + right. exists k, d. split; [done|]. apply mgives_eq. simpl. by rewrite Hf.
  - intros ctx v f d _. destruct (found_spec f v) as [[Hf Hno]|(k & d0 & rest & Hf & Hm)].
    + left. split; [done|]. apply mgives_eq. simpl. unfold map_update_one. by rewrite Hf.
    + right. exists k, d0. split; [done|]. intros _. apply mgives_eq. simpl. unfold map_update_one. by rewrite Hf.
  - intros ctx v f _. destruct (found_spec f v) as [[Hf Hno]|(k & d & rest & Hf & Hm)].
    + left. split; [done|]. apply mgives_eq. simpl. by rewrite Hf.
    + right. exists k, d. split; [done|]. apply mgives_eq. simpl. by rewrite Hf.
  - intros ctx v _. by apply mgives_eq.
  - intros ctx v field _. by apply mgives_eq.
  - done.
  - done.
  - done.
Qed.

Lemma map_GeneratesIDs :
  (forall m, m !! new_id m = None) ->
  GeneratesIDs (fun _ : V => True) (fun v => v) get put key wire map_collection with_id.
Proof.
  intros Hnew. split. intros ctx v d _ Hk. exists (new_id (get v)). split; [apply Hnew|].
  apply mgives_eq. simpl. unfold map_insert_one. rewrite Hk. simpl. by rewrite Hnew.
Qed.

End MapCollection.

(** The transaction callback is run once. *)
Definition map_client (V : Type) : Client V :=
  mkClient (ret tt) (ret tt)
    (fun X ctx body st =>
       match body ctx st with
       | (Ok a, st') => (Ok a, st')
       | (r, (_, x')) => (r, (st.1, x'))
       end)
    (ret tt).

#[export] Instance map_SessionLaws V :
  SessionLaws (fun _ : V => True) (fun v => v) (map_client V).
Proof.
  split.
  - intros s _. by exists s.
  - intros s _. by exists s.
  - intros X ctx body s x o st _ Hr. exists ctx. simpl in Hr.
    destruct (body ctx (s, x)) as [[[]|e|p] [s1 x1]] eqn:Hb; injection Hr as <- <-.
    + by eapply tx_commit.
    + by eapply tx_abort.
    + by eapply tx_panic.
Qed.

(** ** Collection names ([mongoutils/checks.go]) *)

(** [strings.ContainsAny(name, " ")] *)
Definition ContainsSpace (name : string) : bool :=
  existsb (Ascii.eqb " ") (String.list_ascii_of_string name).

Definition CheckCollectionName {S} (name : string) : M S unit :=
  if bool_decide (name = "") then throw (Sentinel ErrMissingCollectionName)
  else if ContainsSpace name then throw (Sentinel ErrInvalidCharInCollectionName)
  else ret tt.

Definition clientOwnership : Type := bool.

Definition internalClient : clientOwnership := false.

Definition externalClient : clientOwnership := true.

(** A client that was passed in is not closed ([Close] of the stores, the
    repository and the outbox). *)
Definition close_client {S} (client : Client S) (own : clientOwnership) : M S unit :=
  if own then ret tt else Disconnect client.

(** What the constructors that connect ask of the driver. *)
Inductive client_option : Type :=
| ApplyURI (uri : string)
| SetWriteConcern (concern : string)
| SetReadConcern (concern : string)
| SetReadPreference (preference : string).

Definition connect_options (uri : string) : list client_option :=
  [ApplyURI uri; SetWriteConcern "majority"; SetReadConcern "majority"; SetReadPreference "primary"].

(** [Connect] is [mongo.Connect]; the client is then the store's own, which
    [k] makes. *)
Definition connecting {S A} (Connect : list client_option -> Client S + error) (uri : string)
    (k : option (Client S) -> clientOwnership -> M S A) : M S A :=
  match Connect (connect_options uri) with
  | inr err => throw (Errorf "could not connect to DB" err)
  | inl client => k (Some client) internalClient
  end.
