(* ===== verification/MongoStoreV2.v ===== *)
(** * The MongoDB event store ([eventstore/mongodb_v2])

    One document per event, under its global position, one document per
    aggregate in the streams collection, whose version is the optimistic lock,
    and the [$all] document there, which holds the last position given out.

    The state of an operation is the server's, the heap of metadata maps and
    the rest [X] of the program.  The metadata map of an [evt] is the record's
    own clone, so it is a value here; loading allocates the map it decodes.

    Parameters: BSON, JSON and gzip of values ([bson_Marshal] and so on), and
    the time [SaveSnapshot] reads. *)

From stdpp Require Import base gmap strings list numbers option pretty sorting.
From Stdlib Require Import Lia ZArith.
From S2P Require Import Prelude.
From S2P Require Import GoTypes.
From S2P Require Import Event.
From S2P Require Import Command.
From S2P Require Import Errors.
From S2P Require Import Fixtures.
From S2P Require Import Registry.
From S2P Require Import EventStoreSpec.
From S2P Require Import Mongo.

Module V2.

(** [type GlobalPositionStrategy int] *)
Definition GlobalPositionStrategy : Type := Z.

Definition GlobalPositionInTX : GlobalPositionStrategy := 0.

Definition GlobalPositionOutsideTX : GlobalPositionStrategy := 1.

(** An event record; [RawData] is empty when the event has no data. *)
Record evt : Type := mkEvt {
  Position : Z;
  EventType : string;
  Timestamp : Time;
  AggregateType : string;
  AggregateID : UUID;
  Version : Z;
  RawData : string;
  Metadata : option gomap
}.

Record stream : Type := mkStream {
  st_ID : UUID;
  st_Position : Z;
  st_AggregateType : string;
  st_Version : Z;
  st_UpdatedAt : Time
}.

(** The documents of the streams collection. *)
Inductive stream_doc : Type :=
| AllStream (position : Z)
| StreamDoc (strm : stream).

(** The dynamic types of [insert.InsertedIDs]: the last case is any other
    type, with the name and the text [fmt] prints. *)
Inductive inserted_id : Type :=
| ID_int32 (pos : Z)
| ID_int64 (pos : Z)
| ID_other (type text : string).

Record SnapshotRecord : Type := mkSnapshotRecord {
  sr_AggregateID : UUID;
  sr_RawData : string;
  sr_Timestamp : Time;
  sr_Version : Z;
  sr_AggregateType : string
}.

Section Store.
(** The server's state, the rest of the program's, and the server's own IDs. *)
Context {S X O : Type}.

Abbreviation St := (S * (heap * X))%type.

Definition handler : Type := context -> option event -> M St unit.

Record EventStore : Type := mkEventStore {
  client : Client S;
  ownership : clientOwnership;
  events : Collection S Z evt inserted_id;
  streams : Collection S (option UUID) stream_doc inserted_id;
  snapshots : Collection S O SnapshotRecord inserted_id;
  eventHandlerAfterSave : option handler;
  eventHandlerInTX : option handler;
  sortEventsOnDB : bool;
  globalPositionStrategy : GlobalPositionStrategy
}.

(** [client.Database(dbName, ...)]: its collections by name. *)
Record Database : Type := mkDatabase {
  events_Collection : string -> Collection S Z evt inserted_id;
  streams_Collection : string -> Collection S (option UUID) stream_doc inserted_id;
  snapshots_Collection : string -> Collection S O SnapshotRecord inserted_id
}.

(** ** Options *)

Definition Option : Type := Database -> EventStore -> EventStore + error.

(** The two checks both handler options make. *)
Definition no_handler_yet (s : EventStore) (k : EventStore + error) : EventStore + error :=
  match eventHandlerAfterSave s, eventHandlerInTX s with
  | Some _, _ => inr (ErrorString "another event handler is already set")
  | None, Some _ => inr (ErrorString "another TX event handler is already set")
  | None, None => k
  end.

Definition WithEventHandler (h : option handler) : Option := fun _ s =>
  no_handler_yet s
    (inl (mkEventStore (client s) (ownership s) (events s) (streams s) (snapshots s)
            h (eventHandlerInTX s) (sortEventsOnDB s) (globalPositionStrategy s))).

Definition WithEventHandlerInTX (h : option handler) : Option := fun _ s =>
  no_handler_yet s
    (inl (mkEventStore (client s) (ownership s) (events s) (streams s) (snapshots s)
            (eventHandlerAfterSave s) h (sortEventsOnDB s) (globalPositionStrategy s))).

Definition checked_name (name : string) : option error :=
  match (CheckCollectionName name tt).1 with Err e => Some e | _ => None end.

Definition WithCollectionNames (eventsColl streamsColl : string) : Option := fun db s =>
  match checked_name eventsColl with
  | Some err => inr (Errorf "events collection" err)
  | None =>
      match checked_name streamsColl with
      | Some err => inr (Errorf "streams collection" err)
      | None =>
          if bool_decide (eventsColl = streamsColl)
          then inr (ErrorString "custom collection names are equal")
          else inl (mkEventStore (client s) (ownership s) (events_Collection db eventsColl)
                      (streams_Collection db streamsColl) (snapshots s)
                      (eventHandlerAfterSave s) (eventHandlerInTX s) (sortEventsOnDB s)
                      (globalPositionStrategy s))
      end
  end.

Definition WithSnapshotCollectionName (snapshotColl : string) : Option := fun db s =>
  match checked_name snapshotColl with
  | Some err => inr (Errorf "snapshot collection" err)
  | None =>
      inl (mkEventStore (client s) (ownership s) (events s) (streams s)
             (snapshots_Collection db snapshotColl) (eventHandlerAfterSave s)
             (eventHandlerInTX s) (sortEventsOnDB s) (globalPositionStrategy s))
  end.

Definition WithSortEventsOnDB : Option := fun _ s =>
  inl (mkEventStore (client s) (ownership s) (events s) (streams s) (snapshots s)
         (eventHandlerAfterSave s) (eventHandlerInTX s) true (globalPositionStrategy s)).

Definition WithGlobalPositionStrategy (strategy : GlobalPositionStrategy) : Option := fun _ s =>
  inl (mkEventStore (client s) (ownership s) (events s) (streams s) (snapshots s)
         (eventHandlerAfterSave s) (eventHandlerInTX s) (sortEventsOnDB s) strategy).

Fixpoint apply_options (db : Database) (options : list Option) (s : EventStore)
  : EventStore + error :=
  match options with
  | [] => inl s
  | option :: options' =>
      match option db s with
      | inl s' => apply_options db options' s'
      | inr err => inr (Errorf "error while applying option" err)
      end
  end.

(** The filter [{"_id": "$all"}]. *)
Definition is_all (d : stream_doc) : bool :=
  match d with AllStream _ => true | StreamDoc _ => false end.

Definition newEventStoreWithClient (cl : option (Client S)) (own : clientOwnership)
    (db : Database) (options : list Option) : M S EventStore :=
  match cl with
  | None => throw (ErrorString "missing DB client")
  | Some cl =>
      match apply_options db options
              (mkEventStore cl own (events_Collection db "events")
                 (streams_Collection db "streams") (snapshots_Collection db "snapshots")
                 None None false GlobalPositionInTX) with
      | inr err => throw err
      | inl s =>
          let ctx := Background in
          do! map_err (Errorf "could not connect to MongoDB") (Ping (client s)) in
          do! map_err (Errorf "could not ensure events index")
                (CreateIndex (events s) ctx "aggregate_id") in
          do! map_err (Errorf "could not ensure events index")
                (CreateIndex (events s) ctx "version") in
          do! map_err (Errorf "could not ensure snapshot aggregate_id index")
                (CreateIndex (snapshots s) ctx "aggregate_id") in
          do! map_err (Errorf "could not ensure snapshot version index")
                (CreateIndex (snapshots s) ctx "version") in
          let! found := attempt (FindOne (streams s) ctx is_all None) in
          match found with
          | inl _ => ret s
          | inr err =>
              if errors_Is err ErrNoDocuments then
                do! map_err (Errorf "could not create the $all stream document")
                      (InsertOne (streams s) ctx (AllStream 0)) in
                ret s
              else throw (Errorf "could not find the $all stream document" err)
          end
      end
  end.

Definition NewEventStoreWithClient (cl : option (Client S)) (db : Database)
    (options : list Option) : M S EventStore :=
  newEventStoreWithClient cl externalClient db options.

Definition NewEventStore (Connect : list client_option -> Client S + error) (uri : string) (db : Database)
    (options : list Option) : M S EventStore :=
  connecting Connect uri (fun cl own => newEventStoreWithClient cl own db options).

(** ** Saving *)

Section Codecs.
Context (uuid_String : UUID -> string).
Context (eventDataFactories : gmap string (unit -> any)).
Context (snapshotDataFactories : gmap string (UUID -> any)).
Context (bson_Marshal : any -> string + error).
Context (bson_Unmarshal : string -> any -> any + error).
Context (json_Marshal : Snapshot -> string + error).
Context (json_Unmarshal : string -> Snapshot -> Snapshot + error).
Context (gzip gunzip : string -> string + error).

Definition on_heap {A} (m : M heap A) : M St A := zoom_snd (zoom_fst m).

(** [v, err := f()] of a pure call. *)
Definition try_pure {T A} (r : A + error) (wrap : error -> error) : M T A :=
  match r with
  | inl a => ret a
  | inr err => throw (wrap err)
  end.

Definition newEvt (ctx : context) (ev : option event) : M heap evt :=
  let! e := deref ev in
  let! h := gets (fun h => h) in
  let! raw :=
    if is_nil (data e) then ret ""
    else try_pure (bson_Marshal (data e)) (fun err =>
           EventStoreError (Some (Errorf "could not marshal event data" err)) "" "" Nil 0 []) in
  ret (mkEvt 0 (eventType e) (timestamp e) (aggregateType e) (aggregateID e) (version e)
         raw (Some (map_at h (metadata e)))).

(** The loop of [Save] over the events still to check, [i] being the index of
    the first of them. *)
Fixpoint build_events (ctx : context) (id : UUID) (at' : string) (originalVersion : Z)
    (evs : list (option event)) (i : Z) (rest : list (option event)) : M heap (list evt) :=
  let fail err :=
    EventStoreError (Some err) EventStoreOpSave at' id originalVersion evs in
  match rest with
  | [] => ret []
  | ev :: rest' =>
      let! e := deref ev in
      if bool_decide (aggregateID e <> id)
      then throw (fail (Sentinel ErrMismatchedEventAggregateIDs))
      else if bool_decide (aggregateType e <> at')
      then throw (fail (Sentinel ErrMismatchedEventAggregateTypes))
      else if bool_decide (version e <> iadd (iadd originalVersion i) 1)
      then throw (fail (Sentinel ErrIncorrectEventVersion))
      else
        let! d := newEvt ctx ev in
        let! ds := build_events ctx id at' originalVersion evs (i + 1) rest' in
        ret (d :: ds)
  end.

(** [event.Position = pos; event.Metadata["position"] = pos] *)
Definition set_position {T} (pos : Z) (e : evt) : M T evt :=
  match Metadata e with
  | None => panic "assignment to entry in nil map"
  | Some md =>
      ret (mkEvt pos (EventType e) (Timestamp e) (AggregateType e) (AggregateID e)
             (Version e) (RawData e) (Some (<["position" := AInt pos]> md)))
  end.

(** The loop that gives the events their positions.  It sets them anew on each
    run of a transaction, so the records of an earlier run do not matter. *)
Fixpoint assign_positions {T} (prev : Z) (i : Z) (dbEvents : list evt) : M T (list evt) :=
  match dbEvents with
  | [] => ret []
  | e :: dbEvents' =>
      let! e' := set_position (iadd (iadd prev i) 1) e in
      let! es := assign_positions prev (i + 1) dbEvents' in
      ret (e' :: es)
  end.

(** The stream record for the last event. *)
Definition stream_of (e : evt) : stream :=
  mkStream (AggregateID e) (Position e) (AggregateType e) (Version e) (Timestamp e).

(** [{"$inc": {"position": n}}] *)
Definition inc_position (n : Z) (d : stream_doc) : stream_doc :=
  match d with
  | AllStream p => AllStream (p + n)
  | StreamDoc t =>
      StreamDoc (mkStream (st_ID t) (st_Position t + n) (st_AggregateType t) (st_Version t)
                   (st_UpdatedAt t))
  end.

(** The filter and the update of the stream document of an aggregate; the
    [$all] document has no version and never matches. *)
Definition at_version (id : UUID) (originalVersion : Z) (d : stream_doc) : bool :=
  match d with
  | AllStream _ => false
  | StreamDoc t => bool_decide (st_ID t = id) && (st_Version t =? originalVersion)
  end.

Definition advance_stream (strm : stream) (n : Z) (d : stream_doc) : stream_doc :=
  match d with
  | AllStream p => AllStream p
  | StreamDoc t =>
      StreamDoc (mkStream (st_ID t) (st_Position strm) (st_AggregateType t)
                   (st_Version t + n) (st_UpdatedAt strm))
  end.

Section Ops.
Context (s : EventStore).
(** [mongo.IsDuplicateKeyError] *)
Context (IsDuplicateKeyError : error -> bool).

(** [updateGlobalPosition], and the same lines in [saveInTX]. *)
Definition updateGlobalPosition (ctx : context) (eventCount : Z) : M S Z :=
  let! r := map_err (Errorf "could not increment global position")
              (FindOneAndUpdate (streams s) ctx is_all (inc_position eventCount)) in
  match r with
  | inr err => throw (Errorf "could not decode global position" err)
  | inl (AllStream position) => ret position
  | inl (StreamDoc t) => ret (st_Position t)
  end.

(** Insert the stream of a new aggregate, or move the one that is at the
    version the caller started from. *)
Definition store_stream (txCtx : context) (strm : stream) (n originalVersion : Z) : M S unit :=
  if originalVersion =? 0 then
    let! r := attempt (InsertOne (streams s) txCtx (StreamDoc strm)) in
    match r with
    | inl _ => ret tt
    | inr err =>
        if IsDuplicateKeyError err then throw (Sentinel ErrEventConflictFromOtherSave)
        else throw (Errorf "could not insert stream" err)
    end
  else
    let! matched := map_err (Errorf "could not update stream")
      (UpdateOne (streams s) txCtx (at_version (st_ID strm) originalVersion)
         (advance_stream strm n)) in
    if matched =? 0 then throw (Sentinel ErrEventConflictFromOtherSave) else ret tt.

Definition updateStreamForEntity (txCtx : context) (dbEvents : list evt) (originalVersion : Z)
  : M S unit :=
  match last dbEvents with
  | None => panic "index out of range"
  | Some lastEvent => store_stream txCtx (stream_of lastEvent) (len dbEvents) originalVersion
  end.

(** The search of [verifyInsertedPositions] for the position of one event. *)
Fixpoint find_inserted (e : evt) (insertedIDs : list inserted_id) : bool + error :=
  match insertedIDs with
  | [] => inl false
  | ID_int32 pos :: ids | ID_int64 pos :: ids =>
      if Position e =? pos then inl true else find_inserted e ids
  | ID_other type text :: _ =>
      inr (ErrorString ("unexpected inserted ID type " +:+ type +:+ " (" +:+ text +:+
             ") for event " +:+ uuid_String (AggregateID e) +:+ " at pos " +:+ pretty (Position e)))
  end.

Fixpoint verifyInsertedPositions {T} (dbEvents : list evt) (insertedIDs : list inserted_id)
  : M T unit :=
  match dbEvents with
  | [] => ret tt
  | e :: dbEvents' =>
      match find_inserted e insertedIDs with
      | inr err => throw err
      | inl false =>
          throw (ErrorString ("inserted event " +:+ uuid_String (AggregateID e) +:+ " at pos " +:+
                   pretty (Position e) +:+ " not found in inserted IDs"))
      | inl true => verifyInsertedPositions dbEvents' insertedIDs
      end
  end.

Definition insert_events (txCtx : context) (dbEvents : list evt) : M S unit :=
  let! insertedIDs := map_err (Errorf "could not insert events")
                        (InsertMany (events s) txCtx dbEvents) in
  verifyInsertedPositions dbEvents insertedIDs.

Definition handle_in_tx (txCtx : context) (evs : list (option event)) : M St unit :=
  match eventHandlerInTX s with
  | None => ret tt
  | Some h =>
      for_range evs (fun e =>
        map_err (Errorf "could not handle event in transaction") (h txCtx e))
  end.

(** The callback of the transaction of [saveInTX]. *)
Definition saveInTX_callback (evs : list (option event)) (dbEvents : list evt)
    (originalVersion : Z) (txCtx : context) : M St unit :=
  let! position := zoom_fst (updateGlobalPosition txCtx (len dbEvents)) in
  let! dbEvents := assign_positions position 0 dbEvents in
  do! zoom_fst (insert_events txCtx dbEvents) in
  do! zoom_fst (updateStreamForEntity txCtx dbEvents originalVersion) in
  handle_in_tx txCtx evs.

Definition saveInTX (ctx : context) (evs : list (option event)) (id : UUID) (at' : string)
    (dbEvents : list evt) (originalVersion : Z) : M St unit :=
  let fail err :=
    EventStoreError (Some err) EventStoreOpSave at' id originalVersion evs in
  do! map_err (fun err => fail (Errorf "could not start transaction" err))
        (zoom_fst (StartSession (client s))) in
  map_err fail
    (WithTransaction (client s) (heap * X) ctx (saveInTX_callback evs dbEvents originalVersion)).

Definition saveOutsideTX_callback (evs : list (option event)) (dbEvents : list evt)
    (originalVersion : Z) (txCtx : context) : M St unit :=
  do! zoom_fst (updateStreamForEntity txCtx dbEvents originalVersion) in
  do! zoom_fst (insert_events txCtx dbEvents) in
  handle_in_tx txCtx evs.

Definition saveOutsideTX (ctx : context) (evs : list (option event)) (id : UUID) (at' : string)
    (dbEvents : list evt) (originalVersion : Z) : M St unit :=
  let fail err :=
    EventStoreError (Some err) EventStoreOpSave at' id originalVersion evs in
  let! prevPosition := map_err fail (zoom_fst (updateGlobalPosition ctx (len dbEvents))) in
  let! dbEvents := assign_positions prevPosition 0 dbEvents in
  do! map_err (fun err => fail (Errorf "could not start transaction" err))
        (zoom_fst (StartSession (client s))) in
  map_err fail
    (WithTransaction (client s) (heap * X) ctx
       (saveOutsideTX_callback evs dbEvents originalVersion)).

Definition handle_after_save (ctx : context) (evs : list (option event)) : M St unit :=
  match eventHandlerAfterSave s with
  | Some h =>
      for_range evs (fun e =>
        map_err (fun err => EventHandlerError (Some err) e) (h ctx e))
  | None => ret tt
  end.

Definition Save (ctx : context) (evs : list (option event)) (originalVersion : Z) : M St unit :=
  match evs with
  | [] => throw (EventStoreError (Some (Sentinel ErrMissingEvents)) EventStoreOpSave "" Nil 0 [])
  | ev :: _ =>
      let! e0 := deref ev in
      let id := aggregateID e0 in
      let at' := aggregateType e0 in
      let! dbEvents := on_heap (build_events ctx id at' originalVersion evs 0 evs) in
      do! (if globalPositionStrategy s =? GlobalPositionOutsideTX
           then saveOutsideTX ctx evs id at' dbEvents originalVersion
           else saveInTX ctx evs id at' dbEvents originalVersion) in
      handle_after_save ctx evs
  end.
(** ** Loading *)

(** The sort of [makeFindOptions]: by version, or none. *)
Definition makeFindOptions : option (evt -> Z) :=
  if sortEventsOnDB s then Some Version else None.

(** The decoded metadata is a map of its own. *)
Definition alloc_metadata (md : option gomap) : M heap (option loc) := fun h =>
  match md with
  | None => (Ok None, h)
  | Some m => let '(h', l) := alloc m h in (Ok (Some l), h')
  end.

(** The body of the loop: the event of a decoded record. *)
Definition load_event (id : UUID) (e : evt) (evs : list event) : M heap event :=
  let fail msg err :=
    EventStoreError (Some (Errorf msg err)) EventStoreOpLoad (AggregateType e) id (Version e)
      (somes evs) in
  let! d :=
    if bool_decide (RawData e = "") then ret ANil
    else
      let! d := map_err (fail "could not create event data")
                  (CreateEventData eventDataFactories (EventType e)) in
      try_pure (bson_Unmarshal (RawData e) d) (fail "could not unmarshal event data") in
  let! md := alloc_metadata (Metadata e) in
  fun h =>
    let '(h', ev) := NewEvent (EventType e) d (Timestamp e)
      [Some (ForAggregate (AggregateType e) (AggregateID e) (Version e)); Some (WithMetadata md)] h in
    (Ok ev, h').

(** [for cursor.Next(ctx) { .. }] *)
Fixpoint load_items (id : UUID) (items : list (evt + error)) (evs : list event)
  : M heap (list event) :=
  match items with
  | [] => ret evs
  | inr err :: _ =>
      throw (EventStoreError (Some (Errorf "could not decode event" err)) EventStoreOpLoad "" id 0
               (somes evs))
  | inl e :: items' =>
      let! ev := load_event id e evs in
      load_items id items' (evs ++ [ev])
  end.

(** The error that ended the cursor ([cursor.Err]) is not read. *)
Definition loadFromCursor (id : UUID) (cursor : Cursor evt) : M heap (list (option event)) :=
  let! evs := load_items id (c_items cursor) [] in
  match evs with
  | [] => throw (EventStoreError (Some (Sentinel ErrAggregateNotFound)) EventStoreOpLoad "" id 0 [])
  | _ :: _ => ret (somes evs)
  end.

Definition find_error (id : UUID) (err : error) : error :=
  EventStoreError (Some (Errorf "could not find event" err)) EventStoreOpLoad "" id 0 [].

Definition of_aggregate (id : UUID) (e : evt) : bool := bool_decide (AggregateID e = id).

Definition Load (ctx : context) (id : UUID) : M St (list (option event)) :=
  let! cursor := map_err (find_error id)
    (zoom_fst (Find (events s) ctx (of_aggregate id) makeFindOptions)) in
  on_heap (loadFromCursor id cursor).

Definition LoadFrom (ctx : context) (id : UUID) (version : Z) : M St (list (option event)) :=
  let! cursor := map_err (find_error id)
    (zoom_fst (Find (events s) ctx (fun e => of_aggregate id e && (version <=? Version e))
                 makeFindOptions)) in
  on_heap (loadFromCursor id cursor).

(** ** Snapshots *)

Definition compress (r : SnapshotRecord) : SnapshotRecord + error :=
  match gzip (sr_RawData r) with
  | inl b => inl (mkSnapshotRecord (sr_AggregateID r) b (sr_Timestamp r) (sr_Version r)
                    (sr_AggregateType r))
  | inr err => inr err
  end.

Definition decompress (r : SnapshotRecord) : SnapshotRecord + error :=
  match gunzip (sr_RawData r) with
  | inl b => inl (mkSnapshotRecord (sr_AggregateID r) b (sr_Timestamp r) (sr_Version r)
                    (sr_AggregateType r))
  | inr err => inr err
  end.

(** The filter and the sort ([version] descending) of [LoadSnapshot]. *)
Definition snapshot_of (id : UUID) (r : SnapshotRecord) : bool :=
  bool_decide (sr_AggregateID r = id).

Definition version_desc (r : SnapshotRecord) : Z := - sr_Version r.

Definition LoadSnapshot (ctx : context) (id : UUID) : M S (option Snapshot) :=
  let fail msg err :=
    EventStoreError (Some (Errorf msg err)) EventStoreOpLoadSnapshot "" id 0 [] in
  let! result := attempt (FindOne (snapshots s) ctx (snapshot_of id) (Some version_desc)) in
  match result with
  | inr err => if errors_Is err ErrNoDocuments then ret None else throw err
  | inl decoded =>
      let! record := try_pure decoded (fail "could not decode snapshot") in
      let! state := map_err (fail "could not decode snapshot")
        (CreateSnapshotData snapshotDataFactories (sr_AggregateID record) (sr_AggregateType record)) in
      let! record := try_pure (decompress record) (fail "could not decompress snapshot") in
      let! snapshot := try_pure (json_Unmarshal (sr_RawData record) (mkSnapshot 0 "" 0 state))
                         (fail "could not decode snapshot") in
      ret (Some snapshot)
  end.

Definition SaveSnapshot (now : Time) (ctx : context) (id : UUID) (snapshot : Snapshot) : M S unit :=
  let fail at' err := EventStoreError (Some err) EventStoreOpSaveSnapshot at' id 0 [] in
  if bool_decide (snap_AggregateType snapshot = "")
  then throw (fail "" (ErrorString "aggregate type is empty"))
  else if is_nil (snap_State snapshot)
  then throw (fail (snap_AggregateType snapshot) (ErrorString "snapshots state is nil"))
  else
    let! raw := try_pure (json_Marshal snapshot) (fun err => err) in
    let! record := try_pure
      (compress (mkSnapshotRecord id raw now (snap_Version snapshot) (snap_AggregateType snapshot)))
      (fun err => fail "" (Errorf "could not compress snapshot" err)) in
    map_err (fun err => fail "" (Errorf "could not save snapshot" err))
      (InsertOne (snapshots s) ctx record).

Definition Close : M S unit := close_client (client s) (ownership s).

(** ** Maintenance ([eventmaintenance.go]) *)

Definition version_of (id : UUID) (v : Z) (e : evt) : bool :=
  of_aggregate id e && (Version e =? v).

(** The callback of the transaction of [Replace]. *)
Definition Replace_callback (ev : option event) (e0 : event) (txCtx : context) : M St unit :=
  let id := aggregateID e0 in
  let! n := zoom_fst (CountDocuments (events s) txCtx (of_aggregate id)) in
  if n =? 0 then throw (Sentinel ErrAggregateNotFound)
  else
    let! e := on_heap (newEvt txCtx ev) in
    let! res := attempt (zoom_fst (FindOne (events s) txCtx (version_of id (version e0)) None)) in
    match res with
    | inr err =>
        if errors_Is err ErrNoDocuments then throw (Sentinel ErrEventNotFound)
        else throw (Errorf "could not find original event" err)
    | inl decoded =>
        let! eventToReplace := try_pure decoded (Errorf "could not decode event") in
        let! e := set_position (Position eventToReplace) e in
        let! matched := zoom_fst (ReplaceOne (events s) txCtx (version_of id (version e0)) e) in
        if matched =? 0 then throw (ErrorString "could not find original event to replace")
        else ret tt
    end.

Definition Replace (ctx : context) (ev : option event) : M St unit :=
  let! e0 := deref ev in
  let fail op err :=
    EventStoreError (Some err) op (aggregateType e0) (aggregateID e0) (version e0) [ev] in
  do! map_err (fun err => fail EventStoreOpSave (Errorf "could not start transaction" err))
        (zoom_fst (StartSession (client s))) in
  map_err (fail EventStoreOpReplace)
    (WithTransaction (client s) (heap * X) ctx (Replace_callback ev e0)).

Definition set_event_type (to : string) (e : evt) : evt :=
  mkEvt (Position e) to (Timestamp e) (AggregateType e) (AggregateID e) (Version e) (RawData e)
    (Metadata e).

Definition of_type (from : string) (e : evt) : bool := bool_decide (EventType e = from).

Definition RenameEvent (ctx : context) (from to : string) : M S unit :=
  do! map_err (fun err =>
         EventStoreError (Some (Errorf ("could not update events of type '" +:+ from +:+ "'") err))
           EventStoreOpRename "" Nil 0 [])
        (UpdateMany (events s) ctx (of_type from) (set_event_type to)) in
  ret tt.

Definition Clear (ctx : context) : M S unit :=
  let fail msg err := EventStoreError (Some (Errorf msg err)) "" "" Nil 0 [] in
  do! map_err (fail "could not clear events collection") (Drop (events s) ctx) in
  map_err (fail "could not clear streams collection") (Drop (streams s) ctx).

End Ops.
End Codecs.
End Store.
End V2.
