(* ===== verification/MongoStoreV2Spec.v ===== *)
(** * What the MongoDB event store does ([eventstore/mongodb_v2])

    [repr v last hist]: the view [v] of the server is a well-formed store,
    [last] the last global position given out and [hist id] the records of the
    aggregate [id] in version order.  The theorems refine [Save], [Load] and
    the rest to operations on [last] and [hist], for every server that has the
    laws of [Mongo]. *)

From stdpp Require Import functions base gmap strings list numbers option pretty sorting.
From Stdlib Require Import Lia ZArith.
From S2P Require Import Prelude.
From S2P Require Import GoTypes.
From S2P Require Import Event.
From S2P Require Import Command.
From S2P Require Import Errors.
From S2P Require Import Fixtures.
From S2P Require Import Registry.
From S2P Require Import EventStoreSpec.
From S2P Require Import Mongo.
From S2P Require Import MongoStoreV2.

Import MongoStoreV2.V2.

Module V2Spec.

(** ** The server's view: the store's three collections and the rest *)

Record View (O R : Type) `{Countable O} : Type := mkView {
  v_events : gmap Z evt;
  v_streams : gmap (option UUID) stream_doc;
  v_snapshots : gmap O SnapshotRecord;
  v_rest : R
}.
Arguments mkView {O R _ _}.
Arguments v_events {O R _ _}.
Arguments v_streams {O R _ _}.
Arguments v_snapshots {O R _ _}.
Arguments v_rest {O R _ _}.

Section View.
Context {O R : Type} `{Countable O}.

Definition put_events (m : gmap Z evt) (v : View O R) : View O R :=
  mkView m (v_streams v) (v_snapshots v) (v_rest v).

Definition put_streams (m : gmap (option UUID) stream_doc) (v : View O R) : View O R :=
  mkView (v_events v) m (v_snapshots v) (v_rest v).

Definition put_snapshots (m : gmap O SnapshotRecord) (v : View O R) : View O R :=
  mkView (v_events v) (v_streams v) m (v_rest v).

(** Views that differ in the rest of the database only. *)
Definition same_store (v v' : View O R) : Prop :=
  v_events v' = v_events v /\ v_streams v' = v_streams v /\ v_snapshots v' = v_snapshots v.

#[export] Instance same_store_equiv : Equivalence same_store.
Proof. split; unfold same_store; red; intuition congruence. Qed.

(** The records of an aggregate, in no order. *)
Definition docs_of (id : UUID) (m : gmap Z evt) : list evt :=
  filter (fun e => of_aggregate id e = true) (map_to_list m).*2.

(** The stream document of an aggregate of [n] events. *)
Definition stream_at (id : UUID) (n : Z) (o : option stream_doc) : Prop :=
  match o with
  | None => n = 0
  | Some (AllStream _) => False
  | Some (StreamDoc t) => st_ID t = id /\ st_Version t = n /\ n <> 0
  end.

Record repr (v : View O R) (last : Z) (hist : UUID -> list evt) : Prop := {
  repr_all : v_streams v !! None = Some (AllStream last);
  repr_last : 0 <= last;
  repr_position k e : v_events v !! k = Some e -> Position e = k /\ 1 <= k <= last;
  repr_docs id : hist id ≡ₚ docs_of id (v_events v);
  repr_versions id : Version <$> hist id = seqZ 1 (len (hist id));
  repr_stream id : stream_at id (len (hist id)) (v_streams v !! Some id);
  repr_count id : len (hist id) <= last
}.

(** Every position up to the last is taken: no gaps. *)
Definition gapless (v : View O R) (last : Z) : Prop :=
  forall k, 1 <= k <= last -> is_Some (v_events v !! k).

Lemma repr_same v v' last hist : same_store v v' -> repr v last hist -> repr v' last hist.
Proof. intros (He & Hs & _) []. split; by rewrite ?He, ?Hs. Qed.

Lemma repr_events_streams v v' last hist :
  v_events v' = v_events v -> v_streams v' = v_streams v -> repr v last hist -> repr v' last hist.
Proof. intros He Hs []. split; by rewrite ?He, ?Hs. Qed.

Lemma docs_of_insert id k e m :
  m !! k = None ->
  docs_of id (<[k := e]> m) ≡ₚ (if of_aggregate id e then [e] else []) ++ docs_of id m.
Proof.
  intros Hk. unfold docs_of. rewrite map_to_list_insert by done. rewrite fmap_cons, filter_cons.
  simpl. by destruct (of_aggregate id e).
Qed.

(** Inserting records one after the other. *)
Definition insert_all (ds : list evt) (m : gmap Z evt) : gmap Z evt :=
  foldl (fun m e => <[Position e := e]> m) m ds.

Lemma insert_all_inv ds m k e :
  insert_all ds m !! k = Some e -> (e ∈ ds /\ Position e = k) \/ m !! k = Some e.
Proof.
  revert m. induction ds as [|d ds IH]; intros m; simpl; [by right|].
  intros [[? ?]|Hm]%IH; [left; split; [by right|done]|].
  apply lookup_insert_Some in Hm as [[? ->]|[_ Hm]]; [left; split; [by left|done]|by right].
Qed.

Lemma insert_all_dom ds m k :
  (k ∈ Position <$> ds) \/ is_Some (m !! k) -> is_Some (insert_all ds m !! k).
Proof.
  revert m. induction ds as [|d ds IH]; intros m; simpl.
  { intros [?%elem_of_nil|]; done. }
  rewrite elem_of_cons. intros Hk. apply IH. destruct Hk as [[->|Hk]|[e Hk]]; [right|by left|right].
  - rewrite lookup_insert_eq. by eexists.
  - destruct (decide (Position d = k)) as [->|]; simplify_map_eq; by eexists.
Qed.

Lemma docs_of_insert_all id ds m :
  NoDup (Position <$> ds) -> Forall (fun e => m !! Position e = None) ds ->
  docs_of id (insert_all ds m) ≡ₚ docs_of id m ++ filter (fun e => of_aggregate id e = true) ds.
Proof.
  revert m. induction ds as [|e ds IH]; intros m Hnd Hf; [by rewrite app_nil_r|].
  simpl in *. apply NoDup_cons in Hnd as [Hni Hnd]. apply Forall_cons in Hf as [He Hf].
  rewrite IH; [|done|].
  - rewrite docs_of_insert by done. rewrite filter_cons.
    destruct (of_aggregate id e); simpl; [|done]. by rewrite Permutation_middle.
  - apply Forall_forall. intros d Hd. rewrite Forall_forall in Hf.
    rewrite lookup_insert_ne; [by apply Hf|]. intros Heq. apply Hni. rewrite Heq.
    by apply list_elem_of_fmap_2.
Qed.

(** Replacing one record by another of its aggregate. *)
Lemma docs_of_replace id k e e' m :
  m !! k = Some e -> AggregateID e' = AggregateID e ->
  docs_of id (<[k := e']> m) ≡ₚ
  (if of_aggregate id e then [e'] else []) ++ docs_of id (delete k m) /\
  docs_of id m ≡ₚ (if of_aggregate id e then [e] else []) ++ docs_of id (delete k m).
Proof.
  intros Hk Hid. split.
  - rewrite <- insert_delete_eq. rewrite docs_of_insert by apply lookup_delete_eq.
    unfold of_aggregate. by rewrite Hid.
  - rewrite <- (insert_delete_id m k e Hk) at 1. by rewrite docs_of_insert by apply lookup_delete_eq.
Qed.

Lemma docs_of_fmap id (f : evt -> evt) m :
  (forall e, AggregateID (f e) = AggregateID e) -> docs_of id (f <$> m) = f <$> docs_of id m.
Proof.
  intros Hf. unfold docs_of. rewrite map_to_list_fmap.
  induction (map_to_list m) as [|[k e] l IH]; [done|]. rewrite !fmap_cons, !filter_cons. simpl.
  assert (of_aggregate id (f e) = of_aggregate id e) as Hof by (unfold of_aggregate; by rewrite Hf).
  rewrite Hof. destruct (decide (of_aggregate id e = true)); rewrite IH; done.
Qed.

Lemma filter_ext_in {A} (P Q : A -> Prop) `{!forall a, Decision (P a)} `{!forall a, Decision (Q a)}
    (l : list A) :
  (forall a, a ∈ l -> P a <-> Q a) -> filter P l = filter Q l.
Proof.
  induction l as [|a l IH]; [done|]. intros Hin. rewrite !filter_cons.
  rewrite IH by (intros b Hb; apply Hin; by right).
  pose proof (Hin a ltac:(by left)). repeat case_decide; tauto.
Qed.

Lemma sorted_seqZ a n : StronglySorted Z.le (seqZ a n).
Proof.
  destruct (decide (0 <= n)) as [Hn|]; [|rewrite seqZ_nil by lia; constructor].
  revert a. pattern n. apply natlike_ind; [constructor| |done].
  intros m Hm IH a. rewrite seqZ_cons by lia. rewrite Z.pred_succ. constructor; [apply IH|].
  apply Forall_forall. intros z Hz%elem_of_seqZ. lia.
Qed.

(** A history is determined by the records: their versions are distinct. *)
Lemma sorted_unique (l l' : list evt) from :
  l ≡ₚ l' -> Version <$> l = seqZ from (len l) -> StronglySorted (le_by Version) l' -> l' = l.
Proof.
  intros Hp Hv Hs.
  assert (StronglySorted (le_by Version) l) as Hl.
  { assert (StronglySorted Z.le (Version <$> l)) as Hz by (rewrite Hv; apply sorted_seqZ).
    clear -Hz. induction l as [|e l IH]; [constructor|].
    simpl in Hz. apply StronglySorted_inv in Hz as [Hz Hf]. constructor; [by apply IH|].
    by rewrite Forall_fmap in Hf. }
  assert (forall a b, a ∈ l -> b ∈ l -> Version a = Version b -> a = b) as Hinj.
  { intros a b (i & Hi)%list_elem_of_lookup (j & Hj)%list_elem_of_lookup Hab.
    assert (NoDup (Version <$> l)) as Hnd by (rewrite Hv; apply NoDup_seqZ).
    assert (i = j) as ->; [|congruence].
    eapply NoDup_lookup; [done|by rewrite list_lookup_fmap, Hi|rewrite list_lookup_fmap, Hj; simpl; by rewrite Hab]. }
  eapply StronglySorted_unique_strong; [|done|done|by symmetry].
  intros a b Ha Hb Hab Hba. unfold le_by in *. apply Hinj; [by rewrite Hp|done|lia].
Qed.

Lemma drop_versions (l : list evt) a from :
  Version <$> l = seqZ a (len l) -> a <= from ->
  filter (fun e => (from <=? Version e) = true) l = drop (Z.to_nat (from - a)) l.
Proof.
  revert a. induction l as [|e l IH]; intros a Hv Hle; [by rewrite drop_nil|].
  rewrite len_cons, seqZ_cons, fmap_cons in Hv by int_lia. injection Hv as He Hv.
  rewrite filter_cons. destruct (Z.leb_spec from (Version e)).
  - rewrite decide_True by done. replace (Z.to_nat (from - a)) with 0%nat by lia. rewrite drop_0.
    f_equal. rewrite (filter_all _ l); [done|]. apply Forall_forall. intros d Hd.
    apply (list_elem_of_fmap_2 Version) in Hd. rewrite Hv in Hd. apply elem_of_seqZ in Hd.
    apply Z.leb_le. lia.
  - rewrite decide_False by done. rewrite (IH (Z.succ a)); [|rewrite Hv; f_equal; lia|lia].
    by replace (Z.to_nat (from - a)) with (Datatypes.S (Z.to_nat (from - Z.succ a))) by lia.
Qed.

Lemma versions_drop (l : list evt) a k :
  Version <$> l = seqZ a (len l) -> Version <$> drop k l = seqZ (a + Z.of_nat k) (len (drop k l)).
Proof.
  revert a l. induction k as [|k IH]; intros a l Hv.
  - by rewrite drop_0, Z.add_0_r.
  - destruct l as [|e l]; [done|]. rewrite len_cons, seqZ_cons, fmap_cons in Hv by int_lia.
    injection Hv as He Hv. simpl. rewrite (IH (Z.succ a)); [|rewrite Hv; f_equal; lia].
    f_equal. lia.
Qed.

End View.

(** ** Assumptions *)

(** What is read back of a record that was written: the times lose precision,
    the numbers in the metadata may change type. *)
Class WireLaws (wire : evt -> evt) (wire_stream : stream_doc -> stream_doc)
    (wire_snapshot : SnapshotRecord -> SnapshotRecord) : Prop := {
  wire_Position e : Position (wire e) = Position e;
  wire_EventType e : EventType (wire e) = EventType e;
  wire_AggregateType e : AggregateType (wire e) = AggregateType e;
  wire_AggregateID e : AggregateID (wire e) = AggregateID e;
  wire_Version e : Version (wire e) = Version e;
  wire_RawData e : RawData (wire e) = RawData e;
  wire_all p : wire_stream (AllStream p) = AllStream p;
  wire_strm t : exists t', wire_stream (StreamDoc t) = StreamDoc t' /\ st_ID t' = st_ID t /\
    st_Version t' = st_Version t /\ st_Position t' = st_Position t;
  wire_sr_AggregateID r : sr_AggregateID (wire_snapshot r) = sr_AggregateID r;
  wire_sr_AggregateType r : sr_AggregateType (wire_snapshot r) = sr_AggregateType r;
  wire_sr_Version r : sr_Version (wire_snapshot r) = sr_Version r;
  wire_sr_RawData r : sr_RawData (wire_snapshot r) = sr_RawData r
}.

Definition stream_key (d : stream_doc) : option UUID :=
  match d with AllStream _ => None | StreamDoc t => Some (st_ID t) end.

(** The driver reports the position back as an integer of either width. *)
Definition reported (pos : Z) (i : inserted_id) : Prop := i = ID_int32 pos \/ i = ID_int64 pos.

Class StoreLaws {S X O R : Type} `{Countable O} (up : S -> Prop) (view : S -> View O R)
    (wire : evt -> evt) (wire_stream : stream_doc -> stream_doc)
    (wire_snapshot : SnapshotRecord -> SnapshotRecord)
    (IsDuplicateKeyError : error -> bool) (s : EventStore (S := S) (X := X) (O := O)) : Prop := {
  store_wire :: WireLaws wire wire_stream wire_snapshot;
  store_events :: CollectionLaws up view v_events put_events (fun e => Some (Position e))
    wire reported IsDuplicateKeyError (events s);
  store_streams :: CollectionLaws up view v_streams put_streams (fun d => Some (stream_key d))
    wire_stream (fun _ _ => True) IsDuplicateKeyError (streams s);
  store_snapshots :: CollectionLaws up view v_snapshots put_snapshots (fun _ => None)
    wire_snapshot (fun _ _ => True) IsDuplicateKeyError (snapshots s);
  store_snapshot_ids :: GeneratesIDs up view v_snapshots put_snapshots (fun _ => None)
    wire_snapshot (snapshots s) (fun _ r => r);
  store_session :: SessionLaws up view (client s)
}.

Section Theory.
Context {S X O R : Type} `{Countable O} (up : S -> Prop) (view : S -> View O R).
Context (wire : evt -> evt) (wire_stream : stream_doc -> stream_doc).
Context (wire_snapshot : SnapshotRecord -> SnapshotRecord).
Context (uuid_String : UUID -> string) (eventDataFactories : gmap string (unit -> any)).
Context (bson_Marshal : any -> string + error) (bson_Unmarshal : string -> any -> any + error).
Context (dup : error -> bool) (s : EventStore (S := S) (X := X) (O := O)).
Context `{Hlaws : !StoreLaws up view wire wire_stream wire_snapshot dup s}.

Abbreviation St := (S * (heap * X))%type.
Abbreviation given := (gives up view).

(** ** The $all document *)

Definition set_last (last : Z) (v : View O R) : View O R :=
  put_streams (<[None := AllStream last]> (v_streams v)) v.

Lemma repr_set_last (v : View O R) last last' hist :
  repr v last hist -> last <= last' -> repr (set_last last' v) last' hist.
Proof.
  intros [] Hle. split; simpl; try done.
  - apply lookup_insert_eq.
  - lia.
  - intros k e Hk. destruct (repr_position0 k e Hk). split; [done|lia].
  - intros id. rewrite lookup_insert_ne by done. apply repr_stream0.
  - intros id. specialize (repr_count0 id). lia.
Qed.

Lemma matches_is_all (v : View O R) last hist k d :
  repr v last hist -> matches v_streams v is_all k d -> k = None /\ d = AllStream last.
Proof.
  intros [] [Hk Hd]. destruct d as [p|t]; [|done]. destruct k as [id|].
  - specialize (repr_stream0 id). by rewrite Hk in repr_stream0.
  - rewrite repr_all0 in Hk. by simplify_eq.
Qed.

Lemma insert_all_doc last (v : View O R) :
  insert_doc v_streams put_streams wire_stream None (AllStream last) v = set_last last v.
Proof. unfold insert_doc, set_last. by rewrite wire_all. Qed.

Lemma updateGlobalPosition_ok ctx n st last hist :
  up st -> repr (view st) last hist ->
  given (updateGlobalPosition s ctx n) st (Ok last) (set_last (last + n) (view st)).
Proof.
  intros Hu Hr. unfold updateGlobalPosition.
  destruct (law_find_one_and_update (c := streams s) ctx st is_all (inc_position n) Hu)
    as [[Hno _]|(k & d & Hm & Hg)].
  - exfalso. specialize (Hno None _ (repr_all _ _ _ Hr)). done.
  - destruct (matches_is_all _ _ _ _ _ Hr Hm) as [-> ->].
    eapply gives_bind; [by eapply (gives_map_err up view _ _ _ _ _ Hg)|].
    intros s' Hu' Hv'. cbn [inc_position] in Hv'. rewrite insert_all_doc in Hv'. rewrite <- Hv'. by apply gives_ret.
Qed.

(** ** The stream of an aggregate *)

Definition streams_ok (v : View O R) (n : UUID -> Z) : Prop :=
  (exists p, v_streams v !! None = Some (AllStream p)) /\
  forall id, stream_at id (n id) (v_streams v !! Some id).

Lemma repr_streams_ok (v : View O R) last hist :
  repr v last hist -> streams_ok v (fun id => len (hist id)).
Proof. intros []. split; [by eexists|done]. Qed.

Lemma streams_ok_set_last v n last : streams_ok v n -> streams_ok (set_last last v) n.
Proof.
  intros [_ Hs]. split; simpl; [exists last; apply lookup_insert_eq|].
  intros id. by rewrite lookup_insert_ne.
Qed.

Lemma matches_at_version v n id orig k d :
  streams_ok v n -> matches v_streams v (at_version id orig) k d ->
  k = Some id /\ n id = orig /\ exists t, d = StreamDoc t /\ st_ID t = id.
Proof.
  intros [[p Hp] Hs] [Hk Hd]. destruct d as [q|t]; [done|].
  apply andb_true_iff in Hd as [Hid%bool_decide_eq_true Hv%Z.eqb_eq].
  destruct k as [id'|]; [|congruence].
  pose proof (Hs id') as Ht. rewrite Hk in Ht. destruct Ht as (Hti & Htv & _).
  assert (id' = id) as -> by congruence. split; [done|]. split; [congruence|eauto].
Qed.

Definition put_stream (id : UUID) (t : stream) (v : View O R) : View O R :=
  put_streams (<[Some id := StreamDoc t]> (v_streams v)) v.

(** The stream document a batch leaves: the stream's own type when there is
    one, and the version, position and time of the batch's last record. *)
Definition next_stream (v : View O R) (strm : stream) (ver : Z) : stream :=
  mkStream (st_ID strm) (st_Position strm)
    (match v_streams v !! Some (st_ID strm) with
     | Some (StreamDoc t) => st_AggregateType t
     | _ => st_AggregateType strm
     end) ver (st_UpdatedAt strm).

(** [t] is what is read back of it. *)
Definition stream_left (v : View O R) (strm : stream) (ver : Z) (t : stream) : Prop :=
  wire_stream (StreamDoc (next_stream v strm ver)) = StreamDoc t /\
  st_ID t = st_ID strm /\ st_Version t = ver.

Lemma stream_left_same v v' strm ver t :
  v_streams v' !! Some (st_ID strm) = v_streams v !! Some (st_ID strm) ->
  stream_left v' strm ver t -> stream_left v strm ver t.
Proof. unfold stream_left, next_stream. by intros ->. Qed.

Lemma insert_stream_doc id t (v : View O R) :
  exists t', insert_doc v_streams put_streams wire_stream (Some id) (StreamDoc t) v =
    put_stream id t' v /\ wire_stream (StreamDoc t) = StreamDoc t' /\
    st_ID t' = st_ID t /\ st_Version t' = st_Version t.
Proof.
  destruct (wire_strm t) as (t' & Ht & ? & ? & _). exists t'. split; [|done].
  unfold insert_doc, put_stream. by rewrite Ht.
Qed.

Lemma store_stream_ok ctx strm k n st :
  up st -> streams_ok (view st) n -> st_Version strm = n (st_ID strm) + k ->
  exists t, stream_left (view st) strm (n (st_ID strm) + k) t /\
    given (store_stream s dup ctx strm k (n (st_ID strm))) st (Ok tt)
      (put_stream (st_ID strm) t (view st)).
Proof.
  intros Hu Hs Hver. pose proof (proj2 Hs (st_ID strm)) as Hid. unfold store_stream.
  destruct (Z.eqb_spec (n (st_ID strm)) 0) as [Hn|Hn].
  - assert (v_streams (view st) !! Some (st_ID strm) = None) as Hnone.
    { destruct (v_streams _ !! _) as [[q|t]|]; [done| |done]. by destruct Hid as (_ & _ & ?). }
    destruct (insert_stream_doc (st_ID strm) strm (view st)) as (t & Ht & Hw & ? & ?).
    exists t. split.
    { split; [|split; congruence]. unfold next_stream. rewrite Hnone, <- Hver. by destruct strm. }
    rewrite <- Ht.
    eapply gives_bind;
      [by apply gives_attempt_ok, (law_insert_one (c := streams s) _ _ _ (Some (st_ID strm)))|].
    intros s' Hu' <-. by apply gives_ret.
  - destruct (law_update_one (c := streams s) ctx st (at_version (st_ID strm) (n (st_ID strm)))
      (advance_stream strm k) Hu) as [[Hno _]|(key & d & Hm & Hg)].
    + exfalso. destruct (v_streams _ !! _) as [[q|t]|] eqn:Ht; [done| |done].
      specialize (Hno _ _ Ht). simpl in Hno. destruct Hid as (Hi & Hv & _).
      by rewrite Hi, Hv, bool_decide_true, Z.eqb_refl in Hno.
    + destruct (matches_at_version _ _ _ _ _ _ Hs Hm) as (-> & _ & t0 & -> & Ht0).
      destruct Hm as [Hlk _]. rewrite Hlk in Hid. destruct Hid as (_ & Hv0 & _).
      cbn [advance_stream] in Hg.
      edestruct (insert_stream_doc (st_ID strm)) as (t & Ht & Hw & Hti & Htv); rewrite Ht in Hg.
      simpl in Hti, Htv. exists t. split.
      { split; [|split; congruence]. unfold next_stream. rewrite Hlk. by rewrite Ht0, Hv0 in Hw. }
      eapply gives_bind; [apply (gives_map_err up view _ _ _ _ _ Hg)|].
      intros s' Hu' <-. by apply gives_ret.
Qed.

Lemma store_stream_conflict ctx strm k orig n st :
  up st -> streams_ok (view st) n -> n (st_ID strm) <> orig ->
  given (store_stream s dup ctx strm k orig) st
    (Err (Sentinel ErrEventConflictFromOtherSave)) (view st).
Proof.
  intros Hu Hs Hne. unfold store_stream. destruct (Z.eqb_spec orig 0) as [->|Hn].
  - pose proof (proj2 Hs (st_ID strm)) as Hid.
    destruct (law_insert_one_dup (c := streams s) ctx st (StreamDoc strm) (Some (st_ID strm)) Hu eq_refl)
      as (err & Hdup & Hg).
    { destruct (v_streams _ !! _); [by eexists|done]. }
    eapply gives_bind; [by apply gives_attempt_err|].
    intros s' Hu' <-. rewrite Hdup. by exists s'.
  - destruct (law_update_one (c := streams s) ctx st (at_version (st_ID strm) orig)
      (advance_stream strm k) Hu) as [[_ Hg]|(key & d & Hm & _)].
    + eapply gives_bind; [apply (gives_map_err up view _ _ _ _ _ Hg)|].
      intros s' Hu' <-. by exists s'.
    + exfalso. by destruct (matches_at_version _ _ _ _ _ _ Hs Hm) as (_ & ? & _).
Qed.

(** ** The records of a batch *)

(** A record at its position. *)
Definition placed (pos : Z) (e : evt) : evt :=
  mkEvt pos (EventType e) (Timestamp e) (AggregateType e) (AggregateID e) (Version e) (RawData e)
    (Some (<["position" := AInt pos]> (default ∅ (Metadata e)))).

Fixpoint place (prev : Z) (ds : list evt) : list evt :=
  match ds with
  | [] => []
  | e :: ds' => placed (prev + 1) e :: place (prev + 1) ds'
  end.

Lemma len_place prev ds : len (place prev ds) = len ds.
Proof. revert prev. induction ds as [|e ds IH]; intros prev; [done|]. simpl. by rewrite !len_cons, IH. Qed.

Lemma place_Position prev ds : Position <$> place prev ds = seqZ (prev + 1) (len ds).
Proof.
  revert prev. induction ds as [|e ds IH]; intros prev; [done|].
  simpl. rewrite len_cons, seqZ_cons by int_lia. rewrite IH. f_equal. f_equal; lia.
Qed.

Lemma place_fields prev ds :
  Version <$> place prev ds = Version <$> ds /\ AggregateID <$> place prev ds = AggregateID <$> ds.
Proof.
  revert prev. induction ds as [|e ds IH]; intros prev; [done|].
  destruct (IH (prev + 1)) as [HV HA]. split; simpl; f_equal; [exact HV|exact HA].
Qed.

Lemma assign_positions_ok {T} prev i ds (t : T) :
  Forall (fun e => is_Some (Metadata e)) ds -> 0 <= prev -> 0 <= i -> is_int (prev + i + len ds) ->
  assign_positions prev i ds t = (Ok (place (prev + i) ds), t).
Proof.
  intros HF Hp. revert i. induction HF as [|e ds [md Hmd] _ IH]; intros i Hi Hint; [done|].
  simpl. rewrite len_cons in Hint. unfold set_position. rewrite Hmd.
  rewrite (iadd_id prev i), iadd_id by int_lia. unfold bind at 1. simpl.
  rewrite (bind_ok _ _ _ _ _ (IH (i + 1) ltac:(lia) ltac:(int_lia))).
  rewrite Z.add_assoc. unfold placed. by rewrite Hmd.
Qed.

Lemma find_inserted_ok e (ids : list inserted_id) ps :
  Forall2 reported ps ids -> Position e ∈ ps -> find_inserted uuid_String e ids = inl true.
Proof.
  induction 1 as [|p i ps ids Hi _ IH]; intros Hin; [by apply elem_of_nil in Hin|].
  simpl. destruct Hi as [-> | ->]; destruct (Z.eqb_spec (Position e) p); try done;
    apply IH; by apply elem_of_cons in Hin as [|].
Qed.

Lemma verify_ok {T} ds (ids : list inserted_id) ps (t : T) :
  Forall2 reported ps ids -> Forall (fun e => Position e ∈ ps) ds ->
  verifyInsertedPositions uuid_String ds ids t = (Ok tt, t).
Proof.
  intros Hr. induction 1 as [|e ds He _ IH]; [done|]. simpl.
  by rewrite (find_inserted_ok _ _ _ Hr He).
Qed.

Lemma insert_docs_all ds (v : View O R) :
  foldl (fun v '(k, d) => insert_doc v_events put_events wire k d v) v (zip (Position <$> ds) ds) =
  put_events (insert_all (wire <$> ds) (v_events v)) v.
Proof.
  revert v. induction ds as [|e ds IH]; intros v; [by destruct v|].
  simpl. rewrite IH. by rewrite wire_Position.
Qed.

Lemma insert_events_ok ctx ds st :
  up st -> NoDup (Position <$> ds) ->
  Forall (fun k => v_events (view st) !! k = None) (Position <$> ds) ->
  given (insert_events uuid_String s ctx ds) st (Ok tt)
    (put_events (insert_all (wire <$> ds) (v_events (view st))) (view st)).
Proof.
  intros Hu Hnd Hfresh. unfold insert_events.
  destruct (law_insert_many (c := events s) ctx st ds (Position <$> ds) Hu) as (ids & Hids & Hg);
    [by apply Forall2_fmap_r, Forall_Forall2_diag, Forall_forall|done|done|].
  rewrite insert_docs_all in Hg.
  eapply gives_bind; [apply (gives_map_err up view _ _ _ _ _ Hg)|].
  intros s' Hu' <-. exists s'. split; [|done].
  eapply verify_ok; [done|]. apply Forall_forall. intros e He. by apply list_elem_of_fmap_2.
Qed.

(** ** The two ways to save *)

(** The view after saving the records [ds], given the positions after [last]. *)
Definition saved (id : UUID) (t : stream) (last : Z) (ds : list evt) (v : View O R) : View O R :=
  put_stream id t
    (put_events (insert_all (wire <$> place last ds) (v_events v)) (set_last (last + len ds) v)).

Lemma wire_place_Position last ds :
  Position <$> (wire <$> place last ds) = seqZ (last + 1) (len ds).
Proof.
  rewrite <- place_Position, <- list_fmap_compose. apply list_fmap_ext. intros _ e _. apply wire_Position.
Qed.

Lemma wire_place_Version last ds : Version <$> (wire <$> place last ds) = Version <$> ds.
Proof.
  rewrite <- (proj1 (place_fields last ds)), <- list_fmap_compose. apply list_fmap_ext.
  intros _ e _. apply wire_Version.
Qed.

Lemma place_Forall_ID id last ds :
  Forall (fun e => AggregateID e = id) ds -> Forall (fun e => AggregateID e = id) (place last ds).
Proof.
  intros HF. rewrite <- (Forall_fmap AggregateID (fun i => i = id)) in HF |- *.
  by rewrite (proj2 (place_fields last ds)).
Qed.

Lemma filter_place id id' last ds :
  Forall (fun e => AggregateID e = id) ds ->
  filter (fun e => of_aggregate id' e = true) (wire <$> place last ds) =
  if decide (id' = id) then wire <$> place last ds else [].
Proof.
  intros HF%(place_Forall_ID id last). induction HF as [|e l He _ IH]; [by case_decide|].
  rewrite fmap_cons, filter_cons, IH. unfold of_aggregate. rewrite wire_AggregateID, He.
  destruct (decide (id' = id)) as [->|Hne].
  - by rewrite decide_True by (by apply bool_decide_eq_true).
  - rewrite decide_False; [done|]. rewrite bool_decide_eq_true. congruence.
Qed.

Lemma place_fresh (v : View O R) last hist ds :
  repr v last hist -> Forall (fun k => v_events v !! k = None) (Position <$> place last ds).
Proof.
  intros []. rewrite place_Position. apply Forall_seqZ. intros k Hk.
  destruct (v_events v !! k) eqn:He; [|done]. destruct (repr_position0 _ _ He). lia.
Qed.

Lemma repr_saved (v : View O R) last hist id t ds :
  repr v last hist -> Forall (fun e => AggregateID e = id) ds -> ds <> [] ->
  Version <$> ds = seqZ (len (hist id) + 1) (len ds) ->
  st_ID t = id -> st_Version t = len (hist id) + len ds ->
  repr (saved id t last ds v) (last + len ds)
    (<[id := hist id ++ (wire <$> place last ds)]> hist).
Proof.
  intros Hr HF Hne Hver Hti Htv. pose proof (len_nonneg ds) as Hlen.
  assert (len ds <> 0) as Hlen0 by (intros ?%len_0; done).
  pose proof (place_fresh v last hist ds Hr) as Hfresh.
  destruct Hr. split; simpl.
  - rewrite lookup_insert_ne by done. apply lookup_insert_eq.
  - lia.
  - intros k e [[(d & -> & Hd)%list_elem_of_fmap <-]|Hk]%insert_all_inv.
    + split; [done|]. rewrite wire_Position.
      apply (list_elem_of_fmap_2 Position) in Hd. rewrite place_Position in Hd.
      apply elem_of_seqZ in Hd. lia.
    + destruct (repr_position0 _ _ Hk). split; [done|lia].
  - intros id'. rewrite docs_of_insert_all.
    + rewrite (filter_place id) by done. destruct (decide (id' = id)) as [->|Hid].
      * rewrite fn_lookup_insert. by f_equiv.
      * rewrite fn_lookup_insert_ne by done. by rewrite app_nil_r.
    + rewrite wire_place_Position. apply NoDup_seqZ.
    + apply (Forall_fmap Position (fun k => v_events v !! k = None)).
      by rewrite wire_place_Position, <- place_Position.
  - intros id'. destruct (decide (id' = id)) as [->|Hid].
    + rewrite fn_lookup_insert, fmap_app, repr_versions0, wire_place_Version, Hver.
      rewrite len_app, len_fmap, len_place, seqZ_app by int_lia. f_equal. f_equal. lia.
    + by rewrite fn_lookup_insert_ne.
  - intros id'. destruct (decide (id' = id)) as [->|Hid].
    + rewrite fn_lookup_insert, lookup_insert_eq. simpl. rewrite len_app, len_fmap, len_place.
      split; [done|]. split; [done|]. int_lia.
    + rewrite fn_lookup_insert_ne by done. rewrite !lookup_insert_ne by congruence. apply repr_stream0.
  - intros id'. pose proof (repr_count0 id'). destruct (decide (id' = id)) as [->|Hid].
    + rewrite fn_lookup_insert, len_app, len_fmap, len_place. lia.
    + rewrite fn_lookup_insert_ne by done. lia.
Qed.

(** A handler that succeeds and leaves the store's collections alone, as an
    outbox in the same database does. *)
Definition handlers_ok (evs : list (option event)) : Prop :=
  forall h ctx e st x, eventHandlerInTX s = Some h -> e ∈ evs -> up st ->
  exists st' x', h ctx e (st, x) = (Ok tt, (st', x')) /\ up st' /\ same_store (view st') (view st).

(** What the handler made of the rest of the database, event by event. *)
Definition rest_step (e : option event) (r r' : R) : Prop :=
  exists h ctx st x st' x', eventHandlerInTX s = Some h /\ up st /\
    h ctx e (st, x) = (Ok tt, (st', x')) /\ r = v_rest (view st) /\ r' = v_rest (view st').

Inductive handled : list (option event) -> R -> R -> Prop :=
| handled_none evs r : eventHandlerInTX s = None -> handled evs r r
| handled_nil r : handled [] r r
| handled_cons e evs r r1 r' : rest_step e r r1 -> handled evs r1 r' -> handled (e :: evs) r r'.

Lemma handled_snoc evs e r r1 r' : handled evs r r1 -> rest_step e r1 r' -> handled (evs ++ [e]) r r'.
Proof.
  induction 1 as [evs r Hn|r|e0 evs r r0 r1 H0 _ IH]; intros Hs.
  - destruct Hs as (h & ctx & st & x & st' & x' & Hh & _). by rewrite Hn in Hh.
  - eapply handled_cons; [done|apply handled_nil].
  - eapply handled_cons; [done|by apply IH].
Qed.

Lemma handled_none_eq evs r r' : handled evs r r' -> eventHandlerInTX s = None -> r' = r.
Proof.
  intros [| |e evs' ? ? ? (h & ctx & st & x & st' & x' & Hh & _) _] Hn; [done|done|].
  by rewrite Hn in Hh.
Qed.

Lemma handle_in_tx_ok evs ctx st x :
  handlers_ok evs -> up st ->
  exists st' x', handle_in_tx s ctx evs (st, x) = (Ok tt, (st', x')) /\ up st' /\
    same_store (view st') (view st) /\ handled evs (v_rest (view st)) (v_rest (view st')).
Proof.
  intros Hh Hu. unfold handle_in_tx. destruct (eventHandlerInTX s) as [h|] eqn:Hs.
  2: { exists st, x. split; [done|]. split; [done|]. split; [done|]. by apply handled_none. }
  destruct (for_range_inv
    (fun e => map_err (Errorf "could not handle event in transaction") (h ctx e))
    (fun d stx => up stx.1 /\ same_store (view stx.1) (view st) /\
       handled d (v_rest (view st)) (v_rest (view stx.1))) evs (st, x)) as ([st' x'] & Hr & ? & ? & ?).
  - split; [done|]. split; [done|]. apply handled_nil.
  - intros d e rest [s0 x0] -> (Hu0 & Hs0 & Hd0).
    destruct (Hh h ctx e s0 x0 Hs) as (s1 & x1 & He & Hu1 & Hs1); [set_solver|done|].
    exists (s1, x1). split; [by apply map_err_ok|]. split; [done|]. split; [simpl in *; by etrans|].
    eapply handled_snoc; [exact Hd0|]. by exists h, ctx, s0, x0, s1, x1.
  - by exists st', x'.
Qed.

Record batch_ok (id : UUID) (last : Z) (ds : list evt) : Prop := {
  batch_nonempty : ds <> [];
  batch_ID : Forall (fun e => AggregateID e = id) ds;
  batch_Metadata : Forall (fun e => is_Some (Metadata e)) ds;
  batch_room : is_int (last + len ds)
}.

Lemma batch_last id last ds :
  batch_ok id last ds ->
  exists e, list.last (place last ds) = Some e /\ AggregateID e = id /\
    (forall n, Version <$> ds = seqZ (n + 1) (len ds) -> Version e = n + len ds).
Proof.
  intros [Hne HF _ _]. apply (place_Forall_ID id last) in HF.
  destruct (list.last (place last ds)) as [e|] eqn:He.
  2: { apply last_None in He. destruct ds; done. }
  exists e. split; [done|]. rewrite last_lookup in He. split.
  - rewrite Forall_lookup in HF. by eapply HF.
  - intros n Hv. rewrite <- (proj1 (place_fields last ds)) in Hv.
    apply (f_equal (fun l => l !! pred (length (place last ds)))) in Hv.
    rewrite list_lookup_fmap, He in Hv. simpl in Hv. symmetry in Hv.
    apply lookup_seqZ in Hv as [-> _]. pose proof (len_place last ds) as Hl.
    destruct ds; [done|]. unfold len in *. simpl in *. lia.
Qed.

Lemma updateStreamForEntity_ok ctx id last ds st n :
  up st -> streams_ok (view st) n -> batch_ok id last ds ->
  Version <$> ds = seqZ (n id + 1) (len ds) ->
  exists e t, list.last (place last ds) = Some e /\ AggregateID e = id /\
    stream_left (view st) (stream_of e) (n id + len ds) t /\
    given (updateStreamForEntity s dup ctx (place last ds) (n id)) st (Ok tt)
      (put_stream id t (view st)).
Proof.
  intros Hu Hs Hb Hver. destruct (batch_last id last ds Hb) as (e & He & <- & Hev).
  unfold updateStreamForEntity. rewrite He, len_place.
  destruct (store_stream_ok ctx (stream_of e) (len ds) n st Hu Hs) as (t & Ht & Hg).
  { simpl. by apply Hev. }
  by exists e, t.
Qed.

Lemma updateStreamForEntity_conflict ctx id last ds st n orig :
  up st -> streams_ok (view st) n -> batch_ok id last ds -> n id <> orig ->
  given (updateStreamForEntity s dup ctx (place last ds) orig) st
    (Err (Sentinel ErrEventConflictFromOtherSave)) (view st).
Proof.
  intros Hu Hs Hb Hne. destruct (batch_last id last ds Hb) as (e & He & <- & _).
  unfold updateStreamForEntity. rewrite He. by eapply store_stream_conflict.
Qed.

Lemma insert_placed_ok ctx last last' hist ds st (v : View O R) :
  up st -> repr v last hist -> v_events (view st) = v_events v ->
  last' = last ->
  given (insert_events uuid_String s ctx (place last' ds)) st (Ok tt)
    (put_events (insert_all (wire <$> place last' ds) (v_events (view st))) (view st)).
Proof.
  intros Hu Hr Hv ->. apply insert_events_ok; [done| |].
  - rewrite place_Position. apply NoDup_seqZ.
  - rewrite Hv. by eapply place_fresh.
Qed.

Lemma batch_assign {T} id last ds (t : T) :
  batch_ok id last ds -> 0 <= last -> assign_positions last 0 ds t = (Ok (place last ds), t).
Proof.
  intros [_ _ HF Hint] Hl. rewrite assign_positions_ok; [by rewrite Z.add_0_r|done|done|done|].
  by rewrite Z.add_0_r.
Qed.

(** What a save that fits leaves. *)
Definition saves (id : UUID) (last : Z) (hist : UUID -> list evt) (ds : list evt)
    (v v' : View O R) : Prop :=
  exists e t, list.last (place last ds) = Some e /\ AggregateID e = id /\
    stream_left v (stream_of e) (len (hist id) + len ds) t /\
    same_store v' (saved id t last ds v).

Abbreviation conflict := (Sentinel ErrEventConflictFromOtherSave).

Lemma saveInTX_callback_ok evs ctx id last hist ds st x :
  handlers_ok evs -> up st -> repr (view st) last hist -> batch_ok id last ds ->
  Version <$> ds = seqZ (len (hist id) + 1) (len ds) ->
  exists st' x', saveInTX_callback uuid_String s dup evs ds (len (hist id)) ctx (st, x) =
    (Ok tt, (st', x')) /\ up st' /\ saves id last hist ds (view st) (view st') /\
    handled evs (v_rest (view st)) (v_rest (view st')).
Proof.
  intros Hh Hu Hr Hb Hver. unfold saveInTX_callback.
  eapply (zoom_bind up view); [by eapply updateGlobalPosition_ok|]. intros s1 Hu1 Hv1.
  rewrite (bind_ok _ _ _ _ _ (batch_assign id last ds _ Hb (repr_last _ _ _ Hr))).
  eapply (zoom_bind up view);
    [eapply (insert_placed_ok _ last last hist ds s1 (view st)); [done|done|by rewrite Hv1|done]|].
  intros s2 Hu2 Hv2.
  destruct (updateStreamForEntity_ok ctx id last ds s2 (fun id => len (hist id)) Hu2)
    as (e & t & He & Hid & Ht & Hg); [|done|done|].
  { rewrite Hv2. unfold streams_ok. simpl. rewrite Hv1. apply streams_ok_set_last.
    by eapply repr_streams_ok. }
  eapply (zoom_bind up view); [exact Hg|]. intros s3 Hu3 Hv3.
  destruct (handle_in_tx_ok evs ctx s3 x Hh Hu3) as (s4 & x4 & Hrun & Hu4 & Hs4 & Hd).
  exists s4, x4. split; [done|]. split; [done|]. rewrite Hv3, Hv2, Hv1 in Hd. split; [|exact Hd].
  exists e, t. split; [done|]. split; [done|]. split; [|by rewrite Hs4, Hv3, Hv2, Hv1].
  eapply stream_left_same; [|exact Ht]. rewrite Hv2, Hv1. simpl. by rewrite lookup_insert_ne.
Qed.

Lemma saveInTX_callback_conflict evs ctx id last hist ds orig st x :
  up st -> repr (view st) last hist -> batch_ok id last ds -> len (hist id) <> orig ->
  exists st', saveInTX_callback uuid_String s dup evs ds orig ctx (st, x) = (Err conflict, (st', x)).
Proof.
  intros Hu Hr Hb Hne. unfold saveInTX_callback.
  eapply (zoom_bind up view); [by eapply updateGlobalPosition_ok|]. intros s1 Hu1 Hv1.
  rewrite (bind_ok _ _ _ _ _ (batch_assign id last ds _ Hb (repr_last _ _ _ Hr))).
  eapply (zoom_bind up view);
    [eapply (insert_placed_ok _ last last hist ds s1 (view st)); [done|done|by rewrite Hv1|done]|].
  intros s2 Hu2 Hv2.
  eapply (zoom_bind_err up view).
  - eapply (updateStreamForEntity_conflict ctx id last ds s2 (fun id => len (hist id))); [done| |done|done].
    rewrite Hv2. unfold streams_ok. simpl. rewrite Hv1. apply streams_ok_set_last.
    by eapply repr_streams_ok.
  - intros s3 _ _. by exists s3.
Qed.

Lemma saveOutsideTX_callback_ok evs ctx id last hist ds st x (v : View O R) :
  handlers_ok evs -> up st -> repr v last hist -> view st = set_last (last + len ds) v ->
  batch_ok id last ds -> Version <$> ds = seqZ (len (hist id) + 1) (len ds) ->
  exists st' x', saveOutsideTX_callback uuid_String s dup evs (place last ds) (len (hist id)) ctx (st, x) =
    (Ok tt, (st', x')) /\ up st' /\ saves id last hist ds v (view st') /\
    handled evs (v_rest v) (v_rest (view st')).
Proof.
  intros Hh Hu Hr Hv Hb Hver. unfold saveOutsideTX_callback.
  destruct (updateStreamForEntity_ok ctx id last ds st (fun id => len (hist id)) Hu)
    as (e & t & He & Hid & Ht & Hg); [|done|done|].
  { rewrite Hv. apply streams_ok_set_last. by eapply repr_streams_ok. }
  eapply (zoom_bind up view); [exact Hg|]. intros s1 Hu1 Hv1.
  eapply (zoom_bind up view);
    [eapply (insert_placed_ok _ last last hist ds s1 v); [done|done|by rewrite Hv1, Hv|done]|].
  intros s2 Hu2 Hv2.
  destruct (handle_in_tx_ok evs ctx s2 x Hh Hu2) as (s3 & x3 & Hrun & Hu3 & Hs3 & Hd).
  exists s3, x3. split; [done|]. split; [done|]. rewrite Hv2, Hv1, Hv in Hd. split; [|exact Hd].
  exists e, t. split; [done|]. split; [done|]. split; [|by rewrite Hs3, Hv2, Hv1, Hv].
  eapply stream_left_same; [|exact Ht]. rewrite Hv. simpl. by rewrite lookup_insert_ne.
Qed.

Lemma saveOutsideTX_callback_conflict evs ctx id last hist ds orig st x (v : View O R) :
  up st -> repr v last hist -> view st = set_last (last + len ds) v -> batch_ok id last ds ->
  len (hist id) <> orig ->
  exists st', saveOutsideTX_callback uuid_String s dup evs (place last ds) orig ctx (st, x) =
    (Err conflict, (st', x)).
Proof.
  intros Hu Hr Hv Hb Hne. unfold saveOutsideTX_callback.
  eapply (zoom_bind_err up view).
  - eapply (updateStreamForEntity_conflict ctx id last ds st (fun id => len (hist id))); [done| |done|done].
    rewrite Hv. apply streams_ok_set_last. by eapply repr_streams_ok.
  - intros s1 _ _. by exists s1.
Qed.

(** A transaction whose callback has one outcome whenever it is run from the
    view before it. *)
Lemma transaction_outcome {Y} ctx (body : context -> M (S * Y) unit) (Q : result unit -> View O R -> Prop)
    st (y : Y) :
  up st ->
  (forall ctx' st' y', up st' -> view st' = view st ->
     let '(r, (st1, _)) := body ctx' (st', y') in
     Q r (match r with Ok _ => view st1 | _ => view st end)) ->
  exists r st' y', WithTransaction (client s) Y ctx body (st, y) = (r, (st', y')) /\ up st' /\
    Q r (view st').
Proof.
  intros Hu Hbody.
  destruct (WithTransaction (client s) Y ctx body (st, y)) as [r [st' y']] eqn:Hw.
  destruct (law_with_transaction ctx body st y r (st', y') Hu Hw) as (ctx' & Hrun).
  assert (Q r (view st') /\ True /\ up st') as (HQ & _ & Hu').
  { refine (tx_run_rule up view (body ctx') (fun _ => True) (fun r v _ => Q r v) (view st)
              _ _ _ _ Hrun Hu eq_refl I).
    intros s0 x0 Hu0 Hv0 _. specialize (Hbody ctx' s0 x0 Hu0 Hv0).
    by destruct (body ctx' (s0, x0)) as [? [? ?]]. }
  by exists r, st', y'.
Qed.

(** The part of [Save] that depends on the strategy. *)
Definition store_records (ctx : context) (evs : list (option event)) (id : UUID) (at' : string)
    (ds : list evt) (orig : Z) : M St unit :=
  if globalPositionStrategy s =? GlobalPositionOutsideTX
  then saveOutsideTX uuid_String s dup ctx evs id at' ds orig
  else saveInTX uuid_String s dup ctx evs id at' ds orig.

Definition save_error (evs : list (option event)) (id : UUID) (at' : string) (orig : Z)
    (err : error) : error :=
  EventStoreError (Some err) EventStoreOpSave at' id orig evs.

Lemma store_records_ok ctx evs id at' last hist ds st x :
  handlers_ok evs -> up st -> repr (view st) last hist -> batch_ok id last ds ->
  Version <$> ds = seqZ (len (hist id) + 1) (len ds) ->
  exists st' x', store_records ctx evs id at' ds (len (hist id)) (st, x) = (Ok tt, (st', x')) /\
    up st' /\ saves id last hist ds (view st) (view st') /\
    handled evs (v_rest (view st)) (v_rest (view st')).
Proof.
  intros Hh Hu Hr Hb Hver. unfold store_records.
  destruct (globalPositionStrategy s =? GlobalPositionOutsideTX); cbv beta delta [saveOutsideTX saveInTX].
  - eapply (zoom_map_bind up view); [by eapply updateGlobalPosition_ok|]. intros s1 Hu1 Hv1.
    rewrite (bind_ok _ _ _ _ _ (batch_assign id last ds _ Hb (repr_last _ _ _ Hr))).
    eapply (zoom_map_bind up view); [by apply law_start_session|]. intros s2 Hu2 Hv2.
    destruct (transaction_outcome ctx (saveOutsideTX_callback uuid_String s dup evs (place last ds) (len (hist id)))
      (fun r v => r = Ok tt /\ saves id last hist ds (view st) v /\ handled evs (v_rest (view st)) (v_rest v)) s2 x Hu2)
      as (r & st' & x' & Hw & Hu' & -> & Hsv).
    { intros ctx' s3 x3 Hu3 Hv3.
      destruct (saveOutsideTX_callback_ok evs ctx' id last hist ds s3 x3 (view st) Hh Hu3 Hr)
        as (s4 & x4 & -> & _ & ? & ?); [congruence|done|done|done]. }
    exists st', x'. by rewrite (map_err_ok _ _ _ _ _ Hw).
  - eapply (zoom_map_bind up view); [by apply law_start_session|]. intros s2 Hu2 Hv2.
    destruct (transaction_outcome ctx (saveInTX_callback uuid_String s dup evs ds (len (hist id)))
      (fun r v => r = Ok tt /\ saves id last hist ds (view st) v /\ handled evs (v_rest (view st)) (v_rest v)) s2 x Hu2)
      as (r & st' & x' & Hw & Hu' & -> & Hsv).
    { intros ctx' s3 x3 Hu3 Hv3. rewrite Hv2 in Hv3.
      destruct (saveInTX_callback_ok evs ctx' id last hist ds s3 x3 Hh Hu3)
        as (s4 & x4 & -> & _ & ? & ?); [by rewrite Hv3|done|done|by rewrite <- Hv3]. }
    exists st', x'. by rewrite (map_err_ok _ _ _ _ _ Hw).
Qed.

(** The view after a save that was refused. *)
Definition after_refused (n last : Z) (v : View O R) : View O R :=
  if globalPositionStrategy s =? GlobalPositionOutsideTX then set_last (last + n) v else v.

Lemma store_records_conflict ctx evs id at' last hist ds orig st x :
  up st -> repr (view st) last hist -> batch_ok id last ds -> len (hist id) <> orig ->
  exists st' x', store_records ctx evs id at' ds orig (st, x) =
      (Err (save_error evs id at' orig conflict), (st', x')) /\
    up st' /\ view st' = after_refused (len ds) last (view st).
Proof.
  intros Hu Hr Hb Hne. unfold store_records, after_refused.
  destruct (globalPositionStrategy s =? GlobalPositionOutsideTX); cbv beta delta [saveOutsideTX saveInTX].
  - eapply (zoom_map_bind up view); [by eapply updateGlobalPosition_ok|]. intros s1 Hu1 Hv1.
    rewrite (bind_ok _ _ _ _ _ (batch_assign id last ds _ Hb (repr_last _ _ _ Hr))).
    eapply (zoom_map_bind up view); [by apply law_start_session|]. intros s2 Hu2 Hv2.
    destruct (transaction_outcome ctx (saveOutsideTX_callback uuid_String s dup evs (place last ds) orig)
      (fun r v => r = Err conflict /\ v = view s2) s2 x Hu2)
      as (r & st' & x' & Hw & Hu' & -> & Hsv).
    { intros ctx' s3 x3 Hu3 Hv3.
      by destruct (saveOutsideTX_callback_conflict evs ctx' id last hist ds orig s3 x3 (view st) Hu3 Hr)
        as (s4 & ->); [congruence|done|done|]. }
    exists st', x'. rewrite (map_err_err _ _ _ _ _ Hw). split; [done|]. split; [done|congruence].
  - eapply (zoom_map_bind up view); [by apply law_start_session|]. intros s2 Hu2 Hv2.
    destruct (transaction_outcome ctx (saveInTX_callback uuid_String s dup evs ds orig)
      (fun r v => r = Err conflict /\ v = view s2) s2 x Hu2)
      as (r & st' & x' & Hw & Hu' & -> & Hsv).
    { intros ctx' s3 x3 Hu3 Hv3. rewrite Hv2 in Hv3.
      by destruct (saveInTX_callback_conflict evs ctx' id last hist ds orig s3 x3 Hu3)
        as (s4 & ->); [by rewrite Hv3|done|done|]. }
    exists st', x'. rewrite (map_err_err _ _ _ _ _ Hw). split; [done|]. split; [done|congruence].
Qed.

(** ** [Save] *)

(** Events whose data can be encoded. *)
Definition storable (e : event) : Prop :=
  is_nil (data e) = true \/ exists raw, bson_Marshal (data e) = inl raw.

Definition raw_of (e : event) : string :=
  if is_nil (data e) then "" else match bson_Marshal (data e) with inl raw => raw | inr _ => "" end.

(** The record of an event, with the metadata it has in the heap [h]. *)
Definition record_of (h : heap) (e : event) : evt :=
  mkEvt 0 (eventType e) (timestamp e) (aggregateType e) (aggregateID e) (version e) (raw_of e)
    (Some (map_at h (metadata e))).

Lemma newEvt_ok ctx e h :
  storable e -> newEvt bson_Marshal ctx (Some e) h = (Ok (record_of h e), h).
Proof.
  unfold newEvt, storable, record_of, raw_of, try_pure. intros Hs.
  rewrite (bind_ok _ _ h h e), (bind_ok _ _ h h h) by done.
  destruct (is_nil (data e)); [done|]. by destruct Hs as [|[raw ->]].
Qed.

Lemma newEvt_inv ctx e h :
  newEvt bson_Marshal ctx (Some e) h = (Ok (record_of h e), h) /\ storable e \/
  exists err, newEvt bson_Marshal ctx (Some e) h = (Err err, h).
Proof.
  destruct (is_nil (data e)) eqn:Hn; [left; split; [apply newEvt_ok|]; by left|].
  destruct (bson_Marshal (data e)) as [raw|err] eqn:Hm.
  - left. split; [apply newEvt_ok|]; right; by exists raw.
  - right. eexists. unfold newEvt, try_pure.
    rewrite (bind_ok _ _ h h e), (bind_ok _ _ h h h) by done. by rewrite Hn, Hm.
Qed.

Lemma build_events_ok ctx id at' orig evs i l h :
  serial id (orig + i) l -> typed at' l -> Forall storable l ->
  is_int orig -> 0 <= i -> is_int (orig + i + len l) ->
  build_events bson_Marshal ctx id at' orig evs i (somes l) h = (Ok (record_of h <$> l), h).
Proof.
  intros Hs Ht Hst Ho. revert i Hs. induction l as [|e l IH]; intros i Hs Hi Hint; [done|].
  destruct Hs as (Hid & Hver & Hs). apply Forall_cons in Ht as [Hat Ht].
  apply Forall_cons in Hst as [He Hst]. rewrite len_cons in Hint. simpl.
  rewrite (bind_ok _ _ h h e) by done.
  rewrite !bool_decide_false; [| |congruence|congruence].
  2: { rewrite (iadd_id orig i), iadd_id by int_lia. lia. }
  rewrite (bind_ok _ _ _ _ _ (newEvt_ok ctx e h He)).
  by rewrite (bind_ok _ _ _ _ _ (IH Ht Hst (i + 1) ltac:(by rewrite Z.add_assoc) ltac:(lia) ltac:(int_lia))).
Qed.

(** When the loop accepts a batch, the batch is what the checks say. *)
Lemma build_events_inv ctx id at' orig evs i rest h o h' :
  build_events bson_Marshal ctx id at' orig evs i rest h = (o, h') ->
  h' = h /\
  match o with
  | Ok ds =>
      exists l, rest = somes l /\ ds = record_of h <$> l /\
        Forall (fun e => aggregateID e = id) l /\
        (is_int orig -> 0 <= i -> is_int (orig + i + len l) -> serial id (orig + i) l)
  | Err _ | Panic _ => True
  end.
Proof.
  revert i o h'. induction rest as [|[e|] rest IH]; intros i o h'; simpl.
  - intros [= <- <-]. split; [done|]. by exists [].
  - rewrite (bind_ok _ _ h h e) by done. case_bool_decide as Hid; [by intros [= <- <-]|].
    case_bool_decide; [by intros [= <- <-]|]. case_bool_decide as Hver; [by intros [= <- <-]|].
    destruct (newEvt_inv ctx e h) as [[Hn Hst]|[err Hn]].
    2: { rewrite (bind_err _ _ _ _ _ Hn). by intros [= <- <-]. }
    rewrite (bind_ok _ _ _ _ _ Hn).
    unfold bind at 1.
    destruct (build_events bson_Marshal ctx id at' orig evs (i + 1) rest h) as [o' h1] eqn:Hb.
    apply IH in Hb as [-> Ho]. destruct o' as [ds|err|p]; intros [= <- <-]; split; try done.
    destruct Ho as (l & -> & -> & HF & Hser). exists (e :: l). split; [done|]. split; [done|].
    split; [by constructor|]. intros Ho Hi Hint. rewrite len_cons in Hint.
    split; [done|].
    rewrite (iadd_id orig i), iadd_id in Hver by int_lia. split; [done|].
    rewrite <- Z.add_assoc. apply Hser; [done|lia|int_lia].
  - by intros [= <- <-].
Qed.

Abbreviation Save' := (Save uuid_String bson_Marshal s dup).

Lemma on_heap_run {A} (m : M heap A) (st : S) h (x : X) :
  on_heap m (st, (h, x)) = ((m h).1, (st, ((m h).2, x))).
Proof. unfold on_heap, zoom_snd, zoom_fst, zoom. simpl. by destruct (m h). Qed.

Lemma serial_versions id n evs : serial id n evs -> version <$> evs = seqZ (n + 1) (len evs).
Proof.
  revert n. induction evs as [|e evs IH]; intros n; [done|].
  intros (_ & Hv & Hs). rewrite len_cons, seqZ_cons by int_lia. rewrite fmap_cons, Hv, (IH _ Hs).
  f_equal. f_equal; lia.
Qed.

Lemma record_of_versions h (evs : list event) : Version <$> (record_of h <$> evs) = version <$> evs.
Proof. by rewrite <- list_fmap_compose. Qed.

Lemma batch_records id last h evs :
  evs <> [] -> Forall (fun e => aggregateID e = id) evs -> is_int (last + len evs) ->
  batch_ok id last (record_of h <$> evs).
Proof.
  intros Hne HF Hint. split.
  - by destruct evs.
  - by apply Forall_fmap.
  - apply Forall_fmap, Forall_forall. by eexists.
  - by rewrite len_fmap.
Qed.

Lemma serial_ids id n evs : serial id n evs -> Forall (fun e => aggregateID e = id) evs.
Proof.
  revert n. induction evs as [|e evs IH]; intros n; [done|]. intros (? & _ & ?). constructor; eauto.
Qed.

Lemma Save_run ctx id orig evs st h x :
  batch_for id orig evs -> Forall storable evs ->
  exists at', typed at' evs /\
  Save' ctx (somes evs) orig (st, (h, x)) =
  bind (store_records ctx (somes evs) id at' (record_of h <$> evs) orig)
    (fun _ => handle_after_save s ctx (somes evs)) (st, (h, x)).
Proof.
  intros (Hne & Hs & (at' & Ht) & Ho & Hint) Hst. exists at'. split; [done|].
  destruct evs as [|e0 l]; [done|].
  pose proof (build_events_ok ctx id at' orig (somes (e0 :: l)) 0 (e0 :: l) h) as Hb.
  rewrite Z.add_0_r in Hb. specialize (Hb Hs Ht Hst Ho ltac:(lia) Hint).
  destruct Hs as (Hid & _). apply Forall_cons in Ht as [Hat _].
  change (somes (e0 :: l)) with (Some e0 :: somes l) in *. unfold Save.
  rewrite (bind_ok _ _ (st, (h, x)) (st, (h, x)) e0) by done. rewrite Hid, Hat.
  unfold bind at 1. rewrite on_heap_run, Hb. done.
Qed.

Lemma saves_repr id last hist ds (v v' : View O R) :
  repr v last hist -> batch_ok id last ds -> Version <$> ds = seqZ (len (hist id) + 1) (len ds) ->
  saves id last hist ds v v' ->
  repr v' (last + len ds) (<[id := hist id ++ (wire <$> place last ds)]> hist) /\
  (gapless v last -> gapless v' (last + len ds)).
Proof.
  intros Hr Hb Hver (e & t & _ & Hid & (_ & Hti & Htv) & Hs). simpl in Hti. rewrite Hid in Hti. split.
  - eapply repr_same; [symmetry; exact Hs|]. destruct Hb. by apply repr_saved.
  - intros Hg k Hk. destruct Hs as (He & _). rewrite <- He. apply insert_all_dom.
    rewrite wire_place_Position. destruct (decide (k <= last)) as [Hle|Hle].
    + right. apply Hg. lia.
    + left. apply elem_of_seqZ. lia.
Qed.

Lemma record_of_last last h evs e :
  list.last (place last (record_of h <$> evs)) = Some e ->
  exists ev, list.last evs = Some ev /\ e = placed (last + len evs) (record_of h ev).
Proof.
  revert last. induction evs as [|ev evs IH]; intros last; [done|].
  destruct evs as [|ev' evs].
  - intros [= <-]. by exists ev.
  - intros He. destruct (IH (last + 1)) as (ev1 & Hl & ->); [exact He|].
    exists ev1. split; [exact Hl|]. f_equal. rewrite (len_cons ev). lia.
Qed.

(** The collections after a batch: its records at the next positions, the
    [$all] document, and the aggregate's stream document. *)
Definition batch_stored (id : UUID) (last n : Z) (h : heap) (evs : list event) (v v' : View O R) : Prop :=
  v_events v' = insert_all (wire <$> place last (record_of h <$> evs)) (v_events v) /\
  (exists e, list.last evs = Some e /\
   v_streams v' =
     <[Some id := wire_stream (StreamDoc (mkStream id (last + len evs)
         (match v_streams v !! Some id with
          | Some (StreamDoc t) => st_AggregateType t
          | _ => aggregateType e
          end) (n + len evs) (timestamp e)))]>
       (<[None := AllStream (last + len evs)]> (v_streams v))) /\
  v_snapshots v' = v_snapshots v.

Lemma saves_stored id last hist h evs (v v' : View O R) :
  saves id last hist (record_of h <$> evs) v v' -> batch_stored id last (len (hist id)) h evs v v'.
Proof.
  intros (e & t & He & Hid & (Hw & _) & Hev & Hst & Hsn). simpl in Hev, Hst, Hsn.
  destruct (record_of_last _ _ _ _ He) as (ev & Hlast & ->). rewrite len_fmap in *.
  split; [done|]. split; [|done]. exists ev. split; [done|].
  simpl in Hid. rewrite <- Hst, <- Hw. unfold next_stream, stream_of. simpl. by rewrite Hid.
Qed.

Lemma Save_exact ctx id evs last hist st h x :
  up st -> repr (view st) last hist -> batch_for id (len (hist id)) evs ->
  Forall storable evs -> is_int (last + len evs) -> handlers_ok (somes evs) ->
  let new := wire <$> place last (record_of h <$> evs) in
  exists st' hx', Save' ctx (somes evs) (len (hist id)) (st, (h, x)) =
      handle_after_save s ctx (somes evs) (st', hx') /\
    up st' /\ repr (view st') (last + len evs) (<[id := hist id ++ new]> hist) /\
    (gapless (view st) last -> gapless (view st') (last + len evs)) /\
    batch_stored id last (len (hist id)) h evs (view st) (view st') /\
    handled (somes evs) (v_rest (view st)) (v_rest (view st')).
Proof.
  intros Hu Hr Hbf Hst Hint Hh new.
  destruct (Save_run ctx id _ evs st h x Hbf Hst) as (at' & Ht & ->).
  destruct Hbf as (Hne & Hs & _).
  assert (Version <$> (record_of h <$> evs) = seqZ (len (hist id) + 1) (len (record_of h <$> evs))) as Hver
    by (rewrite record_of_versions, len_fmap; by eapply serial_versions).
  pose proof (batch_records id last h evs Hne (serial_ids _ _ _ Hs) Hint) as Hb.
  destruct (store_records_ok ctx (somes evs) id at' last hist _ st (h, x) Hh Hu Hr Hb Hver)
    as (st' & hx' & Hrun & Hu' & Hsv & Hd).
  exists st', hx'. rewrite (bind_ok _ _ _ _ _ Hrun). split; [done|]. split; [done|].
  destruct (saves_repr _ _ _ _ _ _ Hr Hb Hver Hsv) as [? ?]. rewrite len_fmap in *.
  split; [done|]. split; [done|]. split; [by apply saves_stored|exact Hd].
Qed.

Lemma Save_ok ctx id evs last hist st h x :
  up st -> repr (view st) last hist -> batch_for id (len (hist id)) evs ->
  Forall storable evs -> is_int (last + len evs) -> handlers_ok (somes evs) ->
  let new := wire <$> place last (record_of h <$> evs) in
  exists st' hx', Save' ctx (somes evs) (len (hist id)) (st, (h, x)) =
      handle_after_save s ctx (somes evs) (st', hx') /\
    up st' /\ repr (view st') (last + len evs) (<[id := hist id ++ new]> hist) /\
    (gapless (view st) last -> gapless (view st') (last + len evs)) /\
    v_snapshots (view st') = v_snapshots (view st) /\
    handled (somes evs) (v_rest (view st)) (v_rest (view st')).
Proof.
  intros Hu Hr Hbf Hst Hint Hh new.
  destruct (Save_exact ctx id evs last hist st h x Hu Hr Hbf Hst Hint Hh)
    as (st' & hx' & Hrun & Hu' & Hr' & Hg & (_ & _ & Hsn) & Hd).
  by exists st', hx'.
Qed.

Lemma Save_refused ctx id orig evs last hist st h x :
  up st -> repr (view st) last hist -> batch_for id orig evs -> len (hist id) <> orig ->
  Forall storable evs -> is_int (last + len evs) ->
  exists at' st' hx', typed at' evs /\
    Save' ctx (somes evs) orig (st, (h, x)) =
      (Err (EventStoreError (Some (Sentinel ErrEventConflictFromOtherSave)) EventStoreOpSave at' id
              orig (somes evs)), (st', hx')) /\
    up st' /\ view st' = after_refused (len evs) last (view st) /\
    (exists last', last <= last' <= last + len evs /\ forall hist', repr (view st) last hist' ->
       repr (view st') last' hist').
Proof.
  intros Hu Hr Hbf Hne Hst Hint.
  destruct (Save_run ctx id orig evs st h x Hbf Hst) as (at' & Ht & ->).
  destruct Hbf as (Hne' & Hs & _). exists at'.
  pose proof (batch_records id last h evs Hne' (serial_ids _ _ _ Hs) Hint) as Hb.
  destruct (store_records_conflict ctx (somes evs) id at' last hist _ orig st (h, x) Hu Hr Hb Hne)
    as (st' & hx' & Hrun & Hu' & Hv).
  rewrite len_fmap in Hv. pose proof (len_nonneg evs).
  exists st', hx'. rewrite (bind_err _ _ _ _ _ Hrun). split; [done|]. split; [done|]. split; [done|].
  split; [done|]. rewrite Hv. unfold after_refused.
  destruct (globalPositionStrategy s =? GlobalPositionOutsideTX).
  - exists (last + len evs). split; [lia|]. intros hist' Hr'. apply repr_set_last with last; [done|lia].
  - exists last. split; [lia|done].
Qed.

(** C4: a batch that follows an aggregate's events is saved, with either global
    position strategy, as one new suffix of that aggregate's history at the
    next global positions, and only then the events go to the after-save
    handler.  Of the database exactly this changes before that: the new
    records, the position in the [$all] document, and the aggregate's stream
    document, which has its ID and type and gets the version, position and time
    of the last event; every other document and the snapshots stay, and the
    rest of the database, too, but for what a handler in the transaction does
    to it.  Such a handler is one that succeeds and leaves the store's own
    collections alone. *)
Theorem MongoSave_appends ctx id evs last hist st h x :
  up st -> repr (view st) last hist -> batch_for id (len (hist id)) evs ->
  Forall storable evs -> is_int (last + len evs) -> handlers_ok (somes evs) ->
  let new := wire <$> place last (record_of h <$> evs) in
  exists st' hx', Save' ctx (somes evs) (len (hist id)) (st, (h, x)) =
      handle_after_save s ctx (somes evs) (st', hx') /\
    up st' /\ repr (view st') (last + len evs) (<[id := hist id ++ new]> hist) /\
    Position <$> new = seqZ (last + 1) (len evs) /\
    (gapless (view st) last -> gapless (view st') (last + len evs)) /\
    batch_stored id last (len (hist id)) h evs (view st) (view st') /\
    (eventHandlerInTX s = None -> v_rest (view st') = v_rest (view st)) /\
    handled (somes evs) (v_rest (view st)) (v_rest (view st')).
Proof.
  intros Hu Hr Hbf Hst Hint Hh new.
  destruct (Save_exact ctx id evs last hist st h x Hu Hr Hbf Hst Hint Hh)
    as (st' & hx' & Hrun & Hu' & Hr' & Hg & Hb & Hd).
  exists st', hx'. split_and!; try done; [|by apply handled_none_eq with (somes evs)].
  unfold new. by rewrite wire_place_Position, len_fmap.
Qed.

(** C5: optimistic concurrency is exact: a batch prepared against any version but
    the aggregate's own is refused with [ErrEventConflictFromOtherSave], and no
    event or stream is written.  With the in-transaction strategy nothing at
    all changes; with the other one the positions given out are lost. *)
Theorem MongoSave_conflict ctx id orig evs last hist st h x :
  up st -> repr (view st) last hist -> batch_for id orig evs -> len (hist id) <> orig ->
  Forall storable evs -> is_int (last + len evs) ->
  exists at' st' hx', typed at' evs /\
    Save' ctx (somes evs) orig (st, (h, x)) =
      (Err (EventStoreError (Some (Sentinel ErrEventConflictFromOtherSave)) EventStoreOpSave at' id
              orig (somes evs)), (st', hx')) /\
    up st' /\ view st' = after_refused (len evs) last (view st) /\
    (exists last', last <= last' /\ repr (view st') last' hist).
Proof.
  intros Hu Hr Hbf Hne Hst Hint.
  destruct (Save_refused ctx id orig evs last hist st h x Hu Hr Hbf Hne Hst Hint)
    as (at' & st' & hx' & Ht & Hrun & Hu' & Hv & last' & Hl & Hr').
  exists at', st', hx'. split_and!; try done. exists last'. split; [lia|by apply Hr'].
Qed.

(** C8: whatever [Save] is given, the store stays well formed: histories only grow
    at their end, positions only advance, by at most the length of the batch,
    and with the in-transaction strategy there are never gaps.  The store has no
    after-save handler, and its handler in the transaction, if any, succeeds and
    leaves the store's collections alone. *)
Theorem MongoSave_invariant ctx evs orig last hist st h x r st' hx' :
  up st -> repr (view st) last hist -> is_int (last + len evs) -> handlers_ok evs ->
  eventHandlerAfterSave s = None ->
  Save' ctx evs orig (st, (h, x)) = (r, (st', hx')) ->
  up st' /\
  exists last' hist', repr (view st') last' hist' /\ last <= last' <= last + len evs /\
    (forall id, hist id `prefix_of` hist' id) /\
    (globalPositionStrategy s <> GlobalPositionOutsideTX ->
     gapless (view st) last -> gapless (view st') last').
Proof.
  intros Hu Hr Hint Hh Hafter. pose proof (len_nonneg evs) as Hlen.
  assert (up st /\ exists last' hist', repr (view st) last' hist' /\ last <= last' <= last + len evs /\
    (forall id, hist id `prefix_of` hist' id) /\
    (globalPositionStrategy s <> GlobalPositionOutsideTX ->
     gapless (view st) last -> gapless (view st) last')) as Hsame.
  { split; [done|]. exists last, hist. split; [done|]. split; [lia|]. done. }
  unfold Save. destruct evs as [|[e0|] rest]; [by intros [= <- <- <-]| |by intros [= <- <- <-]].
  rewrite (bind_ok _ _ (st, (h, x)) (st, (h, x)) e0) by done.
  set (evs := Some e0 :: rest) in *. unfold bind at 1. rewrite on_heap_run.
  destruct (build_events _ _ _ _ _ _ _ _ h) as [o h1] eqn:Hb.
  apply build_events_inv in Hb as [-> Ho]. simpl.
  destruct o as [ds|err|p]; [|by intros [= <- <- <-]|by intros [= <- <- <-]].
  destruct Ho as (l & Hl & -> & HF & Hser).
  assert (len evs = len l) as Hll by (by rewrite Hl, len_somes). rewrite Hll in Hint, Hlen.
  assert (l <> []) as Hne by (intros ->; done).
  pose proof (batch_records _ last h l Hne HF Hint) as Hbatch.
  fold (store_records ctx evs (aggregateID e0) (aggregateType e0) (record_of h <$> l) orig).
  destruct (decide (len (hist (aggregateID e0)) = orig)) as [<-|Hc].
  - pose proof (repr_count _ _ _ Hr (aggregateID e0)). pose proof (len_nonneg (hist (aggregateID e0))).
    assert (Version <$> (record_of h <$> l) =
      seqZ (len (hist (aggregateID e0)) + 1) (len (record_of h <$> l))) as Hver.
    { rewrite record_of_versions, len_fmap. apply (serial_versions (aggregateID e0)).
      rewrite Z.add_0_r in Hser. apply Hser; int_lia. }
    destruct (store_records_ok ctx evs _ (aggregateType e0) last hist _ st (h, x) Hh Hu Hr Hbatch Hver)
      as (s1 & hx1 & Hrun & Hu1 & Hsv & _).
    rewrite (bind_ok _ _ _ _ _ Hrun). unfold handle_after_save. rewrite Hafter.
    intros [= <- <- <-]. split; [done|].
    destruct (saves_repr _ _ _ _ _ _ Hr Hbatch Hver Hsv) as [Hr' Hg]. rewrite len_fmap in *.
    eexists _, _. split; [exact Hr'|]. split; [lia|]. split; [|done].
    intros id. destruct (decide (id = aggregateID e0)) as [->|].
    + rewrite fn_lookup_insert. by apply prefix_app_r.
    + by rewrite fn_lookup_insert_ne.
  - destruct (store_records_conflict ctx evs _ (aggregateType e0) last hist _ orig st (h, x)
      Hu Hr Hbatch Hc) as (s1 & hx1 & Hrun & Hu1 & Hv).
    rewrite (bind_err _ _ _ _ _ Hrun). intros [= <- <- <-]. split; [done|].
    rewrite len_fmap in Hv. rewrite Hv. unfold after_refused.
    destruct (Z.eqb_spec (globalPositionStrategy s) GlobalPositionOutsideTX) as [Hout|Hin].
    + exists (last + len l), hist. split; [apply repr_set_last with last; [done|lia]|].
      split; [lia|]. done.
    + exists last, hist. split; [done|]. split; [lia|]. done.
Qed.

(** The same for a callback that leaves the rest of the program alone. *)
Lemma transaction_pure {Y} ctx (body : context -> M (S * Y) unit) (Q : result unit -> View O R -> Prop)
    st (y : Y) :
  up st ->
  (forall ctx' st', up st' -> view st' = view st ->
     let '(r, (st1, y1)) := body ctx' (st', y) in
     y1 = y /\ Q r (match r with Ok _ => view st1 | _ => view st end)) ->
  exists r st', WithTransaction (client s) Y ctx body (st, y) = (r, (st', y)) /\ up st' /\
    Q r (view st').
Proof.
  intros Hu Hbody.
  destruct (WithTransaction (client s) Y ctx body (st, y)) as [r [st' y']] eqn:Hw.
  destruct (law_with_transaction ctx body st y r (st', y') Hu Hw) as (ctx' & Hrun).
  assert (Q r (view st') /\ y' = y /\ up st') as (HQ & -> & Hu').
  { refine (tx_run_rule up view (body ctx') (fun y' => y' = y) (fun r v _ => Q r v) (view st)
              _ _ _ _ Hrun Hu eq_refl eq_refl).
    intros s0 x0 Hu0 Hv0 ->. specialize (Hbody ctx' s0 Hu0 Hv0).
    by destruct (body ctx' (s0, y)) as [? [? ?]]. }
  by exists r, st'.
Qed.

Lemma tx_atomic {Y} ctx (body : context -> M (S * Y) unit) st y r st' y' :
  up st -> WithTransaction (client s) Y ctx body (st, y) = (r, (st', y')) ->
  up st' /\ (r <> Ok tt -> view st' = view st).
Proof.
  intros Hu Hw. destruct (law_with_transaction ctx body st y r (st', y') Hu Hw) as (ctx' & Hrun).
  destruct (tx_run_rule up view (body ctx') (fun _ => True)
    (fun r v _ => r <> Ok tt -> v = view st) (view st)) with (st := (st, y)) (o := r) (st' := (st', y'))
    as (HQ & _ & Hu'); try done.
  intros s0 x0 _ _ _. destruct (body ctx' (s0, x0)) as [[[]|e|p] [s1 x1]]; done.
Qed.

Lemma assign_positions_state {T} prev i ds (t : T) : (assign_positions prev i ds t).2 = t.
Proof.
  revert i. induction ds as [|e ds IH]; intros i; [done|]. simpl. unfold set_position.
  destruct (Metadata e) as [md|]; [|done]. unfold bind at 1. simpl. unfold bind.
  specialize (IH (i + 1)). by destruct (assign_positions prev (i + 1) ds t) as [[] ?].
Qed.

Lemma store_records_atomic ctx evs id at' last hist ds orig st x r st' x' :
  up st -> repr (view st) last hist ->
  store_records ctx evs id at' ds orig (st, x) = (r, (st', x')) -> r <> Ok tt ->
  up st' /\
  (view st' = view st \/
   globalPositionStrategy s = GlobalPositionOutsideTX /\
   view st' = set_last (last + len ds) (view st)).
Proof.
  intros Hu Hr. unfold store_records.
  destruct (Z.eqb_spec (globalPositionStrategy s) GlobalPositionOutsideTX);
    cbv beta delta [saveOutsideTX saveInTX].
  - eapply (zoom_map_bind up view); [by eapply updateGlobalPosition_ok|]. intros s1 Hu1 Hv1.
    pose proof (assign_positions_state last 0 ds (s1, x)) as Ha. unfold bind at 1.
    destruct (assign_positions last 0 ds (s1, x)) as [[ds'|err|p] t]; simpl in Ha; subst t.
    2, 3: (intros [= <- <- <-] _; split; [done|by right]).
    eapply (zoom_map_bind up view); [by apply law_start_session|]. intros s2 Hu2 Hv2.
    unfold map_err. destruct (WithTransaction _ _ _ _ _) as [r0 [s3 x3]] eqn:Hw.
    destruct (tx_atomic _ _ _ _ _ _ _ Hu2 Hw) as [Hu3 Hv3].
    destruct r0 as [[]|err|p]; intros [= <- <- <-] Hne; (split; [done|right; split; [done|]]).
    all: try done; rewrite Hv3 by done; congruence.
  - eapply (zoom_map_bind up view); [by apply law_start_session|]. intros s2 Hu2 Hv2.
    unfold map_err. destruct (WithTransaction _ _ _ _ _) as [r0 [s3 x3]] eqn:Hw.
    destruct (tx_atomic _ _ _ _ _ _ _ Hu2 Hw) as [Hu3 Hv3].
    destruct r0 as [[]|err|p]; intros [= <- <- <-] Hne; (split; [done|left]).
    all: try done; rewrite Hv3 by done; congruence.
Qed.

(** The same store without an after-save handler. *)
Definition without_after_save : EventStore (S := S) (X := X) (O := O) :=
  mkEventStore (client s) (ownership s) (events s) (streams s) (snapshots s)
    None (eventHandlerInTX s) (sortEventsOnDB s) (globalPositionStrategy s).

(** [Save] is the same without the after-save handler, then the handler. *)
Lemma Save_then_handle ctx evs orig st h x :
  evs <> [] ->
  Save' ctx evs orig (st, (h, x)) =
  bind (Save uuid_String bson_Marshal without_after_save dup ctx evs orig)
    (fun _ => handle_after_save s ctx evs) (st, (h, x)).
Proof.
  intros Hne. destruct evs as [|ev rest]; [done|]. unfold Save.
  set (evs := ev :: rest). destruct ev as [e0|]; [|done].
  unfold bind, deref, ret. rewrite on_heap_run.
  destruct (build_events _ _ _ _ _ _ _ _ h) as [[ds|err|p] h1]; [|done|done]. simpl.
  change (saveOutsideTX uuid_String without_after_save dup) with (saveOutsideTX uuid_String s dup).
  change (saveInTX uuid_String without_after_save dup) with (saveInTX uuid_String s dup).
  by destruct (if globalPositionStrategy s =? GlobalPositionOutsideTX then _ else _) as [[[]|err|p] [s1 x1]].
Qed.

Lemma Save_atomic_without ctx evs orig last hist st h x r st' hx' :
  up st -> repr (view st) last hist ->
  Save uuid_String bson_Marshal without_after_save dup ctx evs orig (st, (h, x)) = (r, (st', hx')) ->
  r <> Ok tt ->
  up st' /\
  (view st' = view st \/
   globalPositionStrategy s = GlobalPositionOutsideTX /\
   view st' = set_last (last + len evs) (view st)).
Proof.
  intros Hu Hr. unfold Save.
  destruct evs as [|[e0|] rest]; [by intros [= <- <- <-]; auto| |by intros [= <- <- <-]; auto].
  rewrite (bind_ok _ _ (st, (h, x)) (st, (h, x)) e0) by done.
  set (evs := Some e0 :: rest). unfold bind at 1. rewrite on_heap_run.
  destruct (build_events _ _ _ _ _ _ _ _ h) as [o h1] eqn:Hb.
  apply build_events_inv in Hb as [-> Ho]. simpl.
  destruct o as [ds|err|p]; [|by intros [= <- <- <-]; auto|by intros [= <- <- <-]; auto].
  destruct Ho as (l & Hl & -> & _).
  change (saveOutsideTX uuid_String without_after_save dup) with (saveOutsideTX uuid_String s dup).
  change (saveInTX uuid_String without_after_save dup) with (saveInTX uuid_String s dup).
  fold (store_records ctx evs (aggregateID e0) (aggregateType e0) (record_of h <$> l) orig).
  unfold bind. destruct (store_records _ _ _ _ _ _ _) as [r0 [s1 x1]] eqn:Hs.
  pose proof (store_records_atomic _ _ _ _ _ _ _ _ _ _ _ _ _ Hu Hr Hs) as Hat.
  rewrite len_fmap in Hat. rewrite Hl, len_somes.
  destruct r0 as [[]|err|p]; intros [= <- <- <-] Hne; [done|by apply Hat..].
Qed.

Lemma Save_atomic ctx evs orig last hist st h x r st' hx' :
  up st -> repr (view st) last hist -> eventHandlerAfterSave s = None ->
  Save' ctx evs orig (st, (h, x)) = (r, (st', hx')) -> r <> Ok tt ->
  up st' /\
  (view st' = view st \/
   globalPositionStrategy s = GlobalPositionOutsideTX /\
   view st' = set_last (last + len evs) (view st)).
Proof.
  intros Hu Hr Hafter Hrun. apply (Save_atomic_without ctx evs orig last hist st h x r st' hx'); [done..|].
  destruct (decide (evs = [])) as [->|Hevs]; [done|].
  rewrite Save_then_handle in Hrun by done. unfold handle_after_save in Hrun. rewrite Hafter in Hrun.
  unfold bind in Hrun. by destruct (Save _ _ _ _ _ _ _ _) as [[[]|err|p] [s1 x1]].
Qed.

Lemma handle_after_save_errors ctx evs (st st' : St) r :
  handle_after_save s ctx evs st = (r, st') -> r <> Ok tt ->
  eventHandlerAfterSave s <> None /\
  forall err, r = Err err -> exists cause e, err = EventHandlerError (Some cause) e.
Proof.
  unfold handle_after_save. destruct (eventHandlerAfterSave s) as [hd|]; [|by intros [= <- <-]].
  intros Hr _. split; [done|]. revert st Hr. induction evs as [|e evs IH]; intros st; [by intros [= <- _]|].
  simpl. unfold bind at 1, map_err. destruct (hd ctx e st) as [[[]|err|p] st1].
  - apply IH.
  - intros [= <- _] err' [= <-]. by exists err, e.
  - by intros [= <- _].
Qed.

(** C9: [Save] is atomic whatever fails: the batch, its encoding, its version or a
    handler.  Any outcome of it but success, of any batch and with any handler
    in the transaction, is one of two.  Either the
    database is as it was (with the other strategy the [$all] document can have
    moved, and nothing else), and no after-save handler ran.  Or all of [Save]
    but the after-save handler succeeded, so that the events are stored as a
    store without that handler stores them, and the handler then failed or
    panicked: an error is then an [EventHandlerError] around the handler's. *)
Theorem MongoSave_atomic ctx evs orig last hist st h x r st' hx' :
  up st -> repr (view st) last hist ->
  Save' ctx evs orig (st, (h, x)) = (r, (st', hx')) -> r <> Ok tt ->
  (up st' /\ Save uuid_String bson_Marshal without_after_save dup ctx evs orig (st, (h, x)) = (r, (st', hx')) /\
   (view st' = view st \/
    globalPositionStrategy s = GlobalPositionOutsideTX /\
    view st' = set_last (last + len evs) (view st))) \/
  (eventHandlerAfterSave s <> None /\
   (exists st1 hx1,
      Save uuid_String bson_Marshal without_after_save dup ctx evs orig (st, (h, x)) = (Ok tt, (st1, hx1)) /\
      handle_after_save s ctx evs (st1, hx1) = (r, (st', hx'))) /\
   forall err, r = Err err -> exists cause e, err = EventHandlerError (Some cause) e).
Proof.
  intros Hu Hr Hrun Hne. destruct (decide (evs = [])) as [->|Hevs].
  { injection Hrun as <- <- <-. left. split; [done|]. split; [done|by left]. }
  rewrite Save_then_handle in Hrun by done. unfold bind in Hrun.
  destruct (Save uuid_String bson_Marshal without_after_save dup ctx evs orig (st, (h, x)))
    as [r0 [s1 x1]] eqn:Hs.
  destruct r0 as [[]|err|p]; simplify_eq.
  - right. destruct (handle_after_save_errors ctx evs _ _ _ Hrun Hne) as [Hsome Herr].
    split; [done|]. split; [by exists s1, x1|done].
  - left. destruct (Save_atomic_without ctx evs orig last hist st h x _ _ _ Hu Hr Hs Hne). done.
  - left. destruct (Save_atomic_without ctx evs orig last hist st h x _ _ _ Hu Hr Hs Hne). done.
Qed.

(** ** Creation *)

Lemma repr_empty (v : View O R) :
  v_events v = ∅ -> v_streams v = {[None := AllStream 0]} -> repr v 0 (fun _ => []).
Proof.
  intros He Hs. split; rewrite ?He, ?Hs.
  - apply lookup_singleton_eq.
  - done.
  - intros k e. by rewrite lookup_empty.
  - intros id. unfold docs_of. by rewrite map_to_list_empty.
  - done.
  - intros id. by rewrite lookup_singleton_ne.
  - done.
Qed.

(** Everything [newEventStoreWithClient] does before it looks for [$all]. *)
Lemma ensure_ok {A} (m : M S unit) w (f : unit -> M S A) st o v' :
  given m st (Ok tt) (view st) ->
  (forall st', up st' -> view st' = view st -> given (f tt) st' o v') ->
  given (bind (map_err w m) f) st o v'.
Proof.
  intros Hm Hf. eapply gives_bind; [by apply (gives_map_err up view _ _ _ _ _ Hm)|]. done.
Qed.

(** creating the store on an empty database makes an empty, well-formed store
    that has the [$all] document; creating it again, on a well-formed one,
    changes nothing. *)
Theorem MongoNew_establishes cl own db options st :
  apply_options db options
    (mkEventStore cl own (events_Collection db "events") (streams_Collection db "streams")
       (snapshots_Collection db "snapshots") None None false GlobalPositionInTX) = inl s ->
  up st ->
  (v_events (view st) = ∅ -> v_streams (view st) = ∅ ->
   exists st', newEventStoreWithClient (Some cl) own db options st = (Ok s, st') /\ up st' /\
     repr (view st') 0 (fun _ => []) /\ gapless (view st') 0) /\
  (forall last hist, repr (view st) last hist ->
   exists st', newEventStoreWithClient (Some cl) own db options st = (Ok s, st') /\ up st' /\
     view st' = view st).
Proof.
  intros Ho Hu.
  assert (forall o v',
    (forall st', up st' -> view st' = view st ->
     given (let! found := attempt (FindOne (streams s) Background is_all None) in
            match found with
            | inl _ => ret s
            | inr err =>
                if errors_Is err ErrNoDocuments then
                  do! map_err (Errorf "could not create the $all stream document")
                        (InsertOne (streams s) Background (AllStream 0)) in
                  ret s
                else throw (Errorf "could not find the $all stream document" err)
            end) st' o v') ->
    given (newEventStoreWithClient (Some cl) own db options) st o v') as Hpre.
  { intros o v' Hk. unfold newEventStoreWithClient. rewrite Ho.
    apply ensure_ok; [by apply law_ping|]. intros s1 Hu1 Hv1.
    apply ensure_ok; [by apply law_create_index|]. intros s2 Hu2 Hv2.
    apply ensure_ok; [by apply law_create_index|]. intros s3 Hu3 Hv3.
    apply ensure_ok; [by apply law_create_index|]. intros s4 Hu4 Hv4.
    apply ensure_ok; [by apply law_create_index|]. intros s5 Hu5 Hv5.
    apply Hk; [done|congruence]. }
  split.
  - intros Hev Hstr. destruct (Hpre (Ok s) (set_last 0 (view st))) as (st' & Hrun & Hu' & Hv').
    + intros s1 Hu1 Hv1.
      destruct (law_find_one (c := streams s) Background s1 is_all None Hu1) as [[_ Hg]|(k & d & [Hm _] & _)].
      2: { by rewrite Hv1, Hstr, lookup_empty in Hm. }
      eapply gives_bind; [by apply gives_attempt_err|]. intros s2 Hu2 Hv2. simpl.
      eapply gives_bind.
      * apply (gives_map_err up view _ _ _ (Ok tt)).
        apply (law_insert_one (c := streams s) _ _ _ None); [done|done|].
        by rewrite Hv2, Hv1, Hstr.
      * intros s3 Hu3 Hv3. rewrite insert_all_doc, Hv2, Hv1 in Hv3. rewrite <- Hv3. by apply gives_ret.
    + exists st'. split; [done|]. split; [done|]. rewrite Hv'. split; [|intros k Hk; lia].
      apply repr_empty; simpl; [done|]. by rewrite Hstr.
  - intros last hist Hr. apply (Hpre (Ok s)). intros s1 Hu1 Hv1. rewrite <- Hv1 in Hr |- *.
    destruct (law_find_one (c := streams s) Background s1 is_all None Hu1) as [[Hno _]|(k & d & _ & _ & Hg)].
    + exfalso. by specialize (Hno _ _ (repr_all _ _ _ Hr)).
    + eapply gives_bind; [by apply gives_attempt_ok|]. intros s2 Hu2 <-. by apply gives_ret.
Qed.

(** ** Loading *)

(** The data a record decodes to. *)
Definition decodes (e : evt) (d : any) : Prop :=
  RawData e = "" /\ d = ANil \/
  RawData e <> "" /\ exists factory, eventDataFactories !! EventType e = Some factory /\
    bson_Unmarshal (RawData e) (factory tt) = inl d.

(** An event made of a record: it has a metadata map of its own. *)
Definition loaded (h : heap) (e : evt) (ev : event) : Prop :=
  exists d md, decodes e d /\
    ev = mkEvent (EventType e) d (Timestamp e) (AggregateType e) (AggregateID e) (Version e) md /\
    match md with Some l => h !! l | None => None end = Metadata e.

Lemma loaded_mono h h' e ev : h ⊆ h' -> is_Some (Metadata e) -> loaded h e ev -> loaded h' e ev.
Proof.
  intros Hsub [m Hm] (d & md & Hd & -> & Hl). exists d, md. split; [done|]. split; [done|].
  rewrite Hm in *. destruct md as [l|]; [|done]. by eapply lookup_weaken.
Qed.

Lemma alloc_mono m h : h ⊆ (alloc m h).1.
Proof. apply insert_subseteq. exact (alloc_fresh m h). Qed.

Lemma load_event_ok id e evs h :
  (exists d, decodes e d) ->
  exists ev h', load_event eventDataFactories bson_Unmarshal id e evs h = (Ok ev, h') /\
    loaded h' e ev /\ h ⊆ h'.
Proof.
  intros (d & Hd). unfold load_event.
  rewrite (bind_ok _ _ h h d).
  2: { destruct Hd as [[-> ->]|[Hne (f & Hf & Hun)]]; [done|].
       rewrite bool_decide_false by done. unfold try_pure.
       rewrite (bind_ok _ _ h h (f tt)) by (unfold CreateEventData; by rewrite Hf). by rewrite Hun. }
  unfold bind, alloc_metadata. destruct (Metadata e) as [m|] eqn:Hm.
  - destruct (alloc m h) as [h' l] eqn:Ha. eexists _, h'. split; [done|].
    pose proof (alloc_lookup m h) as Hl. pose proof (alloc_mono m h) as Hsub. rewrite Ha in Hl, Hsub.
    split; [|done]. exists d, (Some l). split; [done|]. by rewrite Hm.
  - eexists _, h. split; [done|]. split; [|done]. exists d, None. split; [done|]. by rewrite Hm.
Qed.

Definition loadable (e : evt) : Prop := (exists d, decodes e d) /\ is_Some (Metadata e).

Lemma load_items_ok id es evs h :
  Forall loadable es ->
  exists evs' h', load_items eventDataFactories bson_Unmarshal id (inl <$> es) evs h =
      (Ok (evs ++ evs'), h') /\ Forall2 (loaded h') es evs' /\ h ⊆ h'.
Proof.
  intros HF. revert evs h. induction HF as [|e es [Hd Hmd] HF IH]; intros evs h.
  { exists [], h. by rewrite app_nil_r. }
  destruct (load_event_ok id e evs h Hd) as (ev & h1 & Hrun & Hl & Hsub1).
  destruct (IH (evs ++ [ev]) h1) as (evs' & h2 & Hrun' & HF2 & Hsub2).
  exists (ev :: evs'), h2. rewrite fmap_cons. simpl. rewrite (bind_ok _ _ _ _ _ Hrun), Hrun'.
  rewrite <- app_assoc. split; [done|]. split; [|by etrans].
  constructor; [by eapply loaded_mono|done].
Qed.

Lemma loadFromCursor_ok id es err cl h :
  es <> [] -> Forall loadable es ->
  exists evs h', loadFromCursor eventDataFactories bson_Unmarshal id (mkCursor (inl <$> es) err cl) h =
      (Ok (somes evs), h') /\ Forall2 (loaded h') es evs /\ h ⊆ h'.
Proof.
  intros Hne HF. destruct (load_items_ok id es [] h HF) as (evs & h' & Hrun & HF2 & Hsub).
  exists evs, h'. unfold loadFromCursor. simpl. rewrite (bind_ok _ _ _ _ _ Hrun). simpl.
  split; [|done]. by destruct HF2.
Qed.

Lemma repr_version_pos (v : View O R) last hist k e :
  repr v last hist -> v_events v !! k = Some e -> 1 <= Version e.
Proof.
  intros Hr Hk. assert (e ∈ hist (AggregateID e)) as Hin.
  { rewrite (repr_docs _ _ _ Hr). unfold docs_of. apply list_elem_of_filter.
    split; [by apply bool_decide_eq_true|]. apply list_elem_of_fmap. exists (k, e).
    split; [done|]. by apply elem_of_map_to_list. }
  apply (list_elem_of_fmap_2 Version) in Hin. rewrite (repr_versions _ _ _ Hr) in Hin.
  apply elem_of_seqZ in Hin. lia.
Qed.

(** What a query for the records of an aggregate from a version on gives. *)
Lemma find_history ctx id from f last hist st :
  up st -> repr (view st) last hist -> 1 <= from ->
  (forall e, 1 <= Version e -> f e = of_aggregate id e && (from <=? Version e)) ->
  exists ds, given (Find (events s) ctx f (makeFindOptions s)) st
      (Ok (mkCursor (inl <$> ds) None None)) (view st) /\
    ds ≡ₚ drop (Z.to_nat (from - 1)) (hist id) /\
    (sortEventsOnDB s = true -> ds = drop (Z.to_nat (from - 1)) (hist id)).
Proof.
  intros Hu Hr Hfrom Hf.
  destruct (law_find (c := events s) ctx st f (makeFindOptions s) Hu) as (ds & Hall & Hsort & Hg).
  exists ds. split; [done|]. pose proof (repr_versions _ _ _ Hr id) as Hver.
  assert (ds ≡ₚ drop (Z.to_nat (from - 1)) (hist id)) as Hp.
  { rewrite <- (drop_versions _ 1 from Hver Hfrom), (repr_docs _ _ _ Hr id), Hall. unfold docs_of.
    rewrite list_filter_filter.
    match goal with |- ?a ≡ₚ ?b => enough (a = b) as -> by done end.
    apply filter_ext_in. intros e (kd & -> & Hk)%list_elem_of_fmap.
    destruct kd as [k e]. apply elem_of_map_to_list in Hk. simpl.
    rewrite Hf by (by eapply repr_version_pos). rewrite andb_true_iff. by split; intros [? ?]. }
  split; [done|]. unfold makeFindOptions in Hsort. intros Hs. rewrite Hs in Hsort.
  eapply sorted_unique; [by symmetry| |done]. by apply versions_drop.
Qed.

(** What loading the records [es] returns: all of them, each once, in the order
    of their versions when the store sorts. *)
Definition loads (es : list evt) (m : M St (list (option event))) (st : S) (h : heap) (x : X) : Prop :=
  exists ds evs st' h', m (st, (h, x)) = (Ok (somes evs), (st', (h', x))) /\
    up st' /\ view st' = view st /\ h ⊆ h' /\
    ds ≡ₚ es /\ (sortEventsOnDB s = true -> ds = es) /\ Forall2 (loaded h') ds evs.

Lemma load_found_ok id w f ctx es ds st h x :
  es <> [] -> Forall loadable es -> ds ≡ₚ es -> (sortEventsOnDB s = true -> ds = es) ->
  given (Find (events s) ctx f (makeFindOptions s)) st (Ok (mkCursor (inl <$> ds) None None)) (view st) ->
  loads es (let! cursor := map_err w (zoom_fst (Find (events s) ctx f (makeFindOptions s))) in
            on_heap (loadFromCursor eventDataFactories bson_Unmarshal id cursor)) st h x.
Proof.
  intros Hne HF Hp Hs Hg. unfold loads.
  assert (ds <> []) as Hne' by (intros ->; by apply Permutation_nil_l in Hp).
  assert (Forall loadable ds) as HF' by (by rewrite Hp).
  destruct (loadFromCursor_ok id ds None None h Hne' HF') as (evs & h' & Hrun & HF2 & Hsub).
  eapply (zoom_map_bind up view); [exact Hg|]. intros s1 Hu1 Hv1.
  exists ds, evs, s1, h'. rewrite on_heap_run, Hrun. done.
Qed.

(** [Load] returns an aggregate's whole history and [LoadFrom] the part of it
    from a version on, with no empty slots; in version order when the option
    [WithSortEventsOnDB] is set, in some order otherwise; and
    [ErrAggregateNotFound] when there is nothing. *)
Theorem MongoLoad_history ctx id from last hist st h x :
  up st -> repr (view st) last hist -> Forall loadable (hist id) -> 1 <= from ->
  (hist id <> [] -> loads (hist id) (Load eventDataFactories bson_Unmarshal s ctx id) st h x) /\
  let es := drop (Z.to_nat (from - 1)) (hist id) in
  (es <> [] -> loads es (LoadFrom eventDataFactories bson_Unmarshal s ctx id from) st h x) /\
  (es = [] -> exists st', LoadFrom eventDataFactories bson_Unmarshal s ctx id from (st, (h, x)) =
     (Err (EventStoreError (Some (Sentinel ErrAggregateNotFound)) EventStoreOpLoad "" id 0 []),
      (st', (h, x))) /\ up st' /\ view st' = view st).
Proof.
  intros Hu Hr HF Hfrom. split; [|split].
  - intros Hne. destruct (find_history ctx id 1 (of_aggregate id) last hist st Hu Hr)
      as (ds & Hg & Hp & Hs); [lia| |].
    { intros e He. destruct (Z.leb_spec 1 (Version e)); [|lia]. by rewrite andb_true_r. }
    rewrite Z.sub_diag, drop_0 in *. by apply load_found_ok with ds.
  - intros Hne.
    destruct (find_history ctx id from _ last hist st Hu Hr Hfrom ltac:(by intros)) as (ds & Hg & Hp & Hs).
    apply load_found_ok with ds; [done|by apply Forall_drop|done..].
  - intros Hnil.
    destruct (find_history ctx id from _ last hist st Hu Hr Hfrom ltac:(by intros)) as (ds & Hg & Hp & Hs).
    rewrite Hnil in Hp. apply Permutation_nil_r in Hp as ->. unfold LoadFrom.
    eapply (zoom_map_bind up view); [exact Hg|]. intros s1 Hu1 Hv1. by exists s1.
Qed.

(** Events whose data the codec keeps. *)
Definition faithful (e : event) : Prop :=
  data e = ANil \/
  exists raw factory, is_nil (data e) = false /\ raw <> "" /\ bson_Marshal (data e) = inl raw /\
    eventDataFactories !! eventType e = Some factory /\
    bson_Unmarshal raw (factory tt) = inl (data e).

Lemma faithful_storable e : faithful e -> storable e.
Proof. intros [Hd|(raw & f & _ & _ & Hm & _)]; [left; by rewrite Hd|right; by exists raw]. Qed.

Lemma placed_decodes pos h e :
  faithful e -> decodes (wire (placed pos (record_of h e))) (data e).
Proof.
  intros Hf. unfold decodes. rewrite wire_RawData, wire_EventType. simpl. unfold raw_of.
  destruct Hf as [-> |(raw & f & -> & Hne & -> & Hfac & Hun)]; [by left|]. right. eauto.
Qed.

Lemma decodes_det e d d' : decodes e d -> decodes e d' -> d = d'.
Proof.
  intros [[? ->]|[Hne (f & Hf & Hu)]] [[? ->]|[Hne' (f' & Hf' & Hu')]]; try done. congruence.
Qed.

Lemma loaded_placed h' pos h e ev :
  faithful e -> loaded h' (wire (placed pos (record_of h e))) ev -> same_event e ev.
Proof.
  intros Hf (d & md & Hd & -> & _). rewrite (decodes_det _ _ _ Hd (placed_decodes pos h e Hf)).
  unfold same_event. simpl.
  by rewrite wire_EventType, wire_AggregateType, wire_AggregateID, wire_Version.
Qed.

Lemma place_loaded h' prev h evs evs' :
  Forall faithful evs -> Forall2 (loaded h') (wire <$> place prev (record_of h <$> evs)) evs' ->
  Forall2 same_event evs evs'.
Proof.
  intros HF. revert prev evs'. induction HF as [|e evs He _ IH]; intros prev evs' H2.
  - by inversion H2.
  - rewrite !fmap_cons in H2. simpl in H2. inversion H2; subst. constructor; [by eapply loaded_placed|].
    by eapply IH.
Qed.

Lemma place_loadable prev h evs :
  (forall e md, Metadata e = Some md -> is_Some (Metadata (wire e))) ->
  Forall faithful evs -> Forall loadable (wire <$> place prev (record_of h <$> evs)).
Proof.
  intros Hmd HF. revert prev. induction HF as [|e evs He _ IH]; intros prev; [constructor|].
  rewrite !fmap_cons. simpl. constructor; [|apply IH].
  split; [eexists; by apply placed_decodes|]. by eapply Hmd.
Qed.

(** C11: what is saved is what is loaded: after a batch is saved on an aggregate, a
    store that sorts loads the aggregate's old events and after them, in order,
    one event for each of the batch, of the same type, data, aggregate and
    version. *)
Theorem MongoSave_Load_roundtrip ctx ctx' id evs last hist st h x h1 x1 st1 :
  (forall e md, Metadata e = Some md -> is_Some (Metadata (wire e))) ->
  sortEventsOnDB s = true -> eventHandlerAfterSave s = None ->
  up st -> repr (view st) last hist -> Forall loadable (hist id) ->
  batch_for id (len (hist id)) evs -> Forall faithful evs -> is_int (last + len evs) ->
  handlers_ok (somes evs) ->
  Save' ctx (somes evs) (len (hist id)) (st, (h, x)) = (Ok tt, (st1, (h1, x1))) ->
  exists old new st2 h2,
    Load eventDataFactories bson_Unmarshal s ctx' id (st1, (h1, x1)) =
      (Ok (somes (old ++ new)), (st2, (h2, x1))) /\
    Forall2 (loaded h2) (hist id) old /\ Forall2 same_event evs new.
Proof.
  intros Hmd Hsort Hafter Hu Hr HF Hbf Hff Hint Hh.
  assert (Forall storable evs) as Hst by (eapply Forall_impl; [exact Hff|apply faithful_storable]).
  destruct (Save_ok ctx id evs last hist st h x Hu Hr Hbf Hst Hint Hh) as (st' & hx' & -> & Hu' & Hr' & _).
  unfold handle_after_save. rewrite Hafter. intros [= -> ->].
  set (new := wire <$> place last (record_of h <$> evs)) in *.
  assert (Forall loadable (hist id ++ new)) as HF' by (apply Forall_app; split; [done|by apply place_loadable]).
  destruct (find_history ctx' id 1 (of_aggregate id) _ _ st1 Hu' Hr') as (ds & Hg & Hp & Hds); [lia| |].
  { intros e He. destruct (Z.leb_spec 1 (Version e)); [|lia]. by rewrite andb_true_r. }
  rewrite Z.sub_diag, drop_0, fn_lookup_insert in Hp, Hds.
  destruct (load_found_ok id (find_error id) (of_aggregate id) ctx' (hist id ++ new) ds st1 h1 x1)
    as (ds' & evs' & st2 & h2 & Hload & _ & _ & _ & _ & Heq & HF2); [|done..|].
  { intros Happ. apply app_eq_nil in Happ as [_ Hn]. unfold new in Hn. destruct Hbf as [Hne _]. by destruct evs. }
  rewrite (Heq Hsort) in HF2. apply Forall2_app_inv_l in HF2 as (old & new' & Hold & Hnew & ->).
  exists old, new', st2, h2. split; [done|]. split; [done|]. by eapply place_loaded.
Qed.

(** a cursor that a failure ended early is taken for the whole result: [Load]
    returns the events read so far, without an error. *)
Theorem MongoLoad_truncated ctx id es err st st1 h x :
  Find (events s) ctx (of_aggregate id) (makeFindOptions s) st =
    (Ok (mkCursor (inl <$> es) (Some err) None), st1) ->
  es <> [] -> Forall loadable es ->
  exists evs h', Load eventDataFactories bson_Unmarshal s ctx id (st, (h, x)) =
    (Ok (somes evs), (st1, (h', x))) /\ Forall2 (loaded h') es evs.
Proof.
  intros Hf Hne HF. destruct (loadFromCursor_ok id es (Some err) None h Hne HF) as (evs & h' & Hrun & HF2 & _).
  exists evs, h'. unfold Load. unfold bind at 1, map_err, zoom_fst at 1, zoom. simpl. rewrite Hf.
  by rewrite on_heap_run, Hrun.
Qed.

(** ** Snapshots *)

Section Snapshots.
Context (snapshotDataFactories : gmap string (UUID -> any)).
Context (json_Marshal : Snapshot -> string + error).
Context (json_Unmarshal : string -> Snapshot -> Snapshot + error).
Context (gzip gunzip : string -> string + error).

(** The snapshots of an aggregate in the store. *)
Definition snapshots_of (id : UUID) (v : View O R) (r : SnapshotRecord) : Prop :=
  exists k, v_snapshots v !! k = Some r /\ sr_AggregateID r = id.

(** The record of a snapshot, and what is read of a record. *)
Definition snapshot_record (now : Time) (id : UUID) (snap : Snapshot) (packed : string) : SnapshotRecord :=
  mkSnapshotRecord id packed now (snap_Version snap) (snap_AggregateType snap).

Definition read_snapshot (r : SnapshotRecord) : option Snapshot :=
  match snapshotDataFactories !! sr_AggregateType r, gunzip (sr_RawData r) with
  | Some factory, inl raw =>
      match json_Unmarshal raw (mkSnapshot 0 "" 0 (factory (sr_AggregateID r))) with
      | inl snap => Some snap
      | inr _ => None
      end
  | _, _ => None
  end.

(** A snapshot that the codecs keep. *)
Definition snap_faithful (id : UUID) (snap : Snapshot) : Prop :=
  snap_AggregateType snap <> "" /\ is_nil (snap_State snap) = false /\
  exists raw packed factory, json_Marshal snap = inl raw /\ gzip raw = inl packed /\
    gunzip packed = inl raw /\ snapshotDataFactories !! snap_AggregateType snap = Some factory /\
    json_Unmarshal raw (mkSnapshot 0 "" 0 (factory id)) = inl snap.

Lemma SaveSnapshot_run now ctx id snap st :
  up st -> snap_faithful id snap ->
  exists packed k st1, SaveSnapshot json_Marshal gzip s now ctx id snap st = (Ok tt, st1) /\ up st1 /\
    v_snapshots (view st) !! k = None /\
    view st1 = put_snapshots (<[k := wire_snapshot (snapshot_record now id snap packed)]>
                                (v_snapshots (view st))) (view st) /\
    read_snapshot (wire_snapshot (snapshot_record now id snap packed)) = Some snap.
Proof.
  intros Hu (Hat & Hst & raw & packed & factory & Hjson & Hgz & Hgun & Hfac & Hun).
  set (rec := snapshot_record now id snap packed).
  destruct (law_insert_one_new (c := snapshots s) ctx st rec Hu eq_refl)
    as (k & Hk & st1 & Hrun & Hu1 & Hv1).
  exists packed, k, st1. split; [|split; [done|split; [done|split; [done|]]]].
  - unfold SaveSnapshot. rewrite bool_decide_false, Hst by done. unfold try_pure, compress.
    rewrite Hjson. rewrite (bind_ok _ _ st st raw) by done. simpl. rewrite Hgz.
    rewrite (bind_ok _ _ st st rec) by done. by apply map_err_ok.
  - unfold read_snapshot. rewrite wire_sr_AggregateType, wire_sr_RawData, wire_sr_AggregateID. simpl.
    by rewrite Hfac, Hgun, Hun.
Qed.

(** Loading what [FindOne] found. *)
Lemma LoadSnapshot_run ctx id st st' r snap :
  FindOne (snapshots s) ctx (snapshot_of id) (Some version_desc) st = (Ok (inl r), st') ->
  read_snapshot r = Some snap ->
  LoadSnapshot snapshotDataFactories json_Unmarshal gunzip s ctx id st = (Ok (Some snap), st').
Proof.
  intros Hload Hread. unfold LoadSnapshot. rewrite (bind_ok _ _ _ _ _ (attempt_ok _ _ _ _ Hload)).
  unfold read_snapshot in Hread.
  destruct (snapshotDataFactories !! sr_AggregateType r) as [f|] eqn:Hf; [|done].
  destruct (gunzip (sr_RawData r)) as [raw|] eqn:Hg; [|done].
  destruct (json_Unmarshal raw _) as [sn|] eqn:Hj; [|done]. simplify_eq.
  unfold try_pure, decompress, CreateSnapshotData. rewrite (bind_ok _ _ st' st' r) by done. rewrite Hf.
  rewrite (bind_ok _ _ st' st' (f (sr_AggregateID r))) by done. rewrite Hg.
  rewrite (bind_ok _ _ st' st' (mkSnapshotRecord (sr_AggregateID r) raw (sr_Timestamp r) (sr_Version r)
    (sr_AggregateType r))) by done. simpl. by rewrite Hj.
Qed.

(** the newest snapshot saved is the one loaded, with its state: saving a
    snapshot of a version above the stored ones of the aggregate makes
    [LoadSnapshot] return it, and saving never touches the snapshots of other
    aggregates. *)
Theorem MongoSnapshot_roundtrip now ctx ctx' id snap raw packed factory st :
  up st -> snap_AggregateType snap <> "" -> is_nil (snap_State snap) = false ->
  json_Marshal snap = inl raw -> gzip raw = inl packed -> gunzip packed = inl raw ->
  snapshotDataFactories !! snap_AggregateType snap = Some factory ->
  json_Unmarshal raw (mkSnapshot 0 "" 0 (factory id)) = inl snap ->
  (forall r, snapshots_of id (view st) r -> sr_Version r < snap_Version snap) ->
  exists st1 st2,
    SaveSnapshot json_Marshal gzip s now ctx id snap st = (Ok tt, st1) /\ up st1 /\
    LoadSnapshot snapshotDataFactories json_Unmarshal gunzip s ctx' id st1 = (Ok (Some snap), st2) /\
    view st2 = view st1 /\
    v_events (view st1) = v_events (view st) /\ v_streams (view st1) = v_streams (view st) /\
    (forall id' r, id' <> id -> snapshots_of id' (view st1) r <-> snapshots_of id' (view st) r).
Proof.
  intros Hu Hat Hst Hjson Hgz Hgun Hfac Hun Hnew.
  destruct (SaveSnapshot_run now ctx id snap st Hu) as (packed' & k & st1 & Hrun & Hu1 & Hk & Hv1 & Hread);
    [by split_and!; eauto 10|].
  set (r1 := wire_snapshot _) in *.
  assert (sr_AggregateID r1 = id /\ sr_Version r1 = snap_Version snap) as [Hid1 Hver1]
    by (unfold r1; by rewrite wire_sr_AggregateID, wire_sr_Version).
  assert (matches v_snapshots (view st1) (snapshot_of id) k r1) as Hm1.
  { split; [rewrite Hv1; apply lookup_insert_eq|]. by apply bool_decide_eq_true. }
  destruct (law_find_one (c := snapshots s) ctx' st1 (snapshot_of id) (Some version_desc) Hu1)
    as [[Hno _]|(k' & d & [Hd Hm] & Hmin & st2 & Hload & Hu2 & Hv2)].
  { exfalso. destruct Hm1 as [Hl1 Hm1]. rewrite (Hno _ _ Hl1) in Hm1. done. }
  assert (d = r1) as ->.
  { rewrite Hv1 in Hd. simpl in Hd. apply lookup_insert_Some in Hd as [[_ <-]|[Hne Hd]]; [done|exfalso].
    apply bool_decide_eq_true in Hm.
    assert (sr_Version d < snap_Version snap) as Hlt by (apply Hnew; by exists k').
    specialize (Hmin version_desc k r1 eq_refl Hm1). unfold version_desc in Hmin. lia. }
  exists st1, st2. split; [done|]. split; [done|]. split; [by eapply LoadSnapshot_run|].
  split; [done|]. rewrite Hv1. split; [done|]. split; [done|].
  intros id' r Hid. unfold snapshots_of. simpl. split; intros (k0 & Hk0 & Hr).
  - apply lookup_insert_Some in Hk0 as [[_ <-]|[_ Hk0]]; [congruence|by exists k0].
  - exists k0. rewrite lookup_insert_ne; [done|]. intros <-. by rewrite Hk in Hk0.
Qed.

End Snapshots.

(** ** Clearing *)

(** [Clear] takes the [$all] document away with the streams, and [Save] does
    not make it: after [Clear] the store refuses every batch, until a store is
    created again. *)
Theorem MongoClear_stops_saves ctx ctx' id evs st h x :
  up st -> globalPositionStrategy s <> GlobalPositionOutsideTX ->
  batch_for id 0 evs -> Forall storable evs ->
  exists at' st1 st2 hx', Clear s ctx st = (Ok tt, st1) /\ up st1 /\
    v_events (view st1) = ∅ /\ v_streams (view st1) = ∅ /\
    Save' ctx' (somes evs) 0 (st1, (h, x)) =
      (Err (save_error (somes evs) id at' 0
        (Errorf "could not increment global position" (Sentinel ErrNoDocuments))), (st2, hx')) /\
    view st2 = view st1.
Proof.
  intros Hu Hstrat Hbf Hst.
  destruct (law_drop (c := events s) ctx st Hu) as (s1 & Hd1 & Hu1 & Hv1).
  destruct (law_drop (c := streams s) ctx s1 Hu1) as (s2 & Hd2 & Hu2 & Hv2).
  destruct (Save_run ctx' id 0 evs s2 h x Hbf Hst) as (at' & _ & Hsave). exists at', s2. rewrite Hsave.
  unfold store_records. rewrite (proj2 (Z.eqb_neq _ _) Hstrat). unfold saveInTX.
  assert (v_streams (view s2) = ∅) as Hempty by (by rewrite Hv2).
  destruct (law_start_session s2 Hu2) as (s3 & Hd3 & Hu3 & Hv3).
  destruct (transaction_outcome ctx' (saveInTX_callback uuid_String s dup (somes evs) (record_of h <$> evs) 0)
    (fun r v => r = Err (Errorf "could not increment global position" (Sentinel ErrNoDocuments)) /\
                v = view s3) s3 (h, x) Hu3) as (r & st' & hx' & Hw & Hu' & -> & Hv').
  { intros c' s4 y Hu4 Hv4. unfold saveInTX_callback, updateGlobalPosition.
    destruct (law_find_one_and_update (c := streams s) c' s4 is_all
      (inc_position (len (record_of h <$> evs))) Hu4) as [[_ Hg]|(k & d & [Hk _] & _)].
    2: { by rewrite Hv4, Hv3, Hempty, lookup_empty in Hk. }
    eapply (zoom_bind_err up view).
    - apply gives_bind_err. apply (gives_map_err up view _ _ _ (Err (Sentinel ErrNoDocuments))). exact Hg.
    - intros s5 Hu5 Hv5. done. }
  exists st', hx'. unfold Clear. rewrite (bind_ok _ _ _ _ _ (map_err_ok _ _ _ _ _ Hd1)).
  rewrite (map_err_ok _ _ _ _ _ Hd2). split; [done|]. split; [done|].
  split; [by rewrite Hv2, Hv1|]. split; [done|]. split; [|congruence].
  apply bind_err. rewrite (bind_ok _ _ (s2, (h, x)) (s3, (h, x)) tt).
  - by rewrite (map_err_err _ _ _ _ _ Hw).
  - apply map_err_ok. unfold zoom_fst, zoom. simpl. by rewrite Hd3.
Qed.

(** ** Replacing and renaming *)

Lemma matches_version (v : View O R) last hist id n k e :
  repr v last hist -> matches v_events v (version_of id n) k e ->
  Position e = k /\ 1 <= n /\ hist id !! Z.to_nat (n - 1) = Some e.
Proof.
  intros Hr [Hk Hm]. apply andb_true_iff in Hm as [Ha Hv%Z.eqb_eq].
  destruct (repr_position _ _ _ Hr _ _ Hk) as [Hp _]. split; [done|].
  assert (e ∈ hist id) as Hin.
  { rewrite (repr_docs _ _ _ Hr). apply list_elem_of_filter. split; [done|].
    apply list_elem_of_fmap. exists (k, e). split; [done|]. by apply elem_of_map_to_list. }
  apply list_elem_of_lookup in Hin as [i Hi].
  pose proof (f_equal (fun l => l !! i) (repr_versions _ _ _ Hr id)) as Hvi. simpl in Hvi.
  rewrite list_lookup_fmap, Hi in Hvi. symmetry in Hvi. apply lookup_seqZ in Hvi as [Hvi _].
  split; [lia|]. replace (Z.to_nat (n - 1)) with i by lia. done.
Qed.

Lemma repr_in_events (v : View O R) last hist id e :
  repr v last hist -> e ∈ hist id -> AggregateID e = id /\ v_events v !! Position e = Some e.
Proof.
  intros Hr Hin. rewrite (repr_docs _ _ _ Hr) in Hin. apply list_elem_of_filter in Hin as [Ha Hin].
  apply list_elem_of_fmap in Hin as ([k e'] & -> & Hk%elem_of_map_to_list). simpl in *.
  apply bool_decide_eq_true in Ha. split; [done|].
  by destruct (repr_position _ _ _ Hr _ _ Hk) as [-> _].
Qed.

(** The view with the record of one event replaced. *)
Definition replaced (e : evt) (v : View O R) : View O R :=
  put_events (<[Position e := wire e]> (v_events v)) v.

Lemma repr_replaced (v : View O R) last hist id i e e' :
  repr v last hist -> hist id !! i = Some e -> Position e' = Position e ->
  AggregateID e' = AggregateID e -> Version e' = Version e ->
  repr (replaced e' v) last (<[id := <[i := wire e']> (hist id)]> hist).
Proof.
  intros Hr Hi Hp Ha Hv.
  destruct (repr_in_events v last hist id e Hr) as [Hid Hk]; [by eapply list_elem_of_lookup_2|].
  destruct Hr. split; simpl; try done.
  - intros k d. rewrite Hp. intros [[<- <-]|[_ Hkd]]%lookup_insert_Some; [|by apply repr_position0].
    rewrite wire_Position, Hp. split; [done|]. by apply (repr_position0 _ _ Hk).
  - intros id'. rewrite Hp.
    destruct (docs_of_replace id' (Position e) e (wire e') (v_events v) Hk) as [-> Hold];
      [by rewrite wire_AggregateID|].
    unfold of_aggregate in *. destruct (decide (id' = id)) as [->|Hne].
    + rewrite fn_lookup_insert, Hid, bool_decide_true in * by done. simpl in *.
      assert (hist id ≡ₚ e :: take i (hist id) ++ drop (Datatypes.S i) (hist id)) as Hh.
      { rewrite <- (take_drop_middle _ _ _ Hi) at 1. by rewrite Permutation_middle. }
      rewrite <- (repr_docs0 id), Hh in Hold. apply Permutation_cons_inv in Hold.
      rewrite <- Hold, insert_take_drop by (by eapply lookup_lt_Some). by rewrite Permutation_middle.
    + rewrite fn_lookup_insert_ne by done. rewrite repr_docs0, Hold.
      by rewrite bool_decide_false by congruence.
  - intros id'. destruct (decide (id' = id)) as [->|Hne]; [|by rewrite fn_lookup_insert_ne].
    rewrite fn_lookup_insert, list_fmap_insert, wire_Version, Hv, len_insert, repr_versions0.
    apply list_insert_id.
    by rewrite <- (repr_versions0 id), list_lookup_fmap, Hi.
  - intros id'. destruct (decide (id' = id)) as [->|Hne]; [|by rewrite fn_lookup_insert_ne].
    rewrite fn_lookup_insert, len_insert. apply repr_stream0.
  - intros id'. destruct (decide (id' = id)) as [->|Hne]; [|by rewrite fn_lookup_insert_ne].
    rewrite fn_lookup_insert, len_insert. apply repr_count0.
Qed.

Lemma count_history ctx id st last hist :
  up st -> repr (view st) last hist ->
  given (CountDocuments (events s) ctx (of_aggregate id)) st (Ok (len (hist id))) (view st).
Proof.
  intros Hu Hr. destruct (law_count (c := events s) ctx st (of_aggregate id) Hu) as (ds & Hall & Hg).
  assert (len (hist id) = len ds) as ->; [|done].
  unfold len. rewrite (Permutation_length (repr_docs _ _ _ Hr id)). by rewrite (Permutation_length Hall).
Qed.

(** What the transaction of [Replace] does. *)
Definition replace_outcome (e : event) (h : heap) (hist : UUID -> list evt) (v : View O R)
    (r : result unit) (v' : View O R) : Prop :=
  let es := hist (aggregateID e) in
  match es with
  | [] => r = Err (Sentinel ErrAggregateNotFound) /\ v' = v
  | _ :: _ =>
      if bool_decide (1 <= version e <= len es) then
        r = Ok tt /\ exists old, es !! Z.to_nat (version e - 1) = Some old /\
          v' = replaced (placed (Position old) (record_of h e)) v
      else r = Err (Sentinel ErrEventNotFound) /\ v' = v
  end.

Lemma Replace_callback_ok ctx e h last hist st x :
  up st -> repr (view st) last hist -> storable e ->
  exists r st', Replace_callback bson_Marshal s (Some e) e ctx (st, (h, x)) = (r, (st', (h, x))) /\
    replace_outcome e h hist (view st) r (match r with Ok _ => view st' | _ => view st end).
Proof.
  intros Hu Hr Hst. unfold Replace_callback.
  eapply (zoom_bind up view); [by eapply count_history|]. intros s1 Hu1 Hv1. unfold replace_outcome.
  destruct (hist (aggregateID e)) as [|e0 l] eqn:Hes; [by eexists _, _|].
  destruct (Z.eqb_spec (len (e0 :: l)) 0); [by apply len_0 in e1|]. rewrite <- Hes.
  unfold bind at 1. rewrite on_heap_run, (newEvt_ok _ _ _ Hst). simpl.
  rewrite <- Hv1 in Hr |- *.
  destruct (law_find_one (c := events s) ctx s1 (version_of (aggregateID e) (version e)) None Hu1)
    as [[Hno (s2 & Hf & Hu2 & Hv2)]|(k & d & Hm & _ & (s2 & Hf & Hu2 & Hv2))];
    rewrite (bind_ok _ _ (s1, (h, x)) _ _ (attempt_zoom _ _ _ _ _ Hf)).
  - case_bool_decide as Hrange; [exfalso|by eexists _, _].
    destruct (lookup_lt_is_Some_2 (hist (aggregateID e)) (Z.to_nat (version e - 1))) as [d Hd].
    { unfold len in Hrange. lia. }
    destruct (repr_in_events _ _ _ _ d Hr ltac:(by eapply list_elem_of_lookup_2)) as [Hid Hk].
    specialize (Hno _ _ Hk). unfold version_of, of_aggregate in Hno.
    rewrite bool_decide_true in Hno by done.
    pose proof (f_equal (fun l => l !! Z.to_nat (version e - 1)) (repr_versions _ _ _ Hr (aggregateID e))) as Hvi.
    simpl in Hvi. rewrite list_lookup_fmap, Hd in Hvi. symmetry in Hvi. apply lookup_seqZ in Hvi as [Hvi _].
    simpl in Hno. apply Z.eqb_neq in Hno. lia.
  - destruct (matches_version _ _ _ _ _ _ _ Hr Hm) as (Hp & Hge & Hd).
    rewrite bool_decide_true by (apply lookup_lt_Some in Hd; unfold len; lia).
    unfold try_pure. rewrite (bind_ok _ _ (s2, (h, x)) (s2, (h, x)) d) by done.
    rewrite (bind_ok _ _ (s2, (h, x)) (s2, (h, x)) (placed (Position d) (record_of h e))) by done.
    rewrite <- Hv2 in Hr, Hm |- *.
    destruct (law_replace_one (c := events s) ctx s2 (version_of (aggregateID e) (version e))
      (placed (Position d) (record_of h e)) Hu2) as [[Hno _]|(k' & d' & Hm' & Hg)].
    { exfalso. destruct Hm as [Hk Hf']. by rewrite (Hno _ _ Hk) in Hf'. }
    destruct (matches_version _ _ _ _ _ _ _ Hr Hm') as (Hp' & _ & Hd').
    assert (d' = d) as -> by congruence. assert (k' = k) as -> by congruence.
    destruct (Hg ltac:(by simpl; f_equal)) as (s3 & Hrun & Hu3 & Hv3).
    eexists (Ok tt), s3. rewrite (bind_ok _ _ (s2, (h, x)) (s3, (h, x)) 1).
    2: { unfold zoom_fst, zoom. simpl. by rewrite Hrun. }
    split; [done|]. split; [done|]. exists d. split; [done|]. rewrite Hv3, Hv2. unfold replaced. simpl.
    by rewrite Hp.
Qed.

(** [Replace] swaps exactly one record, which keeps its global position, and
    tells a missing aggregate from a missing event; the heap, the rest of the
    program and every other record stay, and the store stays well formed. *)
Theorem MongoReplace_spec ctx e last hist st h x :
  up st -> repr (view st) last hist -> storable e ->
  let id := aggregateID e in
  let es := hist id in
  let i := Z.to_nat (version e - 1) in
  let fail err := EventStoreError (Some (Sentinel err)) EventStoreOpReplace (aggregateType e) id
                    (version e) [Some e] in
  exists st' hist', up st' /\ repr (view st') last hist' /\
    Replace bson_Marshal s ctx (Some e) (st, (h, x)) =
      (if bool_decide (es = []) then Err (fail ErrAggregateNotFound)
       else if bool_decide (1 <= version e <= len es) then Ok tt
       else Err (fail ErrEventNotFound), (st', (h, x))) /\
    (if bool_decide (es <> [] /\ 1 <= version e <= len es)
     then exists old, es !! i = Some old /\
            hist' = <[id := <[i := wire (placed (Position old) (record_of h e))]> es]> hist
     else view st' = view st /\ hist' = hist).
Proof.
  intros Hu Hr Hst id es i fail. subst id es i fail. unfold Replace.
  rewrite (bind_ok _ _ (st, (h, x)) (st, (h, x)) e) by done.
  eapply (zoom_map_bind up view); [by apply law_start_session|]. intros s1 Hu1 Hv1.
  destruct (transaction_pure ctx (Replace_callback bson_Marshal s (Some e) e)
    (replace_outcome e h hist (view st)) s1 (h, x) Hu1) as (r & st' & Hw & Hu' & Ho).
  { intros ctx' s2 Hu2 Hv2. rewrite Hv1 in Hv2.
    destruct (Replace_callback_ok ctx' e h last hist s2 x Hu2 ltac:(by rewrite Hv2) Hst)
      as (r & s3 & -> & Ho). rewrite Hv2 in Ho. rewrite Hv1. done. }
  unfold map_err. rewrite Hw. unfold replace_outcome in Ho.
  destruct (hist (aggregateID e)) as [|e0 l] eqn:Hes.
  { destruct Ho as [-> Hv']. exists st', hist. rewrite Hv'. split; [done|]. split; [done|].
    split; [done|]. by rewrite bool_decide_false by (by intros [? _]). }
  rewrite (bool_decide_false (_ = [])) by done. rewrite <- Hes in *.
  case_bool_decide as Hrange.
  - destruct Ho as (-> & old & Hold & Hv'). rewrite bool_decide_true by (split; [by rewrite Hes|done]).
    exists st', (<[aggregateID e := <[Z.to_nat (version e - 1) :=
      wire (placed (Position old) (record_of h e))]> (hist (aggregateID e))]> hist).
    split; [done|]. split; [|split; [done|by exists old]]. rewrite Hv'.
    destruct (repr_in_events _ _ _ _ old Hr ltac:(by eapply list_elem_of_lookup_2)) as [Hid _].
    eapply repr_replaced; [done|done|done|done|]. simpl.
    pose proof (f_equal (fun l => l !! Z.to_nat (version e - 1)) (repr_versions _ _ _ Hr (aggregateID e))) as Hvi.
    simpl in Hvi. rewrite list_lookup_fmap, Hold in Hvi. symmetry in Hvi.
    apply lookup_seqZ in Hvi as [Hvi _]. lia.
  - destruct Ho as [-> Hv']. exists st', hist. rewrite Hv'. split; [done|]. split; [done|].
    split; [done|]. by rewrite bool_decide_false by (by intros [_ ?]).
Qed.

(** The record after [RenameEvent]. *)
Definition renamed (from to : string) (e : evt) : evt :=
  if of_type from e then wire (set_event_type to e) else e.

Lemma renamed_fields from to e :
  AggregateID (renamed from to e) = AggregateID e /\ Version (renamed from to e) = Version e /\
  Position (renamed from to e) = Position e.
Proof.
  unfold renamed. destruct (of_type from e); [|done].
  by rewrite wire_AggregateID, wire_Version, wire_Position.
Qed.

(** [RenameEvent] renames every event of the type, in every aggregate, and
    leaves everything else, the positions and versions included. *)
Theorem MongoRenameEvent_all ctx from to last hist st :
  up st -> repr (view st) last hist ->
  exists st', RenameEvent s ctx from to st = (Ok tt, st') /\ up st' /\
    repr (view st') last (fun id => renamed from to <$> hist id) /\
    (from <> to -> forall id e, e ∈ (renamed from to <$> hist id) -> EventType e <> from).
Proof.
  intros Hu Hr.
  destruct (law_update_many (c := events s) ctx st (of_type from) (set_event_type to) Hu)
    as (n & st' & Hrun & Hu' & Hv').
  exists st'. unfold RenameEvent. rewrite (bind_ok _ _ _ _ _ (map_err_ok _ _ _ _ _ Hrun)).
  split; [done|]. split; [done|]. split.
  - rewrite Hv'. fold (renamed from to). destruct Hr. split; simpl; try done.
    + intros k e. rewrite lookup_fmap. intros (e0 & Hk & ->)%fmap_Some.
      destruct (renamed_fields from to e0) as (_ & _ & ->). by apply repr_position0.
    + intros id. rewrite docs_of_fmap by apply renamed_fields. by rewrite repr_docs0.
    + intros id. rewrite len_fmap, <- repr_versions0, <- list_fmap_compose.
      apply list_fmap_ext. intros _ e _. apply renamed_fields.
    + intros id. by rewrite len_fmap.
    + intros id. by rewrite len_fmap.
  - intros Hne id e (e0 & -> & _)%list_elem_of_fmap. unfold renamed, of_type.
    case_bool_decide; [|done]. rewrite wire_EventType. simpl. congruence.
Qed.

End Theory.
End V2Spec.
