(* ===== verification/MongoStoreV2Laws.v ===== *)
(** * The MongoDB event store keeps the contract of an event store

    [mongo_EventStoreLaws] and [mongo_LoadsFrom]: a MongoDB store that sorts
    its events and whose handlers leave its collections alone is an
    [EventStoreLaws] store whose streams are the decoded histories of
    [MongoStoreV2Spec].  Every theorem about an event sourced aggregate, a
    command handler or an example domain therefore holds over MongoDB. *)

From stdpp Require Import functions base gmap strings list numbers option pretty sorting.
From Stdlib Require Import Lia ZArith.
From S2P Require Import Prelude.
From S2P Require Import GoTypes.
From S2P Require Import Event.
From S2P Require Import Command.
From S2P Require Import Errors.
From S2P Require Import Registry.
From S2P Require Import EventStoreSpec.
From S2P Require Import AggregateBase.
From S2P Require Import AggregateStore.
From S2P Require Import Snapshots.
From S2P Require Import Mongo.
From S2P Require Import MongoStoreV2.
From S2P Require Import MongoStoreV2Spec.

Import MongoStoreV2.V2.
Import MongoStoreV2Spec.V2Spec.

Module V2Laws.

(** ** The histories of a well-formed view *)

Section History.
Context {O R : Type} `{Countable O}.

Definition history (v : View O R) (id : UUID) : list evt :=
  merge_sort (le_by Version) (docs_of id (v_events v)).

Lemma repr_history (v : View O R) last hist id : repr v last hist -> hist id = history v id.
Proof.
  intros Hr. symmetry. unfold history. eapply sorted_unique.
  - rewrite (repr_docs _ _ _ Hr id). symmetry. apply merge_sort_Permutation.
  - apply (repr_versions _ _ _ Hr).
  - apply StronglySorted_merge_sort.
    + intros a b c. unfold le_by. lia.
    + intros a b. unfold le_by. lia.
Qed.

Lemma repr_canonical (v : View O R) last hist : repr v last hist -> repr v last (history v).
Proof.
  intros Hr. destruct Hr. assert (forall id, hist id = history v id) as Heq
    by (intros id; by apply (repr_history v last hist)).
  split; try done; intros id; rewrite <- Heq; done.
Qed.

(** A view has one last position. *)
Lemma repr_last_eq (v : View O R) l l' h h' : repr v l h -> repr v l' h' -> l = l'.
Proof. intros Hr Hr'. pose proof (repr_all _ _ _ Hr). rewrite (repr_all _ _ _ Hr') in *. congruence. Qed.

Lemma history_AggregateID (v : View O R) id : Forall (fun e => AggregateID e = id) (history v id).
Proof.
  unfold history. rewrite merge_sort_Permutation. apply Forall_forall.
  intros e [He _]%list_elem_of_filter. by apply bool_decide_eq_true in He.
Qed.

End History.

(** ** The contract *)

Section Laws.
Context {S X O R : Type} `{Countable O} (up : S -> Prop) (view : S -> View O R).
Context (wire : evt -> evt) (wire_stream : stream_doc -> stream_doc).
Context (wire_snapshot : SnapshotRecord -> SnapshotRecord).
Context (uuid_String : UUID -> string) (eventDataFactories : gmap string (unit -> any)).
Context (bson_Marshal : any -> string + error) (bson_Unmarshal : string -> any -> any + error).
Context (dup : error -> bool) (s : V2.EventStore (S := S) (X := X) (O := O)).
Context `{Hlaws : !StoreLaws up view wire wire_stream wire_snapshot dup s}.
(** The store's configuration, and that the metadata keeps being a map. *)
Context (Hsort : sortEventsOnDB s = true) (Hafter : eventHandlerAfterSave s = None).
Context (Hhandlers : forall evs, handlers_ok up view s (somes evs)).
Context (wire_md : forall e md, Metadata e = Some md -> is_Some (Metadata (wire e))).

Abbreviation St := (S * (heap * X))%type.
Abbreviation decodes := (decodes eventDataFactories bson_Unmarshal).
Abbreviation loadable := (loadable eventDataFactories bson_Unmarshal).
Abbreviation faithful := (faithful eventDataFactories bson_Marshal bson_Unmarshal).
Abbreviation record_of := (record_of bson_Marshal).

(** The data of a record, and the event it stands for. *)
Definition decode (e : evt) : any :=
  if bool_decide (RawData e = "") then ANil
  else match eventDataFactories !! EventType e with
       | Some factory => match bson_Unmarshal (RawData e) (factory tt) with inl d => d | inr _ => ANil end
       | None => ANil
       end.

Definition event_of (e : evt) : event :=
  mkEvent (EventType e) (decode e) (Timestamp e) (AggregateType e) (AggregateID e) (Version e) None.

Lemma decodes_decode e d : decodes e d -> d = decode e.
Proof.
  unfold decode. intros [[Hr ->]|[Hr (f & Hf & Hu)]].
  - by rewrite bool_decide_true.
  - by rewrite bool_decide_false, Hf, Hu.
Qed.

Lemma loaded_same h e ev : loaded eventDataFactories bson_Unmarshal h e ev -> same_event (event_of e) ev.
Proof. intros (d & md & Hd & -> & _). unfold same_event. simpl. by rewrite (decodes_decode _ _ Hd). Qed.

Lemma placed_same pos h e : faithful e -> same_event e (event_of (wire (placed pos (record_of h e)))).
Proof.
  intros Hf.
  pose proof (placed_decodes up view wire wire_stream wire_snapshot _ _ _ dup s pos h e Hf) as Hd.
  unfold same_event. rewrite (decodes_decode _ _ Hd). simpl.
  by rewrite wire_EventType, wire_AggregateType, wire_AggregateID, wire_Version.
Qed.

Lemma place_same prev h evs :
  Forall faithful evs ->
  Forall2 same_event evs (event_of <$> (wire <$> place prev (record_of h <$> evs))).
Proof.
  intros HF. revert prev. induction HF as [|e evs He _ IH]; intros prev; [constructor|].
  rewrite !fmap_cons. simpl. constructor; [by apply placed_same|apply IH].
Qed.

Definition mongo_EventStore : EventStoreSpec.EventStore St :=
  EventStoreSpec.mkEventStore (Save uuid_String bson_Marshal s dup)
    (Load eventDataFactories bson_Unmarshal s)
    (LoadFrom eventDataFactories bson_Unmarshal s)
    (zoom_fst (V2.Close s)).

Definition mongo_ok (st : St) : Prop :=
  up st.1 /\ (exists last, repr (view st.1) last (history (view st.1))) /\
  forall id, Forall loadable (history (view st.1) id).

Definition mongo_stream (st : St) (id : UUID) : list event := event_of <$> history (view st.1) id.

(** The next global positions are [int]s. *)
Definition mongo_holds (st : St) (n : Z) : Prop :=
  forall last, v_streams (view st.1) !! None = Some (AllStream last) -> last + n <= MaxInt.

Definition mongo_unchanged (n : Z) (st st' : St) : Prop :=
  (up st.1 -> up st'.1) /\ v_events (view st'.1) = v_events (view st.1) /\
  v_snapshots (view st'.1) = v_snapshots (view st.1) /\
  forall last hist, repr (view st.1) last hist ->
    exists last', last <= last' <= last + n /\ repr (view st'.1) last' hist.

Lemma mongo_unchanged_view st h x st' h' x' :
  up st' -> view st' = view st -> mongo_unchanged 0 (st, (h, x)) (st', (h', x')).
Proof.
  intros Hu Hv. split; [done|]. simpl. rewrite Hv. split; [done|]. split; [done|].
  intros last hist Hr. exists last. split; [lia|done].
Qed.

Lemma mongo_serial (v : View O R) last hist id :
  repr v last hist -> serial id 0 (event_of <$> hist id).
Proof.
  intros Hr. pose proof (repr_versions _ _ _ Hr id) as Hv.
  pose proof (history_AggregateID v id) as HF. rewrite <- (repr_history _ _ _ _ Hr) in HF.
  revert Hv HF. change (seqZ 1) with (seqZ (0 + 1)). generalize 0. generalize (hist id). clear.
  induction l as [|e l IH]; intros n Hv HF; [done|].
  apply Forall_cons in HF as [He HF]. rewrite len_cons, seqZ_cons, fmap_cons in Hv by int_lia.
  injection Hv as Hv1 Hv2. rewrite fmap_cons. simpl. split; [done|]. split; [done|].
  apply IH; [|done]. rewrite Hv2. f_equal; lia.
Qed.

(** What a load answers for the records [es]. *)
Definition answers (es : list evt) (m : M St (list (option event))) (st : St) : Prop :=
  (es <> [] -> exists evs st', m st = (Ok (somes evs), st') /\
     mongo_unchanged 0 st st' /\ Forall2 same_event (event_of <$> es) evs) /\
  (es = [] -> exists e st', m st = (Err e, st') /\
     mongo_unchanged 0 st st' /\ errors_Is e ErrAggregateNotFound = true).

Lemma find_answers ctx id from f st :
  mongo_ok st -> 1 <= from ->
  (forall e, 1 <= Version e -> f e = of_aggregate id e && (from <=? Version e)) ->
  answers (drop (Z.to_nat (from - 1)) (history (view st.1) id))
    (let! cursor := map_err (find_error id) (zoom_fst (Find (events s) ctx f (makeFindOptions s))) in
     on_heap (loadFromCursor eventDataFactories bson_Unmarshal id cursor)) st.
Proof.
  destruct st as [st [h x]]. simpl. intros (Hu & (last & Hr) & HF) Hfrom Hf.
  destruct (find_history up view wire wire_stream wire_snapshot dup s ctx id from f last _ st Hu Hr Hfrom Hf)
    as (ds & Hg & Hp & Hs). specialize (Hs Hsort). subst ds.
  set (es := drop _ _) in *. split.
  - intros Hne.
    destruct (load_found_ok up view eventDataFactories bson_Unmarshal s id (find_error id) f ctx es es st h x Hne)
      as (ds & evs & st' & h' & Hrun & Hu' & Hv' & _ & _ & Hds & HF2); [by apply Forall_drop|done..|].
    exists evs, (st', (h', x)). split; [done|]. split; [by apply mongo_unchanged_view|].
    rewrite (Hds Hsort) in HF2. apply Forall2_fmap_l. eapply Forall2_impl; [done|]. apply loaded_same.
  - intros Hnil. rewrite Hnil in Hg. destruct Hg as (st' & Hrun & Hu' & Hv').
    eexists _, (st', (h, x)). unfold bind, map_err, zoom_fst, zoom. simpl. rewrite Hrun.
    split; [reflexivity|]. split; [by apply mongo_unchanged_view|done].
Qed.

Lemma mongo_Load ctx st id :
  mongo_ok st ->
  (mongo_stream st id <> [] -> exists evs st', es_Load mongo_EventStore ctx id st = (Ok (somes evs), st') /\
     mongo_unchanged 0 st st' /\ Forall2 same_event (mongo_stream st id) evs) /\
  (mongo_stream st id = [] -> exists e st', es_Load mongo_EventStore ctx id st = (Err e, st') /\
     mongo_unchanged 0 st st' /\ errors_Is e ErrAggregateNotFound = true).
Proof.
  intros Hok. destruct (find_answers ctx id 1 (of_aggregate id) st Hok) as [Hl Hn]; [done| |].
  { intros e He. destruct (Z.leb_spec 1 (Version e)); [|lia]. by rewrite andb_true_r. }
  rewrite drop_0 in *. unfold mongo_stream. split.
  - intros Hne. apply Hl. intros Hnil. by rewrite Hnil in Hne.
  - intros Hnil%fmap_nil_inv. by apply Hn.
Qed.

Lemma mongo_LoadFrom ctx st id from :
  mongo_ok st -> 1 <= from ->
  let es := drop (Z.to_nat (from - 1)) (mongo_stream st id) in
  (es <> [] -> exists evs st', es_LoadFrom mongo_EventStore ctx id from st = (Ok (somes evs), st') /\
     mongo_unchanged 0 st st' /\ Forall2 same_event es evs) /\
  (es = [] -> exists e st', es_LoadFrom mongo_EventStore ctx id from st = (Err e, st') /\
     mongo_unchanged 0 st st' /\ errors_Is e ErrAggregateNotFound = true).
Proof.
  intros Hok Hfrom es.
  destruct (find_answers ctx id from _ st Hok Hfrom ltac:(by intros)) as [Hl Hn].
  unfold es, mongo_stream. rewrite <- fmap_drop. split.
  - intros Hne. apply Hl. intros Hnil. by rewrite Hnil in Hne.
  - intros Hnil%fmap_nil_inv. by apply Hn.
Qed.

Lemma mongo_save ctx st id evs :
  mongo_ok st -> batch_for id (len (mongo_stream st id)) evs -> Forall faithful evs ->
  mongo_holds st (len evs) ->
  exists st' evs', es_Save mongo_EventStore ctx (somes evs) (len (mongo_stream st id)) st = (Ok tt, st') /\
    mongo_ok st' /\ mongo_stream st' id = mongo_stream st id ++ evs' /\ Forall2 same_event evs evs' /\
    (forall id', id' <> id -> mongo_stream st' id' = mongo_stream st id') /\
    (forall m, mongo_holds st (len evs + m) -> mongo_holds st' m) /\
    v_snapshots (view st'.1) = v_snapshots (view st.1).
Proof.
  destruct st as [st [h x]]. unfold mongo_stream, mongo_holds. simpl.
  intros (Hu & (last & Hr) & HF) Hb Hf Hroom. rewrite len_fmap in *.
  assert (is_int (last + len evs)) as Hint.
  { pose proof (Hroom _ (repr_all _ _ _ Hr)). pose proof (repr_last _ _ _ Hr). int_lia. }
  assert (Forall (storable bson_Marshal) evs) as Hst
    by (eapply Forall_impl; [exact Hf|apply faithful_storable]).
  destruct (Save_ok up view wire wire_stream wire_snapshot uuid_String bson_Marshal dup s ctx id evs
    last _ st h x Hu Hr Hb Hst Hint (Hhandlers evs)) as (st' & [h' x'] & Hrun & Hu' & Hr' & _ & Hsn & _).
  unfold handle_after_save in Hrun. rewrite Hafter in Hrun.
  set (new := wire <$> place last (record_of h <$> evs)) in *.
  pose proof (repr_history _ _ _ id Hr') as Hid. rewrite fn_lookup_insert in Hid.
  assert (forall id', id' <> id -> history (view st') id' = history (view st) id') as Hoth.
  { intros id' Hne. rewrite <- (repr_history _ _ _ id' Hr'). by rewrite fn_lookup_insert_ne. }
  exists (st', (h', x')), (event_of <$> new). simpl. rewrite <- Hid, fmap_app.
  split; [done|]. split; [|split; [done|split; [by apply place_same|split; [|split; [|done]]]]].
  - split; [done|]. split; [exists (last + len evs); by eapply repr_canonical|]. simpl.
    intros id'. destruct (decide (id' = id)) as [->|Hne]; [|by rewrite Hoth].
    rewrite <- Hid. apply Forall_app. split; [done|].
    by apply (place_loadable up view wire wire_stream wire_snapshot _ _ _ dup s).
  - intros id' Hne. by rewrite Hoth.
  - intros m Hm last' Hl'. rewrite (repr_all _ _ _ Hr') in Hl'. simplify_eq.
    rewrite <- Z.add_assoc. apply Hm, (repr_all _ _ _ Hr).
Qed.

#[export] Program Instance mongo_EventStoreLaws : EventStoreLaws mongo_EventStore := {
  store_ok := mongo_ok;
  stream := mongo_stream;
  kept := same_event;
  storable := faithful;
  holds := mongo_holds;
  unchanged := mongo_unchanged
}.
Next Obligation. done. Qed.
Next Obligation.
  intros n [st hx] [st' hx'] (Hu & (last & Hr) & HF) (Hu' & He & _ & Hr').
  unfold mongo_ok, mongo_stream, mongo_holds, history in *. simpl in *. rewrite He in *.
  destruct (Hr' _ _ Hr) as (last' & Hl & Hrl). split; [|split; [done|]].
  - split; [by apply Hu'|]. split; [by exists last'|done].
  - intros m Hm l' Hl'. rewrite (repr_all _ _ _ Hrl) in Hl'. simplify_eq.
    pose proof (Hm _ (repr_all _ _ _ Hr)). lia.
Qed.
Next Obligation. intros st. split; [done|]. split; [done|]. split; [done|]. intros last hist Hr. exists last. split; [lia|done]. Qed.
Next Obligation.
  intros n m st1 st2 st3 (Hu1 & He1 & Hs1 & Hr1) (Hu2 & He2 & Hs2 & Hr2).
  split; [auto|]. split; [congruence|]. split; [congruence|]. intros last hist Hr.
  destruct (Hr1 _ _ Hr) as (l2 & Hl2 & Hr'). destruct (Hr2 _ _ Hr') as (l3 & Hl3 & Hr'').
  exists l3. split; [lia|done].
Qed.
Next Obligation. intros st n m Hh Hm last Hl. pose proof (Hh last Hl). lia. Qed.
Next Obligation. intros st id (_ & (last & Hr) & _). by eapply mongo_serial. Qed.
Next Obligation.
  intros ctx st id load [-> | ->] Hok Hne; [by apply mongo_Load|].
  pose proof (mongo_LoadFrom ctx st id 1 Hok) as Hl. rewrite drop_0 in Hl. by apply Hl.
Qed.
Next Obligation.
  intros ctx st id load [-> | ->] Hok Hnil; [by apply mongo_Load|].
  pose proof (mongo_LoadFrom ctx st id 1 Hok) as Hl. rewrite drop_0 in Hl. by apply Hl.
Qed.
Next Obligation.
  intros ctx st id evs Hok Hb Hf Hm.
  destruct (mongo_save ctx st id evs Hok Hb Hf Hm) as (st' & evs' & ? & ? & ? & ? & ? & ? & _).
  by exists st', evs'.
Qed.
Next Obligation.
  intros ctx [st [h x]] id evs v (Hu & (last & Hr) & HF) Hb Hf Hroom _ _ Hne.
  unfold mongo_stream in Hne. simpl in *. rewrite len_fmap in Hne.
  assert (is_int (last + len evs)) as Hint.
  { pose proof (Hroom _ (repr_all _ _ _ Hr)). pose proof (repr_last _ _ _ Hr). int_lia. }
  assert (Forall (V2Spec.storable bson_Marshal) evs) as Hst
    by (eapply Forall_impl; [exact Hf|apply faithful_storable]).
  destruct (Save_refused up view wire wire_stream wire_snapshot uuid_String bson_Marshal dup s ctx id v
    evs last _ st h x Hu Hr Hb Hne Hst Hint) as (at' & st' & hx' & _ & Hrun & Hu' & Hv & last' & Hl & Hr').
  eexists _, (st', hx'). split; [exact Hrun|]. split; [|done]. split; [done|]. simpl.
  assert (v_events (view st') = v_events (view st) /\ v_snapshots (view st') = v_snapshots (view st)) as [He Hs]
    by (rewrite Hv; unfold after_refused; by destruct (_ =? _)).
  split; [done|]. split; [done|].
  intros l hist Hrl. assert (l = last) as -> by (by eapply repr_last_eq).
  exists last'. split; [done|by apply Hr'].
Qed.

(** Unlike the in-memory store, it answers from a later version with the later
    events only. *)
#[export] Instance mongo_LoadsFrom : LoadsFrom mongo_EventStore.
Proof.
  split; intros ctx st id from Hok H1 Hle; pose proof (mongo_LoadFrom ctx st id from Hok H1) as [Hl Hn].
  - apply Hl. intros Hnil%(f_equal length). rewrite length_drop in Hnil. simpl in *. unfold len in Hle. lia.
  - apply Hn. apply drop_ge. simpl in Hle. unfold len in Hle. lia.
Qed.

(** ** The snapshots *)

Section Snapshots.
Context (snapshotDataFactories : gmap string (UUID -> any)).
Context (json_Marshal : Snapshot -> string + error).
Context (json_Unmarshal : string -> Snapshot -> Snapshot + error).
Context (gzip gunzip : string -> string + error) (now : Time).

Abbreviation read_snapshot := (read_snapshot snapshotDataFactories json_Unmarshal gunzip).

Definition mongo_SnapshotStore : SnapshotStore St :=
  mkSnapshotStore
    (fun ctx id => zoom_fst (LoadSnapshot snapshotDataFactories json_Unmarshal gunzip s ctx id))
    (fun ctx id sn => zoom_fst (SaveSnapshot json_Marshal gzip s now ctx id sn)).

(** The records of an aggregate's snapshots, the newest first. *)
Definition snaps_of (m : gmap O SnapshotRecord) (id : UUID) : list SnapshotRecord :=
  merge_sort (le_by version_desc) (filter (fun r => snapshot_of id r = true) (map_to_list m).*2).

Definition mongo_snapshot (st : St) (id : UUID) : option Snapshot :=
  head (snaps_of (v_snapshots (view st.1)) id) ≫= read_snapshot.

(** Every record can be read, and no two of an aggregate have one version. *)
Definition snaps_ok (m : gmap O SnapshotRecord) : Prop :=
  (forall k r, m !! k = Some r -> exists sn, read_snapshot r = Some sn /\ snap_Version sn = sr_Version r) /\
  forall k k' r r', m !! k = Some r -> m !! k' = Some r' -> sr_AggregateID r = sr_AggregateID r' ->
    sr_Version r = sr_Version r' -> r = r'.

Lemma elem_of_snaps m id r :
  r ∈ snaps_of m id <-> exists k, m !! k = Some r /\ sr_AggregateID r = id.
Proof.
  unfold snaps_of. rewrite merge_sort_Permutation, list_elem_of_filter, list_elem_of_fmap.
  unfold snapshot_of. rewrite bool_decide_eq_true. split.
  - intros [Hid ([k r'] & -> & Hk)]. exists k. by apply elem_of_map_to_list in Hk.
  - intros (k & Hk & Hid). split; [done|]. exists (k, r). split; [done|]. by apply elem_of_map_to_list.
Qed.

(** The first of them is the only one of the highest version. *)
Lemma head_snaps m id k r :
  snaps_ok m -> m !! k = Some r -> sr_AggregateID r = id ->
  (forall k' r', m !! k' = Some r' -> sr_AggregateID r' = id -> sr_Version r' <= sr_Version r) ->
  head (snaps_of m id) = Some r.
Proof.
  intros [_ Huniq] Hk Hid Hmax.
  assert (StronglySorted (le_by version_desc) (snaps_of m id)) as Hs.
  { apply StronglySorted_merge_sort; [intros a b c|intros a b]; unfold le_by; lia. }
  assert (r ∈ snaps_of m id) as Hin by (apply elem_of_snaps; by exists k).
  destruct (snaps_of m id) as [|h l] eqn:Hl; [by apply not_elem_of_nil in Hin|]. simpl. f_equal.
  assert (h ∈ snaps_of m id) as Hh by (rewrite Hl; by left).
  apply elem_of_snaps in Hh as (kh & Hkh & Hidh). apply (Huniq kh k); [done|done|congruence|].
  specialize (Hmax _ _ Hkh Hidh). apply elem_of_cons in Hin as [<-|Hin]; [done|].
  apply StronglySorted_inv in Hs as [_ Hs]. rewrite Forall_forall in Hs. specialize (Hs _ Hin).
  unfold le_by, version_desc in Hs. lia.
Qed.

(** The first of them is among the newest. *)
Lemma head_snaps_max m id r :
  head (snaps_of m id) = Some r ->
  (exists k, m !! k = Some r /\ sr_AggregateID r = id) /\
  forall k' r', m !! k' = Some r' -> sr_AggregateID r' = id -> sr_Version r' <= sr_Version r.
Proof.
  assert (StronglySorted (le_by version_desc) (snaps_of m id)) as Hs.
  { apply StronglySorted_merge_sort; [intros a b c|intros a b]; unfold le_by; lia. }
  pose proof (elem_of_snaps m id) as Hel. destruct (snaps_of m id) as [|h l]; [done|]. intros [= ->].
  split; [apply Hel; by left|]. intros k' r' Hk' Hid'.
  assert (r' ∈ r :: l) as Hin by (apply Hel; by exists k').
  apply elem_of_cons in Hin as [<-|Hin]; [done|].
  apply StronglySorted_inv in Hs as [_ Hs]. rewrite Forall_forall in Hs. specialize (Hs _ Hin).
  unfold le_by, version_desc in Hs. lia.
Qed.

Lemma no_snaps m id : head (snaps_of m id) = None -> forall k r, m !! k = Some r -> sr_AggregateID r <> id.
Proof.
  intros Hl k r Hk Hid. assert (r ∈ snaps_of m id) as Hin by (apply elem_of_snaps; by exists k).
  destruct (snaps_of m id); [by apply not_elem_of_nil in Hin|done].
Qed.

(** It depends on the snapshots of the aggregate only. *)
Lemma head_snaps_ext m m' id :
  snaps_ok m' -> (forall k r, sr_AggregateID r = id -> m' !! k = Some r <-> m !! k = Some r) ->
  head (snaps_of m' id) = head (snaps_of m id).
Proof.
  intros Hok' Heq. destruct (head (snaps_of m id)) as [r|] eqn:Hr.
  - apply head_snaps_max in Hr as [(k & Hk & Hid) Hmax]. apply (head_snaps m' id k r Hok'); [by apply Heq|done|].
    intros k' r' Hk' Hid'. apply (Hmax k' r'); [by apply Heq|done].
  - destruct (head (snaps_of m' id)) as [r|] eqn:Hr'; [|done].
    apply head_snaps_max in Hr' as [(k & Hk & Hid) _]. exfalso.
    apply (no_snaps m id Hr k r); [by apply Heq|done].
Qed.

Lemma mongo_snapshot_version st id sn :
  snaps_ok (v_snapshots (view st.1)) -> mongo_snapshot st id = Some sn ->
  forall k r, v_snapshots (view st.1) !! k = Some r -> sr_AggregateID r = id ->
  sr_Version r <= snap_Version sn.
Proof.
  unfold mongo_snapshot. intros [Hread _] Hsn k r Hk Hid.
  destruct (head (snaps_of (v_snapshots (view st.1)) id)) as [h|] eqn:Hh; [|done]. simpl in Hsn.
  apply head_snaps_max in Hh as [(kh & Hkh & _) Hmax]. destruct (Hread _ _ Hkh) as (sn' & Hr & Hv).
  simplify_eq. rewrite Hv. by apply (Hmax k).
Qed.

Lemma mongo_LoadSnapshot ctx st id :
  mongo_ok st -> snaps_ok (v_snapshots (view st.1)) ->
  exists st', EventStoreSpec.LoadSnapshot mongo_SnapshotStore ctx id st = (Ok (mongo_snapshot st id), st') /\
    mongo_unchanged 0 st st'.
Proof.
  destruct st as [st [h x]]. intros (Hu & _ & _) Hok. unfold mongo_snapshot. simpl in *.
  destruct (law_find_one (c := snapshots s) ctx st (snapshot_of id) (Some version_desc) Hu)
    as [[Hno (st' & Hrun & Hu' & Hv')]|(k & d & [Hd Hm] & Hmin & st' & Hrun & Hu' & Hv')].
  - exists (st', (h, x)). split; [|by apply mongo_unchanged_view].
    assert (snaps_of (v_snapshots (view st)) id = []) as ->.
    { destruct (snaps_of _ id) as [|r l] eqn:Hl; [done|exfalso].
      assert (r ∈ snaps_of (v_snapshots (view st)) id) as Hr by (rewrite Hl; by left).
      apply elem_of_snaps in Hr as (k & Hk & Hid). specialize (Hno _ _ Hk).
      unfold snapshot_of in Hno. by rewrite bool_decide_true in Hno. }
    unfold zoom_fst, zoom, LoadSnapshot. simpl. by rewrite (bind_ok _ _ _ _ _ (attempt_err _ _ _ _ Hrun)).
  - exists (st', (h, x)). split; [|by apply mongo_unchanged_view].
    apply bool_decide_eq_true in Hm. rewrite (head_snaps _ id k d Hok Hd Hm).
    + destruct Hok as [Hread _]. destruct (Hread _ _ Hd) as (sn & Hr & _). simpl. rewrite Hr.
      unfold zoom_fst, zoom. simpl. by rewrite (LoadSnapshot_run s _ _ gunzip ctx id st st' d sn Hrun Hr).
    + intros k' r' Hk' Hid'. specialize (Hmin version_desc k' r' eq_refl).
      unfold version_desc in Hmin. enough (- sr_Version d <= - sr_Version r') by lia.
      apply Hmin. split; [done|]. by apply bool_decide_eq_true.
Qed.

#[export] Program Instance mongo_SnapshotStoreLaws : SnapshotStoreLaws mongo_EventStore mongo_SnapshotStore := {
  snapshots_ok st := snaps_ok (v_snapshots (view st.1));
  snapshot := mongo_snapshot;
  snap_storable := snap_faithful snapshotDataFactories json_Marshal json_Unmarshal gzip gunzip
}.
Next Obligation.
  intros n st st' _ Hok (_ & _ & Hs & _). unfold mongo_snapshot. by rewrite Hs.
Qed.
Next Obligation.
  intros ctx st id evs st' Hok Hsok Hb Hst Hm Hrun.
  destruct (mongo_save ctx st id evs Hok Hb Hst Hm) as (st1 & evs' & Hrun1 & _ & _ & _ & _ & _ & Hs).
  simpl in Hrun, Hrun1. rewrite Hrun in Hrun1. simplify_eq. unfold mongo_snapshot. by rewrite Hs.
Qed.
Next Obligation. intros ctx st id Hok Hsok. by apply mongo_LoadSnapshot. Qed.
Next Obligation.
  intros ctx [st [h x]] id sn (Hu & (last & Hr) & HF) Hsok Hst Hnew. simpl in *.
  destruct (SaveSnapshot_run up view wire wire_stream wire_snapshot dup s snapshotDataFactories json_Marshal
    json_Unmarshal gzip gunzip now ctx id sn st Hu Hst) as (packed & k & st1 & Hrun & Hu1 & Hk & Hv1 & Hread).
  set (r1 := wire_snapshot _) in *.
  assert (sr_AggregateID r1 = id /\ sr_Version r1 = snap_Version sn) as [Hid1 Hver1]
    by (unfold r1; by rewrite wire_sr_AggregateID, wire_sr_Version).
  assert (forall k' r', v_snapshots (view st) !! k' = Some r' -> sr_AggregateID r' = id ->
    sr_Version r' < snap_Version sn) as Hlt.
  { intros k' r' Hk' Hid'. destruct (mongo_snapshot (st, (h, x)) id) as [old|] eqn:Hold.
    - specialize (Hnew old eq_refl). pose proof (mongo_snapshot_version (st, (h, x)) id old Hsok Hold k' r' Hk' Hid'). lia.
    - exfalso. unfold mongo_snapshot in Hold. simpl in Hold.
      destruct (head (snaps_of (v_snapshots (view st)) id)) as [h0|] eqn:Hh.
      + apply head_snaps_max in Hh as [(k0 & Hk0 & _) _]. destruct (proj1 Hsok _ _ Hk0) as (sn0 & Hr0 & _).
        simpl in Hold. congruence.
      + by apply (no_snaps _ _ Hh k' r'). }
  assert (snaps_ok (v_snapshots (view st1))) as Hok1.
  { rewrite Hv1. simpl. split.
    - intros k' r'. rewrite lookup_insert_Some. intros [[_ <-]|[_ Hk']]; [by exists sn|by apply (proj1 Hsok k')].
    - intros k1 k2 a b. rewrite !lookup_insert_Some.
      intros [[_ <-]|[_ H1]] [[_ <-]|[_ H2]] Hid Hver; [done| | |by apply (proj2 Hsok k1 k2)].
      + specialize (Hlt _ _ H2). rewrite <- Hid, Hid1 in Hlt. specialize (Hlt eq_refl). lia.
      + specialize (Hlt _ _ H1). rewrite Hid, Hid1 in Hlt. specialize (Hlt eq_refl). lia. }
  exists (st1, (h, x)). unfold zoom_fst, zoom. simpl. rewrite Hrun. split; [done|].
  assert (history (view st1) = history (view st)) as Hh by (rewrite Hv1; done).
  split; [|split; [done|split; [|split]]].
  - split; [done|]. simpl. rewrite Hh. split; [|done]. exists last. eapply repr_events_streams; [..|exact Hr]; by rewrite Hv1.
  - intros id'. unfold mongo_stream. simpl. by rewrite Hh.
  - unfold mongo_snapshot. simpl. rewrite (head_snaps _ id k r1 Hok1); [done|by rewrite Hv1; apply lookup_insert_eq|done|].
    intros k' r'. rewrite Hv1. simpl. rewrite lookup_insert_Some. intros [[_ <-]|[_ Hk']] Hid'; [done|].
    specialize (Hlt _ _ Hk' Hid'). lia.
  - intros id' Hne. unfold mongo_snapshot. simpl.
    rewrite (head_snaps_ext (v_snapshots (view st)) (v_snapshots (view st1)) id' Hok1); [done|].
    intros k' r' Hid'. rewrite Hv1. simpl. rewrite lookup_insert_Some. split.
    + intros [[_ <-]|[_ Hk']]; [congruence|done].
    + intros Hk'. right. split; [|done]. intros ->. congruence.
Qed.

End Snapshots.

End Laws.
End V2Laws.
