(* ===== verification/MongoStoreV2Demo.v ===== *)
(** * The MongoDB event store on a concrete server

    A server that is three finite maps, with the laws of [Mongo], and a store
    on it: the theorems of [MongoStoreV2Spec] at concrete inputs. *)

From stdpp Require Import functions base gmap strings list numbers option pretty sorting.
From Stdlib Require Import Lia ZArith.
From S2P Require Import Prelude.
From S2P Require Import GoTypes.
From S2P Require Import Event.
From S2P Require Import Command.
From S2P Require Import Errors.
From S2P Require Import Fixtures.
From S2P Require Import Registry.
From S2P Require Import EventStoreSpec.
From S2P Require Import Mongo.
From S2P Require Import MongoStoreV2.
From S2P Require Import MongoStoreV2Spec.

Import MongoStoreV2.V2.
Import MongoStoreV2Spec.V2Spec.

Module V2Demo.

Abbreviation DB := (View N unit).

Definition events_coll : Collection DB Z evt inserted_id :=
  map_collection v_events put_events (fun e => Some (Position e)) (fun _ e => e) (fun e => e)
    (fun _ => 0) ID_int64.

Definition streams_coll : Collection DB (option UUID) stream_doc inserted_id :=
  map_collection v_streams put_streams (fun d => Some (stream_key d)) (fun _ d => d) (fun d => d)
    (fun _ => None) (fun _ => ID_other "string" "").

Definition snapshots_coll : Collection DB N SnapshotRecord inserted_id :=
  map_collection v_snapshots put_snapshots (fun _ => None) (fun _ r => r) (fun r => r)
    (fun m => fresh (dom m)) (fun _ => ID_other "bson.ObjectID" "").

(** The store: [X] is [unit], and so nothing but the heap is beside it. *)
Definition demo_store (h : option (handler (S := DB) (X := unit))) (sort : bool)
    (strategy : GlobalPositionStrategy) : EventStore (S := DB) (X := unit) (O := N) :=
  mkEventStore (map_client DB) externalClient events_coll streams_coll snapshots_coll
    None h sort strategy.

Abbreviation upv := (fun _ : DB => True).
Abbreviation viewv := (fun v : DB => v).

#[export] Instance demo_StoreLaws h sort strategy :
  StoreLaws upv viewv (fun e => e) (fun d => d) (fun r => r) is_duplicate_key
    (demo_store h sort strategy).
Proof.
  split; simpl.
  - split; try done. intros t. by exists t.
  - apply map_CollectionLaws; [by intros k; right|done|done|by intros []].
  - apply map_CollectionLaws; [done|done|done|by intros []].
  - apply map_CollectionLaws; [done|done|done|by intros []].
  - apply map_GeneratesIDs. intros m. apply not_elem_of_dom, is_fresh.
  - apply map_SessionLaws.
Qed.

Definition demo_Marshal (d : any) : string + error :=
  match d with
  | AStruct _ [(_, AInt n)] => inl ("#" +:+ print_bits (Z.to_pos n))
  | _ => inr (ErrorString "unsupported type")
  end.

Definition demo_Unmarshal (raw : string) (_ : any) : any + error :=
  match raw with
  | EmptyString => inr (ErrorString "invalid document length")
  | String.String _ bits => inl (demo_data (Z.of_N (parse_bits bits)))
  end.

Definition demo_json_Marshal (snap : Snapshot) : string + error :=
  match snap_State snap with
  | AString text => inl ("{" +:+ text)
  | _ => inr (ErrorString "unsupported type")
  end.

Definition demo_json_Unmarshal (raw : string) (snap : Snapshot) : Snapshot + error :=
  match raw with
  | EmptyString => inr (ErrorString "unexpected end of JSON input")
  | String.String _ text => inl (mkSnapshot 3 "todo" 7 (AString text))
  end.

Definition demo_snapshots : gmap string (UUID -> any) := {[ "todo" := fun _ => AString "" ]}.

Definition demo_pack (raw : string) : string + error := inl raw.

Definition empty_db : DB := mkView ∅ ∅ ∅ tt.

Definition fresh_db : DB := mkView ∅ {[None := AllStream 0]} ∅ tt.

Definition no_history : UUID -> list evt := fun _ => [].

Definition demo_batch : list event := demo_events id1 1 3.

Lemma fresh_repr : repr fresh_db 0 no_history.
Proof. by apply repr_empty. Qed.

Lemma fresh_gapless : gapless fresh_db 0.
Proof. intros k Hk. lia. Qed.

Lemma first_batch_for v : v = 0 -> batch_for id1 v demo_batch.
Proof.
  intros ->. split; [done|]. split; [by repeat split|]. split; [exists "todo"; by repeat constructor|].
  unfold is_int, MinInt, MaxInt. split; vm_compute; intuition congruence.
Qed.

Lemma later_batch_for : batch_for id1 4 (demo_events id1 5 2).
Proof.
  split; [done|]. split; [by repeat split|]. split; [exists "todo"; by repeat constructor|].
  unfold is_int, MinInt, MaxInt. split; vm_compute; intuition congruence.
Qed.

Lemma demo_faithful : Forall (faithful demo_factories demo_Marshal demo_Unmarshal) demo_batch.
Proof.
  apply Forall_cons; split; [by left|]. apply Forall_cons; split; [|by apply Forall_singleton; left].
  right. eexists _, _. split; [done|]. split; [|split; [reflexivity|split; [vm_compute; reflexivity|]]].
  - done.
  - vm_compute. reflexivity.
Qed.

Lemma demo_storable : Forall (storable demo_Marshal) demo_batch.
Proof. eapply Forall_impl; [exact demo_faithful|]. apply faithful_storable. Qed.

Lemma later_storable : Forall (storable demo_Marshal) (demo_events id1 5 2).
Proof.
  apply Forall_cons; split; [by left|]. apply Forall_singleton. right. by eexists.
Qed.

Lemma no_handlers sort strategy evs : handlers_ok upv viewv (demo_store None sort strategy) evs.
Proof. by intros h. Qed.

Lemma room n : n = 0 -> is_int (n + len demo_batch).
Proof. intros ->. unfold is_int, MinInt, MaxInt. vm_compute. intuition congruence. Qed.

Abbreviation Save_at h sort strategy :=
  (Save uuid_print demo_Marshal (demo_store h sort strategy) is_duplicate_key).

Definition batch_records : list evt := place 0 (record_of demo_Marshal ∅ <$> demo_batch).

Definition stream_doc_3 : stream_doc := StreamDoc (mkStream id1 3 "todo" 3 1003).

Lemma MongoSave_appends_witness :
  exists st' hx', Save_at None true GlobalPositionInTX bg (somes demo_batch) 0 (fresh_db, (∅, tt)) =
      handle_after_save (demo_store None true GlobalPositionInTX) bg (somes demo_batch) (st', hx') /\
    repr st' 3 (<[id1 := batch_records]> no_history) /\
    Position <$> batch_records = [1; 2; 3] /\ (gapless fresh_db 0 -> gapless st' 3) /\
    v_events st' = insert_all batch_records ∅ /\
    v_streams st' = <[Some id1 := stream_doc_3]> (<[None := AllStream 3]> (v_streams fresh_db)) /\
    v_snapshots st' = ∅ /\ v_rest st' = tt.
Proof.
  destruct (MongoSave_appends upv viewv (fun e => e) (fun d => d) (fun r => r) uuid_print demo_Marshal
           is_duplicate_key (demo_store None true GlobalPositionInTX) bg id1 demo_batch 0 no_history
           fresh_db ∅ tt) as (st' & hx' & Hs & _ & Hr & Hp & Hg & (He & (e & Hl & Hstr) & Hsn) & Hrest & _).
  - done.
  - exact fresh_repr.
  - by apply first_batch_for.
  - exact demo_storable.
  - by apply room.
  - apply no_handlers.
  - exists st', hx'. split; [exact Hs|]. split; [exact Hr|]. split; [exact Hp|]. split; [exact Hg|].
    split; [exact He|]. split; [|split; [exact Hsn|by apply Hrest]].
    injection Hl as <-. exact Hstr.
Defined.

Lemma MongoSave_conflict_witness :
  exists at' st' hx', typed at' (demo_events id1 5 2) /\
    Save_at None true GlobalPositionOutsideTX bg (somes (demo_events id1 5 2)) 4 (fresh_db, (∅, tt)) =
      (Err (EventStoreError (Some (Sentinel ErrEventConflictFromOtherSave)) EventStoreOpSave at' id1
              4 (somes (demo_events id1 5 2))), (st', hx')) /\
    True /\ st' = set_last 2 fresh_db /\ (exists last', 0 <= last' /\ repr st' last' no_history).
Proof.
  apply (MongoSave_conflict upv viewv (fun e => e) (fun d => d) (fun r => r) uuid_print demo_Marshal
           is_duplicate_key (demo_store None true GlobalPositionOutsideTX) bg id1 4
           (demo_events id1 5 2) 0 no_history fresh_db ∅ tt).
  - done.
  - exact fresh_repr.
  - exact later_batch_for.
  - done.
  - exact later_storable.
  - unfold is_int, MinInt, MaxInt. vm_compute. intuition congruence.
Defined.

Lemma MongoSave_invariant_witness :
  let '(_, (st', _)) :=
    Save_at None true GlobalPositionInTX bg (somes demo_batch ++ [None]) 0 (fresh_db, (∅, tt)) in
  True /\
  exists last' hist', repr st' last' hist' /\ 0 <= last' <= 0 + 4 /\
    (forall id, no_history id `prefix_of` hist' id) /\
    (GlobalPositionInTX <> GlobalPositionOutsideTX -> gapless fresh_db 0 -> gapless st' last').
Proof.
  destruct (Save_at _ _ _ _ _ _ _) as [r [st' hx']] eqn:Hs.
  apply (MongoSave_invariant upv viewv (fun e => e) (fun d => d) (fun r => r) uuid_print demo_Marshal
           is_duplicate_key (demo_store None true GlobalPositionInTX) bg (somes demo_batch ++ [None]) 0
           0 no_history fresh_db ∅ tt r st' hx').
  - done.
  - exact fresh_repr.
  - unfold is_int, MinInt, MaxInt. vm_compute. intuition congruence.
  - apply no_handlers.
  - done.
  - exact Hs.
Defined.

(** A handler in the transaction that refuses. *)
Definition refuse : handler (S := DB) (X := unit) := fun _ _ => throw (ErrorString "refused").

(** A store whose after-save handler is [refuse]. *)
Definition after_store : EventStore (S := DB) (X := unit) (O := N) :=
  mkEventStore (map_client DB) externalClient events_coll streams_coll snapshots_coll
    (Some refuse) None true GlobalPositionInTX.

#[local] Instance after_StoreLaws :
  StoreLaws upv viewv (fun e => e) (fun d => d) (fun r => r) is_duplicate_key after_store.
Proof. destruct (demo_StoreLaws None true GlobalPositionInTX). by split. Qed.

(** The handler in the transaction refuses: nothing is stored.  The after-save
    handler refuses: the events are. *)
Lemma MongoSave_atomic_witness :
  (let '(_, (st', _)) :=
     Save_at (Some refuse) true GlobalPositionInTX bg (somes demo_batch) 0 (fresh_db, (∅, tt)) in
   st' = fresh_db) /\
  (let '(r, _) := Save uuid_print demo_Marshal after_store is_duplicate_key bg (somes demo_batch) 0
                    (fresh_db, (∅, tt)) in
   exists cause e st1 hx1, r = Err (EventHandlerError (Some cause) e) /\
     Save_at None true GlobalPositionInTX bg (somes demo_batch) 0 (fresh_db, (∅, tt)) = (Ok tt, (st1, hx1))).
Proof.
  split.
  - destruct (Save_at _ _ _ _ _ _ _) as [r [st' hx']] eqn:Hs.
    destruct (MongoSave_atomic upv viewv (fun e => e) (fun d => d) (fun r => r) uuid_print demo_Marshal
             is_duplicate_key (demo_store (Some refuse) true GlobalPositionInTX) bg (somes demo_batch) 0
             0 no_history fresh_db ∅ tt r st' hx') as [(_ & _ & [Hv|[Ho _]])|[Hn _]].
    + done.
    + exact fresh_repr.
    + exact Hs.
    + intros ->. apply (f_equal fst) in Hs. vm_compute in Hs. discriminate.
    + exact Hv.
    + discriminate.
    + done.
  - destruct (Save _ _ _ _ _ _ _ _) as [r [st' hx']] eqn:Hs.
    assert (exists err, r = Err err) as [err ->].
    { apply (f_equal fst) in Hs. vm_compute in Hs. destruct r; [discriminate|by eexists|discriminate]. }
    destruct (MongoSave_atomic upv viewv (fun e => e) (fun d => d) (fun r => r) uuid_print demo_Marshal
             is_duplicate_key after_store bg (somes demo_batch) 0
             0 no_history fresh_db ∅ tt (Err err) st' hx') as [(_ & Hc & _)|(_ & (st1 & hx1 & Hok & _) & Herr)].
    + done.
    + exact fresh_repr.
    + exact Hs.
    + discriminate.
    + apply (f_equal fst) in Hc. vm_compute in Hc. discriminate.
    + destruct (Herr err eq_refl) as (cause & e & ->). exists cause, e, st1, hx1. split; [done|exact Hok].
Defined.

Definition demo_database : Database (S := DB) (O := N) :=
  mkDatabase (fun _ => events_coll) (fun _ => streams_coll) (fun _ => snapshots_coll).

Lemma MongoNew_establishes_witness :
  (v_events empty_db = ∅ -> v_streams empty_db = ∅ ->
   exists st', newEventStoreWithClient (Some (map_client DB)) externalClient demo_database
       [WithSortEventsOnDB] empty_db = (Ok (demo_store None true GlobalPositionInTX), st') /\ True /\
     repr st' 0 (fun _ => []) /\ gapless st' 0) /\
  (forall last hist, repr empty_db last hist ->
   exists st', newEventStoreWithClient (Some (map_client DB)) externalClient demo_database
       [WithSortEventsOnDB] empty_db = (Ok (demo_store None true GlobalPositionInTX), st') /\ True /\
     st' = empty_db).
Proof.
  apply (MongoNew_establishes upv viewv (fun e => e) (fun d => d) (fun r => r)
           is_duplicate_key (demo_store None true GlobalPositionInTX) (map_client DB) externalClient
           demo_database [WithSortEventsOnDB] empty_db).
  - reflexivity.
  - done.
Defined.

(** A database with the first batch in it. *)
Definition saved_db : DB := saved (fun e => e) id1 (mkStream id1 3 "todo" 3 1003) 0
  (record_of demo_Marshal ∅ <$> demo_batch) fresh_db.

Definition saved_history : UUID -> list evt := <[id1 := batch_records]> no_history.

Lemma saved_repr : repr saved_db 3 saved_history.
Proof.
  pose proof (repr_saved upv viewv (fun e => e) (fun d => d) (fun r => r) is_duplicate_key
           (demo_store None true GlobalPositionInTX) fresh_db 0 no_history id1
           (mkStream id1 3 "todo" 3 1003) (record_of demo_Marshal ∅ <$> demo_batch)) as H.
  apply H.
  - exact fresh_repr.
  - by repeat constructor.
  - done.
  - reflexivity.
  - done.
  - done.
Qed.

Lemma saved_loadable : Forall (loadable demo_factories demo_Unmarshal) (saved_history id1).
Proof.
  unfold saved_history. rewrite fn_lookup_insert.
  pose proof (place_loadable upv viewv (fun e => e) (fun d => d) (fun r => r) demo_factories demo_Marshal
           demo_Unmarshal is_duplicate_key (demo_store None true GlobalPositionInTX)) as H.
  apply (H 0 ∅ demo_batch).
  - by eexists.
  - exact demo_faithful.
Qed.

Lemma saved_nonempty : saved_history id1 <> [] /\ drop (Z.to_nat (2 - 1)) (saved_history id1) <> [].
Proof. unfold saved_history. by rewrite fn_lookup_insert. Qed.

Lemma MongoLoad_history_witness :
  let s := demo_store None true GlobalPositionInTX in
  (saved_history id1 <> [] ->
   loads upv viewv demo_factories demo_Unmarshal s (saved_history id1) (Load demo_factories demo_Unmarshal s bg id1) saved_db ∅ tt) /\
  let es := drop (Z.to_nat (2 - 1)) (saved_history id1) in
  (es <> [] -> loads upv viewv demo_factories demo_Unmarshal s es (LoadFrom demo_factories demo_Unmarshal s bg id1 2) saved_db ∅ tt) /\
  (es = [] -> exists st', LoadFrom demo_factories demo_Unmarshal s bg id1 2 (saved_db, (∅, tt)) =
     (Err (EventStoreError (Some (Sentinel ErrAggregateNotFound)) EventStoreOpLoad "" id1 0 []),
      (st', (∅, tt))) /\ True /\ st' = saved_db).
Proof.
  apply (MongoLoad_history upv viewv (fun e => e) (fun d => d) (fun r => r) demo_factories
           demo_Unmarshal is_duplicate_key (demo_store None true GlobalPositionInTX) bg id1 2 3
           saved_history saved_db ∅ tt).
  - done.
  - exact saved_repr.
  - exact saved_loadable.
  - done.
Defined.

Lemma MongoSave_Load_roundtrip_witness :
  let s := demo_store None true GlobalPositionOutsideTX in
  let '(r, (st1, (h1, x1))) :=
    Save_at None true GlobalPositionOutsideTX bg (somes demo_batch) 0 (fresh_db, (∅, tt)) in
  r = Ok tt /\
  exists old new st2 h2,
    Load demo_factories demo_Unmarshal s bg id1 (st1, (h1, x1)) =
      (Ok (somes (old ++ new)), (st2, (h2, x1))) /\
    Forall2 (loaded demo_factories demo_Unmarshal h2) [] old /\ Forall2 same_event demo_batch new.
Proof.
  intros s. destruct (Save_at None true GlobalPositionOutsideTX bg (somes demo_batch) 0 (fresh_db, (∅, tt)))
    as [r [st1 [h1 x1]]] eqn:Hs.
  assert (r = Ok tt) as -> by (apply (f_equal fst) in Hs; vm_compute in Hs; congruence).
  split; [reflexivity|].
  apply (MongoSave_Load_roundtrip upv viewv (fun e => e) (fun d => d) (fun r => r) uuid_print
           demo_factories demo_Marshal demo_Unmarshal is_duplicate_key
           (demo_store None true GlobalPositionOutsideTX) bg bg id1 demo_batch 0 no_history fresh_db
           ∅ tt h1 x1 st1).
  - by eexists.
  - done.
  - done.
  - done.
  - exact fresh_repr.
  - constructor.
  - by apply first_batch_for.
  - exact demo_faithful.
  - by apply room.
  - apply no_handlers.
  - exact Hs.
Defined.

(** A cursor that fails after the first of three records. *)
Definition broken_events : Collection DB Z evt inserted_id :=
  mkCollection (InsertOne events_coll) (InsertMany events_coll) (FindOne events_coll)
    (fun _ _ _ v =>
       (Ok (mkCursor (inl <$> take 1 batch_records) (Some (ErrorString "connection reset")) None), v))
    (CountDocuments events_coll) (UpdateOne events_coll) (UpdateMany events_coll)
    (UpsertOne events_coll) (FindOneAndUpdate events_coll) (ReplaceOne events_coll)
    (DeleteOne events_coll) (Drop events_coll) (CreateIndex events_coll).

Definition broken_store : EventStore (S := DB) (X := unit) (O := N) :=
  mkEventStore (map_client DB) externalClient broken_events streams_coll snapshots_coll
    None None true GlobalPositionInTX.

Lemma MongoLoad_truncated_witness :
  exists evs h', Load demo_factories demo_Unmarshal broken_store bg id1 (saved_db, (∅, tt)) =
    (Ok (somes evs), (saved_db, (h', tt))) /\
    Forall2 (loaded demo_factories demo_Unmarshal h') (take 1 batch_records) evs.
Proof.
  apply (MongoLoad_truncated demo_factories demo_Unmarshal broken_store bg id1
           (take 1 batch_records) (ErrorString "connection reset") saved_db saved_db ∅ tt).
  - reflexivity.
  - discriminate.
  - apply Forall_take. pose proof saved_loadable as H. unfold saved_history in H.
    by rewrite fn_lookup_insert in H.
Defined.

Lemma MongoSnapshot_roundtrip_witness :
  let snap := mkSnapshot 3 "todo" 7 (AString "two items") in
  exists st1 st2,
    SaveSnapshot demo_json_Marshal demo_pack (demo_store None true GlobalPositionInTX) 9 bg id1 snap
      saved_db = (Ok tt, st1) /\ True /\
    LoadSnapshot demo_snapshots demo_json_Unmarshal demo_pack
      (demo_store None true GlobalPositionInTX) bg id1 st1 = (Ok (Some snap), st2) /\
    st2 = st1 /\ v_events st1 = v_events saved_db /\ v_streams st1 = v_streams saved_db /\
    (forall id' r, id' <> id1 -> snapshots_of id' st1 r <-> snapshots_of id' saved_db r).
Proof.
  apply (MongoSnapshot_roundtrip upv viewv (fun e => e) (fun d => d) (fun r => r) is_duplicate_key
           (demo_store None true GlobalPositionInTX) demo_snapshots demo_json_Marshal
           demo_json_Unmarshal demo_pack demo_pack 9 bg bg id1
           (mkSnapshot 3 "todo" 7 (AString "two items")) "{two items" "{two items"
           (fun _ => AString "") saved_db).
  - done.
  - done.
  - done.
  - reflexivity.
  - reflexivity.
  - reflexivity.
  - done.
  - reflexivity.
  - intros r (k & Hk & _). change ((∅ : gmap N SnapshotRecord) !! k = Some r) in Hk.
    by rewrite lookup_empty in Hk.
Defined.

Lemma MongoClear_stops_saves_witness :
  let s := demo_store None true GlobalPositionInTX in
  exists at' st1 st2 hx', Clear s bg saved_db = (Ok tt, st1) /\ True /\
    v_events st1 = ∅ /\ v_streams st1 = ∅ /\
    Save_at None true GlobalPositionInTX bg (somes demo_batch) 0 (st1, (∅, tt)) =
      (Err (save_error (somes demo_batch) id1 at' 0
        (Errorf "could not increment global position" (Sentinel ErrNoDocuments))), (st2, hx')) /\
    st2 = st1.
Proof.
  apply (MongoClear_stops_saves upv viewv (fun e => e) (fun d => d) (fun r => r) uuid_print demo_Marshal
           is_duplicate_key (demo_store None true GlobalPositionInTX) bg bg id1 demo_batch saved_db ∅ tt).
  - done.
  - done.
  - by apply first_batch_for.
  - exact demo_storable.
Defined.

Lemma MongoReplace_spec_witness :
  let e := demo_event id1 2 in
  let es := saved_history id1 in
  let fail err := EventStoreError (Some (Sentinel err)) EventStoreOpReplace "todo" id1 2 [Some e] in
  exists st' hist', True /\ repr st' 3 hist' /\
    Replace demo_Marshal (demo_store None true GlobalPositionInTX) bg (Some e) (saved_db, (∅, tt)) =
      (if bool_decide (es = []) then Err (fail ErrAggregateNotFound)
       else if bool_decide (1 <= 2 <= len es) then Ok tt
       else Err (fail ErrEventNotFound), (st', (∅, tt))) /\
    (if bool_decide (es <> [] /\ 1 <= 2 <= len es)
     then exists old, es !! 1%nat = Some old /\
            hist' = <[id1 := <[1%nat := placed (Position old) (record_of demo_Marshal ∅ e)]> es]>
                      saved_history
     else st' = saved_db /\ hist' = saved_history).
Proof.
  apply (MongoReplace_spec upv viewv (fun e => e) (fun d => d) (fun r => r) demo_Marshal
           is_duplicate_key (demo_store None true GlobalPositionInTX) bg (demo_event id1 2) 3
           saved_history saved_db ∅ tt).
  - done.
  - exact saved_repr.
  - right. by eexists.
Defined.

Lemma MongoRenameEvent_all_witness :
  exists st', RenameEvent (demo_store None true GlobalPositionInTX) bg "added" "created" saved_db =
      (Ok tt, st') /\ True /\
    repr st' 3 (fun id => renamed (fun e => e) "added" "created" <$> saved_history id) /\
    ("added" <> "created" -> forall id e,
       e ∈ (renamed (fun e => e) "added" "created" <$> saved_history id) -> EventType e <> "added").
Proof.
  apply (MongoRenameEvent_all upv viewv (fun e => e) (fun d => d) (fun r => r)
           is_duplicate_key (demo_store None true GlobalPositionInTX) bg "added" "created" 3
           saved_history saved_db).
  - done.
  - exact saved_repr.
Defined.

End V2Demo.
