(* ===== verification/SnapshotsDemo.v ===== *)
(** * Aggregates over MongoDB, at concrete inputs

    The demo server of [MongoStoreV2Demo] as a lawful event store and snapshot
    store, an aggregate that counts its events and makes snapshots of the
    count, and the theorems of [AggregateStore] and [Snapshots] for them. *)

From stdpp Require Import functions base gmap strings list numbers option pretty countable.
From Stdlib Require Import Lia ZArith.
From S2P Require Import Prelude.
From S2P Require Import GoTypes.
From S2P Require Import Event.
From S2P Require Import Command.
From S2P Require Import Errors.
From S2P Require Import Fixtures.
From S2P Require Import Registry.
From S2P Require Import EventStoreSpec.
From S2P Require Import AggregateBase.
From S2P Require Import AggregateStore.
From S2P Require Import Snapshots.
From S2P Require Import Mongo.
From S2P Require Import MongoStoreV2.
From S2P Require Import MongoStoreV2Spec.
From S2P Require Import MongoStoreV2Laws.
From S2P Require Import MongoStoreV2Demo.

Import MongoStoreV2.V2.
Import MongoStoreV2Spec.V2Spec.
Import MongoStoreV2Laws.V2Laws.
Import MongoStoreV2Demo.V2Demo.

Module SnapshotsDemo.

(** ** The counting aggregate *)

Definition count_ApplyEvent (ctx : context) (e : event) (n : Z) : Z * option error := (n + 1, None).

#[local] Instance count_Domain : Domain Z := {
  dom_ApplyEvent := count_ApplyEvent;
  dom_HandleCommand _ _ a := (a, None)
}.

(** Its snapshots hold the count. *)
Definition count_snapshot (a : agg Z) : Snapshot :=
  mkSnapshot (base_v (agg_base a)) (base_t (agg_base a)) 0 (AInt (agg_dom a)).

#[local] Instance count_Aggregate : Aggregate (agg Z) := {
  a_EntityID := a_EntityID (Aggregate := agg_Aggregate Z);
  a_AggregateType := a_AggregateType (Aggregate := agg_Aggregate Z);
  a_HandleCommand := a_HandleCommand (Aggregate := agg_Aggregate Z);
  a_versioned _ := true;
  a_AggregateVersion := a_AggregateVersion (Aggregate := agg_Aggregate Z);
  a_SetAggregateVersion := a_SetAggregateVersion (Aggregate := agg_Aggregate Z);
  a_UncommittedEvents := a_UncommittedEvents (Aggregate := agg_Aggregate Z);
  a_ClearUncommittedEvents := a_ClearUncommittedEvents (Aggregate := agg_Aggregate Z);
  a_ApplyEvent := a_ApplyEvent (Aggregate := agg_Aggregate Z);
  a_snapshotable a := bool_decide (base_t (agg_base a) = "todo");
  a_CreateSnapshot a := if bool_decide (base_t (agg_base a) = "todo") then Some (count_snapshot a) else None;
  a_ApplySnapshot sn a := mkAgg (agg_base a) (default 0 (as_int (snap_State sn)))
}.

#[local] Instance count_AggregateLaws : AggregateLaws (agg Z).
Proof. by split. Qed.

Definition count_new (id : UUID) : agg Z := mkAgg (NewAggregateBase "todo" id) 0.

Definition count_aggregates : gmap string (UUID -> option (agg Z)) :=
  {["todo" := fun id => Some (count_new id)]}.

Lemma count_registered at' id a0 :
  registered count_aggregates at' id a0 -> at' = "todo" /\ a0 = count_new id.
Proof.
  intros ((f & Hf & Ha) & _). unfold count_aggregates in Hf. apply lookup_singleton_Some in Hf as [<- <-]. by simplify_eq.
Qed.

#[local] Instance count_SnapshotAggregateLaws : SnapshotAggregateLaws (agg Z) count_aggregates.
Proof.
  split.
  - intros at' id a0 (-> & ->)%count_registered. done.
  - intros a Ha. simpl in *. rewrite Ha. by eexists.
  - intros a sn. simpl. case_bool_decide; [|done]. by intros [= <-].
  - intros at' id a0 a sn (-> & ->)%count_registered. destruct a as [[id0 t0 v0 evs0] n]. simpl.
    intros -> -> ->. by intros [= <-].
Qed.

(** ** The stores *)

(** A stand-in for JSON: the version and the count, as one number. *)
Definition count_json_Marshal (sn : Snapshot) : string + error :=
  match snap_State sn with
  | AInt n => inl ("#" +:+ print_bits (countable.encode (snap_Version sn, n)))
  | _ => inr (ErrorString "unsupported type")
  end.

Definition count_json_Unmarshal (raw : string) (sn : Snapshot) : Snapshot + error :=
  match raw with
  | EmptyString => inr (ErrorString "unexpected end of JSON input")
  | String.String _ bits =>
      match parse_bits bits with
      | Npos p => match (countable.decode p : option (Z * Z)) with
                  | Some (v, n) => inl (mkSnapshot v "todo" 0 (AInt n))
                  | None => inr (ErrorString "invalid")
                  end
      | N0 => inr (ErrorString "invalid")
      end
  end.

Definition count_snapshots : gmap string (UUID -> any) := {["todo" := fun _ => AInt 0]}.

Lemma parse_print_bits p : parse_bits (print_bits p) = Npos p.
Proof. induction p as [p IH|p IH|]; simpl; rewrite ?IH; done. Qed.

Lemma unmarshal_print p sn :
  count_json_Unmarshal ("#" +:+ print_bits p) sn =
  match (countable.decode p : option (Z * Z)) with
  | Some (v, n) => inl (mkSnapshot v "todo" 0 (AInt n))
  | None => inr (ErrorString "invalid")
  end.
Proof.
  change ("#" +:+ print_bits p) with (String.String (Ascii.ascii_of_nat 35) (print_bits p)).
  unfold count_json_Unmarshal. by rewrite parse_print_bits.
Qed.

Lemma count_snap_faithful (a : agg Z) sn :
  a_CreateSnapshot a = Some sn ->
  snap_faithful count_snapshots count_json_Marshal count_json_Unmarshal demo_pack demo_pack (a_EntityID a) sn.
Proof.
  simpl. case_bool_decide as Ht; [|done]. intros [= <-]. split; [simpl; by rewrite Ht|]. split; [done|].
  eexists _, _, (fun _ => AInt 0). split; [reflexivity|]. split; [reflexivity|]. split; [reflexivity|].
  split; [cbn [snap_AggregateType count_snapshot]; by rewrite Ht|].
  rewrite unmarshal_print, decode_encode. unfold count_snapshot. cbn [snap_Version]. by rewrite Ht.
Qed.

Abbreviation demo_v2 := (demo_store None true GlobalPositionInTX).

Definition count_store : EventStoreSpec.EventStore (DB * (heap * unit)) :=
  mongo_EventStore uuid_print demo_factories demo_Marshal demo_Unmarshal is_duplicate_key demo_v2.

Lemma demo_handlers evs : handlers_ok upv viewv demo_v2 (somes evs).
Proof. apply no_handlers. Qed.

#[local] Instance count_store_laws : EventStoreLaws count_store :=
  mongo_EventStoreLaws upv viewv (fun e => e) (fun d => d) (fun r => r) uuid_print demo_factories
    demo_Marshal demo_Unmarshal is_duplicate_key demo_v2 eq_refl eq_refl demo_handlers
    (fun e md (H : Metadata e = Some md) => ex_intro _ md H).

#[local] Instance count_LoadsFrom : LoadsFrom count_store :=
  mongo_LoadsFrom upv viewv (fun e => e) (fun d => d) (fun r => r) uuid_print demo_factories
    demo_Marshal demo_Unmarshal is_duplicate_key demo_v2 eq_refl eq_refl demo_handlers
    (fun e md (H : Metadata e = Some md) => ex_intro _ md H).

Definition count_snapshot_store : SnapshotStore (DB * (heap * unit)) :=
  mongo_SnapshotStore demo_v2 count_snapshots count_json_Marshal count_json_Unmarshal demo_pack demo_pack 9.

#[local] Instance count_snapshot_laws : SnapshotStoreLaws count_store count_snapshot_store :=
  mongo_SnapshotStoreLaws upv viewv (fun e => e) (fun d => d) (fun r => r) uuid_print demo_factories
    demo_Marshal demo_Unmarshal is_duplicate_key demo_v2 eq_refl eq_refl demo_handlers
    (fun e md (H : Metadata e = Some md) => ex_intro _ md H)
    count_snapshots count_json_Marshal count_json_Unmarshal demo_pack demo_pack 9.

#[local] Instance count_AppliesKept : AppliesKept count_store (agg Z).
Proof. by split. Qed.

Lemma count_storable (a : agg Z) sn :
  a_CreateSnapshot a = Some sn ->
  snap_storable (SnapshotStoreLaws := count_snapshot_laws) (a_EntityID a) sn.
Proof. exact (count_snap_faithful a sn). Qed.

Definition st0 : DB * (heap * unit) := (fresh_db, (∅, tt)).

Lemma st0_store_ok : store_ok st0.
Proof.
  split; [done|]. split; [exists 0; by eapply repr_canonical, fresh_repr|]. intros id. constructor.
Qed.

Lemma st0_holds : holds st0 3.
Proof. intros last Hl. vm_compute in Hl. injection Hl as <-. vm_compute. discriminate. Qed.

(** The new aggregate after the demo batch. *)
Definition counted : agg Z := mkAgg (mkBase id1 "todo" 0 (somes demo_batch)) 0.

(** Three events are saved, and as every second event calls for one, a
    snapshot is taken; the aggregate is loaded from the snapshot alone. *)
Lemma snapshots_transparent_witness :
  exists s' s'', AggregateStore.Save uuid_print count_store (Some count_snapshot_store)
      (EveryNumberEventSnapshotStrategy 2) bg 9 (st0, counted) = (Ok tt, (s', mkAgg (mkBase id1 "todo" 3 []) 3)) /\
    snapshot s' id1 = Some (mkSnapshot 3 "todo" 0 (AInt 3)) /\
    AggregateStore.Load uuid_print count_aggregates count_store (Some count_snapshot_store) bg "todo" id1 s' =
      (Ok (mkAgg (mkBase id1 "todo" 3 []) 3), s'').
Proof.
  destruct (snapshots_transparent uuid_print (EveryNumberEventSnapshotStrategy 2) count_aggregates count_store
    count_snapshot_store count_storable bg 9 "todo" id1 (count_new id1) (count_new id1) counted
    (mkAgg (mkBase id1 "todo" 3 []) 3) demo_batch st0)
    as (_ & s' & evs' & Hs & _ & _ & _ & _ & _ & _ & _ & s'' & Hl & _).
  - exact st0_store_ok.
  - by split.
  - split; [by eexists|done].
  - constructor.
  - by intros sn.
  - reflexivity.
  - reflexivity.
  - reflexivity.
  - reflexivity.
  - by apply first_batch_for.
  - by repeat constructor.
  - exact demo_faithful.
  - exact st0_holds.
  - vm_compute. split; discriminate.
  - reflexivity.
  - exists s', s''. split; [exact Hs|]. split; [|exact Hl].
    assert (s' = (AggregateStore.Save uuid_print count_store (Some count_snapshot_store)
      (EveryNumberEventSnapshotStrategy 2) bg 9 (st0, counted)).2.1) as -> by (by rewrite Hs).
    vm_compute. reflexivity.
Defined.

End SnapshotsDemo.
