(* ===== verification/MongoStoreV1.v ===== *)
(** * The MongoDB event store with one document per aggregate ([eventstore/mongodb])

    The document of an aggregate holds its version and its events.  A save is
    an insertion for a new aggregate and an update filtered by the version
    otherwise; the transaction is there for the in-transaction handler only.

    The state is that of [MongoStoreV2].  An [evt] shares the metadata map of
    its event and is encoded when it is written, so in the program it holds a
    reference ([evt (option loc)]), in the database a value
    ([evt (option gomap)]). *)

From stdpp Require Import functions base gmap strings list numbers option pretty.
From Stdlib Require Import Lia ZArith.
From S2P Require Import Prelude.
From S2P Require Import GoTypes.
From S2P Require Import Event.
From S2P Require Import Command.
From S2P Require Import Errors.
From S2P Require Import Fixtures.
From S2P Require Import Registry.
From S2P Require Import EventStoreSpec.
From S2P Require Import Mongo.

Module V1.

Record evt (Md : Type) : Type := mkEvt {
  EventType : string;
  RawData : string;
  Timestamp : Time;
  AggregateType : string;
  AggregateID : UUID;
  Version : Z;
  Metadata : Md
}.
Arguments mkEvt {Md}.
Arguments EventType {Md}.
Arguments RawData {Md}.
Arguments Timestamp {Md}.
Arguments AggregateType {Md}.
Arguments AggregateID {Md}.
Arguments Version {Md}.
Arguments Metadata {Md}.

Abbreviation stored := (evt (option gomap)).

Record aggregateRecord : Type := mkAggregateRecord {
  ar_AggregateID : UUID;
  ar_Version : Z;
  ar_Events : list stored
}.

Section Store.
Context {S X I : Type}.

Abbreviation St := (S * (heap * X))%type.

Definition handler : Type := context -> option event -> M St unit.

Record EventStore : Type := mkEventStore {
  client : Client S;
  ownership : clientOwnership;
  aggregates : Collection S UUID aggregateRecord I;
  eventHandlerAfterSave : option handler;
  eventHandlerInTX : option handler
}.

(** [db.Collection(name)] *)
Context (Collection_named : string -> Collection S UUID aggregateRecord I).

(** ** Options *)

Definition Option : Type := EventStore -> EventStore + error.

Definition no_handler_yet (s : EventStore) (k : EventStore + error) : EventStore + error :=
  match eventHandlerAfterSave s, eventHandlerInTX s with
  | Some _, _ => inr (ErrorString "another event handler is already set")
  | None, Some _ => inr (ErrorString "another TX event handler is already set")
  | None, None => k
  end.

Definition WithEventHandler (h : option handler) : Option := fun s =>
  no_handler_yet s
    (inl (mkEventStore (client s) (ownership s) (aggregates s) h (eventHandlerInTX s))).

Definition WithEventHandlerInTX (h : option handler) : Option := fun s =>
  no_handler_yet s
    (inl (mkEventStore (client s) (ownership s) (aggregates s) (eventHandlerAfterSave s) h)).

Definition WithCollectionName (eventsColl : string) : Option := fun s =>
  if bool_decide (eventsColl = "") then inr (ErrorString "missing collection name")
  else inl (mkEventStore (client s) (ownership s) (Collection_named eventsColl)
              (eventHandlerAfterSave s) (eventHandlerInTX s)).

Fixpoint apply_options (options : list Option) (s : EventStore) : EventStore + error :=
  match options with
  | [] => inl s
  | option :: options' =>
      match option s with
      | inl s' => apply_options options' s'
      | inr err => inr (Errorf "error while applying option" err)
      end
  end.

Definition newEventStoreWithClient (cl : option (Client S)) (own : clientOwnership)
    (options : list Option) : M S EventStore :=
  match cl with
  | None => throw (ErrorString "missing DB client")
  | Some cl =>
      match apply_options options (mkEventStore cl own (Collection_named "events") None None) with
      | inr err => throw err
      | inl s =>
          do! map_err (Errorf "could not connect to MongoDB") (Ping (client s)) in
          ret s
      end
  end.

Definition NewEventStoreWithClient (cl : option (Client S)) (options : list Option)
  : M S EventStore := newEventStoreWithClient cl externalClient options.

Definition NewEventStore (Connect : list client_option -> Client S + error) (uri : string)
    (options : list Option) : M S EventStore :=
  connecting Connect uri (fun cl own => newEventStoreWithClient cl own options).

(** ** Saving *)

Section Codecs.
Context (eventDataFactories : gmap string (unit -> any)).
Context (bson_Marshal : any -> string + error).
Context (bson_Unmarshal : string -> any -> any + error).

Definition newEvt {T} (ev : option event) : M T (evt (option loc)) :=
  let! e := deref ev in
  let! raw :=
    if is_nil (data e) then ret ""
    else match bson_Marshal (data e) with
         | inl raw => ret raw
         | inr err => throw (Errorf "could not marshal event data" err)
         end in
  ret (mkEvt (eventType e) raw (timestamp e) (aggregateType e) (aggregateID e) (version e)
         (metadata e)).

(** The document the driver makes of a record when it writes it. *)
Definition encode (h : heap) (e : evt (option loc)) : stored :=
  mkEvt (EventType e) (RawData e) (Timestamp e) (AggregateType e) (AggregateID e) (Version e)
    (match Metadata e with Some _ => Some (map_at h (Metadata e)) | None => None end).

Fixpoint build_events {T} (id : UUID) (at' : string) (originalVersion : Z)
    (evs : list (option event)) (i : Z) (rest : list (option event))
  : M T (list (evt (option loc))) :=
  let fail err :=
    EventStoreError (Some err) EventStoreOpSave at' id originalVersion evs in
  match rest with
  | [] => ret []
  | ev :: rest' =>
      let! e := deref ev in
      if bool_decide (aggregateID e <> id)
      then throw (fail (Sentinel ErrMismatchedEventAggregateIDs))
      else if bool_decide (aggregateType e <> at')
      then throw (fail (Sentinel ErrMismatchedEventAggregateTypes))
      else if bool_decide (version e <> iadd (iadd originalVersion i) 1)
      then throw (fail (Sentinel ErrIncorrectEventVersion))
      else
        let! d := map_err (fun err => fail (Errorf "could not copy event" err)) (newEvt ev) in
        let! ds := build_events id at' originalVersion evs (i + 1) rest' in
        ret (d :: ds)
  end.

(** The filter and the update of the document of an aggregate. *)
Definition at_version (id : UUID) (originalVersion : Z) (r : aggregateRecord) : bool :=
  bool_decide (ar_AggregateID r = id) && (ar_Version r =? originalVersion).

Definition push_events (dbEvents : list stored) (r : aggregateRecord) : aggregateRecord :=
  mkAggregateRecord (ar_AggregateID r) (ar_Version r + len dbEvents) (ar_Events r ++ dbEvents).

Section Ops.
Context (s : EventStore).

(** The closure [saveEvents]. *)
Definition saveEvents (id : UUID) (dbEvents : list (evt (option loc))) (originalVersion : Z)
    (ctx : context) : M St unit :=
  let! h := gets (fun st => st.2.1) in
  let docs := encode h <$> dbEvents in
  if originalVersion =? 0 then
    map_err (Errorf "could not insert events (new)")
      (zoom_fst (InsertOne (aggregates s) ctx (mkAggregateRecord id (len dbEvents) docs)))
  else
    let! matched := map_err (Errorf "could not insert events (update)")
      (zoom_fst (UpdateOne (aggregates s) ctx (at_version id originalVersion) (push_events docs))) in
    if matched =? 0 then throw (Sentinel ErrEventConflictFromOtherSave) else ret tt.

(** The callback of the transaction. *)
Definition save_callback (h : handler) (evs : list (option event)) (id : UUID)
    (dbEvents : list (evt (option loc))) (originalVersion : Z) (ctx : context) : M St unit :=
  do! saveEvents id dbEvents originalVersion ctx in
  for_range evs (fun e =>
    map_err (Errorf "could not handle event in transaction") (h ctx e)).

Definition save_records (ctx : context) (evs : list (option event)) (id : UUID) (at' : string)
    (dbEvents : list (evt (option loc))) (originalVersion : Z) : M St unit :=
  let fail err :=
    EventStoreError (Some err) EventStoreOpSave at' id originalVersion evs in
  match eventHandlerInTX s with
  | Some h =>
      do! map_err (fun err => fail (Errorf "could not start transaction" err))
            (zoom_fst (StartSession (client s))) in
      map_err fail
        (WithTransaction (client s) (heap * X) ctx (save_callback h evs id dbEvents originalVersion))
  | None => map_err fail (saveEvents id dbEvents originalVersion ctx)
  end.

Definition handle_after_save (ctx : context) (evs : list (option event)) : M St unit :=
  match eventHandlerAfterSave s with
  | Some h =>
      for_range evs (fun e =>
        map_err (fun err => EventHandlerError (Some err) e) (h ctx e))
  | None => ret tt
  end.

Definition Save (ctx : context) (evs : list (option event)) (originalVersion : Z) : M St unit :=
  match evs with
  | [] => throw (EventStoreError (Some (Sentinel ErrMissingEvents)) EventStoreOpSave "" Nil 0 [])
  | ev :: _ =>
      let! e0 := deref ev in
      let id := aggregateID e0 in
      let at' := aggregateType e0 in
      let! dbEvents := build_events id at' originalVersion evs 0 evs in
      do! save_records ctx evs id at' dbEvents originalVersion in
      handle_after_save ctx evs
  end.

(** ** Loading *)

Definition is_id (id : UUID) (r : aggregateRecord) : bool := bool_decide (ar_AggregateID r = id).

(** The body of the loop for an event that is not skipped; [slots] is the
    result slice so far, with nil in every slot still to fill. *)
Definition load_event (id : UUID) (e : stored) (slots : list (option event)) : M heap event :=
  let fail msg err :=
    EventStoreError (Some (Errorf msg err)) EventStoreOpLoad (AggregateType e) id (Version e) slots in
  let! d :=
    if bool_decide (RawData e = "") then ret ANil
    else
      let! d := map_err (fail "could not create event data")
                  (CreateEventData eventDataFactories (EventType e)) in
      match bson_Unmarshal (RawData e) d with
      | inl d => ret d
      | inr err => throw (fail "could not unmarshal event data" err)
      end in
  fun h =>
    let '(h, md) := match Metadata e with
                    | None => (h, None)
                    | Some m => let '(h', l) := alloc m h in (h', Some l)
                    end in
    let '(h', ev) := NewEvent (EventType e) d (Timestamp e)
      [Some (ForAggregate (AggregateType e) (AggregateID e) (Version e)); Some (WithMetadata md)] h in
    (Ok ev, h').

Fixpoint load_slots (id : UUID) (from : Z) (es : list stored) (slots : list (option event))
  : M heap (list (option event)) :=
  match es with
  | [] => ret slots
  | e :: es' =>
      if Version e <? from then load_slots id from es' (slots ++ [None])
      else
        let! ev := load_event id e (slots ++ replicate (length es) None) in
        load_slots id from es' (slots ++ [Some ev])
  end.

Definition LoadFrom (ctx : context) (id : UUID) (version : Z) : M St (list (option event)) :=
  let fail err :=
    EventStoreError (Some (if errors_Is err ErrNoDocuments then Sentinel ErrAggregateNotFound else err))
      EventStoreOpLoad "" id 0 [] in
  let! r := map_err fail (zoom_fst (FindOne (aggregates s) ctx (is_id id) None)) in
  match r with
  | inr err => throw (fail err)
  | inl aggregate => zoom_snd (zoom_fst (load_slots id version (ar_Events aggregate) []))
  end.

Definition Load (ctx : context) (id : UUID) : M St (list (option event)) := LoadFrom ctx id 1.

Definition Close : M S unit := close_client (client s) (ownership s).

(** ** Maintenance ([eventmaintenance.go]) *)

(** The positional operator: the first element that matches. *)
Fixpoint update_first (f : stored -> bool) (u : stored -> stored) (es : list stored) : list stored :=
  match es with
  | [] => []
  | e :: es' => if f e then u e :: es' else e :: update_first f u es'
  end.

Definition set_events (f : stored -> bool) (u : stored -> stored) (r : aggregateRecord)
  : aggregateRecord :=
  mkAggregateRecord (ar_AggregateID r) (ar_Version r) (update_first f u (ar_Events r)).

Definition has_event (f : stored -> bool) (r : aggregateRecord) : bool := existsb f (ar_Events r).

Definition Replace (ctx : context) (ev : option event) : M St unit :=
  let! e0 := deref ev in
  let id := aggregateID e0 in
  let fail err :=
    EventStoreError (Some err) EventStoreOpReplace (aggregateType e0) id (version e0) [ev] in
  let of_version e := Version e =? version e0 in
  let! r := attempt (zoom_fst (CountDocuments (aggregates s) ctx (is_id id))) in
  let '(n, err) := match r with inl n => (n, None) | inr err => (0, Some err) end in
  if n =? 0 then throw (fail (Sentinel ErrAggregateNotFound))
  else
    match err with
    | Some err => throw (fail (Errorf "could not check aggregate existence" err))
    | None =>
        let! e := newEvt ev in
        let! h := gets (fun st => st.2.1) in
        let! matched := map_err fail
          (zoom_fst (UpdateOne (aggregates s) ctx (fun r => is_id id r && has_event of_version r)
                       (set_events of_version (fun _ => encode h e)))) in
        if matched =? 0 then throw (fail (Sentinel ErrEventNotFound)) else ret tt
    end.

Definition of_type (from : string) (e : stored) : bool := bool_decide (EventType e = from).

Definition set_event_type (to : string) (e : stored) : stored :=
  mkEvt to (RawData e) (Timestamp e) (AggregateType e) (AggregateID e) (Version e) (Metadata e).

Definition RenameEvent (ctx : context) (from to : string) : M S unit :=
  do! map_err (fun err =>
         EventStoreError (Some (Errorf ("could not update events of type '" +:+ from +:+ "'") err))
           EventStoreOpRename "" Nil 0 [])
        (UpdateMany (aggregates s) ctx (has_event (of_type from))
           (set_events (of_type from) (set_event_type to))) in
  ret tt.

Definition Clear (ctx : context) : M S unit :=
  map_err (fun err => EventStoreError (Some err) EventStoreOpRename "" Nil 0 [])
    (Drop (aggregates s) ctx).

End Ops.
End Codecs.
End Store.
End V1.
