(* ===== verification/MongoStoreV1Spec.v ===== *)
(** * What the one-document-per-aggregate store does ([eventstore/mongodb])

    The abstract view is the collection itself, a map from aggregate ID to
    document; [db_ok] is its invariant.  The last section is a concrete server
    with the witnesses. *)

From stdpp Require Import functions base gmap strings list numbers option pretty.
From Stdlib Require Import Lia ZArith.
From S2P Require Import Prelude.
From S2P Require Import GoTypes.
From S2P Require Import Event.
From S2P Require Import Command.
From S2P Require Import Errors.
From S2P Require Import Fixtures.
From S2P Require Import Registry.
From S2P Require Import EventStoreSpec.
From S2P Require Import Mongo.
From S2P Require Import MongoStoreV1.

Import MongoStoreV1.V1.

Module V1Spec.

Definition wire_record (wire : stored -> stored) (r : aggregateRecord) : aggregateRecord :=
  mkAggregateRecord (ar_AggregateID r) (ar_Version r) (wire <$> ar_Events r).

(** What is read back of an event that was written. *)
Class WireLaws (wire : stored -> stored) : Prop := {
  wire_idem e : wire (wire e) = wire e;
  wire_AggregateID e : AggregateID (wire e) = AggregateID e;
  wire_Version e : Version (wire e) = Version e;
  wire_EventType e : EventType (wire e) = EventType e;
  wire_AggregateType e : AggregateType (wire e) = AggregateType e;
  wire_RawData e : RawData (wire e) = RawData e
}.

Section Theory.
Context {S X I V : Type} (up : S -> Prop) (view : S -> V).
Context (get : V -> gmap UUID aggregateRecord) (put : gmap UUID aggregateRecord -> V -> V).
Context (wire : stored -> stored) (dup : error -> bool).
Context (eventDataFactories : gmap string (unit -> any)).
Context (bson_Marshal : any -> string + error) (bson_Unmarshal : string -> any -> any + error).
Context (s : EventStore (S := S) (X := X) (I := I)).
Context `{Hwire : !WireLaws wire}.
Context `{Hcoll : !CollectionLaws up view get put (fun r => Some (ar_AggregateID r))
  (wire_record wire) (fun _ _ => True) dup (aggregates s)}.
Context `{Hsess : !SessionLaws up view (client s)}.

Abbreviation St := (S * (heap * X))%type.
Abbreviation given := (gives up view).

(** A document as the store keeps it. *)
Record record_ok (id : UUID) (r : aggregateRecord) : Prop := {
  rec_id : ar_AggregateID r = id;
  rec_nonempty : ar_Events r <> [];
  rec_len : ar_Version r = len (ar_Events r);
  rec_versions : Version <$> ar_Events r = seqZ 1 (len (ar_Events r));
  rec_ids : Forall (fun e => AggregateID e = id) (ar_Events r);
  rec_wire : wire <$> ar_Events r = ar_Events r
}.

Definition db_ok (m : gmap UUID aggregateRecord) : Prop := map_Forall record_ok m.

(** ** Saving *)

Definition storable (e : event) : Prop :=
  is_nil (data e) = true \/ exists raw, bson_Marshal (data e) = inl raw.

Definition raw_of (e : event) : string :=
  if is_nil (data e) then "" else match bson_Marshal (data e) with inl raw => raw | inr _ => "" end.

Definition record_of (e : event) : evt (option loc) :=
  mkEvt (eventType e) (raw_of e) (timestamp e) (aggregateType e) (aggregateID e) (version e)
    (metadata e).

Lemma v1_newEvt_ok {T} e (t : T) : storable e -> newEvt bson_Marshal (Some e) t = (Ok (record_of e), t).
Proof.
  unfold newEvt, storable, record_of, raw_of. intros Hs. rewrite (bind_ok _ _ t t e) by done.
  destruct (is_nil (data e)); [done|]. by destruct Hs as [|[raw ->]].
Qed.

Lemma v1_build_events_ok {T} id at' orig evs i l (t : T) :
  serial id (orig + i) l -> typed at' l -> Forall storable l ->
  is_int orig -> 0 <= i -> is_int (orig + i + len l) ->
  build_events bson_Marshal id at' orig evs i (somes l) t = (Ok (record_of <$> l), t).
Proof.
  intros Hs Ht Hst Ho. revert i Hs. induction l as [|e l IH]; intros i Hs Hi Hint; [done|].
  destruct Hs as (Hid & Hver & Hs). apply Forall_cons in Ht as [Hat Ht].
  apply Forall_cons in Hst as [He Hst]. rewrite len_cons in Hint. simpl.
  rewrite (bind_ok _ _ t t e) by done.
  rewrite !bool_decide_false; [| |congruence|congruence].
  2: { rewrite (iadd_id orig i), iadd_id by int_lia. lia. }
  rewrite (bind_ok _ _ _ _ _ (map_err_ok _ _ _ _ _ (v1_newEvt_ok e t He))).
  by rewrite (bind_ok _ _ _ _ _ (IH Ht Hst (i + 1) ltac:(by rewrite Z.add_assoc) ltac:(lia) ltac:(int_lia))).
Qed.

Abbreviation conflict := (Sentinel ErrEventConflictFromOtherSave).

(** What saving the documents [new] at version [orig] does to the collection. *)
Definition save_outcome (id : UUID) (new : list stored) (orig : Z)
    (m : gmap UUID aggregateRecord) (r : result unit) (m' : gmap UUID aggregateRecord) : Prop :=
  match m !! id with
  | None =>
      if orig =? 0
      then r = Ok tt /\ m' = <[id := mkAggregateRecord id (len new) (wire <$> new)]> m
      else r = Err conflict /\ m' = m
  | Some rec =>
      if orig =? 0
      then (exists e, dup e = true /\ r = Err (Errorf "could not insert events (new)" e)) /\ m' = m
      else if ar_Version rec =? orig
      then r = Ok tt /\
           m' = <[id := mkAggregateRecord id (orig + len new) (ar_Events rec ++ (wire <$> new))]> m
      else r = Err conflict /\ m' = m
  end.

Lemma v1_matches_at_version v id orig k r :
  db_ok (get v) -> matches get v (at_version id orig) k r ->
  k = id /\ get v !! id = Some r /\ ar_Version r = orig.
Proof.
  intros Hok [Hk Hm]. apply andb_true_iff in Hm as [Hid%bool_decide_eq_true Hv%Z.eqb_eq].
  destruct (Hok _ _ Hk) as [Hki]. assert (k = id) as -> by congruence. done.
Qed.

Lemma saveEvents_ok ctx id ds orig st h x :
  up st -> db_ok (get (view st)) ->
  exists r st', saveEvents s id ds orig ctx (st, (h, x)) = (r, (st', (h, x))) /\ up st' /\
    (exists m', view st' = put m' (view st) /\
       save_outcome id (encode h <$> ds) orig (get (view st)) r m').
Proof.
  intros Hu Hok. unfold saveEvents, save_outcome.
  rewrite (bind_ok _ _ (st, (h, x)) (st, (h, x)) h) by done. simpl.
  assert (put (get (view st)) (view st) = view st) as Hsame by apply law_put_get.
  destruct (Z.eqb_spec orig 0) as [->|Hne].
  - set (doc := mkAggregateRecord id (len ds) (encode h <$> ds)).
    destruct (get (view st) !! id) as [rec|] eqn:Hm.
    + destruct (law_insert_one_dup (c := aggregates s) ctx st doc id Hu eq_refl) as (e & He & st' & Hrun & Hu' & Hv');
        [by exists rec|].
      eexists (Err _), st'. unfold map_err, zoom_fst, zoom. simpl. rewrite Hrun. split; [done|].
      split; [done|]. exists (get (view st)). rewrite Hsame. split; [done|]. split; [by exists e|done].
    + destruct (law_insert_one (c := aggregates s) ctx st doc id Hu eq_refl Hm) as (st' & Hrun & Hu' & Hv').
      exists (Ok tt), st'. unfold map_err, zoom_fst, zoom. simpl. rewrite Hrun. split; [done|].
      split; [done|]. eexists. split; [exact Hv'|]. unfold wire_record. simpl. by rewrite len_fmap.
  - set (docs := encode h <$> ds).
    destruct (law_update_one (c := aggregates s) ctx st (at_version id orig) (push_events docs) Hu) as [[Hno (st' & Hrun & Hu' & Hv')]|(k & r & Hm & (st' & Hrun & Hu' & Hv'))].
    + exists (Err conflict), st'. unfold bind, map_err, zoom_fst, zoom. simpl. rewrite Hrun. split; [done|].
      split; [done|]. exists (get (view st)). rewrite Hsame. split; [done|].
      destruct (get (view st) !! id) as [rec|] eqn:Hl; [|done].
      destruct (Z.eqb_spec (ar_Version rec) orig) as [Heq|]; [|done]. exfalso.
      specialize (Hno _ _ Hl). unfold at_version in Hno. destruct (Hok _ _ Hl) as [Hid].
      by rewrite bool_decide_true, Heq, Z.eqb_refl in Hno.
    + destruct (v1_matches_at_version _ _ _ _ _ Hok Hm) as (-> & Hl & Hver).
      exists (Ok tt), st'. unfold bind, map_err, zoom_fst, zoom. simpl. rewrite Hrun. split; [done|].
      split; [done|]. eexists. split; [exact Hv'|]. rewrite Hl, Hver, Z.eqb_refl. split; [done|].
      destruct (Hok _ _ Hl) as [Hid _ _ _ _ Hw]. f_equal. unfold wire_record, push_events. simpl.
      by rewrite fmap_app, Hid, Hver, Hw.
Qed.

(** A handler that succeeds and leaves the collection and the metadata alone. *)
Definition handlers_ok (evs : list (option event)) : Prop :=
  forall h ctx e st hp x, eventHandlerInTX s = Some h -> e ∈ evs -> up st ->
  exists st' x', h ctx e (st, (hp, x)) = (Ok tt, (st', (hp, x'))) /\ up st' /\
    get (view st') = get (view st).

Lemma save_outcome_cases id new orig m r m' :
  save_outcome id new orig m r m' -> r = Ok tt \/ (exists e, r = Err e) /\ m' = m.
Proof.
  unfold save_outcome. intros Ho.
  repeat case_match; destruct Ho as [Hr Hm]; auto; try (by right; split; [eexists|]).
  destruct Hr as (e & _ & ->). right. by split; [eexists|].
Qed.

Lemma save_callback_ok h evs ctx id ds orig st hp x :
  eventHandlerInTX s = Some h -> handlers_ok evs -> up st -> db_ok (get (view st)) ->
  exists r st' x', save_callback s h evs id ds orig ctx (st, (hp, x)) = (r, (st', (hp, x'))) /\ up st' /\
    save_outcome id (encode hp <$> ds) orig (get (view st)) r (get (view st')).
Proof.
  intros Hs Hh Hu Hok. unfold save_callback.
  destruct (saveEvents_ok ctx id ds orig st hp x Hu Hok) as (r & st1 & Hrun & Hu1 & m' & Hv1 & Ho).
  assert (get (view st1) = m') as Hm' by (rewrite Hv1; apply law_get_put).
  destruct (save_outcome_cases _ _ _ _ _ _ Ho) as [-> |[[e ->] Hm]].
  - rewrite (bind_ok _ _ _ _ _ Hrun).
    destruct (for_range_inv
      (fun e => map_err (Errorf "could not handle event in transaction") (h ctx e))
      (fun _ stx => up stx.1 /\ get (view stx.1) = m' /\ stx.2.1 = hp) evs (st1, (hp, x)))
      as ([st2 [hp2 x2]] & Hr & Hu2 & Hg2 & Hhp); [done| |].
    + intros d e rest [s0 [h0 x0]] -> (Hu0 & Hg0 & Hh0). simpl in Hh0. subst h0.
      destruct (Hh h ctx e s0 hp x0 Hs) as (s2 & x2 & He & Hu2 & Hg2); [set_solver|done|].
      exists (s2, (hp, x2)). split; [by apply map_err_ok|]. simpl in *. by rewrite Hg2.
    + simpl in *. subst hp2. exists (Ok tt), st2, x2. by rewrite Hr, Hg2.
  - rewrite (bind_err _ _ _ _ _ Hrun). exists (Err e), st1, x. by rewrite Hm'.
Qed.

(** The error of [Save] for what went wrong in the database. *)
Definition save_error (evs : list (option event)) (id : UUID) (at' : string) (orig : Z)
    (err : error) : error :=
  EventStoreError (Some err) EventStoreOpSave at' id orig evs.

Definition wrapped (evs : list (option event)) (id : UUID) (at' : string) (orig : Z)
    (r : result unit) : result unit :=
  match r with
  | Err err => Err (save_error evs id at' orig err)
  | _ => r
  end.

Lemma save_records_ok ctx evs id at' ds orig st hp x :
  handlers_ok evs -> up st -> db_ok (get (view st)) ->
  exists r st' x', save_records s ctx evs id at' ds orig (st, (hp, x)) =
      (wrapped evs id at' orig r, (st', (hp, x'))) /\ up st' /\
    save_outcome id (encode hp <$> ds) orig (get (view st)) r (get (view st')).
Proof.
  intros Hh Hu Hok. unfold save_records. destruct (eventHandlerInTX s) as [h|] eqn:Hs.
  - eapply (zoom_map_bind up view); [by apply law_start_session|]. intros s1 Hu1 Hv1.
    rewrite <- Hv1 in Hok |- *.
    destruct (WithTransaction (client s) (heap * X) ctx (save_callback s h evs id ds orig) (s1, (hp, x)))
      as [r [st' [hp' x']]] eqn:Hw.
    destruct (law_with_transaction ctx _ s1 (hp, x) r (st', (hp', x')) Hu1 Hw) as (ctx' & Hrun).
    destruct (tx_run_rule up view (save_callback s h evs id ds orig ctx') (fun y => y.1 = hp)
      (fun r v _ => save_outcome id (encode hp <$> ds) orig (get (view s1)) r (get v)) (view s1))
      with (st := (s1, (hp, x))) (o := r) (st' := (st', (hp', x'))) as (HQ & Hhp & Hu'); try done.
    { intros s2 [h2 x2] Hu2 Hv2 Hh2. simpl in Hh2. subst h2. rewrite <- Hv2 in Hok.
      destruct (save_callback_ok h evs ctx' id ds orig s2 hp x2 Hs Hh Hu2 Hok) as (r2 & s3 & x3 & -> & _ & Ho).
      split; [done|]. rewrite Hv2 in Ho.
      destruct (save_outcome_cases _ _ _ _ _ _ Ho) as [-> |[[e ->] Hm]]; [done|]. by rewrite Hm in Ho. }
    simpl in Hhp. subst hp'. exists r, st', x'. split; [|done]. unfold map_err. rewrite Hw.
    by destruct r as [[]|e|p].
  - destruct (saveEvents_ok ctx id ds orig st hp x Hu Hok) as (r & st1 & Hrun & Hu1 & m' & Hv1 & Ho).
    exists r, st1, x. unfold map_err. rewrite Hrun. split; [by destruct r as [[]|e|p]|]. split; [done|].
    by rewrite Hv1, law_get_put.
Qed.

Lemma v1_serial_versions id n evs : serial id n evs -> version <$> evs = seqZ (n + 1) (len evs).
Proof.
  revert n. induction evs as [|e evs IH]; intros n; [done|].
  intros (_ & Hv & Hs). rewrite len_cons, seqZ_cons by int_lia. rewrite fmap_cons, Hv, (IH _ Hs).
  f_equal. f_equal; lia.
Qed.

(** The documents of a batch. *)
Definition docs_of (hp : heap) (evs : list event) : list stored := encode hp <$> (record_of <$> evs).

Lemma docs_of_ok hp id orig evs :
  serial id orig evs ->
  Version <$> (wire <$> docs_of hp evs) = seqZ (orig + 1) (len evs) /\
  Forall (fun e => AggregateID e = id) (wire <$> docs_of hp evs) /\
  wire <$> (wire <$> docs_of hp evs) = wire <$> docs_of hp evs /\
  len (docs_of hp evs) = len evs.
Proof.
  intros Hs. unfold docs_of. split; [|split; [|split]].
  - rewrite <- (v1_serial_versions id orig evs Hs), <- !list_fmap_compose. apply list_fmap_ext.
    intros _ e _. simpl. by rewrite wire_Version.
  - rewrite !Forall_fmap. revert orig Hs. induction evs as [|e evs IH]; intros orig; [constructor|].
    intros (Hid & _ & Hs). constructor; [simpl; by rewrite wire_AggregateID|by eapply IH].
  - rewrite <- list_fmap_compose. apply list_fmap_ext. intros _ e _. apply wire_idem.
  - by rewrite !len_fmap.
Qed.

Lemma save_outcome_db_ok hp id evs orig m r m' :
  db_ok m -> serial id orig evs -> evs <> [] ->
  save_outcome id (docs_of hp evs) orig m r m' -> db_ok m'.
Proof.
  intros Hok Hs Hne Ho. destruct (docs_of_ok hp id orig evs Hs) as (HV & HI & HW & HL).
  destruct (save_outcome_cases _ _ _ _ _ _ Ho) as [-> |[_ ->]]; [|done].
  assert (wire <$> docs_of hp evs <> []) as Hne' by (by destruct evs).
  unfold save_outcome in Ho. destruct (m !! id) as [rec|] eqn:Hm.
  - destruct (Z.eqb_spec orig 0); [by destruct Ho as ((? & _ & ?) & _)|].
    destruct (Z.eqb_spec (ar_Version rec) orig) as [<-|]; [|by destruct Ho].
    destruct Ho as [_ ->]. apply map_Forall_insert_2; [|done].
    destruct (Hok _ _ Hm) as [Hid Hnz Hlen Hvers Hids Hw]. split; simpl; [done| | | | |].
    + by destruct (ar_Events rec).
    + by rewrite len_app, len_fmap, Hlen.
    + rewrite fmap_app, len_app, len_fmap, HL, HV, Hvers, Hlen, seqZ_app by int_lia.
      f_equal. f_equal. lia.
    + by apply Forall_app.
    + by rewrite fmap_app, HW, Hw.
  - destruct (Z.eqb_spec orig 0) as [->|]; [|by destruct Ho].
    destruct Ho as [_ ->]. apply map_Forall_insert_2; [|done].
    split; simpl; [done|done| | |done|done].
    + by rewrite len_fmap.
    + by rewrite HV, len_fmap, HL.
Qed.

Lemma v1_Save_run ctx id orig evs st hp x :
  up st -> db_ok (get (view st)) -> batch_for id orig evs -> Forall storable evs ->
  handlers_ok (somes evs) ->
  exists at' r st' x', typed at' evs /\ up st' /\
    Save bson_Marshal s ctx (somes evs) orig (st, (hp, x)) =
      bind (lift (wrapped (somes evs) id at' orig r))
        (fun _ => handle_after_save s ctx (somes evs)) (st', (hp, x')) /\
    save_outcome id (docs_of hp evs) orig (get (view st)) r (get (view st')) /\
    db_ok (get (view st')).
Proof.
  intros Hu Hok (Hne & Hs & (at' & Ht) & Ho & Hint) Hst Hh.
  destruct (save_records_ok ctx (somes evs) id at' (record_of <$> evs) orig st hp x Hh Hu Hok)
    as (r & st' & x' & Hrun & Hu' & Hout).
  exists at', r, st', x'. split; [done|]. split; [done|]. split; [|split; [done|by eapply save_outcome_db_ok]].
  destruct evs as [|e0 l]; [done|].
  pose proof (v1_build_events_ok id at' orig (somes (e0 :: l)) 0 (e0 :: l) (st, (hp, x))) as Hb.
  rewrite Z.add_0_r in Hb. specialize (Hb Hs Ht Hst Ho ltac:(lia) Hint).
  destruct Hs as (Hid & _). apply Forall_cons in Ht as [Hat _].
  change (somes (e0 :: l)) with (Some e0 :: somes l) in *. unfold Save.
  rewrite (bind_ok _ _ (st, (hp, x)) (st, (hp, x)) e0) by done. rewrite Hid, Hat.
  rewrite (bind_ok _ _ _ _ _ Hb). unfold bind, lift. by rewrite Hrun.
Qed.


(** ** Loading *)

Definition decodes (e : stored) (d : any) : Prop :=
  RawData e = "" /\ d = ANil \/
  RawData e <> "" /\ exists factory, eventDataFactories !! EventType e = Some factory /\
    bson_Unmarshal (RawData e) (factory tt) = inl d.

(** The slot of a stored event in the result of [LoadFrom]. *)
Definition slot (from : Z) (h : heap) (e : stored) (o : option event) : Prop :=
  if Version e <? from then o = None
  else exists d md, decodes e d /\
    o = Some (mkEvent (EventType e) d (Timestamp e) (AggregateType e) (AggregateID e) (Version e) md) /\
    (forall m, Metadata e = Some m -> exists l, md = Some l /\ h !! l = Some m).

Lemma slot_mono from h h' e o : h ⊆ h' -> slot from h e o -> slot from h' e o.
Proof.
  unfold slot. destruct (Version e <? from); [done|]. intros Hsub (d & md & Hd & -> & Hm).
  exists d, md. split; [done|]. split; [done|]. intros m Hm'. destruct (Hm m Hm') as (l & -> & Hl).
  exists l. split; [done|]. by eapply lookup_weaken.
Qed.

Lemma v1_load_event_ok id e slots h :
  (exists d, decodes e d) ->
  exists d md h', load_event eventDataFactories bson_Unmarshal id e slots h =
      (Ok (mkEvent (EventType e) d (Timestamp e) (AggregateType e) (AggregateID e) (Version e) md), h') /\
    decodes e d /\ h ⊆ h' /\
    (forall m, Metadata e = Some m -> exists l, md = Some l /\ h' !! l = Some m).
Proof.
  intros (d & Hd). exists d. unfold load_event.
  rewrite (bind_ok _ _ h h d).
  2: { destruct Hd as [[-> ->]|[Hne (f & Hf & Hun)]]; [done|].
       rewrite bool_decide_false by done.
       rewrite (bind_ok _ _ h h (f tt)) by (unfold CreateEventData; by rewrite Hf). by rewrite Hun. }
  destruct (Metadata e) as [m|].
  - destruct (alloc m h) as [h' l] eqn:Ha. exists (Some l), h'. split; [done|]. split; [done|].
    pose proof (alloc_lookup m h) as Hl. rewrite Ha in Hl. split.
    + injection Ha as <- <-. apply insert_subseteq. exact (alloc_fresh m h).
    + intros m' [= <-]. by exists l.
  - exists None, h. split; [done|]. split; [done|]. split; [done|]. by intros m.
Qed.

Lemma load_slots_ok id from es slots h :
  Forall (fun e => exists d, decodes e d) es ->
  exists res h', load_slots eventDataFactories bson_Unmarshal id from es slots h = (Ok (slots ++ res), h') /\
    h ⊆ h' /\ Forall2 (slot from h') es res.
Proof.
  intros HF. revert slots h. induction HF as [|e es He _ IH]; intros slots h.
  { exists [], h. by rewrite app_nil_r. }
  cbn [load_slots]. destruct (Version e <? from) eqn:Hv.
  - destruct (IH (slots ++ [None]) h) as (res & h' & -> & Hsub & H2). exists (None :: res), h'.
    rewrite <- app_assoc. split; [done|]. split; [done|]. constructor; [|done]. unfold slot. by rewrite Hv.
  - destruct (v1_load_event_ok id e (slots ++ replicate (length (e :: es)) None) h He)
      as (d & md & h1 & Hrun & Hd & Hsub1 & Hm).
    rewrite (bind_ok _ _ _ _ _ Hrun).
    set (ev := mkEvent _ _ _ _ _ _ _). destruct (IH (slots ++ [Some ev]) h1) as (res & h' & -> & Hsub & H2).
    exists (Some ev :: res), h'. rewrite <- app_assoc. split; [done|]. split; [by etrans|].
    constructor; [|done]. eapply slot_mono; [exact Hsub|]. unfold slot. rewrite Hv. by exists d, md.
Qed.

(** [LoadFrom] answers one slot per stored event, in order; the slots of the
    events before the version it is asked for are nil events. *)
Theorem MongoV1LoadFrom_slots ctx id from st h x :
  up st -> db_ok (get (view st)) ->
  (forall r, get (view st) !! id = Some r -> Forall (fun e => exists d, decodes e d) (ar_Events r)) ->
  match get (view st) !! id with
  | Some r => exists res st' h',
      LoadFrom eventDataFactories bson_Unmarshal s ctx id from (st, (h, x)) = (Ok res, (st', (h', x))) /\
      up st' /\ view st' = view st /\ h ⊆ h' /\ Forall2 (slot from h') (ar_Events r) res
  | None => exists st',
      LoadFrom eventDataFactories bson_Unmarshal s ctx id from (st, (h, x)) =
        (Err (EventStoreError (Some (Sentinel ErrAggregateNotFound)) EventStoreOpLoad "" id 0 []),
         (st', (h, x))) /\ up st' /\ view st' = view st
  end.
Proof.
  intros Hu Hok Hdec. unfold LoadFrom.
  destruct (law_find_one (c := aggregates s) ctx st (is_id id) None Hu)
    as [[Hno (st' & Hrun & Hu' & Hv')]|(k & r & [Hk Hm] & _ & (st' & Hrun & Hu' & Hv'))].
  - destruct (get (view st) !! id) as [r|] eqn:Hr.
    + exfalso. specialize (Hno _ _ Hr). unfold is_id in Hno. destruct (Hok _ _ Hr) as [Hid].
      by rewrite bool_decide_true in Hno.
    + exists st'. unfold bind, map_err, zoom_fst, zoom. simpl. rewrite Hrun. done.
  - apply bool_decide_eq_true in Hm. destruct (Hok _ _ Hk) as [Hki].
    assert (k = id) as -> by congruence. rewrite Hk.
    destruct (load_slots_ok id from (ar_Events r) [] h (Hdec _ Hk)) as (res & h' & Hload & Hsub & H2).
    exists res, st', h'. unfold bind, map_err, zoom_fst, zoom_snd, zoom. simpl. rewrite Hrun. simpl.
    by rewrite Hload.
Qed.

(** ** Renaming *)

(** How many events of a type there are. *)
Definition count_type (from : string) (es : list stored) : Z :=
  len (filter (fun e => of_type from e = true) es).

Lemma count_wire from es : count_type from (wire <$> es) = count_type from es.
Proof.
  unfold count_type. induction es as [|e es IH]; [done|]. rewrite fmap_cons, !filter_cons.
  unfold of_type in *. rewrite wire_EventType. by destruct (decide _); rewrite ?len_cons, IH.
Qed.

Lemma count_update_first from to es :
  from <> to -> has_event (of_type from) (mkAggregateRecord Nil 0 es) = true ->
  count_type from (update_first (of_type from) (set_event_type to) es) = count_type from es - 1.
Proof.
  intros Hne. unfold has_event, count_type. simpl. induction es as [|e es IH]; [done|]. simpl.
  destruct (of_type from e) eqn:He; simpl.
  - intros _. rewrite !filter_cons. rewrite decide_False.
    + rewrite decide_True by done. rewrite len_cons. lia.
    + unfold of_type. simpl. rewrite bool_decide_eq_true. congruence.
  - intros Hex. rewrite !filter_cons, He. simpl. by apply IH.
Qed.

Lemma count_none from r : has_event (of_type from) r = false -> count_type from (ar_Events r) = 0.
Proof.
  unfold has_event, count_type. induction (ar_Events r) as [|e es IH]; [done|]. simpl.
  intros [He Hes]%orb_false_iff. rewrite filter_cons, He. simpl. by apply IH.
Qed.

(** [RenameEvent] renames one event per aggregate, the first of the type, and
    leaves the others with their old type. *)
Theorem MongoV1RenameEvent_first_only ctx from to st :
  up st -> from <> to ->
  exists st', RenameEvent s ctx from to st = (Ok tt, st') /\
    forall id r, get (view st) !! id = Some r ->
    exists r', get (view st') !! id = Some r' /\ ar_Version r' = ar_Version r /\
      len (ar_Events r') = len (ar_Events r) /\
      count_type from (ar_Events r') = Z.max 0 (count_type from (ar_Events r) - 1).
Proof.
  intros Hu Hne.
  destruct (law_update_many (c := aggregates s) ctx st (has_event (of_type from))
    (set_events (of_type from) (set_event_type to)) Hu) as (n & st' & Hrun & Hu' & Hv').
  exists st'. unfold RenameEvent. rewrite (bind_ok _ _ _ _ _ (map_err_ok _ _ _ _ _ Hrun)).
  split; [done|]. intros id r Hr. rewrite Hv', law_get_put, lookup_fmap, Hr. simpl.
  eexists. split; [done|]. pose proof (len_nonneg (filter (fun e => of_type from e = true) (ar_Events r))) as Hge.
  destruct (has_event (of_type from) r) eqn:Hh.
  - simpl. split; [done|]. rewrite len_fmap, count_wire. split.
    + unfold len. do 1 f_equal. clear. induction (ar_Events r) as [|e es IH]; [done|]. simpl.
      destruct (of_type from e); simpl; by rewrite ?IH.
    + assert (has_event (of_type from) (mkAggregateRecord Nil 0 (ar_Events r)) = true) as Hh' by done.
      rewrite (count_update_first _ _ _ Hne Hh').
      assert (count_type from (ar_Events r) <> 0) as Hnz.
      { unfold has_event in Hh. apply existsb_exists in Hh as (e & Hin & He).
        unfold count_type. intros Hz%len_0. assert (e ∈ @nil stored) as Habs; [|by apply elem_of_nil in Habs].
        rewrite <- Hz. apply list_elem_of_filter. split; [done|]. by apply list_elem_of_In. }
      unfold count_type in *. lia.
  - split; [done|]. split; [done|]. rewrite (count_none _ _ Hh). done.
Qed.

End Theory.
(** ** A concrete server *)

Abbreviation DB := (gmap UUID aggregateRecord).

Definition demo_coll : Collection DB UUID aggregateRecord UUID :=
  map_collection (fun m => m) (fun m _ => m) (fun r => Some (ar_AggregateID r)) (fun _ r => r)
    (wire_record (fun e => e)) (fun _ => Nil) (fun k => k).

Definition demo_store : EventStore (S := DB) (X := unit) (I := UUID) :=
  mkEventStore (map_client DB) externalClient demo_coll None None.

Abbreviation upv := (fun _ : DB => True).
Abbreviation viewv := (fun v : DB => v).

#[export] Instance demo_wire : WireLaws (fun e => e).
Proof. by split. Qed.

#[export] Instance demo_laws :
  CollectionLaws upv viewv (fun m => m) (fun m _ => m) (fun r => Some (ar_AggregateID r))
    (wire_record (fun e => e)) (fun _ _ => True) is_duplicate_key (aggregates demo_store).
Proof. by apply map_CollectionLaws. Qed.

#[export] Instance demo_session : SessionLaws upv viewv (client demo_store) := map_SessionLaws DB.

Definition demo_Marshal (d : any) : string + error :=
  match d with
  | AStruct _ [(_, AInt n)] => inl ("#" +:+ print_bits (Z.to_pos n))
  | _ => inr (ErrorString "unsupported type")
  end.

Definition demo_Unmarshal (raw : string) (_ : any) : any + error :=
  match raw with
  | EmptyString => inr (ErrorString "invalid document length")
  | String.String _ bits => inl (demo_data (Z.of_N (parse_bits bits)))
  end.

(** An aggregate with four events: of types removed, added, removed, added. *)
Definition demo_record : aggregateRecord :=
  mkAggregateRecord id1 4 (encode ∅ <$> (record_of demo_Marshal <$> demo_events id1 1 4)).

Definition demo_db : DB := {[id1 := demo_record]}.

Lemma demo_db_ok4 : db_ok (fun e => e) demo_db.
Proof.
  apply map_Forall_singleton. split; try done.
  - vm_compute. repeat constructor.
Qed.

Lemma v1_demo_decodes r :
  demo_db !! id1 = Some r ->
  Forall (fun e => exists d, decodes demo_factories demo_Unmarshal e d) (ar_Events r).
Proof.
  unfold demo_db. rewrite lookup_singleton_eq. intros [= <-].
  assert (forall e, e ∈ demo_events id1 1 4 -> exists d,
    decodes demo_factories demo_Unmarshal (encode ∅ (record_of demo_Marshal e)) d) as H.
  2: { apply Forall_fmap, Forall_fmap, Forall_forall. exact H. }
  intros e He. repeat (apply elem_of_cons in He as [->|He]); [..|by apply elem_of_nil in He].
  - exists ANil. by left.
  - eexists. right. split; [done|]. eexists. split; [reflexivity|]. reflexivity.
  - exists ANil. by left.
  - eexists. right. split; [done|]. eexists. split; [reflexivity|]. reflexivity.
Qed.


Lemma MongoV1LoadFrom_slots_witness :
  match demo_db !! id1 with
  | Some r => exists res st' h',
      LoadFrom demo_factories demo_Unmarshal demo_store bg id1 3 (demo_db, (∅, tt)) =
        (Ok res, (st', (h', tt))) /\
      True /\ st' = demo_db /\ ∅ ⊆ h' /\ Forall2 (slot demo_factories demo_Unmarshal 3 h') (ar_Events r) res
  | None => exists st',
      LoadFrom demo_factories demo_Unmarshal demo_store bg id1 3 (demo_db, (∅, tt)) =
        (Err (EventStoreError (Some (Sentinel ErrAggregateNotFound)) EventStoreOpLoad "" id1 0 []),
         (st', (∅, tt))) /\ True /\ st' = demo_db
  end.
Proof.
  apply (MongoV1LoadFrom_slots upv viewv (fun m => m) (fun m _ => m) (fun e => e) is_duplicate_key
           demo_factories demo_Unmarshal demo_store bg id1 3 demo_db ∅ tt).
  - done.
  - exact demo_db_ok4.
  - exact v1_demo_decodes.
Defined.

Lemma MongoV1RenameEvent_first_only_witness :
  exists st', RenameEvent demo_store bg "added" "created" demo_db = (Ok tt, st') /\
    forall id r, demo_db !! id = Some r ->
    exists r', st' !! id = Some r' /\ ar_Version r' = ar_Version r /\
      len (ar_Events r') = len (ar_Events r) /\
      count_type "added" (ar_Events r') = Z.max 0 (count_type "added" (ar_Events r) - 1).
Proof.
  apply (MongoV1RenameEvent_first_only upv viewv (fun m => m) (fun m _ => m) (fun e => e)
           is_duplicate_key demo_store bg "added" "created" demo_db).
  - done.
  - done.
Defined.

End V1Spec.
