(* ===== verification/MongoStoreV1Laws.v ===== *)
(** * The one-document MongoDB event store keeps the contract of an event store

    [v1_EventStoreLaws]: the stream of an aggregate is its document's events,
    decoded.  There is no [LoadsFrom] here: from a later version on the answer
    has empty slots ([MongoV1LoadFrom_slots]). *)

From stdpp Require Import functions base gmap strings list numbers option pretty.
From Stdlib Require Import Lia ZArith.
From S2P Require Import Prelude.
From S2P Require Import GoTypes.
From S2P Require Import Event.
From S2P Require Import Command.
From S2P Require Import Errors.
From S2P Require Import Registry.
From S2P Require Import EventStoreSpec.
From S2P Require Import Mongo.
From S2P Require Import MongoStoreV1.
From S2P Require Import MongoStoreV1Spec.

Import MongoStoreV1.V1.
Import MongoStoreV1Spec.V1Spec.

Module V1Laws.

Section Laws.
Context {S X I V : Type} (up : S -> Prop) (view : S -> V).
Context (get : V -> gmap UUID aggregateRecord) (put : gmap UUID aggregateRecord -> V -> V).
Context (wire : stored -> stored) (dup : error -> bool).
Context (eventDataFactories : gmap string (unit -> any)).
Context (bson_Marshal : any -> string + error) (bson_Unmarshal : string -> any -> any + error).
Context (s : V1.EventStore (S := S) (X := X) (I := I)).
Context `{Hwire : !WireLaws wire}.
Context `{Hcoll : !CollectionLaws up view get put (fun r => Some (ar_AggregateID r))
  (wire_record wire) (fun _ _ => True) dup (aggregates s)}.
Context `{Hsess : !SessionLaws up view (client s)}.
Context (Hafter : eventHandlerAfterSave s = None).
Context (Hhandlers : forall evs, handlers_ok up view get s (somes evs)).

Abbreviation St := (S * (heap * X))%type.
Abbreviation decodes := (decodes eventDataFactories bson_Unmarshal).
Abbreviation docs_of := (docs_of bson_Marshal).

(** ** Records and the events they stand for *)

Definition decode (e : stored) : any :=
  if bool_decide (RawData e = "") then ANil
  else match eventDataFactories !! EventType e with
       | Some factory => match bson_Unmarshal (RawData e) (factory tt) with inl d => d | inr _ => ANil end
       | None => ANil
       end.

Definition event_of (e : stored) : event :=
  mkEvent (EventType e) (decode e) (Timestamp e) (AggregateType e) (AggregateID e) (Version e) None.

(** Events whose data the codec keeps. *)
Definition faithful (e : event) : Prop :=
  data e = ANil \/
  exists raw factory, is_nil (data e) = false /\ raw <> "" /\ bson_Marshal (data e) = inl raw /\
    eventDataFactories !! eventType e = Some factory /\
    bson_Unmarshal raw (factory tt) = inl (data e).

Lemma v1_faithful_storable e : faithful e -> V1Spec.storable bson_Marshal e.
Proof. intros [Hd|(raw & f & _ & _ & Hm & _)]; [left; by rewrite Hd|right; by exists raw]. Qed.

Lemma v1_decodes_decode e d : decodes e d -> d = decode e.
Proof.
  unfold decode. intros [[Hr ->]|[Hr (f & Hf & Hu)]].
  - by rewrite bool_decide_true.
  - by rewrite bool_decide_false, Hf, Hu.
Qed.

Lemma v1_faithful_decodes hp e :
  faithful e -> decodes (wire (encode hp (record_of bson_Marshal e))) (data e).
Proof.
  intros Hf. unfold decodes. rewrite wire_RawData, wire_EventType. simpl. unfold raw_of.
  destruct Hf as [-> |(raw & f & -> & Hne & -> & Hfac & Hun)]; [by left|]. right. eauto.
Qed.

Lemma v1_place_same hp evs :
  Forall faithful evs ->
  Forall2 same_event evs (event_of <$> (wire <$> docs_of hp evs)) /\
  Forall (fun e => exists d, decodes e d) (wire <$> docs_of hp evs).
Proof.
  unfold docs_of. induction 1 as [|e evs He _ [IH IHd]]; [by split; constructor|].
  rewrite !fmap_cons. pose proof (v1_faithful_decodes hp e He) as Hd.
  split; constructor; [|done|by eexists|done].
  unfold same_event. rewrite (v1_decodes_decode _ _ Hd). simpl.
  by rewrite wire_EventType, wire_AggregateType, wire_AggregateID, wire_Version.
Qed.

(** What is loaded from the first version on: every slot is filled. *)
Lemma v1_slots_same h es res :
  Forall (fun e => 1 <= Version e) es -> Forall2 (slot eventDataFactories bson_Unmarshal 1 h) es res ->
  exists evs, res = somes evs /\ Forall2 same_event (event_of <$> es) evs.
Proof.
  intros HF. induction 1 as [|e o es res Ho _ IH]; [by exists []|].
  apply Forall_cons in HF as [He HF]. destruct (IH HF) as (evs & -> & Hs).
  unfold slot in Ho. destruct (Z.ltb_spec (Version e) 1); [lia|].
  destruct Ho as (d & md & Hd & -> & _). eexists (_ :: evs). split; [done|].
  rewrite fmap_cons. constructor; [|done]. unfold same_event. simpl. by rewrite (v1_decodes_decode _ _ Hd).
Qed.

(** ** The contract *)

Definition v1_EventStore : EventStoreSpec.EventStore St :=
  EventStoreSpec.mkEventStore (Save bson_Marshal s)
    (Load eventDataFactories bson_Unmarshal s)
    (LoadFrom eventDataFactories bson_Unmarshal s)
    (zoom_fst (V1.Close s)).

Definition records_in (m : gmap UUID aggregateRecord) (id : UUID) : list stored :=
  match m !! id with Some r => ar_Events r | None => [] end.

Definition records_of (st : St) (id : UUID) : list stored := records_in (get (view st.1)) id.

(** A save that succeeds appends to the document, a new one at version 0. *)
Lemma save_outcome_ok id new v m m' :
  save_outcome wire dup id new v m (Ok tt) m' ->
  m' = <[id := mkAggregateRecord id (v + len new) (records_in m id ++ (wire <$> new))]> m.
Proof.
  unfold save_outcome, records_in. destruct (m !! id) as [rec|].
  - destruct (Z.eqb_spec v 0); [by intros [(? & _ & ?) _]|]. destruct (_ =? _); [by intros [_ ->]|by intros []].
  - destruct (Z.eqb_spec v 0) as [->|]; [by intros [_ ->]|by intros []].
Qed.

Lemma records_in_insert m id rec id' :
  records_in (<[id := rec]> m) id' = if decide (id' = id) then ar_Events rec else records_in m id'.
Proof.
  unfold records_in. case_decide as Hd; [subst; by rewrite lookup_insert_eq|by rewrite lookup_insert_ne].
Qed.

Definition v1_ok (st : St) : Prop :=
  up st.1 /\ db_ok wire (get (view st.1)) /\
  forall id, Forall (fun e => exists d, decodes e d) (records_of st id).

Definition v1_unchanged (n : Z) (st st' : St) : Prop :=
  (up st.1 -> up st'.1) /\ get (view st'.1) = get (view st.1).

Lemma records_of_ok st id : v1_ok st ->
  Version <$> records_of st id = seqZ 1 (len (records_of st id)) /\
  Forall (fun e => AggregateID e = id) (records_of st id) /\
  (records_of st id = [] -> get (view st.1) !! id = None).
Proof.
  intros (_ & Hok & _). unfold records_of, records_in. destruct (get (view st.1) !! id) as [r|] eqn:Hr.
  - destruct (Hok _ _ Hr). split_and!; try done.
  - split; [done|]. by split; [constructor|].
Qed.

Lemma v1_serial st id : v1_ok st -> serial id 0 (event_of <$> records_of st id).
Proof.
  intros Hok. destruct (records_of_ok st id Hok) as (Hv & HF & _). revert Hv HF.
  change (seqZ 1) with (seqZ (0 + 1)). generalize 0. generalize (records_of st id). clear.
  induction l as [|e l IH]; intros n Hv HF; [done|].
  apply Forall_cons in HF as [He HF]. rewrite len_cons, seqZ_cons, fmap_cons in Hv by int_lia.
  injection Hv as Hv1 Hv2. rewrite fmap_cons. simpl. split; [done|]. split; [done|].
  apply IH; [|done]. rewrite Hv2. f_equal; lia.
Qed.

Lemma v1_save_run ctx st id evs v :
  v1_ok st -> batch_for id v evs -> Forall faithful evs ->
  exists at' r st' hp, es_Save v1_EventStore ctx (somes evs) v st = (wrapped (somes evs) id at' v r, st') /\
    (r = Ok tt -> v1_ok st') /\ up st'.1 /\
    save_outcome wire dup id (docs_of hp evs) v (get (view st.1)) r (get (view st'.1)).
Proof.
  destruct st as [st [hp x]]. intros (Hu & Hok & HF) Hb Hf.
  assert (Forall (V1Spec.storable bson_Marshal) evs) as Hst
    by (eapply Forall_impl; [exact Hf|apply v1_faithful_storable]).
  destruct (v1_Save_run up view get put wire dup bson_Marshal s ctx id v evs st hp x Hu Hok Hb Hst (Hhandlers evs))
    as (at' & r & st' & x' & _ & Hu' & Hrun & Ho & Hok').
  exists at', r, (st', (hp, x')), hp. simpl. rewrite Hrun. unfold bind, lift, handle_after_save.
  rewrite Hafter. split; [by destruct r as [[]| |]|]. split; [|done].
  intros ->. split; [done|]. split; [done|]. intros id'. unfold records_of. simpl.
  rewrite (save_outcome_ok _ _ _ _ _ Ho), records_in_insert. case_decide; [subst|by apply HF].
  simpl. apply Forall_app. split; [apply HF|]. by apply v1_place_same.
Qed.

Lemma load_is ctx id load :
  load = es_Load v1_EventStore ctx id \/ load = es_LoadFrom v1_EventStore ctx id 1 ->
  load = es_LoadFrom v1_EventStore ctx id 1.
Proof. by intros [-> | ->]. Qed.

Lemma v1_Load_run ctx st id :
  v1_ok st ->
  (records_of st id <> [] -> exists evs st',
     es_LoadFrom v1_EventStore ctx id 1 st = (Ok (somes evs), st') /\
     v1_unchanged 0 st st' /\ Forall2 same_event (event_of <$> records_of st id) evs) /\
  (records_of st id = [] -> exists e st',
     es_LoadFrom v1_EventStore ctx id 1 st = (Err e, st') /\
     v1_unchanged 0 st st' /\ errors_Is e ErrAggregateNotFound = true).
Proof.
  intros Hok. destruct (records_of_ok st id Hok) as (Hv & _ & Hnone).
  destruct st as [st [hp x]]. destruct Hok as (Hu & Hok & HF).
  pose proof (MongoV1LoadFrom_slots up view get put wire dup eventDataFactories bson_Unmarshal s ctx id 1
    st hp x Hu Hok) as Hl.
  specialize (HF id). unfold records_of, records_in in *. simpl in *.
  destruct (get (view st) !! id) as [r|] eqn:Hr.
  - destruct Hl as (res & st' & h' & Hrun & Hu' & Hv' & _ & H2); [by intros r' [= <-]|].
    destruct (v1_slots_same h' (ar_Events r) res) as (evs & -> & Hs); [|done|].
    { apply Forall_forall. intros e He%(list_elem_of_fmap_2 Version). rewrite Hv in He.
      apply elem_of_seqZ in He. lia. }
    split; [|by intros ?%Hnone]. intros _. exists evs, (st', (h', x)).
    split; [done|]. split; [|done]. split; [done|]. simpl. by rewrite Hv'.
  - destruct Hl as (st' & Hrun & Hu' & Hv'); [done|]. split; [done|]. intros _.
    eexists _, (st', (hp, x)). split; [exact Hrun|]. split; [|done]. split; [done|]. simpl. by rewrite Hv'.
Qed.

#[export] Program Instance v1_EventStoreLaws : EventStoreLaws v1_EventStore := {
  store_ok := v1_ok;
  stream st id := event_of <$> records_of st id;
  kept := same_event;
  storable := faithful;
  holds _ _ := True;
  unchanged := v1_unchanged
}.
Next Obligation. done. Qed.
Next Obligation.
  intros n st st' (Hu & Hok & HF) (Hu' & Hg). unfold v1_ok, records_of in *. rewrite Hg.
  split; [|done]. split; [by apply Hu'|done].
Qed.
Next Obligation. by split. Qed.
Next Obligation. intros n m st1 st2 st3 [Hu1 Hg1] [Hu2 Hg2]. split; [auto|congruence]. Qed.
Next Obligation. done. Qed.
Next Obligation. intros st id Hok. by apply v1_serial. Qed.
Next Obligation.
  intros ctx st id load Hl Hok Hne. rewrite (load_is _ _ _ Hl). apply v1_Load_run; [done|]. intros Hnil. apply Hne. simpl. by rewrite Hnil.
Qed.
Next Obligation.
  intros ctx st id load Hl Hok Hnil%fmap_nil_inv. rewrite (load_is _ _ _ Hl). by apply v1_Load_run.
Qed.
Next Obligation.
  intros ctx st id evs Hok Hb Hf _. cbv beta in *. rewrite len_fmap in Hb |- *.
  destruct (v1_save_run ctx st id evs _ Hok Hb Hf) as (at' & r & st' & hp & Hrun & Hok' & Hu' & Ho).
  destruct (records_of_ok st id Hok) as (_ & _ & Hnone). destruct Hok as (_ & Hok & _).
  assert (r = Ok tt) as ->.
  { unfold save_outcome, records_of, records_in in *. destruct (get (view st.1) !! id) as [rec|] eqn:Hm.
    - destruct (Hok _ _ Hm) as [_ Hne Hlen _ _ _]. rewrite <- Hlen in Ho.
      destruct (Z.eqb_spec (ar_Version rec) 0) as [Hz|_].
      + rewrite Hlen in Hz. by apply len_0 in Hz.
      + rewrite Z.eqb_refl in Ho. by destruct Ho.
    - rewrite len_nil in Ho. by destruct Ho. }
  apply save_outcome_ok in Ho. exists st', (event_of <$> (wire <$> docs_of hp evs)).
  split; [done|]. split; [by apply Hok'|]. unfold records_of. rewrite Ho.
  split; [rewrite records_in_insert, decide_True by done; simpl; by rewrite fmap_app|].
  split; [by apply v1_place_same|]. split; [|done].
  intros id' Hne. by rewrite records_in_insert, decide_False by done.
Qed.
Next Obligation.
  intros ctx st id evs v Hok Hb Hf _ Hv Hne Hlen. cbv beta in Hlen. rewrite len_fmap in Hlen.
  destruct (v1_save_run ctx st id evs v Hok Hb Hf) as (at' & r & st' & hp & Hrun & _ & Hu' & Ho).
  assert (r = Err (Sentinel ErrEventConflictFromOtherSave) /\ get (view st'.1) = get (view st.1)) as [-> Hg].
  { destruct Hok as (_ & Hok & _). unfold save_outcome, records_of, records_in in *.
    destruct (get (view st.1) !! id) as [rec|] eqn:Hm; [|done].
    destruct (Hok _ _ Hm) as [_ _ Hl _ _ _]. rewrite Hl in Ho.
    by rewrite (proj2 (Z.eqb_neq v 0) Hv), (proj2 (Z.eqb_neq _ _) Hlen) in Ho. }
  eexists _, st'. split; [exact Hrun|]. split; [|done]. by split.
Qed.

End Laws.
End V1Laws.
