(* ===== verification/MongoRepo.v ===== *)
(** * The MongoDB repository ([repo/mongodb/repo.go])

    A document is its fields; BSON encoding gives the fields of an entity (a
    field tagged [omitempty] and zero is absent), decoding fills the entity the
    factory made, and leaves what it filled so far when it fails.  The [_id] is
    the text of the entity's UUID, which stands for the UUID.

    The repository implements the interface of [Repo] for entities whose
    fields are all encoded. *)

From stdpp Require Import base gmap strings list numbers option pretty.
From Stdlib Require Import Lia ZArith.
From S2P Require Import Prelude.
From S2P Require Import GoTypes.
From S2P Require Import Event.
From S2P Require Import Command.
From S2P Require Import Errors.
From S2P Require Import Fixtures.
From S2P Require Import Repo.
From S2P Require Import Mongo.

Module MongoRepo.

Section Repo.
(** [B]: the BSON values of fields; [I]: [_id]s as an insertion reports them. *)
Context {S E B I : Type} `{Entity E}.

Abbreviation doc := (gmap string B).

Context (bson_Marshal : E -> doc + error).
Context (bson_Unmarshal : doc -> E -> E * option error).

Record Repo : Type := mkMongoRepo {
  client : Client S;
  ownership : clientOwnership;
  entities : Collection S UUID doc I;
  newEntity : option (unit -> E);
  connectionCheck : bool
}.

(** ** Creation *)

Definition Option : Type := Repo -> Repo + error.

(** [WithConnectionCheck]; its argument is not used. *)
Definition WithConnectionCheck : Option := fun r =>
  inl (mkMongoRepo (client r) (ownership r) (entities r) (newEntity r) true).

Fixpoint apply_options (options : list Option) (r : Repo) : Repo + error :=
  match options with
  | [] => inl r
  | option :: options' =>
      match option r with
      | inl r' => apply_options options' r'
      | inr err => inr (Errorf "error while applying option" err)
      end
  end.

Definition newRepoWithClient (cl : option (Client S)) (own : clientOwnership)
    (coll : Collection S UUID doc I) (options : list Option) : M S Repo :=
  match cl with
  | None => throw (ErrorString "missing DB client")
  | Some cl =>
      match apply_options options (mkMongoRepo cl own coll None false) with
      | inr err => throw err
      | inl r =>
          if connectionCheck r then
            do! map_err (Errorf "could not connect to MongoDB") (Ping (client r)) in
            ret r
          else ret r
      end
  end.

Definition NewRepoWithClient (cl : option (Client S)) (coll : Collection S UUID doc I)
    (options : list Option) : M S Repo := newRepoWithClient cl externalClient coll options.

Definition NewRepo (Connect : list client_option -> Client S + error) (uri : string)
    (coll : Collection S UUID doc I) (options : list Option) : M S Repo :=
  connecting Connect uri (fun cl own => newRepoWithClient cl own coll options).

Definition SetEntityFactory (f : option (unit -> E)) (r : Repo) : Repo :=
  mkMongoRepo (client r) (ownership r) (entities r) f (connectionCheck r).

Definition mongodb_IntoRepo (repo : option repo_value) : option repo_value := IntoRepo "mongodb.Repo" repo.

(** A MongoDB repository wraps no other one. *)
Definition InnerRepo (r : Repo) : option repo_value := None.

Section Ops.
Context (r : Repo).

(** [if r.newEntity == nil { return ErrModelNotSet }] *)
Definition with_factory {T A} (op : string) (id : UUID) (k : (unit -> E) -> M T A) : M T A :=
  match newEntity r with
  | None => throw (RepoError (Some (Sentinel MongoRepo_ErrModelNotSet)) op id)
  | Some f => k f
  end.

(** [Decode] into a new entity, of a result that may not be readable. *)
Definition Decode (d : doc + error) (entity : E) : E * option error :=
  match d with
  | inl d => bson_Unmarshal d entity
  | inr err => (entity, Some err)
  end.

(** [SingleResult.Decode] *)
Definition decode_single {T} (m : M T (doc + error)) (entity : E) : M T E :=
  let! d := m in
  match Decode d entity with
  | (e, None) => ret e
  | (_, Some err) => throw err
  end.

Definition translate (err : error) : error :=
  if errors_Is err ErrNoDocuments then Sentinel ErrEntityNotFound else err.

(** The text of a UUID as a BSON value, and the UUID of such a value. *)
Context (id_text : UUID -> B) (id_of : B -> option UUID).

(** The [_id] of a document, and the filter [{"_id": id.String()}]. *)
Definition key (d : doc) : option UUID := d !! "_id" ≫= id_of.

Definition id_is (id : UUID) (d : doc) : bool := bool_decide (key d = Some id).

Definition Find (ctx : context) (id : UUID) : M S E :=
  with_factory RepoOpFind id (fun f =>
    map_err (fun err => RepoError (Some (translate err)) RepoOpFind id)
      (decode_single (FindOne (entities r) ctx (id_is id) None) (f tt))).

(** [for cursor.Next(ctx) { .. }] followed by [cursor.Close(ctx)]; the error
    that ended the cursor is not read. *)
Fixpoint decode_items {T} (op : string) (f : unit -> E) (items : list (doc + error)) (result : list E)
  : M T (list E) :=
  match items with
  | [] => ret result
  | d :: items' =>
      match Decode d (f tt) with
      | (_, Some err) => throw (RepoError (Some (Errorf "could not unmarshal" err)) op Nil)
      | (e, None) => decode_items op f items' (result ++ [e])
      end
  end.

Definition read_cursor {T} (op : string) (f : unit -> E) (cursor : Cursor doc) : M T (list E) :=
  let! result := decode_items op f (c_items cursor) [] in
  match c_close cursor with
  | Some err => throw (RepoError (Some (Errorf "could not close cursor" err)) op Nil)
  | None => ret result
  end.

Definition FindAll (ctx : context) : M S (list E) :=
  with_factory RepoOpFindAll Nil (fun f =>
    let! cursor := map_err (fun err => RepoError (Some (Errorf "could not find" err)) RepoOpFindAll Nil)
                     (Mongo.Find (entities r) ctx (fun _ => true) None) in
    read_cursor RepoOpFindAll f cursor).

(** A callback that makes a cursor; [None] is a nil cursor. *)
Definition query : Type := context -> Collection S UUID doc I -> M S (option (Cursor doc)).

Definition run_query (ctx : context) (q : query) : M S (Cursor doc) :=
  let! cursor := map_err (fun err => RepoError (Some (Errorf "could not find" err)) RepoOpFindQuery Nil)
                   (q ctx (entities r)) in
  match cursor with
  | None => throw (RepoError (Some (Sentinel ErrNoCursor)) RepoOpFindQuery Nil)
  | Some c => ret c
  end.

(** The iterator: the cursor, the current entity and the last decode error. *)
Record iter : Type := mkIter {
  it_items : list (doc + error);
  it_close : option error;
  it_data : option E;
  it_newEntity : unit -> E;
  it_decodeErr : option error
}.

Definition FindCustomIter (ctx : context) (q : query) : M S iter :=
  with_factory RepoOpFindQuery Nil (fun f =>
    let! cursor := run_query ctx q in
    ret (mkIter (c_items cursor) (c_close cursor) None f None)).

Definition Next : M iter bool := fun i =>
  match it_items i with
  | [] => (Ok false, i)
  | d :: items =>
      let '(item, err) := Decode d (it_newEntity i tt) in
      (Ok true, mkIter items (it_close i) (Some item) (it_newEntity i) err)
  end.

Definition Value : M iter (option E) := gets it_data.

Definition iter_Close : M iter unit :=
  let! i := gets (fun i => i) in
  match it_close i with
  | Some err => throw err
  | None => match it_decodeErr i with Some err => throw err | None => ret tt end
  end.

Definition FindCustom (ctx : context) (q : query) : M S (list E) :=
  with_factory RepoOpFindQuery Nil (fun f =>
    let! cursor := run_query ctx q in
    read_cursor RepoOpFindQuery f cursor).

Definition FindOneCustom (ctx : context)
    (q : context -> Collection S UUID doc I -> M S (doc + error)) : M S E :=
  with_factory RepoOpFindQuery Nil (fun f =>
    map_err (fun err => RepoError (Some (translate err)) RepoOpFind Nil)
      (decode_single (q ctx (entities r)) (f tt))).

(** [{"$set": entity}] with upsert: the entity's fields over those that are
    there. *)
Definition set_fields (id : UUID) (fields : doc) (old : option doc) : doc :=
  fields ∪ default {["_id" := id_text id]} old.

Definition Save (ctx : context) (entity : option E) : M S unit :=
  let! e := deref entity in
  let id := EntityID e in
  if bool_decide (id = Nil)
  then throw (RepoError (Some (ErrorString "missing entity ID")) RepoOpSave Nil)
  else
    let fail err := RepoError (Some (Errorf "could not save/update" err)) RepoOpSave id in
    match bson_Marshal e with
    | inr err => throw (fail err)
    | inl fields => map_err fail (UpsertOne (entities r) ctx id (set_fields id fields))
    end.

Definition Remove (ctx : context) (id : UUID) : M S unit :=
  let fail err := RepoError (Some err) RepoOpRemove id in
  let! deleted := map_err fail (DeleteOne (entities r) ctx (id_is id)) in
  if deleted =? 0 then throw (fail (Sentinel ErrEntityNotFound)) else ret tt.

Definition CollectionDo (ctx : context) (f : context -> Collection S UUID doc I -> M S unit) : M S unit :=
  map_err (fun err => RepoError (Some err) "" Nil) (f ctx (entities r)).

Definition CreateIndex (ctx : context) (field : string) : M S unit :=
  map_err (Errorf "could not create index") (Mongo.CreateIndex (entities r) ctx field).

Definition Clear (ctx : context) : M S unit :=
  map_err (fun err => RepoError (Some (Errorf "could not drop collection" err)) RepoOpClear Nil)
    (Drop (entities r) ctx).

Definition Close : M S unit := close_client (client r) (ownership r).

(** The repository as a [ReadWriteRepo]. *)
Definition as_repo : ReadWriteRepo S E := mkRepo Find FindAll Save Remove Close.

End Ops.
End Repo.
End MongoRepo.
