(* ===== verification/MongoRepoSpec.v ===== *)
(** * The MongoDB repository implements the repository interface

    [Mongo_RepoLaws]: for entities whose fields are all encoded it is a lawful
    repository, so the theorems on the projector, the version repository and
    the cache hold for it.  What it does to fields that are not encoded, and
    what its iterator does with decode errors, follows. *)

From stdpp Require Import base gmap strings list numbers option pretty.
From Stdlib Require Import Lia ZArith.
From S2P Require Import Prelude.
From S2P Require Import GoTypes.
From S2P Require Import Event.
From S2P Require Import Command.
From S2P Require Import Errors.
From S2P Require Import Fixtures.
From S2P Require Import Repo.
From S2P Require Import Mongo.
From S2P Require Import MongoRepo.

Import MongoRepo.MongoRepo.

Module MongoRepoSpec.

Section Theory.
Context {S E B I V : Type} `{HE : Entity E} (up : S -> Prop) (view : S -> V).
Abbreviation doc := (gmap string B).
Context (get : V -> gmap UUID doc) (put : gmap UUID doc -> V -> V).
Context (bson_Marshal : E -> doc + error) (bson_Unmarshal : doc -> E -> E * option error).
Context (id_text : UUID -> B) (id_of : B -> option UUID) (wire : doc -> doc).
Context (is_id : UUID -> I -> Prop) (dup : error -> bool).
Context (r : MongoRepo.MongoRepo.Repo (S := S) (E := E) (B := B) (I := I)) (f : unit -> E).
Context `{Hcoll : !CollectionLaws up view get put (key id_of) wire is_id dup (entities r)}.
Context (Hfactory : newEntity r = Some f).
Context (Hid : forall id, id_of (id_text id) = Some id).
Context (Hwire : forall d, key id_of (wire d) = key id_of d).

Abbreviation given := (gives up view).
Abbreviation mongo := (as_repo bson_Marshal bson_Unmarshal r id_text id_of).

Definition decoded (d : doc) : E := (bson_Unmarshal d (f tt)).1.

Definition readable (id : UUID) (d : doc) : Prop :=
  key id_of d = Some id /\ bson_Unmarshal d (f tt) = (decoded d, None) /\ EntityID (decoded d) = id.

Definition mongo_ok (s : S) : Prop := up s /\ map_Forall readable (get (view s)).

Definition mongo_entities (s : S) : gmap UUID E := decoded <$> get (view s).

(** An entity all of whose fields are encoded: read over any document, what
    was encoded gives it back. *)
Definition keepable (e : E) : Prop :=
  exists fields, bson_Marshal e = inl fields /\
    (forall v, fields !! "_id" = Some v -> id_of v = Some (EntityID e)) /\
    forall old, bson_Unmarshal (wire (fields ∪ old)) (f tt) = (e, None).

Lemma mongo_same s s' : mongo_ok s -> up s' -> view s' = view s ->
  mongo_ok s' /\ mongo_entities s' = mongo_entities s.
Proof. intros [_ Hr] Hu Hv. unfold mongo_ok, mongo_entities. by rewrite Hv. Qed.

Lemma matches_id s id k d :
  mongo_ok s -> matches get (view s) (id_is id_of id) k d -> k = id /\ get (view s) !! id = Some d.
Proof.
  intros [_ Hr] [Hk Hm%bool_decide_eq_true]. destruct (Hr _ _ Hk) as (Hkey & _).
  assert (k = id) as -> by congruence. done.
Qed.

Lemma no_match_id s id :
  mongo_ok s -> no_match get (view s) (id_is id_of id) -> get (view s) !! id = None.
Proof.
  intros [_ Hr] Hno. destruct (get (view s) !! id) as [d|] eqn:Hd; [exfalso|done].
  specialize (Hno _ _ Hd). unfold id_is in Hno. destruct (Hr _ _ Hd) as (Hkey & _).
  by rewrite bool_decide_true in Hno.
Qed.

Lemma Find_run ctx s id :
  mongo_ok s ->
  match get (view s) !! id with
  | Some d => given (MongoRepo.MongoRepo.Find bson_Unmarshal r id_of ctx id) s (Ok (decoded d)) (view s)
  | None => given (MongoRepo.MongoRepo.Find bson_Unmarshal r id_of ctx id) s
              (Err (RepoError (Some (Sentinel ErrEntityNotFound)) RepoOpFind id)) (view s)
  end.
Proof.
  intros Hok. unfold MongoRepo.MongoRepo.Find, with_factory. rewrite Hfactory.
  destruct (law_find_one (c := entities r) ctx s (id_is id_of id) None (proj1 Hok))
    as [[Hno Hg]|(k & d & Hm & _ & Hg)].
  - rewrite (no_match_id _ _ Hok Hno). unfold decode_single.
    exact (gives_map_err up view _ _ _ (Err (Sentinel ErrNoDocuments)) _ (gives_bind_err up view _ _ _ _ _ Hg)).
  - destruct (matches_id _ _ _ _ Hok Hm) as [-> Hd]. rewrite Hd. unfold decode_single.
    refine (gives_map_err up view _ _ _ (Ok (decoded d)) _ _). eapply gives_bind; [exact Hg|].
    intros s' Hu' <-. simpl. destruct (proj2 Hok _ _ Hd) as (_ & -> & _). by apply gives_ret.
Qed.

Lemma decode_items_ok {T} op ds es (t : T) :
  Forall (fun d => bson_Unmarshal d (f tt) = (decoded d, None)) ds ->
  decode_items bson_Unmarshal op f (inl <$> ds) es t = (Ok (es ++ (decoded <$> ds)), t).
Proof.
  intros HF. revert es. induction HF as [|d ds Hd _ IH]; intros es; [by rewrite app_nil_r|].
  rewrite !fmap_cons. simpl. rewrite Hd, IH. by rewrite <- app_assoc.
Qed.

Lemma set_fields_key id fields old :
  (forall v, fields !! "_id" = Some v -> id_of v = Some id) ->
  (forall d, old = Some d -> key id_of d = Some id) ->
  key id_of (set_fields id_text id fields old) = Some id.
Proof.
  intros Hf Ho. unfold key, set_fields. destruct (fields !! "_id") as [v|] eqn:Hv.
  - rewrite (lookup_union_Some_l _ _ _ _ Hv). simpl. by apply Hf.
  - rewrite lookup_union_r by done. destruct old as [d|]; simpl; [by apply Ho|].
    rewrite lookup_singleton_eq. simpl. apply Hid.
Qed.

#[export] Program Instance Mongo_RepoLaws : RepoLaws mongo := {
  repo_ok := mongo_ok;
  Repo.entities := mongo_entities;
  Repo.keepable := keepable
}.
Next Obligation.
  intros s id e [_ Hr]. unfold mongo_entities. rewrite lookup_fmap. intros (d & Hd & ->)%fmap_Some.
  by destruct (Hr _ _ Hd) as (_ & _ & ?).
Qed.
Next Obligation.
  intros ctx s id e Hok He. unfold mongo_entities in He. rewrite lookup_fmap in He.
  apply fmap_Some in He as (d & Hd & ->). pose proof (Find_run ctx s id Hok) as Hg. rewrite Hd in Hg.
  destruct Hg as (s' & Hrun & Hu' & Hv'). exists s'. split; [done|]. by apply mongo_same.
Qed.
Next Obligation.
  intros ctx s id Hok He. unfold mongo_entities in He. rewrite lookup_fmap in He.
  apply fmap_None in He. pose proof (Find_run ctx s id Hok) as Hg. rewrite He in Hg.
  destruct Hg as (s' & Hrun & Hu' & Hv'). eexists _, s'. split; [exact Hrun|].
  split; [done|]. split; [done|]. by apply mongo_same.
Qed.
Next Obligation.
  intros ctx s Hok. simpl. unfold MongoRepo.MongoRepo.FindAll, with_factory. rewrite Hfactory.
  destruct (law_find (c := entities r) ctx s (fun _ => true) None (proj1 Hok))
    as (ds & Hall & _ & (s' & Hrun & Hu' & Hv')).
  assert (ds ≡ₚ (map_to_list (get (view s))).*2) as Hp.
  { unfold all_matching in Hall. rewrite filter_all in Hall; [done|]. by apply Forall_forall. }
  assert (Forall (fun d => bson_Unmarshal d (f tt) = (decoded d, None)) ds) as HF.
  { rewrite Hp. apply Forall_forall. intros d ([id d'] & -> & Hk%elem_of_map_to_list)%list_elem_of_fmap.
    by destruct (proj2 Hok _ _ Hk) as (_ & ? & _). }
  exists (decoded <$> ds), s'. rewrite (bind_ok _ _ _ _ _ (map_err_ok _ _ _ _ _ Hrun)).
  unfold read_cursor. simpl. rewrite (bind_ok _ _ _ _ _ (decode_items_ok _ ds [] s' HF)). simpl.
  split; [done|]. destruct (mongo_same s s' Hok Hu' Hv') as [? ?]. split; [done|]. split; [done|].
  unfold mongo_entities. rewrite map_to_list_fmap, Hp, <- !list_fmap_compose. done.
Qed.
Next Obligation.
  intros ctx s e Hok (fields & Hm & Hkey & Hdec) Hne. simpl. unfold MongoRepo.MongoRepo.Save.
  rewrite (bind_ok _ _ s s e) by done. rewrite bool_decide_false, Hm by done.
  destruct (law_upsert (c := entities r) ctx s (EntityID e) (set_fields id_text (EntityID e) fields)
    (proj1 Hok)) as (s' & Hrun & Hu' & Hv').
  exists s'. split; [by apply map_err_ok|]. unfold mongo_ok, mongo_entities.
  assert (get (view s') = <[EntityID e := wire (set_fields id_text (EntityID e) fields
    (get (view s) !! EntityID e))]> (get (view s))) as Hg by (rewrite Hv'; unfold insert_doc; apply law_get_put).
  assert (decoded (wire (set_fields id_text (EntityID e) fields (get (view s) !! EntityID e))) = e) as Hde
    by (unfold decoded, set_fields; by rewrite Hdec).
  rewrite Hg. split.
  - split; [done|]. apply map_Forall_insert_2; [|apply Hok]. unfold readable. rewrite Hwire, Hde.
    split; [|split; [apply Hdec|done]]. apply set_fields_key; [done|].
    intros d Hd. by destruct (proj2 Hok _ _ Hd) as (? & _).
  - by rewrite fmap_insert, Hde.
Qed.
Next Obligation.
  intros ctx s id e Hok He. unfold mongo_entities in He. rewrite lookup_fmap in He.
  apply fmap_Some in He as (d & Hd & _). simpl. unfold MongoRepo.MongoRepo.Remove.
  destruct (law_delete_one (c := entities r) ctx s (id_is id_of id) (proj1 Hok))
    as [[Hno _]|(k & d' & Hm & (s' & Hrun & Hu' & Hv'))].
  - by rewrite (no_match_id _ _ Hok Hno) in Hd.
  - destruct (matches_id _ _ _ _ Hok Hm) as [-> _].
    exists s'. rewrite (bind_ok _ _ _ _ _ (map_err_ok _ _ _ _ _ Hrun)). split; [done|].
    assert (get (view s') = delete id (get (view s))) as Hg by (rewrite Hv'; apply law_get_put).
    unfold mongo_ok, mongo_entities. rewrite Hg. split.
    + split; [done|]. apply map_Forall_delete. apply Hok.
    + by rewrite fmap_delete.
Qed.

#[export] Instance Mongo_RepoRefuses : RepoRefuses mongo.
Proof.
  split; intros ctx s.
  - intros e Hok Hnil. eexists _, s. split; [|split; [|done]].
    + simpl. unfold MongoRepo.MongoRepo.Save. rewrite (bind_ok _ _ s s e), bool_decide_true by done. reflexivity.
    + done.
  - intros id Hok He. unfold Repo.entities in He. simpl in He. unfold mongo_entities in He.
    rewrite lookup_fmap in He. apply fmap_None in He. simpl. unfold MongoRepo.MongoRepo.Remove.
    destruct (law_delete_one (c := entities r) ctx s (id_is id_of id) (proj1 Hok))
      as [[_ (s' & Hrun & Hu' & Hv')]|(k & d' & Hm & _)].
    + eexists _, s'. rewrite (bind_ok _ _ _ _ _ (map_err_ok _ _ _ _ _ Hrun)). split; [reflexivity|].
      split; [done|]. by apply mongo_same.
    + destruct (matches_id _ _ _ _ Hok Hm) as [-> Hd]. congruence.
Qed.

Abbreviation find := (MongoRepo.MongoRepo.Find bson_Unmarshal r id_of).
Abbreviation save := (MongoRepo.MongoRepo.Save bson_Marshal r id_text).
Abbreviation remove := (MongoRepo.MongoRepo.Remove r id_of).

Lemma find_outcome ctx s id :
  mongo_ok s ->
  (find ctx id s).1 =
  match mongo_entities s !! id with
  | Some e => Ok e
  | None => Err (RepoError (Some (Sentinel ErrEntityNotFound)) RepoOpFind id)
  end.
Proof.
  intros Hok. pose proof (Find_run ctx s id Hok) as Hg. unfold mongo_entities. rewrite lookup_fmap.
  destruct (get (view s) !! id); destruct Hg as (s' & -> & _); done.
Qed.

(** an entity that is saved is found, the entities with other IDs are what
    they were, and once it is removed it is not found. *)
Theorem MongoRepo_roundtrip ctx s e id' :
  mongo_ok s -> keepable e -> EntityID e <> Nil -> id' <> EntityID e ->
  exists s1 s2 s3 s4 err,
    save ctx (Some e) s = (Ok tt, s1) /\ find ctx (EntityID e) s1 = (Ok e, s2) /\
    (find ctx id' s1).1 = (find ctx id' s).1 /\
    remove ctx (EntityID e) s2 = (Ok tt, s3) /\
    find ctx (EntityID e) s3 = (Err err, s4) /\ errors_Is err ErrEntityNotFound = true.
Proof.
  intros Hok Hk Hne Hid'.
  destruct (@law_save _ _ _ _ Mongo_RepoLaws ctx s e Hok Hk Hne) as (s1 & Hsave & Hok1 & He1).
  assert (mongo_entities s1 !! EntityID e = Some e) as Hl
    by (simpl in He1; by rewrite He1, lookup_insert_eq).
  destruct (@Repo.law_find _ _ _ _ Mongo_RepoLaws ctx s1 (EntityID e) e Hok1 Hl) as (s2 & Hfind & Hok2 & He2).
  simpl in He2. rewrite <- He2 in Hl.
  destruct (@Repo.law_remove _ _ _ _ Mongo_RepoLaws ctx s2 (EntityID e) e Hok2 Hl) as (s3 & Hrem & Hok3 & He3).
  destruct (@Repo.law_find_missing _ _ _ _ Mongo_RepoLaws ctx s3 (EntityID e) Hok3)
    as (err & s4 & Hmiss & Herr & _); [by rewrite He3, lookup_delete_eq|].
  exists s1, s2, s3, s4, err. split; [done|]. split; [done|]. split; [|done].
  pose proof (find_outcome ctx s id' Hok) as Hf. pose proof (find_outcome ctx s1 id' Hok1) as Hf1.
  simpl in He1. rewrite He1, lookup_insert_ne in Hf1 by done. by rewrite Hf, Hf1.
Qed.

(** [Save] does not clear what it does not encode: a field the entity's
    encoding leaves out keeps the value it had in the database. *)
Theorem MongoRepo_Save_keeps_omitted_fields ctx s e fields old field v :
  mongo_ok s -> EntityID e <> Nil -> bson_Marshal e = inl fields ->
  get (view s) !! EntityID e = Some old -> fields !! field = None -> old !! field = Some v ->
  exists s' new, save ctx (Some e) s = (Ok tt, s') /\ up s' /\
    get (view s') !! EntityID e = Some (wire new) /\ new !! field = Some v.
Proof.
  intros Hok Hne Hm Hold Hf Hv. unfold MongoRepo.MongoRepo.Save.
  rewrite (bind_ok _ _ s s e) by done. rewrite bool_decide_false, Hm by done.
  destruct (law_upsert (c := entities r) ctx s (EntityID e) (set_fields id_text (EntityID e) fields)
    (proj1 Hok)) as (s' & Hrun & Hu' & Hv').
  exists s', (set_fields id_text (EntityID e) fields (Some old)).
  split; [by apply map_err_ok|]. split; [done|]. split.
  - rewrite Hv'. unfold insert_doc. by rewrite law_get_put, lookup_insert_eq, Hold.
  - unfold set_fields. simpl. by rewrite lookup_union_r.
Qed.

(** ** The iterator *)

(** A caller that reads the iterator to its end: the values it saw and what
    [Close] returned. *)
Fixpoint drain (fuel : nat) (seen : list (option E)) : M (iter (E := E) (B := B)) (list (option E)) :=
  match fuel with
  | O => ret seen
  | Datatypes.S fuel' =>
      let! more := Next bson_Unmarshal in
      if more then
        let! v := Value in
        drain fuel' (seen ++ [v])
      else ret seen
  end.

Definition item_error (d : doc + error) : option error := (Decode bson_Unmarshal d (f tt)).2.

Lemma drain_run items seen cl data err :
  drain (length items) seen (mkIter items cl data f err) =
  (Ok (seen ++ ((fun d => Some (Decode bson_Unmarshal d (f tt)).1) <$> items)),
   mkIter [] cl (default data ((fun d => Some (Decode bson_Unmarshal d (f tt)).1) <$> last items)) f
     (default err (item_error <$> last items))).
Proof.
  revert seen data err. induction items as [|d items IH]; intros seen data err; [by rewrite app_nil_r|].
  cbn [length drain]. unfold item_error in *. unfold bind at 1, Next. simpl.
  destruct (Decode bson_Unmarshal d (f tt)) as [e o] eqn:Hd. cbn [bind gets Value]. unfold bind, Value, gets. simpl.
  rewrite IH. rewrite <- app_assoc. simpl. f_equal.
  rewrite last_cons. destruct (last items); simpl; by rewrite ?Hd.
Qed.

(** the iterator reports the decode error of the last value only: one that
    failed earlier is handed out like the others, half filled, and [Close]
    answers nil. *)
Theorem MongoRepo_iter_forgets_errors items d data :
  item_error d = None ->
  let i := mkIter (items ++ [d]) None data f None in
  exists i', drain (length (items ++ [d])) [] i =
      (Ok ((fun d => Some (Decode bson_Unmarshal d (f tt)).1) <$> items ++ [d]), i') /\
    Next bson_Unmarshal i' = (Ok false, i') /\ iter_Close i' = (Ok tt, i').
Proof.
  intros Hd. simpl. rewrite drain_run. eexists. split; [done|]. split; [done|].
  rewrite last_snoc. simpl. by rewrite Hd.
Qed.

End Theory.
(** ** A concrete repository: entities with an optional name *)

Definition Person : Type := UUID * string.

#[export] Instance Person_Entity : Entity Person := {
  EntityID := fst;
  Versionable _ := None
}.

Abbreviation pdoc := (gmap string any).
Abbreviation DB := (gmap UUID pdoc).

(** The name is encoded with [omitempty]. *)
Definition person_Marshal (p : Person) : pdoc + error :=
  inl (if bool_decide (p.2 = "") then {["_id" := AUUID p.1]}
       else {["_id" := AUUID p.1; "name" := AString p.2]}).

Definition person_Unmarshal (d : pdoc) (p : Person) : Person * option error :=
  match d !! "_id" ≫= as_uuid with
  | None => (p, Some (ErrorString "no _id"))
  | Some id => ((id, default p.2 (d !! "name" ≫= as_string)), None)
  end.

Definition demo_coll : Collection DB UUID pdoc unit :=
  map_collection (fun m => m) (fun m _ => m) (fun d => key as_uuid d) (fun _ d => d) (fun d => d)
    (fun _ => Nil) (fun _ => tt).

Definition new_person : unit -> Person := fun _ => (Nil, "").

Definition demo_repo : MongoRepo.MongoRepo.Repo (S := DB) (E := Person) (B := any) (I := unit) :=
  mkMongoRepo (map_client DB) externalClient demo_coll (Some new_person) false.

Abbreviation upv := (fun _ : DB => True).
Abbreviation viewv := (fun v : DB => v).

#[export] Instance demo_laws :
  CollectionLaws upv viewv (fun m => m) (fun m _ => m) (key as_uuid) (fun d => d) (fun _ _ => True)
    is_duplicate_key (entities demo_repo).
Proof. by apply map_CollectionLaws. Qed.

Definition ann : Person := (id1, "Ann").

Definition demo_db : DB := {[id1 := {["_id" := AUUID id1; "name" := AString "Ann"]}]}.

Lemma repo_demo_ok : mongo_ok upv viewv (fun m => m) person_Unmarshal as_uuid new_person demo_db.
Proof. split; [done|]. by apply map_Forall_singleton. Qed.

Lemma bob_keepable : keepable person_Marshal person_Unmarshal as_uuid (fun d => d) new_person (id2, "Bob").
Proof.
  eexists. split; [reflexivity|]. split.
  - intros v [= <-]. reflexivity.
  - intros old. unfold person_Unmarshal.
    by rewrite (lookup_union_Some_l _ _ "_id" (AUUID id2)), (lookup_union_Some_l _ _ "name" (AString "Bob")).
Qed.

Lemma MongoRepo_roundtrip_witness :
  exists s1 s2 s3 s4 err,
    MongoRepo.MongoRepo.Save person_Marshal demo_repo AUUID bg (Some (id2, "Bob")) demo_db = (Ok tt, s1) /\
    MongoRepo.MongoRepo.Find person_Unmarshal demo_repo as_uuid bg id2 s1 = (Ok (id2, "Bob"), s2) /\
    (MongoRepo.MongoRepo.Find person_Unmarshal demo_repo as_uuid bg id1 s1).1 =
      (MongoRepo.MongoRepo.Find person_Unmarshal demo_repo as_uuid bg id1 demo_db).1 /\
    MongoRepo.MongoRepo.Remove demo_repo as_uuid bg id2 s2 = (Ok tt, s3) /\
    MongoRepo.MongoRepo.Find person_Unmarshal demo_repo as_uuid bg id2 s3 = (Err err, s4) /\
    errors_Is err ErrEntityNotFound = true.
Proof.
  apply (MongoRepo_roundtrip (HE := Person_Entity) upv viewv (fun m => m) (fun m _ => m)
           person_Marshal person_Unmarshal
           AUUID as_uuid (fun d => d) (fun _ _ => True) is_duplicate_key demo_repo new_person
           eq_refl (fun _ => eq_refl) (fun _ => eq_refl) bg demo_db (id2, "Bob") id1).
  - exact repo_demo_ok.
  - exact bob_keepable.
  - done.
  - done.
Defined.

(** A person whose name was taken away keeps it in the database. *)
Lemma MongoRepo_Save_keeps_omitted_fields_witness :
  exists s' new,
    MongoRepo.MongoRepo.Save person_Marshal demo_repo AUUID bg (Some (id1, "")) demo_db = (Ok tt, s') /\
    True /\ s' !! id1 = Some new /\ new !! "name" = Some (AString "Ann").
Proof.
  apply (MongoRepo_Save_keeps_omitted_fields (HE := Person_Entity) upv viewv (fun m => m) (fun m _ => m) person_Marshal
           person_Unmarshal AUUID as_uuid (fun d => d) (fun _ _ => True) is_duplicate_key demo_repo
           new_person bg demo_db (id1, "") {["_id" := AUUID id1]}
           {["_id" := AUUID id1; "name" := AString "Ann"]} "name" (AString "Ann")).
  - exact repo_demo_ok.
  - done.
  - reflexivity.
  - reflexivity.
  - reflexivity.
  - reflexivity.
Defined.

Lemma MongoRepo_iter_forgets_errors_witness :
  let bad := inl ∅ in
  let good := inl {["_id" := AUUID id1; "name" := AString "Ann"]} in
  exists i', drain person_Unmarshal 2 [] (mkIter [bad; good] None None new_person None) =
      (Ok [Some (Nil, ""); Some (id1, "Ann")], i') /\
    Next person_Unmarshal i' = (Ok false, i') /\ iter_Close i' = (Ok tt, i').
Proof.
  destruct (MongoRepo_iter_forgets_errors person_Unmarshal new_person [inl ∅]
              (inl {["_id" := AUUID id1; "name" := AString "Ann"]}) None) as (i' & Hd & Hn & Hc).
  - reflexivity.
  - exists i'. split; [|split; [exact Hn|exact Hc]].
    transitivity (drain person_Unmarshal 2 []
      (mkIter ([inl ∅] ++ [inl {["_id" := AUUID id1; "name" := AString "Ann"]}]) None None new_person None));
      [reflexivity|]. etransitivity; [exact Hd|]. reflexivity.
Defined.

End MongoRepoSpec.
