(* ===== verification/MongoOutbox.v ===== *)
(** * The MongoDB outbox ([outbox/mongodb/outbox.go])

    A record of the outbox waits for the types in [Handlers]; whoever handles
    it first takes it by a filtered update of [taken_at].  [local] is the state
    of the [Outbox] value, [X] that of the rest of the program, in which the
    codec and the handlers run (handlers may use the server too).  Handlers,
    their matchers and the error channel are those of the in-memory outbox.

    A change stream is what reading it to its end gives: for each change the
    time at which it is handled and the record or the error of decoding it.
    The time is an argument of every step. *)

From stdpp Require Import base gmap strings list numbers option pretty.
From Stdlib Require Import Lia ZArith.
From S2P Require Import Prelude.
From S2P Require Import GoTypes.
From S2P Require Import Event.
From S2P Require Import Command.
From S2P Require Import Errors.
From S2P Require Import Fixtures.
From S2P Require Import Outbox.
From S2P Require Import Mongo.

Module MongoOutbox.

(** [omitempty] fields that are zero are absent: the [ID] of a new record, its
    [TakenAt] and an empty [WatchToken]. *)
Record outboxDoc (O : Type) : Type := mkOutboxDoc {
  ID : option O;
  Event : string;
  Handlers : list string;
  WatchToken : string;
  CreatedAt : Time;
  TakenAt : Time
}.
Arguments mkOutboxDoc {O}.
Arguments ID {O}.
Arguments Event {O}.
Arguments Handlers {O}.
Arguments WatchToken {O}.
Arguments CreatedAt {O}.
Arguments TakenAt {O}.

(** A change stream; a [fullDocument] that is missing is an outer error, one
    that cannot be decoded an inner one. *)
Record ChangeStream (O R : Type) : Type := mkChangeStream {
  cs_changes : list (Time * ((outboxDoc O + error) + error));
  cs_err : option error;
  cs_ResumeToken : option R
}.
Arguments mkChangeStream {O R}.
Arguments cs_changes {O R}.
Arguments cs_err {O R}.
Arguments cs_ResumeToken {O R}.

Section Outbox.
(** [O]: object IDs; [I]: the IDs an insertion reports; [R]: resume tokens. *)
Context {S X O I R : Type} `{EqDecision O}.

Abbreviation doc := (outboxDoc O).
Abbreviation coll := (Collection S O doc I).
Abbreviation mh := (matcherHandler (X := S * X)).

Record Outbox : Type := mkOutbox {
  client : Client S;
  ownership : clientOwnership;
  outbox : coll;
  watchToken : string
}.

Record local : Type := mkLocal {
  handlers : list mh;
  errCh : list error;
  resumeToken : option R
}.

Abbreviation St := (S * (local * X))%type.

(** The parts of the program a step runs in. *)
Definition on_local {A} (m : M local A) : M St A := zoom_snd (zoom_fst m).

Definition on_rest {A} (m : M X A) : M St A := zoom_snd (zoom_snd m).

Definition on_both {A} (m : M (S * X) A) : M St A :=
  zoom (fun st => (st.1, st.2.2)) (fun sx st => (sx.1, (st.2.1, sx.2))) m.

(** ** Creation *)

(** [o.outbox.Database().Collection(name)] *)
Context (Collection_named : string -> coll).

Definition Option : Type := Outbox -> Outbox + error.

Definition WithWatchToken (token : string) : Option := fun o =>
  inl (mkOutbox (client o) (ownership o) (outbox o) token).

Definition WithCollectionName (outboxColl : string) : Option := fun o =>
  match CheckCollectionName (S := unit) outboxColl tt with
  | (Ok _, _) => inl (mkOutbox (client o) (ownership o) (Collection_named outboxColl) (watchToken o))
  | (Err err, _) => inr (Errorf "outbox collection" err)
  | (Panic _, _) => inl o
  end.

Fixpoint apply_options (options : list Option) (o : Outbox) : Outbox + error :=
  match options with
  | [] => inl o
  | option :: options' =>
      match option o with
      | inl o' => apply_options options' o'
      | inr err => inr (Errorf "error while applying option" err)
      end
  end.

Definition newOutboxWithClient (cl : option (Client S)) (own : clientOwnership)
    (options : list Option) : M S (Outbox * local) :=
  match cl with
  | None => throw (ErrorString "missing DB client")
  | Some cl =>
      match apply_options options (mkOutbox cl own (Collection_named "outbox") "") with
      | inr err => throw err
      | inl o =>
          do! map_err (Errorf "could not connect to MongoDB") (Ping (client o)) in
          ret (o, mkLocal [] [] None)
      end
  end.

Definition NewOutboxWithClient (cl : option (Client S)) (options : list Option)
  : M S (Outbox * local) := newOutboxWithClient cl externalClient options.

Definition NewOutbox (Connect : list client_option -> Client S + error) (uri : string)
    (options : list Option) : M S (Outbox * local) :=
  connecting Connect uri (fun cl own => newOutboxWithClient cl own options).

Definition HandlerType : string := "outbox".

Definition AddHandler (m : option (event -> bool))
    (h : option (string * (context -> event -> M (S * X) unit))) : M local unit :=
  match m with
  | None => throw (Sentinel ErrMissingMatcher)
  | Some m =>
      match h with
      | None => throw (Sentinel ErrMissingHandler)
      | Some (t, h) =>
          let! l := gets (fun l => l) in
          match Outbox.handler t (handlers l) with
          | Some _ => throw (Sentinel ErrHandlerAlreadyAdded)
          | None =>
              modify (fun l => mkLocal (handlers l ++ [mkMatcherHandler m t h])
                                 (errCh l) (resumeToken l))
          end
      end
  end.

(** The handler of a type ([handlersByType] has the handlers of the list). *)
Definition handler (handlerType : string) : M local (option mh) :=
  gets (fun l => Outbox.handler handlerType (handlers l)).

(** Sending on [errCh], with the [default] case that drops the error. *)
Definition report (err : error) : M local unit :=
  modify (fun l => mkLocal (handlers l) (Outbox.send errCh_cap err (errCh l)) (resumeToken l)).

Section Codec.
Context (MarshalEvent : context -> event -> M X string).
Context (UnmarshalEvent : context -> string -> M X (event * context)).

Section Ops.
Context (o : Outbox).

Definition HandleEvent (now : Time) (ctx : context) (ev : option event) : M St unit :=
  let! event := deref ev in
  let! e := map_err (Errorf "could not marshal event") (on_rest (MarshalEvent ctx event)) in
  let! hs := on_local (gets handlers) in
  let handlerNames := mh_HandlerType <$> filter (fun h => mh_Match h event = true) hs in
  map_err (Errorf "could not queue event")
    (zoom_fst (InsertOne (outbox o) ctx (mkOutboxDoc None e handlerNames (watchToken o) now 0))).

Definition Close : M S unit := close_client (client o) (ownership o).

(** ** Processing *)

(** The filters: [{"taken_at": nil}] matches records without the field, and
    [$lt] on [taken_at] those that have it. *)
Definition not_taken (d : doc) : bool := IsZero (TakenAt d).

Definition taken_before (t : Time) (d : doc) : bool :=
  negb (IsZero (TakenAt d)) && Before (TakenAt d) t.

Definition abandoned (now : Time) (d : doc) : bool :=
  not_taken d && Before (CreatedAt d) (Add now (- PeriodicCleanupAge)).

Definition has_id (id : option O) (d : doc) : bool := bool_decide (ID d = id).

Definition can_take (id : option O) (now : Time) (d : doc) : bool :=
  has_id id d &&
  (not_taken d || taken_before (Add now (- PeriodicSweepAge)) d || abandoned now d).

Definition set_taken_at (now : Time) (d : doc) : doc :=
  mkOutboxDoc (ID d) (Event d) (Handlers d) (WatchToken d) (CreatedAt d) now.

(** [$pullAll]: every value that is one of [processed] goes. *)
Definition pull_handlers (processed : list string) (d : doc) : doc :=
  mkOutboxDoc (ID d) (Event d) (filter (fun t => t ∉ processed) (Handlers d))
    (WatchToken d) (CreatedAt d) (TakenAt d).

(** The loop over [r.Handlers]: the types whose handler succeeded. *)
Fixpoint process_handlers (ctx : context) (event : event) (types : list string)
  : M St (list string) :=
  match types with
  | [] => ret []
  | handlerType :: types' =>
      let! mh := on_local (handler handlerType) in
      match mh with
      | None => process_handlers ctx event types'
      | Some mh =>
          if negb (mh_Match mh event) then process_handlers ctx event types'
          else
            let! res := attempt (on_both (mh_HandleEvent mh ctx event)) in
            match res with
            | inr err =>
                do! on_local (report (OutboxError
                      (Some (Errorf ("could not handle event (" +:+ mh_HandlerType mh +:+ ")") err))
                      (Some ctx) (Some event))) in
                process_handlers ctx event types'
            | inl _ =>
                let! processed := process_handlers ctx event types' in
                ret (handlerType :: processed)
            end
      end
  end.

(** [%w] of a nil error. *)
Definition no_longer_there : error :=
  ErrorString "could not find outbox event to set as handled: %!w(<nil>)".

Definition processOutboxEvent (ctx : context) (r : doc) (now : Time) : M St unit :=
  let! (event, ctx) :=
    map_err (fun err => OutboxError (Some (Errorf "could not unmarshal event" err)) None None)
      (on_rest (UnmarshalEvent ctx (Event r))) in
  let fail err := OutboxError (Some err) (Some ctx) (Some event) in
  let! matched := map_err (fun err => fail (Errorf "could not take event for handling" err))
    (zoom_fst (UpdateOne (outbox o) ctx (can_take (ID r) now) (set_taken_at now))) in
  if matched =? 0 then ret tt
  else
    let! processedHandlers := process_handlers ctx event (Handlers r) in
    if len processedHandlers =? len (Handlers r) then
      let! deleted := map_err (fun err => fail (Errorf "could not delete outbox event" err))
        (zoom_fst (DeleteOne (outbox o) ctx (has_id (ID r)))) in
      ret tt
    else if 0 <? len processedHandlers then
      let! matched := map_err (fun err => fail (Errorf "could not set outbox event as handled" err))
        (zoom_fst (UpdateOne (outbox o) ctx (has_id (ID r)) (pull_handlers processedHandlers))) in
      if matched =? 0 then throw (fail no_longer_there) else ret tt
    else ret tt.

(** What a sweep looks for. *)
Definition sweepable (now : Time) (d : doc) : bool :=
  taken_before (Add now (- PeriodicSweepAge)) d || abandoned now d.

(** [for cur.Next(ctx) { .. }]; the error that ended the cursor is not read. *)
Fixpoint sweep_items (now : Time) (items : list (doc + error)) : M St unit :=
  match items with
  | [] => ret tt
  | inr err :: _ => throw (Errorf "could not unmarshal outbox event" err)
  | inl r :: items' =>
      do! map_err (Errorf "could not process outbox event") (processOutboxEvent Background r now) in
      sweep_items now items'
  end.

Definition processFullOutbox (now : Time) (ctx : context) : M St unit :=
  let! cur := map_err (Errorf "could not find outbox event")
                (zoom_fst (Find (outbox o) ctx (sweepable now) None)) in
  do! sweep_items now (c_items cur) in
  match c_close cur with
  | Some err => throw err
  | None => ret tt
  end.

Definition processStreamEvent (streamEvent : (doc + error) + error) (now : Time) : M St unit :=
  match streamEvent with
  | inr err => throw (Errorf "missing outbox event" err)
  | inl (inr err) => throw (Errorf "could not unmarshal outbox event" err)
  | inl (inl r) =>
      map_err (Errorf "could not process outbox event") (processOutboxEvent Background r now)
  end.

(** [Watch] with the match on the watch token and the token to resume after. *)
Context (Watch : context -> option string -> option R -> M S (ChangeStream O R)).

(** The loop over the stream: an error goes to the error channel. *)
Definition watch_loop (changes : list (Time * ((doc + error) + error))) : M St unit :=
  for_range changes (fun '(now, streamEvent) =>
    let! res := attempt (processStreamEvent streamEvent now) in
    match res with
    | inl _ => ret tt
    | inr err => on_local (report (OutboxError (Some err) None None))
    end).

Definition processWithWatch (ctx : context) : M St unit :=
  let! resume := on_local (gets resumeToken) in
  let token := if bool_decide (watchToken o = "") then None else Some (watchToken o) in
  let! stream := map_err (Errorf "could not watch outbox") (zoom_fst (Watch ctx token resume)) in
  do! watch_loop (cs_changes stream) in
  do! on_local (modify (fun l => mkLocal (handlers l) (errCh l) (cs_ResumeToken stream))) in
  match cs_err stream with
  | Some err => throw (Errorf "watch error" err)
  | None => ret tt
  end.

(** ** The goroutines

    [wakes]: the times at which the timer fires before the outbox is closed. *)

(** One run of [f]: whether the goroutine goes on. *)
Definition run_once (f : M St unit) : M St bool :=
  let! res := attempt f in
  match res with
  | inl _ => ret true
  | inr err =>
      if errors_Is err (CtxErr Canceled) then ret false
      else do! on_local (report (OutboxError (Some err) None None)) in ret true
  end.

Fixpoint runPeriodicallyUntilCancelled (f : Time -> M St unit) (now : Time) (wakes : list Time)
  : M St unit :=
  let! continue := run_once (f now) in
  if continue then
    match wakes with
    | [] => ret tt
    | now' :: wakes' => runPeriodicallyUntilCancelled f now' wakes'
    end
  else ret tt.

End Ops.
End Codec.
End Outbox.
End MongoOutbox.
