(* ===== verification/MongoOutboxSpec.v ===== *)
(** * What the MongoDB outbox promises

    Against the documented behaviour of the server ([CollectionLaws]):
    an event is queued for the handlers that match, a record lets go of a
    handler only after it succeeded, a record that was taken is left alone until
    the sweep age has passed, and what one sweep does to the outbox. *)

From stdpp Require Import base gmap strings list numbers option pretty.
From Stdlib Require Import Lia ZArith.
From S2P Require Import Prelude.
From S2P Require Import GoTypes.
From S2P Require Import Event.
From S2P Require Import Command.
From S2P Require Import Errors.
From S2P Require Import Fixtures.
From S2P Require Import Outbox.
From S2P Require Import Mongo.
From S2P Require Import MongoOutbox.

Import MongoOutbox.MongoOutbox.

Module MongoOutboxSpec.

Section Theory.
Context {S X O I R V : Type} `{Countable O} (up : S -> Prop) (view : S -> V).
Abbreviation doc := (outboxDoc O).
Context (get : V -> gmap O doc) (put : gmap O doc -> V -> V) (wire : doc -> doc).
Context (is_id : O -> I -> Prop) (dup : error -> bool).
Context (o : MongoOutbox.MongoOutbox.Outbox (S := S) (O := O) (I := I)).
Context `{Hcoll : !CollectionLaws up view get put ID wire is_id dup (outbox o)}.
Context (MarshalEvent : context -> event -> M X string).
Context (UnmarshalEvent : context -> string -> M X (event * context)).

(** What is read back of a record; dates may be rounded, but a record that was
    taken is not read back as one that was not. *)
Context (Hwire : forall d, ID (wire d) = ID d /\ MongoOutbox.MongoOutbox.Event (wire d) = MongoOutbox.MongoOutbox.Event d /\
  Handlers (wire d) = Handlers d /\ (TakenAt (wire d) = 0 <-> TakenAt d = 0)).

Abbreviation Event := MongoOutbox.MongoOutbox.Event.
Abbreviation mh := (matcherHandler (X := S * X)).
Abbreviation St := (S * (local (S := S) (X := X) (R := R) * X))%type.
Abbreviation given := (gives up view).
Abbreviation process := (processOutboxEvent (R := R) UnmarshalEvent o).
Abbreviation sweep := (processFullOutbox (R := R) UnmarshalEvent o).
Abbreviation handlers := (MongoOutbox.MongoOutbox.handlers (S := S) (X := X) (R := R)).
Abbreviation errCh := MongoOutbox.MongoOutbox.errCh.
Abbreviation process_handlers := MongoOutbox.MongoOutbox.process_handlers.

Definition records (s : S) : gmap O doc := get (view s).

(** The invariant of the collection: records are under their [_id]. *)
Definition outbox_ok (s : S) : Prop := up s /\ map_Forall (fun id d => ID d = Some id) (records s).

(** A handler may put events into the outbox, but does not touch its
    records. *)
Definition keeps_records (h : mh) : Prop :=
  forall ctx e s x, outbox_ok s ->
    let '(_, (s', _)) := mh_HandleEvent h ctx e (s, x) in
    outbox_ok s' /\ records s ⊆ records s'.

Definition decodes (r : doc) (e : event) (ctx : context) : Prop :=
  exists x x', UnmarshalEvent Background (Event r) x = (Ok (e, ctx), x').

(** The handler of type [t] ran on an event and succeeded. *)
Definition ran_ok (hs : list mh) (ctx : context) (e : event) (t : string) : Prop :=
  exists h st st', Outbox.handler t hs = Some h /\ mh_Match h e = true /\
    mh_HandleEvent h ctx e st = (Ok tt, st').

Definition succeeded (hs : list mh) (r : doc) (t : string) : Prop :=
  exists e ctx, decodes r e ctx /\ ran_ok hs ctx e t.

Lemma records_insert s s' k d :
  view s' = insert_doc get put wire k d (view s) -> records s' = <[k := wire d]> (records s).
Proof. intros Hv. unfold records. rewrite Hv. unfold insert_doc. apply law_get_put. Qed.

Lemma outbox_ok_insert s s' k d :
  outbox_ok s -> up s' -> view s' = insert_doc get put wire k d (view s) -> ID d = Some k ->
  outbox_ok s'.
Proof.
  intros [_ Hok] Hu Hv Hd. split; [done|]. rewrite (records_insert _ _ _ _ Hv).
  apply map_Forall_insert_2; [|done]. by rewrite (proj1 (Hwire d)).
Qed.

Lemma outbox_ok_same s s' : outbox_ok s -> up s' -> view s' = view s -> outbox_ok s' /\ records s' = records s.
Proof. intros [? ?] ? Hv. unfold outbox_ok, records. by rewrite Hv. Qed.

Lemma matches_record s (f : doc -> bool) id k d :
  outbox_ok s -> (f d = true -> ID d = Some id) -> matches get (view s) f k d ->
  k = id /\ records s !! id = Some d /\ f d = true.
Proof.
  intros [_ Hok] Hf [Hk Hm]. specialize (Hf Hm). specialize (Hok _ _ Hk). simpl in Hok.
  assert (k = id) as -> by congruence. done.
Qed.

(** Updates and deletions by [_id]. *)
Lemma update_by_id ctx s id d (f : doc -> bool) u :
  outbox_ok s -> records s !! id = Some d -> (forall d, f d = true -> ID d = Some id) ->
  if f d then given (UpdateOne (outbox o) ctx f u) s (Ok 1) (insert_doc get put wire id (u d) (view s))
  else given (UpdateOne (outbox o) ctx f u) s (Ok 0) (view s).
Proof.
  intros Hok Hd Hf.
  destruct (law_update_one (c := outbox o) ctx s f u (proj1 Hok)) as [[Hno Hg]|(k & d' & Hm & Hg)].
  - by rewrite (Hno _ _ Hd).
  - destruct (matches_record _ _ _ _ _ Hok (Hf d') Hm) as (-> & Hd' & Hfd).
    assert (d' = d) as -> by congruence. by rewrite Hfd.
Qed.

Lemma delete_by_id ctx s id d :
  outbox_ok s -> records s !! id = Some d ->
  given (DeleteOne (outbox o) ctx (has_id (Some id))) s (Ok 1) (put (delete id (records s)) (view s)).
Proof.
  intros Hok Hd. assert (has_id (Some id) d = true) as Hid
    by (apply bool_decide_eq_true; by apply (proj2 Hok)).
  destruct (law_delete_one (c := outbox o) ctx s (has_id (Some id)) (proj1 Hok))
    as [[Hno _]|(k & d' & Hm & Hg)].
  - by rewrite (Hno _ _ Hd) in Hid.
  - destruct (matches_record _ _ id _ _ Hok (proj1 (bool_decide_eq_true _)) Hm) as (-> & _). done.
Qed.

Lemma can_take_id (id : O) now (d : doc) : can_take (Some id) now d = true -> ID d = Some id.
Proof. intros [Hid _]%andb_true_iff. by apply bool_decide_eq_true in Hid. Qed.

(** ** Handling *)

Definition kept (s : S) (hs : list mh) (s' : S) (l' : local (S := S) (X := X) (R := R)) : Prop :=
  outbox_ok s' /\ records s ⊆ records s' /\ handlers l' = hs.

Lemma kept_step s s1 hs s' l' : records s ⊆ records s1 -> kept s1 hs s' l' -> kept s hs s' l'.
Proof. intros Hs (? & ? & ?). split_and!; [done|by etransitivity|done]. Qed.

Lemma mongo_process_handlers_spec ctx e types s l x :
  outbox_ok s -> Forall keeps_records (handlers l) ->
  match process_handlers ctx e types (s, (l, x)) with
  | (Ok ps, (s', (l', _))) =>
      kept s (handlers l) s' l' /\ sublist ps types /\ Forall (ran_ok (handlers l) ctx e) ps
  | (Err _, _) => False
  | (Panic _, (s', (l', _))) => kept s (handlers l) s' l'
  end.
Proof.
  intros Hok Hk. revert s l x Hok Hk. induction types as [|t types IH]; intros s l x Hok Hk; [by split_and!|].
  cbn [MongoOutbox.MongoOutbox.process_handlers].
  rewrite (bind_ok _ _ _ (s, (l, x)) (Outbox.handler t (handlers l))) by done.
  assert (forall ps, sublist ps types -> sublist ps (t :: types)) as Hsub by (by constructor).
  destruct (Outbox.handler t (handlers l)) as [h|] eqn:Hh.
  2: { specialize (IH s l x Hok Hk). destruct (process_handlers _ _ _ _) as [[ps|?|?] (s' & l' & x')]; [|done..].
       destruct IH as (? & ? & ?). by auto. }
  destruct (mh_Match h e) eqn:Hm; cbn [negb].
  2: { specialize (IH s l x Hok Hk). destruct (process_handlers _ _ _ _) as [[ps|?|?] (s' & l' & x')]; [|done..].
       destruct IH as (? & ? & ?). by auto. }
  pose proof (proj1 (Forall_forall _ _) Hk h (proj1 (handler_spec _ _ _ Hh)) ctx e s x Hok) as Hkeep.
  unfold bind at 1, attempt, on_both, zoom. simpl.
  destruct (mh_HandleEvent h ctx e (s, x)) as [[[]|err|p] [s1 x1]] eqn:Hrun; simpl; destruct Hkeep as [Hok1 Hsub1].
  - specialize (IH s1 l x1 Hok1 Hk). unfold bind.
    destruct (process_handlers _ _ _ _) as [[ps|?|?] (s' & l' & x')]; [|done|by eapply kept_step].
    destruct IH as (? & ? & ?). split_and!; [by eapply kept_step|by constructor|].
    constructor; [|done]. by exists h, (s, x), (s1, x1).
  - unfold on_local, zoom_snd, zoom_fst, zoom, report, modify, bind. simpl.
    match goal with |- context [process_handlers _ _ _ (s1, (?l, x1))] =>
      specialize (IH s1 l x1 Hok1 Hk) end.
    destruct (process_handlers _ _ _ _) as [[ps|?|?] (s' & l' & x')]; [|done|by eapply kept_step].
    destruct IH as (? & ? & ?). split_and!; [by eapply kept_step|by auto|done].
  - by split_and!.
Qed.

(** Decoding touches nothing but the rest of the program. *)
Lemma unmarshal_bind {A} (r : doc) (k : event * context -> M St A) s l x (P : result A * St -> Prop) :
  (forall e ctx x', UnmarshalEvent Background (Event r) x = (Ok (e, ctx), x') ->
     P (k (e, ctx) (s, (l, x')))) ->
  (forall out x', P (Err out, (s, (l, x')))) -> (forall p x', P (Panic p, (s, (l, x')))) ->
  P (bind (map_err (fun err => OutboxError (Some (Errorf "could not unmarshal event" err)) None None)
             (on_rest (UnmarshalEvent Background (Event r)))) k (s, (l, x))).
Proof.
  intros Hk He Hp. unfold bind, map_err, on_rest, zoom_snd, zoom. simpl.
  destruct (UnmarshalEvent Background (Event r) x) as [[[e ctx]|err|p] x'] eqn:Hu; simpl; auto.
Qed.

(** What became of the record [d] at [id] when the handlers were [hs]: still
    there, and waiting for every handler that did not succeed, or gone with
    nothing to wait for; and of the others: nothing. *)
Definition accounted (s : S) (hs : list mh) (id : O) (d : doc) (s' : S) : Prop :=
  outbox_ok s' /\
  match records s' !! id with
  | Some d' => ID d' = Some id /\ Event d' = Event d /\
      forall t, t ∈ Handlers d -> t ∈ Handlers d' \/ succeeded hs d t
  | None => forall t, t ∈ Handlers d -> succeeded hs d t
  end /\
  (forall id' d', id' <> id -> records s !! id' = Some d' -> records s' !! id' = Some d').

Definition accounts (s : S) (hs : list mh) (id : O) (d : doc) (res : result unit * St) : Prop :=
  let '(_, (s', (l', _))) := res in handlers l' = hs /\ accounted s hs id d s'.

Lemma accounted_refl s hs id d :
  outbox_ok s -> records s !! id = Some d -> accounted s hs id d s.
Proof.
  intros Hok Hd. split; [done|]. split; [|done]. rewrite Hd.
  split; [by apply (proj2 Hok)|]. by auto.
Qed.

(** The states while a record is taken. *)
Definition holding (s : S) (id : O) (d : doc) (s' : S) : Prop :=
  outbox_ok s' /\ exists d', records s' !! id = Some d' /\ Event d' = Event d /\ Handlers d' = Handlers d /\
  (forall id' d', id' <> id -> records s !! id' = Some d' -> records s' !! id' = Some d').

Lemma holding_accounted s hs id d s' : holding s id d s' -> accounted s hs id d s'.
Proof.
  intros (Hok & d' & Hd' & He & Hh & Hoth). split; [done|]. split; [|done]. rewrite Hd'.
  split; [by apply (proj2 Hok)|]. split; [done|]. rewrite Hh. by auto.
Qed.

Lemma take_holding s id d now s1 :
  outbox_ok s -> records s !! id = Some d -> up s1 ->
  view s1 = insert_doc get put wire id (set_taken_at now d) (view s) -> holding s id d s1.
Proof.
  intros Hok Hd Hu Hv. split.
  - apply (outbox_ok_insert s s1 id (set_taken_at now d)); [done..|]. exact (proj2 Hok id d Hd).
  - rewrite (records_insert _ _ _ _ Hv). exists (wire (set_taken_at now d)).
    destruct (Hwire (set_taken_at now d)) as (_ & He & Hh & _).
    split_and!; [by rewrite lookup_insert_eq|done..|]. intros. by rewrite lookup_insert_ne.
Qed.

Lemma holding_mono s id d s1 s2 :
  holding s id d s1 -> outbox_ok s2 -> records s1 ⊆ records s2 -> holding s id d s2.
Proof.
  intros (_ & d' & Hd' & He & Hh & Hoth) Hok Hsub. split; [done|]. exists d'.
  split_and!; [by eapply lookup_weaken|done..|]. intros id' d'' Hne Hl.
  eapply lookup_weaken; [|exact Hsub]. by apply Hoth.
Qed.

(** Letting the record, or the handlers that are done, go. *)
Lemma delete_accounted s hs id d s1 s2 :
  holding s id d s1 -> up s2 -> view s2 = put (delete id (records s1)) (view s1) ->
  (forall t, t ∈ Handlers d -> succeeded hs d t) -> accounted s hs id d s2.
Proof.
  intros ([_ Hok] & d' & _ & _ & _ & Hoth) Hu Hv Hs.
  assert (records s2 = delete id (records s1)) as Hr by (unfold records; rewrite Hv; apply law_get_put).
  split; [split; [done|]; rewrite Hr; by apply map_Forall_delete|]. rewrite Hr. split.
  - by rewrite lookup_delete_eq.
  - intros id' d'' Hne Hl. rewrite lookup_delete_ne by done. by apply Hoth.
Qed.

Lemma pull_accounted s hs id d s1 d1 s2 ps :
  holding s id d s1 -> records s1 !! id = Some d1 -> up s2 ->
  view s2 = insert_doc get put wire id (pull_handlers ps d1) (view s1) ->
  Forall (succeeded hs d) ps -> accounted s hs id d s2.
Proof.
  intros (Hok & d' & Hd' & He & Hh & Hoth) Hd1 Hu Hv Hs. assert (d1 = d') as -> by congruence.
  assert (ID d' = Some id) as HID by (by apply (proj2 Hok)).
  split; [by apply (outbox_ok_insert s1 s2 id (pull_handlers ps d'))|]. rewrite (records_insert _ _ _ _ Hv). split.
  - rewrite lookup_insert_eq. destruct (Hwire (pull_handlers ps d')) as (Hi & Hev & Hha & _).
    rewrite Hi, Hev, Hha. simpl. split; [done|]. split; [done|]. intros t Ht.
    destruct (decide (t ∈ ps)) as [Hp|Hp].
    + right. rewrite Forall_forall in Hs. by apply Hs.
    + left. rewrite list_elem_of_filter, Hh. done.
  - intros id' d'' Hne Hl. rewrite lookup_insert_ne by done. by apply Hoth.
Qed.

(** C17: at least once.  A record is in the outbox until all its handlers ran on its
    event and succeeded; a handler it no longer waits for did.  That holds however
    processing ends, and if the record as it was read is older than the one
    in the database.  Nothing else is taken out of the outbox. *)
Theorem MongoOutbox_at_least_once s l x id d r now :
  outbox_ok s -> Forall keeps_records (handlers l) ->
  records s !! id = Some d -> ID r = Some id -> Event r = Event d -> Handlers d ⊆ Handlers r ->
  accounts s (handlers l) id d (process Background r now (s, (l, x))).
Proof.
  intros Hok Hk Hd Hr He Hsub. unfold MongoOutbox.MongoOutbox.processOutboxEvent.
  apply unmarshal_bind; [|by split; [|apply accounted_refl]..].
  intros e ctx x' Hdec. cbn beta iota. rewrite Hr.
  assert (forall t, ran_ok (handlers l) ctx e t -> succeeded (handlers l) d t) as Hsucc.
  { intros t Ht. exists e, ctx. split; [|done]. unfold decodes. rewrite <- He. by exists x, x'. }
  pose proof (update_by_id ctx s id d (can_take (Some id) now) (set_taken_at now) Hok Hd
    (can_take_id id now)) as Htake.
  destruct (can_take (Some id) now d); (eapply zoom_map_bind; [exact Htake|]); intros s1 Hu1 Hv1; cbn [Z.eqb].
  2: { destruct (outbox_ok_same s s1 Hok Hu1 Hv1) as [Hok1 Hrec1]. split; [done|].
       destruct (accounted_refl s1 (handlers l) id d Hok1) as (? & ? & ?); [by rewrite Hrec1|].
       split; [done|]. by rewrite <- Hrec1. }
  pose proof (take_holding s id d now s1 Hok Hd Hu1 Hv1) as Hh1.
  pose proof (mongo_process_handlers_spec ctx e (Handlers r) s1 l x' (proj1 Hh1) Hk) as Hp.
  unfold bind at 1. destruct (process_handlers ctx e (Handlers r) _) as [[ps|err|p] (s2 & l2 & x2)]; [|done|].
  2: { destruct Hp as (Hok2 & Hsub2 & Hhs). split; [done|]. apply holding_accounted.
       by apply (holding_mono _ _ _ s1). }
  destruct Hp as ((Hok2 & Hsub2 & Hhs) & Hps & Hran).
  pose proof (holding_mono _ _ _ s1 s2 Hh1 Hok2 Hsub2) as Hh2.
  assert (Forall (succeeded (handlers l) d) ps) as Hall by (eapply Forall_impl; [exact Hran|exact Hsucc]).
  destruct (proj2 Hh2) as (d2 & Hd2 & _).
  destruct (Z.eqb_spec (len ps) (len (Handlers r))) as [Hlen|Hlen].
  - apply len_sublist in Hlen as ->; [|done].
    eapply zoom_map_bind; [exact (delete_by_id ctx s2 id d2 Hok2 Hd2)|]. intros s3 Hu3 Hv3. split; [done|].
    eapply delete_accounted; [exact Hh2|done|done|]. intros t Ht. rewrite Forall_forall in Hall.
    apply Hall. by apply Hsub.
  - destruct (0 <? len ps); [|by split; [|apply holding_accounted]].
    pose proof (update_by_id ctx s2 id d2 (has_id (Some id)) (pull_handlers ps) Hok2 Hd2
      (fun d => proj1 (bool_decide_eq_true _))) as Hup.
    assert (has_id (Some id) d2 = true) as Hid by (apply bool_decide_eq_true; by apply (proj2 Hok2)).
    rewrite Hid in Hup. eapply zoom_map_bind; [exact Hup|]. intros s3 Hu3 Hv3. cbn [Z.eqb].
    split; [done|]. by eapply pull_accounted.
Qed.

(** a record that was taken is nobody else's until the sweep age has passed:
    until then another outbox that has read it, from the change stream or in a
    sweep, changes nothing and runs no handler. *)
Theorem MongoOutbox_taken_left_alone s l x x' id d r e ctx now :
  outbox_ok s -> records s !! id = Some d -> ID r = Some id ->
  TakenAt d <> 0 -> now <= TakenAt d + PeriodicSweepAge ->
  UnmarshalEvent Background (Event r) x = (Ok (e, ctx), x') ->
  exists s', process Background r now (s, (l, x)) = (Ok tt, (s', (l, x'))) /\
    up s' /\ view s' = view s.
Proof.
  intros Hok Hd Hr Ht Hnow Hdec. unfold MongoOutbox.MongoOutbox.processOutboxEvent, on_rest.
  rewrite (bind_ok _ _ _ (s, (l, x')) (e, ctx))
    by (apply map_err_ok; unfold zoom_snd, zoom; simpl; by rewrite Hdec).
  cbn beta iota. rewrite Hr.
  pose proof (update_by_id ctx s id d (can_take (Some id) now) (set_taken_at now) Hok Hd
    (can_take_id id now)) as Htake.
  assert (can_take (Some id) now d = false) as Hno.
  { unfold can_take, not_taken, taken_before, abandoned, not_taken, IsZero, Before, Add.
    rewrite (proj2 (Z.eqb_neq _ _) Ht), (proj2 (Z.ltb_ge _ _)) by lia. by rewrite andb_false_r. }
  rewrite Hno in Htake. eapply zoom_map_bind; [exact Htake|]. intros s1 Hu1 Hv1. by exists s1.
Qed.

(** ** Handlers that succeed *)

(** The handler of type [t] takes the event, always succeeds, and leaves the
    outbox alone. *)
Definition willing (hs : list mh) (ctx : context) (e : event) (t : string) : Prop :=
  exists h, Outbox.handler t hs = Some h /\ mh_Match h e = true /\
    forall s x, outbox_ok s -> exists s' x', mh_HandleEvent h ctx e (s, x) = (Ok tt, (s', x')) /\
      outbox_ok s' /\ records s' = records s.

Lemma mongo_process_handlers_all ctx e types s l x :
  outbox_ok s -> Forall (willing (handlers l) ctx e) types ->
  exists s' x', process_handlers (R := R) ctx e types (s, (l, x)) = (Ok types, (s', (l, x'))) /\
    outbox_ok s' /\ records s' = records s.
Proof.
  intros Hok HF. revert s x Hok.
  induction HF as [|t types (h & Hh & Hm & Hrun) _ IH]; intros s x Hok; [by exists s, x|].
  cbn [MongoOutbox.MongoOutbox.process_handlers].
  rewrite (bind_ok _ _ _ (s, (l, x)) (Outbox.handler t (handlers l))) by done. rewrite Hh, Hm. cbn [negb].
  destruct (Hrun s x Hok) as (s1 & x1 & Hr1 & Hok1 & Hrec1).
  destruct (IH s1 x1 Hok1) as (s' & x' & Hps & Hok' & Hrec').
  exists s', x'. rewrite (bind_ok _ _ _ (s1, (l, x1)) (inl tt)).
  - rewrite (bind_ok _ _ _ _ _ Hps). split; [done|]. split; [done|]. by rewrite Hrec'.
  - apply attempt_ok. unfold on_both, zoom. simpl. by rewrite Hr1.
Qed.

Lemma process_done s l x id d r now e ctx x' :
  outbox_ok s -> records s !! id = Some d -> ID r = Some id -> can_take (Some id) now d = true ->
  UnmarshalEvent Background (Event r) x = (Ok (e, ctx), x') ->
  Forall (willing (handlers l) ctx e) (Handlers r) ->
  exists s' x'', process Background r now (s, (l, x)) = (Ok tt, (s', (l, x''))) /\
    outbox_ok s' /\ records s' = delete id (records s).
Proof.
  intros Hok Hd Hr Ht Hdec Hw. unfold MongoOutbox.MongoOutbox.processOutboxEvent, on_rest.
  rewrite (bind_ok _ _ _ (s, (l, x')) (e, ctx))
    by (apply map_err_ok; unfold zoom_snd, zoom; simpl; by rewrite Hdec).
  cbn beta iota. rewrite Hr.
  pose proof (update_by_id ctx s id d (can_take (Some id) now) (set_taken_at now) Hok Hd
    (can_take_id id now)) as Htake. rewrite Ht in Htake.
  eapply zoom_map_bind; [exact Htake|]. intros s1 Hu1 Hv1. cbn [Z.eqb].
  pose proof (records_insert _ _ _ _ Hv1) as Hrec1.
  assert (outbox_ok s1) as Hok1.
  { apply (outbox_ok_insert s s1 id (set_taken_at now d)); [done..|]. exact (proj2 Hok id d Hd). }
  destruct (mongo_process_handlers_all ctx e (Handlers r) s1 l x' Hok1 Hw) as (s2 & x2 & Hps & Hok2 & Hrec2).
  rewrite (bind_ok _ _ _ _ _ Hps), Z.eqb_refl.
  assert (records s2 !! id = Some (wire (set_taken_at now d))) as Hd2
    by (rewrite Hrec2, Hrec1; apply lookup_insert_eq).
  eapply zoom_map_bind; [exact (delete_by_id ctx s2 id _ Hok2 Hd2)|]. intros s3 Hu3 Hv3.
  exists s3, x2. split; [done|].
  assert (records s3 = delete id (records s)) as Hrec3.
  { transitivity (delete id (records s2)); [unfold records at 1; rewrite Hv3; apply law_get_put|].
    rewrite Hrec2, Hrec1. apply delete_insert_eq. }
  split; [split; [done|]|done]. rewrite Hrec3. apply map_Forall_delete, Hok.
Qed.

(** ** Queueing *)

Definition with_ID (id : O) (d : doc) : doc :=
  mkOutboxDoc (Some id) (Event d) (Handlers d) (WatchToken d) (CreatedAt d) (TakenAt d).

Definition matching (hs : list mh) (e : event) : list string :=
  mh_HandlerType <$> filter (fun h => mh_Match h e = true) hs.

Section Queue.
Context `{Hids : !GeneratesIDs up view get put ID wire (outbox o) with_ID}.

(** The record a new event is queued with. *)
Definition new_record (l : local (S := S) (X := X) (R := R)) (e : event) (raw : string) (now : Time) (id : O) : doc :=
  mkOutboxDoc (Some id) raw (matching (handlers l) e) (watchToken o) now 0.

Lemma HandleEvent_inserts s l x x' ctx e raw now :
  up s -> MarshalEvent ctx e x = (Ok raw, x') ->
  exists id s', MongoOutbox.MongoOutbox.HandleEvent MarshalEvent o now ctx (Some e) (s, (l, x)) =
      (Ok tt, (s', (l, x'))) /\ up s' /\ records s !! id = None /\
    view s' = insert_doc get put wire id (new_record l e raw now id) (view s).
Proof.
  intros Hu Hm. unfold MongoOutbox.MongoOutbox.HandleEvent, on_rest.
  rewrite (bind_ok _ _ _ (s, (l, x)) e) by done.
  rewrite (bind_ok _ _ _ (s, (l, x')) raw)
    by (apply map_err_ok; unfold zoom_snd, zoom; simpl; by rewrite Hm).
  rewrite (bind_ok _ _ _ (s, (l, x')) (handlers l)) by done.
  destruct (law_insert_one_new (c := outbox o) ctx s
    (mkOutboxDoc None raw (matching (handlers l) e) (watchToken o) now 0) Hu eq_refl)
    as (id & Hnew & (s' & Hrun & Hu' & Hv')).
  exists id, s'. split; [|done].
  apply map_err_ok. unfold zoom_fst, zoom. cbn [fst snd]. unfold matching in Hrun. by rewrite Hrun.
Qed.

Lemma HandleEvent_run s l x x' ctx e raw now :
  outbox_ok s -> MarshalEvent ctx e x = (Ok raw, x') ->
  exists id s', MongoOutbox.MongoOutbox.HandleEvent MarshalEvent o now ctx (Some e) (s, (l, x)) =
      (Ok tt, (s', (l, x'))) /\ outbox_ok s' /\ records s !! id = None /\
    records s' = <[id := wire (new_record l e raw now id)]> (records s).
Proof.
  intros Hok Hm. destruct (HandleEvent_inserts s l x x' ctx e raw now (proj1 Hok) Hm) as (id & s' & Hrun & Hu & Hnew & Hv).
  exists id, s'. split; [done|]. split; [by eapply outbox_ok_insert|]. split; [done|]. exact (records_insert _ _ _ _ Hv).
Qed.

(** C18: from the event to its handlers.  An event that is put into the outbox waits
    for exactly the handlers that match; when the change stream brings the
    record and they succeed, it is gone, and the outbox is what it was. *)
Theorem MongoOutbox_queues_and_delivers s l x x' ctx e raw now now' ctx' x1 :
  outbox_ok s -> MarshalEvent ctx e x = (Ok raw, x') ->
  UnmarshalEvent Background raw x1 = (Ok (e, ctx'), x1) ->
  Forall (willing (handlers l) ctx' e) (matching (handlers l) e) ->
  exists id s1, MongoOutbox.MongoOutbox.HandleEvent MarshalEvent o now ctx (Some e) (s, (l, x)) =
      (Ok tt, (s1, (l, x'))) /\ outbox_ok s1 /\
    exists r, records s1 = <[id := r]> (records s) /\ records s !! id = None /\
      Handlers r = matching (handlers l) e /\
      exists s2 x2, processStreamEvent UnmarshalEvent o (inl (inl r)) now' (s1, (l, x1)) =
          (Ok tt, (s2, (l, x2))) /\ outbox_ok s2 /\ records s2 = records s.
Proof.
  intros Hok Hm Hdec Hw. destruct (HandleEvent_run s l x x' ctx e raw now Hok Hm)
    as (id & s1 & Hrun & Hok1 & Hnew & Hrec).
  exists id, s1. split; [done|]. split; [done|]. eexists. split; [exact Hrec|]. split; [done|].
  set (d := new_record _ _ _ _ _) in *. destruct (Hwire d) as (Hi & He & Hh & Ht).
  split; [exact Hh|]. assert (records s1 !! id = Some (wire d)) as Hd by (rewrite Hrec; apply lookup_insert_eq).
  destruct (process_done s1 l x1 id (wire d) (wire d) now' e ctx' x1) as (s2 & x2 & Hp & Hok2 & Hrec2).
  - done.
  - done.
  - by rewrite Hi.
  - unfold can_take, has_id, not_taken. rewrite Hi. simpl.
    rewrite bool_decide_true by done. simpl. unfold IsZero. by rewrite (proj2 Ht).
  - by rewrite He.
  - by rewrite Hh.
  - exists s2, x2. split; [by apply map_err_ok|]. split; [done|].
    rewrite Hrec2, Hrec. by rewrite delete_insert_id.
Qed.

End Queue.

(** ** Sweeping *)

(** Found by a sweep, decodable, and with handlers that succeed. *)
Definition sweeps_up (hs : list mh) (now : Time) (d : doc) : Prop :=
  sweepable now d = true -> forall x, exists e ctx x',
    UnmarshalEvent Background (Event d) x = (Ok (e, ctx), x') /\
    Forall (willing hs ctx e) (Handlers d).

Lemma sweepable_can_take id now (d : doc) :
  ID d = Some id -> sweepable now d = true -> can_take (Some id) now d = true.
Proof.
  intros Hid Hs. unfold can_take, has_id. rewrite bool_decide_true by done.
  unfold sweepable in Hs. apply orb_true_iff in Hs as [->|Ha]; [by rewrite orb_true_r|].
  rewrite Ha. by rewrite orb_true_r.
Qed.

Lemma sweep_items_run ds now s l x :
  outbox_ok s -> NoDup (ID <$> ds) ->
  Forall (fun d => (exists id, ID d = Some id /\ records s !! id = Some d) /\
            sweepable now d = true /\ sweeps_up (handlers l) now d) ds ->
  exists s' x', sweep_items UnmarshalEvent o now (inl <$> ds) (s, (l, x)) = (Ok tt, (s', (l, x'))) /\
    outbox_ok s' /\
    forall id, records s' !! id = if bool_decide (Some id ∈ ID <$> ds) then None else records s !! id.
Proof.
  revert s x. induction ds as [|d ds IH]; intros s x Hok Hnd HF; [by exists s, x|].
  rewrite fmap_cons in Hnd. apply NoDup_cons in Hnd as [Hni Hnd].
  apply Forall_cons in HF as [((id & HID & Hd) & Hs & Hup) HF].
  destruct (Hup Hs x) as (e & ctx & x0 & Hdec & Hw).
  destruct (process_done s l x id d d now e ctx x0 Hok Hd HID (sweepable_can_take _ _ _ HID Hs) Hdec Hw)
    as (s1 & x1 & Hp & Hok1 & Hrec1).
  rewrite HID in Hni. destruct (IH s1 x1 Hok1 Hnd) as (s' & x' & Hrun & Hok' & Hrec').
  - eapply Forall_impl; [apply Forall_and; split; [exact HF|apply Forall_forall; intros d' Hd'; exact Hd']|].
    intros d' [((id' & HID' & Hl) & ?) Hin]. split; [|done]. exists id'. split; [done|].
    rewrite Hrec1, lookup_delete_ne; [done|]. intros <-. apply Hni. apply list_elem_of_fmap. by exists d'.
  - exists s', x'. rewrite fmap_cons. cbn [sweep_items].
    rewrite (bind_ok _ _ _ _ _ (map_err_ok _ _ _ _ _ Hp)). split; [done|]. split; [done|].
    intros id'. rewrite Hrec', Hrec1, fmap_cons, HID.
    destruct (decide (id' = id)) as [->|Hne].
    + rewrite lookup_delete_eq, (bool_decide_true (Some id ∈ Some id :: _)) by by left.
      by destruct (bool_decide _).
    + rewrite lookup_delete_ne by done.
      rewrite (bool_decide_ext (Some id' ∈ Some id :: _) (Some id' ∈ ID <$> ds)); [done|].
      rewrite elem_of_cons. split; [intros [[= ?]|?]; done|by right].
Qed.

(** The documents of a query have different [_id]s. *)
Lemma all_matching_ids s (f : doc -> bool) ds :
  outbox_ok s -> all_matching get (view s) f ds ->
  NoDup (ID <$> ds) /\
  forall d, d ∈ ds <-> f d = true /\ exists id, ID d = Some id /\ records s !! id = Some d.
Proof.
  intros [_ Hok] Hall. split.
  - rewrite Hall. apply (sublist_NoDup _ (ID <$> (map_to_list (records s)).*2)).
    + assert (ID <$> (map_to_list (records s)).*2 = Some <$> (map_to_list (records s)).*1) as ->.
      { rewrite <- !list_fmap_compose. apply list_fmap_ext. intros i [id d] Hl. simpl.
        apply (Hok id d). apply elem_of_map_to_list. by eapply list_elem_of_lookup_2. }
      apply NoDup_fmap_2; [apply _|apply NoDup_fst_map_to_list].
    + apply fmap_sublist, sublist_filter.
  - intros d. rewrite Hall, list_elem_of_filter, list_elem_of_fmap. split.
    + intros [Hf ([id d'] & -> & Hl%elem_of_map_to_list)]. split; [done|]. exists id. split; [|done].
      by apply (Hok id).
    + intros [Hf (id & _ & Hl)]. split; [done|]. exists (id, d). split; [done|]. by apply elem_of_map_to_list.
Qed.

(** C19: one sweep.  If every record the sweep finds can be decoded and its handlers
    succeed, those records and no others are gone afterwards: the ones taken
    longer ago than the sweep age, and those never taken and older than the
    cleanup age. *)
Theorem MongoOutbox_sweep_drains s l x now ctx :
  outbox_ok s -> map_Forall (fun _ d => sweeps_up (handlers l) now d) (records s) ->
  exists s' x', sweep now ctx (s, (l, x)) = (Ok tt, (s', (l, x'))) /\
    outbox_ok s' /\
    forall id, records s' !! id =
      match records s !! id with
      | Some d => if sweepable now d then None else Some d
      | None => None
      end.
Proof.
  intros Hok Hup. destruct (law_find (c := outbox o) ctx s (sweepable now) None (proj1 Hok))
    as (ds & Hall & _ & Hg).
  unfold processFullOutbox. destruct (all_matching_ids s _ ds Hok Hall) as [Hnd Hin].
  eapply zoom_map_bind; [exact Hg|]. intros s1 Hu1 Hv1. cbn [c_items c_close].
  destruct (outbox_ok_same s s1 Hok Hu1 Hv1) as [Hok1 Hrec1].
  destruct (sweep_items_run ds now s1 l x Hok1 Hnd) as (s' & x' & Hrun & Hok' & Hrec').
  - apply Forall_forall. intros d (Hs & id & HID & Hl)%Hin. rewrite Hrec1.
    split; [by exists id|]. split; [done|]. by apply (Hup id).
  - exists s', x'. rewrite (bind_ok _ _ _ _ _ Hrun). split; [done|]. split; [done|].
    intros id. rewrite Hrec', Hrec1. case_bool_decide as Hb.
    + apply list_elem_of_fmap in Hb as (d & HID & (Hs & id' & HID' & Hl)%Hin).
      assert (id' = id) as -> by congruence. by rewrite Hl, Hs.
    + destruct (records s !! id) as [d|] eqn:Hd; [|done]. destruct (sweepable now d) eqn:Hs; [|done].
      destruct Hb. apply list_elem_of_fmap. exists d.
      assert (ID d = Some id) as HID by (by apply (proj2 Hok)). split; [done|]. apply Hin.
      split; [done|]. by exists id.
Qed.

(** a record that cannot be decoded is in the way of all others: the sweep that
    finds it first ends with its error, and so does every later one. *)
Theorem MongoOutbox_sweep_stops s l x x' now ctx bad rest err :
  up s ->
  given (Find (outbox o) ctx (sweepable now) None) s (Ok (mkCursor (inl <$> bad :: rest) None None)) (view s) ->
  UnmarshalEvent Background (Event bad) x = (Err err, x') ->
  exists s', sweep now ctx (s, (l, x)) =
    (Err (Errorf "could not process outbox event"
       (OutboxError (Some (Errorf "could not unmarshal event" err)) None None)), (s', (l, x'))) /\
    up s' /\ view s' = view s.
Proof.
  intros Hu Hg Hdec. unfold processFullOutbox. eapply zoom_map_bind; [exact Hg|].
  intros s1 Hu1 Hv1. exists s1. split; [|done]. unfold bind, map_err. simpl.
  unfold MongoOutbox.MongoOutbox.processOutboxEvent, bind, map_err, on_rest, zoom_snd, zoom. simpl.
  by rewrite Hdec.
Qed.

End Theory.

(** ** A concrete outbox: a database of finite maps, a counter and a handler
    that always fails *)

Abbreviation docN := (outboxDoc N).
Abbreviation DB := (gmap N docN).

Definition demo_coll : Collection DB N docN unit :=
  map_collection (fun m => m) (fun m _ => m) ID (fun id d => with_ID id d) (fun d => d)
    (fun m => fresh (dom m)) (fun _ => tt).

Definition demo_outbox : MongoOutbox.MongoOutbox.Outbox (S := DB) (O := N) (I := unit) :=
  mkOutbox (map_client DB) externalClient demo_coll "".

Abbreviation upv := (fun _ : DB => True).
Abbreviation viewv := (fun v : DB => v).

#[export] Instance demo_laws :
  CollectionLaws upv viewv (fun m => m) (fun m _ => m) ID (fun d => d) (fun _ _ => True)
    is_duplicate_key (outbox demo_outbox).
Proof. by apply map_CollectionLaws. Qed.

#[export] Instance demo_ids :
  GeneratesIDs upv viewv (fun m => m) (fun m _ => m) ID (fun d => d) (outbox demo_outbox) (with_ID (O := N)).
Proof. apply map_GeneratesIDs; try done. intros m. apply not_elem_of_dom, is_fresh. Qed.

Lemma demo_wire (d : docN) : ID d = ID d /\ MongoOutbox.MongoOutbox.Event d = MongoOutbox.MongoOutbox.Event d /\
  Handlers d = Handlers d /\ (TakenAt d = 0 <-> TakenAt d = 0).
Proof. done. Qed.

(** The state of the rest of the program: a counter. *)
Definition demo_Marshal (ctx : context) (e : event) : M Z string := ret "event".

Definition the_event : event := demo_event id1 2.

Definition demo_Unmarshal (ctx : context) (raw : string) : M Z (event * context) :=
  if bool_decide (raw = "event") then ret (the_event, bg) else throw (ErrorString "bad event").

Definition count_handler : matcherHandler (X := DB * Z) :=
  mkMatcherHandler (fun _ => true) "count" (fun _ _ => modify (fun st => (st.1, st.2 + 1))).

Definition fail_handler : matcherHandler (X := DB * Z) :=
  mkMatcherHandler (fun _ => true) "fail" (fun _ _ => throw (ErrorString "no")).

Abbreviation demo_local := (mkLocal (S := DB) (X := Z) (R := unit) [count_handler; fail_handler] [] None).
Abbreviation count_local := (mkLocal (S := DB) (X := Z) (R := unit) [count_handler] [] None).

Definition demo_doc (hs : list string) (taken : Time) : docN :=
  mkOutboxDoc (Some 7%N) "event" hs "" 5 taken.

Definition demo_db (hs : list string) (taken : Time) : DB := {[7%N := demo_doc hs taken]}.

Lemma outbox_demo_ok hs taken : outbox_ok upv viewv (fun m => m) (demo_db hs taken).
Proof. split; [done|]. by apply map_Forall_singleton. Qed.

Lemma count_willing e : willing upv viewv (fun m => m) [count_handler] bg e "count".
Proof.
  exists count_handler. split; [reflexivity|]. split; [reflexivity|]. intros s x Hok. by exists s, (x + 1).
Qed.

Lemma MongoOutbox_at_least_once_witness :
  accounts upv viewv (fun m => m) demo_Unmarshal (demo_db ["count"; "fail"] 0) [count_handler; fail_handler] 7%N
    (demo_doc ["count"; "fail"] 0)
    (processOutboxEvent demo_Unmarshal demo_outbox bg (demo_doc ["count"; "fail"] 0) 9
       (demo_db ["count"; "fail"] 0, (demo_local, 0))).
Proof.
  apply (MongoOutbox_at_least_once upv viewv (fun m => m) (fun m _ => m) (fun d => d)
           (fun _ _ => True) is_duplicate_key demo_outbox demo_Unmarshal demo_wire
           (demo_db ["count"; "fail"] 0) demo_local 0 7%N).
  - apply outbox_demo_ok.
  - apply Forall_cons. split; [by intros ctx e s x Hok|].
    apply Forall_singleton. by intros ctx e s x Hok.
  - reflexivity.
  - reflexivity.
  - reflexivity.
  - intros t Ht. exact Ht.
Defined.

Lemma MongoOutbox_taken_left_alone_witness :
  exists s', processOutboxEvent demo_Unmarshal demo_outbox Background (demo_doc ["count"] 0) (Second)
      (demo_db ["count"] 9, (count_local, 0)) = (Ok tt, (s', (count_local, 0))) /\ True /\ s' = demo_db ["count"] 9.
Proof.
  apply (MongoOutbox_taken_left_alone upv viewv (fun m => m) (fun m _ => m) (fun d => d)
           (fun _ _ => True) is_duplicate_key demo_outbox demo_Unmarshal
           (demo_db ["count"] 9) count_local 0 0 7%N (demo_doc ["count"] 9) (demo_doc ["count"] 0) the_event bg).
  - apply outbox_demo_ok.
  - reflexivity.
  - reflexivity.
  - discriminate.
  - unfold PeriodicSweepAge, Second. simpl. lia.
  - reflexivity.
Defined.

Lemma MongoOutbox_queues_and_delivers_witness :
  exists id s1, MongoOutbox.MongoOutbox.HandleEvent demo_Marshal demo_outbox 5 bg (Some the_event) (∅, (count_local, 0)) =
      (Ok tt, (s1, (count_local, 0))) /\
    exists r, s1 !! id = Some r /\ Handlers r = ["count"] /\
      exists s2 x2, processStreamEvent demo_Unmarshal demo_outbox (inl (inl r)) 6 (s1, (count_local, 0)) =
        (Ok tt, (s2, (count_local, x2))) /\ s2 = ∅.
Proof.
  destruct (MongoOutbox_queues_and_delivers upv viewv (fun m => m) (fun m _ => m) (fun d => d)
           (fun _ _ => True) is_duplicate_key demo_outbox demo_Marshal demo_Unmarshal demo_wire
           (∅ : DB) count_local 0 0 bg the_event "event" 5 6 bg 0)
    as (id & s1 & Hrun & _ & r & Hrec & _ & Hh & s2 & x2 & Hp & _ & Hrec2).
  - split; [exact Logic.I|]. apply map_Forall_empty.
  - reflexivity.
  - reflexivity.
  - repeat constructor. apply count_willing.
  - exists id, s1. split; [exact Hrun|]. exists r. split.
    + unfold records in Hrec. rewrite Hrec. apply lookup_insert_eq.
    + split; [exact Hh|]. exists s2, x2. split; [exact Hp|exact Hrec2].
Defined.

Lemma MongoOutbox_sweep_drains_witness :
  exists s' x', processFullOutbox demo_Unmarshal demo_outbox (60 * Second) bg (demo_db ["count"] 9, (count_local, 0)) =
      (Ok tt, (s', (count_local, x'))) /\ s' !! 7%N = None.
Proof.
  destruct (MongoOutbox_sweep_drains upv viewv (fun m => m) (fun m _ => m) (fun d => d)
           (fun _ _ => True) is_duplicate_key demo_outbox demo_Unmarshal demo_wire
           (demo_db ["count"] 9) count_local 0 (60 * Second) bg) as (s' & x' & Hrun & _ & Hrec).
  - apply outbox_demo_ok.
  - apply map_Forall_singleton. intros _ x. exists the_event, bg, x. split; [reflexivity|].
    repeat constructor. apply count_willing.
  - exists s', x'. split; [exact Hrun|]. exact (Hrec 7%N).
Defined.

Lemma MongoOutbox_sweep_stops_witness :
  exists s', processFullOutbox demo_Unmarshal demo_outbox (60 * Second) bg
      ({[7%N := mkOutboxDoc (Some 7%N) "?" ["count"] "" 5 9]}, (count_local, 0)) =
    (Err (Errorf "could not process outbox event"
       (OutboxError (Some (Errorf "could not unmarshal event" (ErrorString "bad event"))) None None)),
     (s', (count_local, 0))) /\ True /\ s' = {[7%N := mkOutboxDoc (Some 7%N) "?" ["count"] "" 5 9]}.
Proof.
  apply (MongoOutbox_sweep_stops upv viewv demo_outbox demo_Unmarshal
           {[7%N := mkOutboxDoc (Some 7%N) "?" ["count"] "" 5 9]} count_local 0 0 (60 * Second) bg
           (mkOutboxDoc (Some 7%N) "?" ["count"] "" 5 9) []).
  - exact Logic.I.
  - exists {[7%N := mkOutboxDoc (Some 7%N) "?" ["count"] "" 5 9]}. split; [reflexivity|by split].
  - reflexivity.
Defined.

End MongoOutboxSpec.
