(* ===== verification/TransactionalOutbox.v ===== *)
(** * An outbox in the transaction of the event store
      ([eventstore/mongodb_v2] with [outbox/mongodb] as its handler)

    The composition the two packages are made for: the outbox is the handler
    that [WithEventHandlerInTX] runs in the transaction of [Save].  Its
    collection is a part of the same database, [v_rest] of the store's view.
    Then events are stored if and only if they are queued for their
    handlers. *)

From stdpp Require Import functions base gmap strings list numbers option pretty.
From Stdlib Require Import Lia ZArith.
From S2P Require Import Prelude.
From S2P Require Import GoTypes.
From S2P Require Import Event.
From S2P Require Import Command.
From S2P Require Import Errors.
From S2P Require Import Fixtures.
From S2P Require Import Registry.
From S2P Require Import EventStoreSpec.
From S2P Require Import Outbox.
From S2P Require Import Mongo.
From S2P Require Import MongoStoreV2.
From S2P Require Import MongoStoreV2Spec.
From S2P Require Import MongoStoreV2Demo.
From S2P Require Import MongoOutbox.
From S2P Require Import MongoOutboxSpec.

Import MongoStoreV2.V2.
Import MongoStoreV2Spec.V2Spec.

Module TransactionalOutbox.

Section Theory.
(** [K]: the [_id]s of outbox records; [Q]: resume tokens. *)
Context {S X O R K I Q : Type} `{Countable O} `{Countable K} (up : S -> Prop) (view : S -> View O R).

(** The event store. *)
Context (wire : evt -> evt) (wire_stream : stream_doc -> stream_doc).
Context (wire_snapshot : SnapshotRecord -> SnapshotRecord).
Context (uuid_String : UUID -> string) (bson_Marshal : any -> string + error).
Context (dup : error -> bool) (s : EventStore (S := S) (X := X) (O := O)).
Context `{Hstore : !StoreLaws up view wire wire_stream wire_snapshot dup s}.

(** The outbox: its collection within the rest of the database, its handlers
    while the batch is saved, its codec and its clock. *)
Abbreviation record := (MongoOutbox.outboxDoc K).
Context (get : R -> gmap K record) (put : gmap K record -> R -> R) (wire_record : record -> record).
Context (is_id : K -> I -> Prop).
Context (o : MongoOutbox.Outbox (S := S) (O := K) (I := I)).

Definition get_records (v : View O R) : gmap K record := get (v_rest v).

Definition put_records (m : gmap K record) (v : View O R) : View O R :=
  mkView (v_events v) (v_streams v) (v_snapshots v) (put m (v_rest v)).

Context `{Hcoll : !CollectionLaws up view get_records put_records MongoOutbox.ID wire_record is_id dup
                     (MongoOutbox.outbox o)}.
Context `{Hids : !GeneratesIDs up view get_records put_records MongoOutbox.ID wire_record
                    (MongoOutbox.outbox o) (MongoOutboxSpec.with_ID (O := K))}.

Abbreviation Y := (heap * X)%type.
Context (l : MongoOutbox.local (S := S) (X := Y) (R := Q)).
Context (MarshalEvent : context -> event -> M Y string) (clock : Y -> Time).

(** [eventstore.WithEventHandlerInTX(o)]: the outbox handles the event, with
    the time it reads. *)
Definition outbox_handler : handler (S := S) (X := X) := fun ctx ev st =>
  zoom (fun st => (st.1, (l, st.2))) (fun st' _ => (st'.1, st'.2.2))
    (MongoOutbox.HandleEvent MarshalEvent o (clock st.2) ctx ev) st.

Context (Hhandler : eventHandlerInTX s = Some outbox_handler) (Hafter : eventHandlerAfterSave s = None).

Abbreviation Save' := (Save uuid_String bson_Marshal s dup).
Abbreviation record_of := (record_of bson_Marshal).

(** What the codec writes of an event. *)
Definition encoded (e : event) (raw : string) : Prop :=
  exists ctx y y', MarshalEvent ctx e y = (Ok raw, y').

(** The codec can write the event, in any context and state. *)
Definition encodable (e : event) : Prop :=
  forall ctx y, exists raw y', MarshalEvent ctx e y = (Ok raw, y').

(** One new record, for the event and the handlers that match it, that nobody
    has taken. *)
Definition queued (e : event) (m m' : gmap K record) : Prop :=
  exists id raw now, m !! id = None /\ encoded e raw /\
    m' = <[id := wire_record (MongoOutbox.mkOutboxDoc (Some id) raw
                   (MongoOutboxSpec.matching (MongoOutbox.handlers l) e) (MongoOutbox.watchToken o) now 0)]> m.

Inductive queued_all : list event -> gmap K record -> gmap K record -> Prop :=
| queued_none m : queued_all [] m m
| queued_one e evs m m1 m' : queued e m m1 -> queued_all evs m1 m' -> queued_all (e :: evs) m m'.

Lemma outbox_handler_run ctx e st y :
  up st -> encodable e ->
  exists st' y', outbox_handler ctx (Some e) (st, y) = (Ok tt, (st', y')) /\ up st' /\
    same_store (view st') (view st) /\ queued e (get_records (view st)) (get_records (view st')).
Proof.
  intros Hu He. destruct (He ctx y) as (raw & y' & Hm).
  destruct (MongoOutboxSpec.HandleEvent_inserts up view get_records put_records wire_record o MarshalEvent
              st l y y' ctx e raw (clock y) Hu Hm) as (id & st' & Hrun & Hu' & Hnew & Hv).
  exists st', y'. unfold outbox_handler, zoom. simpl. rewrite Hrun. split; [done|]. split; [done|].
  split; [by rewrite Hv|]. exists id, raw, (clock y). split; [done|]. split; [by exists ctx, y, y'|].
  rewrite Hv. unfold insert_doc. apply (law_get_put (c := MongoOutbox.outbox o)).
Qed.

Lemma outbox_handlers_ok evs : Forall encodable evs -> handlers_ok up view s (somes evs).
Proof.
  intros He h ctx e st y Hh Hin Hu. rewrite Hhandler in Hh. injection Hh as <-.
  apply list_elem_of_fmap in Hin as (e' & -> & Hin). rewrite Forall_forall in He.
  destruct (outbox_handler_run ctx e' st y Hu (He e' Hin)) as (st' & y' & Hrun & Hu' & Hsame & _).
  by exists st', y'.
Qed.

Lemma queued_step e r r' : encodable e -> rest_step up view s (Some e) r r' -> queued e (get r) (get r').
Proof.
  intros He (h & ctx & st & y & st' & y' & Hh & Hu & Hrun & -> & ->).
  rewrite Hhandler in Hh. injection Hh as <-.
  destruct (outbox_handler_run ctx e st y Hu He) as (st1 & y1 & Hrun1 & _ & _ & Hq).
  rewrite Hrun in Hrun1. by injection Hrun1 as <- <-.
Qed.

Lemma handled_queued evs r r' :
  Forall encodable evs -> handled up view s (somes evs) r r' -> queued_all evs (get r) (get r').
Proof.
  intros He. revert r. induction He as [|e evs He Hes IH]; intros r Hd; inversion Hd; subst; try congruence.
  - constructor.
  - econstructor; [by eapply queued_step|by apply IH].
Qed.

(** C7: events that are stored are queued: a batch that follows an aggregate's
    events is appended to its history and, in the same transaction, adds to the
    outbox one record per event, in order, which waits for exactly the handlers
    that match the event; no other record changes. *)
Theorem stored_events_are_queued ctx id evs last hist st h x :
  up st -> repr (view st) last hist -> batch_for id (len (hist id)) evs ->
  Forall (storable bson_Marshal) evs -> is_int (last + len evs) -> Forall encodable evs ->
  exists st' hx', Save' ctx (somes evs) (len (hist id)) (st, (h, x)) = (Ok tt, (st', hx')) /\
    up st' /\
    repr (view st') (last + len evs)
      (<[id := hist id ++ (wire <$> place last (record_of h <$> evs))]> hist) /\
    queued_all evs (get_records (view st)) (get_records (view st')).
Proof.
  intros Hu Hr Hb Hst Hint He.
  destruct (Save_ok up view wire wire_stream wire_snapshot uuid_String bson_Marshal dup s ctx id evs last hist
              st h x Hu Hr Hb Hst Hint (outbox_handlers_ok evs He)) as (st' & hx' & Hrun & Hu' & Hr' & _ & _ & Hd).
  exists st', hx'. rewrite Hrun. unfold handle_after_save. rewrite Hafter. split; [done|]. split; [done|].
  split; [done|]. by apply handled_queued.
Qed.

(** C10: and only those: whatever the batch, the codec and the handlers are, a
    [Save] that does not succeed leaves the outbox and all histories as they
    were. *)
Theorem refused_events_are_not_queued ctx evs orig last hist st h x r st' hx' :
  up st -> repr (view st) last hist ->
  Save' ctx evs orig (st, (h, x)) = (r, (st', hx')) -> r <> Ok tt ->
  up st' /\ get_records (view st') = get_records (view st) /\
  exists last', last <= last' <= last + len evs /\ repr (view st') last' hist.
Proof.
  intros Hu Hr Hrun Hne. pose proof (len_nonneg evs).
  destruct (Save_atomic up view wire wire_stream wire_snapshot uuid_String bson_Marshal dup s ctx evs orig last
              hist st h x r st' hx' Hu Hr Hafter Hrun Hne) as [Hu' Hv].
  split; [done|]. destruct Hv as [->|[_ ->]]; (split; [done|]).
  - exists last. split; [lia|done].
  - exists (last + len evs). split; [lia|]. apply repr_set_last with last; [done|lia].
Qed.

End Theory.

(** ** A concrete database: the store's collections and the outbox's *)

Abbreviation recordN := (MongoOutbox.outboxDoc N).
Abbreviation DB := (View N (gmap N recordN)).
Abbreviation upv := (fun _ : DB => True).
Abbreviation viewv := (fun v : DB => v).
Abbreviation whole := (fun m : gmap N recordN => m).
Abbreviation whole_put := (fun m _ : gmap N recordN => m).

Definition outbox_coll : Collection DB N recordN unit :=
  map_collection (get_records whole) (put_records whole_put) MongoOutbox.ID (MongoOutboxSpec.with_ID (O := N)) (fun d => d)
    (fun m => fresh (dom m)) (fun _ => tt).

Definition demo_outbox : MongoOutbox.Outbox (S := DB) (O := N) (I := unit) :=
  MongoOutbox.mkOutbox (map_client DB) externalClient outbox_coll "".

#[export] Instance outbox_laws :
  CollectionLaws upv viewv (get_records whole) (put_records whole_put) MongoOutbox.ID (fun d => d) (fun _ _ => True)
    is_duplicate_key (MongoOutbox.outbox demo_outbox).
Proof. apply map_CollectionLaws; [done|done|done|by intros []]. Qed.

#[export] Instance outbox_ids :
  GeneratesIDs upv viewv (get_records whole) (put_records whole_put) MongoOutbox.ID (fun d => d)
    (MongoOutbox.outbox demo_outbox) (MongoOutboxSpec.with_ID (O := N)).
Proof. apply map_GeneratesIDs; try done. intros m. apply not_elem_of_dom, is_fresh. Qed.

(** Two handlers: one for every event, one for those of odd versions. *)
Definition idle (t : string) (m : event -> bool) : matcherHandler (X := DB * (heap * Z)) :=
  mkMatcherHandler m t (fun _ _ => ret tt).

Definition demo_local : MongoOutbox.local (S := DB) (X := heap * Z) (R := unit) :=
  MongoOutbox.mkLocal [idle "all" (fun _ => true); idle "odd" (fun e => Z.odd (version e))] [] None.

Definition demo_marshal (ctx : context) (e : event) : M (heap * Z) string :=
  fun st => (Ok (print_bits (Z.to_pos (version e))), (st.1, st.2 + 1)).

Definition demo_handler : handler (S := DB) (X := Z) :=
  outbox_handler demo_outbox demo_local demo_marshal (fun y => y.2).

Definition demo_store : EventStore (S := DB) (X := Z) (O := N) :=
  mkEventStore (map_client DB) externalClient
    (map_collection v_events put_events (fun e => Some (Position e)) (fun _ e => e) (fun e => e) (fun _ => 0) ID_int64)
    (map_collection v_streams put_streams (fun d => Some (stream_key d)) (fun _ d => d) (fun d => d)
       (fun _ => None) (fun _ => ID_other "string" ""))
    (map_collection v_snapshots put_snapshots (fun _ => None) (fun _ r => r) (fun r => r)
       (fun m => fresh (dom m)) (fun _ => ID_other "bson.ObjectID" ""))
    None (Some demo_handler) true GlobalPositionInTX.

#[export] Instance demo_laws :
  StoreLaws upv viewv (fun e => e) (fun d => d) (fun r => r) is_duplicate_key demo_store.
Proof.
  split; simpl.
  - split; try done. intros t. by exists t.
  - apply map_CollectionLaws; [by intros k; right|done|done|by intros []].
  - apply map_CollectionLaws; [done|done|done|by intros []].
  - apply map_CollectionLaws; [done|done|done|by intros []].
  - apply map_GeneratesIDs. intros m. apply not_elem_of_dom, is_fresh.
  - apply map_SessionLaws.
Qed.

Definition fresh_db : DB := mkView ∅ {[None := AllStream 0]} ∅ ∅.

Abbreviation demo_Save := (Save uuid_print V2Demo.demo_Marshal demo_store is_duplicate_key).

Lemma demo_encodable evs : Forall (encodable demo_marshal) evs.
Proof. apply Forall_forall. intros e _ ctx [h n]. by eexists _, (h, n + 1). Qed.

(** Three events are queued, in order, for the handlers that match them. *)
Lemma stored_events_are_queued_witness :
  exists st' hx', demo_Save bg (somes V2Demo.demo_batch) 0 (fresh_db, (∅, 5)) = (Ok tt, (st', hx')) /\
    repr st' 3 (<[id1 := V2Demo.batch_records]> V2Demo.no_history) /\
    queued_all (fun d => d) demo_outbox demo_local demo_marshal V2Demo.demo_batch ∅ (v_rest st').
Proof.
  destruct (stored_events_are_queued upv viewv (fun e => e) (fun d => d) (fun r => r) uuid_print
           V2Demo.demo_Marshal is_duplicate_key demo_store whole whole_put (fun d => d) (fun _ _ => True) demo_outbox
           demo_local demo_marshal (fun y => y.2) eq_refl eq_refl bg id1 V2Demo.demo_batch 0 V2Demo.no_history
           fresh_db ∅ 5) as (st' & hx' & Hrun & _ & Hr & Hq).
  - exact Logic.I.
  - by apply repr_empty.
  - by apply V2Demo.first_batch_for.
  - exact V2Demo.demo_storable.
  - by apply V2Demo.room.
  - apply demo_encodable.
  - exists st', hx'. split; [exact Hrun|]. split; [|exact Hq].
    cbn [app] in Hr. rewrite (list_fmap_id (place 0 _)) in Hr. exact Hr.
Defined.

(** What the outbox holds then, in the order of the new IDs. *)
Example queued_names :
  MongoOutbox.Handlers <$> (map_to_list (v_rest (demo_Save bg (somes V2Demo.demo_batch) 0 (fresh_db, (∅, 5))).2.1)).*2
  = [["all"; "odd"]; ["all"]; ["all"; "odd"]].
Proof. vm_compute. reflexivity. Qed.

Lemma conflict_refused :
  match (demo_Save bg (somes V2Demo.demo_batch) 1 (fresh_db, (∅, 5))).1 with Ok _ => false | _ => true end = true.
Proof. vm_compute. reflexivity. Qed.

(** A batch that conflicts: the second attempt to save the first events. *)
Lemma refused_events_are_not_queued_witness :
  let '(r, (st', _)) := demo_Save bg (somes V2Demo.demo_batch) 1 (fresh_db, (∅, 5)) in
  r <> Ok tt /\ v_rest st' = ∅ /\
  exists last', 0 <= last' <= 3 /\ repr st' last' V2Demo.no_history.
Proof.
  pose proof conflict_refused as Hne.
  destruct (demo_Save bg (somes V2Demo.demo_batch) 1 (fresh_db, (∅, 5))) as [r [st' hx']] eqn:Hrun.
  assert (r <> Ok tt) as Hno by (intros ->; discriminate Hne).
  destruct (refused_events_are_not_queued upv viewv (fun e => e) (fun d => d) (fun r => r) uuid_print
           V2Demo.demo_Marshal is_duplicate_key demo_store whole eq_refl bg (somes V2Demo.demo_batch) 1 0
           V2Demo.no_history fresh_db ∅ 5 r st' hx' Logic.I (repr_empty fresh_db eq_refl eq_refl) Hrun Hno)
    as (_ & Hq & Hr).
  split; [exact Hno|]. split; [exact Hq|exact Hr].
Defined.

End TransactionalOutbox.
