(* ===== verification/Recorder.v ===== *)
(** * The recording event store ([eventstore/recorder])

    A wrapper around an event store.  The records of a batch are made before the
    inner store saves and marked afterwards through the pointers kept to them,
    while event handlers behind the inner store may record batches of their
    own.  So [made] is the store of all records ever made, a pointer an index
    into it, and the inner store runs in a state that includes the recorder. *)

From stdpp Require Import base gmap strings list numbers option pretty.
From Stdlib Require Import Lia ZArith.
From S2P Require Import Prelude.
From S2P Require Import GoTypes.
From S2P Require Import Event.
From S2P Require Import Command.
From S2P Require Import Errors.
From S2P Require Import Fixtures.
From S2P Require Import EventStoreSpec.
From S2P Require Import MemStore.
From S2P Require Import Repo.
From S2P Require Import Wrappers.

Module Recorder.

Inductive Status : Type := Pending | Succeeded | Failed.

#[export] Instance Status_eq_dec : EqDecision Status.
Proof. solve_decision. Defined.

Record EventRecord : Type := mkEventRecord {
  Event : option event;
  rec_Status : Status;
  Err_ : option error
}.

Record Recording : Type := mkRecording {
  recording : bool;
  made : list EventRecord;
  records : list nat
}.

Section Store.
Context {S : Type}.
Abbreviation St := (Recording * S)%type.

(** The wrapped store, and the recorder's own state. *)
Definition NewEventStore (eventStore : option (EventStore St)) : option (EventStore St * Recording) :=
  match eventStore with
  | None => None
  | Some st => Some (st, mkRecording false [] [])
  end.

Context (inner : EventStore St).

(** The pending records of a batch, and the pointers to them. *)
Definition record_events (events : list (option event)) : M Recording (list nat) := fun r =>
  let ptrs := seq (length (made r)) (length events) in
  (Ok ptrs, mkRecording (recording r) (made r ++ ((fun e => mkEventRecord e Pending None) <$> events))
              (records r ++ ptrs)).

Definition mark (f : EventRecord -> EventRecord) (ptrs : list nat) : M Recording unit :=
  for_range ptrs (fun p =>
    modify (fun r => mkRecording (recording r) (alter f p (made r)) (records r))).

Definition set_failed (err : error) (r : EventRecord) : EventRecord :=
  mkEventRecord (Event r) Failed (Some err).

Definition set_succeeded (r : EventRecord) : EventRecord :=
  mkEventRecord (Event r) Succeeded (Err_ r).

Definition Save (ctx : context) (events : list (option event)) (originalVersion : Z) : M St unit :=
  let! r := gets fst in
  if negb (recording r) then es_Save inner ctx events originalVersion
  else
    let! ptrs := zoom_fst (record_events events) in
    let! res := attempt (es_Save inner ctx events originalVersion) in
    match res with
    | inr err => do! zoom_fst (mark (set_failed err) ptrs) in throw err
    | inl _ => zoom_fst (mark set_succeeded ptrs)
    end.

Definition StartRecording : M Recording unit :=
  modify (fun r => mkRecording true (made r) (records r)).

Definition StopRecording : M Recording unit :=
  modify (fun r => mkRecording false (made r) (records r)).

(** The records behind the pointers. *)
Definition FullRecording (r : Recording) : list EventRecord := omap (fun p => made r !! p) (records r).

Definition eventsByStatus (status : Status) (r : Recording) : list (option event) :=
  Event <$> filter (fun rec => rec_Status rec = status) (FullRecording r).

Definition PendingEvents : Recording -> list (option event) := eventsByStatus Pending.

Definition SuccessfulEvents : Recording -> list (option event) := eventsByStatus Succeeded.

Definition FailedEvents : Recording -> list (option event) := eventsByStatus Failed.

Definition ResetTrace : M Recording unit :=
  modify (fun r => mkRecording (recording r) (made r) []).

(** The wrapper as an event store: the other methods are the inner store's. *)
Definition recorder_EventStore : EventStore St :=
  mkEventStore Save (es_Load inner) (es_LoadFrom inner) (es_Close inner).

(** ** Properties *)

(** Every pointer is to a record that was made. *)
Definition recording_ok (r : Recording) : Prop := Forall (fun p => (p < length (made r))%nat) (records r).

(** What code behind the inner store may do to the recorder. *)
Definition records_more (r r' : Recording) : Prop :=
  prefix (made r) (made r') /\ prefix (records r) (records r') /\ recording_ok r'.

(** The record of an event once the inner store has answered. *)
Definition record_of (o : result unit) (e : option event) : EventRecord :=
  match o with
  | Ok _ => mkEventRecord e Succeeded None
  | Err err => mkEventRecord e Failed (Some err)
  | Panic _ => mkEventRecord e Pending None
  end.

Definition mark_all (f : EventRecord -> EventRecord) (ptrs : list nat) (l : list EventRecord) : list EventRecord :=
  foldl (fun l p => alter f p l) l ptrs.

Lemma mark_run f ptrs r :
  mark f ptrs r = (Ok tt, mkRecording (recording r) (mark_all f ptrs (made r)) (records r)).
Proof.
  revert r. induction ptrs as [|p ptrs IH]; intros r; [by destruct r|].
  unfold mark in *. cbn [for_range]. rewrite (bind_ok _ _ r (mkRecording (recording r) (alter f p (made r)) (records r)) tt) by done.
  by rewrite IH.
Qed.

Lemma mark_all_seq f pre l post :
  mark_all f (seq (length pre) (length l)) (pre ++ l ++ post) = pre ++ (f <$> l) ++ post.
Proof.
  revert pre. induction l as [|x l IH]; intros pre; [done|]. cbn [length seq]. unfold mark_all in *.
  cbn [foldl]. rewrite alter_app_r_alt, Nat.sub_diag, fmap_cons by done.
  change (alter f 0%nat ((x :: l) ++ post)) with (f x :: l ++ post).
  specialize (IH (pre ++ [f x])). rewrite length_app in IH. simpl in IH.
  rewrite Nat.add_1_r, <- !app_assoc in IH. exact IH.
Qed.

(** The records behind pointers that are in range. *)
Definition behind (l : list EventRecord) (ps : list nat) : list EventRecord := omap (fun p => l !! p) ps.

Lemma behind_prefix l l' ps : prefix l l' -> Forall (fun p => (p < length l)%nat) ps -> behind l' ps = behind l ps.
Proof.
  intros [k ->]. unfold behind. induction 1 as [|p ps Hp _ IH]; [done|].
  simpl. rewrite lookup_app_l by done. destruct (l !! p); [f_equal|]; exact IH.
Qed.

Lemma behind_seq pre l post : behind (pre ++ l ++ post) (seq (length pre) (length l)) = l.
Proof.
  revert pre. induction l as [|x l IH]; intros pre; [done|]. unfold behind in *. cbn [length seq].
  simpl. rewrite list_lookup_middle by done. f_equal. specialize (IH (pre ++ [x])).
  rewrite length_app in IH. simpl in IH. rewrite Nat.add_1_r, <- app_assoc in IH. exact IH.
Qed.

Lemma behind_app l ps qs : behind l (ps ++ qs) = behind l ps ++ behind l qs.
Proof. apply omap_app. Qed.

(** The recording of a batch whose records are marked when the inner store has
    answered, with whatever it recorded itself after them. *)
Lemma marked_batch f r events r2 :
  recording_ok r ->
  let ptrs := seq (length (made r)) (length events) in
  let r1 := mkRecording (recording r) (made r ++ ((fun e => mkEventRecord e Pending None) <$> events))
              (records r ++ ptrs) in
  records_more r1 r2 ->
  exists more, records r2 = records r1 ++ more /\
    recording_ok (mkRecording (recording r2) (mark_all f ptrs (made r2)) (records r2)) /\
    FullRecording (mkRecording (recording r2) (mark_all f ptrs (made r2)) (records r2)) =
      FullRecording r ++ ((fun e => f (mkEventRecord e Pending None)) <$> events) ++
      behind (mark_all f ptrs (made r2)) more /\
    FullRecording r2 = FullRecording r ++ ((fun e => mkEventRecord e Pending None) <$> events) ++ behind (made r2) more.
Proof.
  intros Hok ptrs r1 ([post Hm] & [more Hr] & Hok2). exists more. simpl in Hm, Hr. rewrite <- app_assoc in Hm.
  set (batch := (fun e => mkEventRecord e Pending None) <$> events) in *.
  assert (length events = length batch) as Hlen by (unfold batch; by rewrite length_fmap).
  assert (mark_all f ptrs (made r2) = made r ++ (f <$> batch) ++ post) as Hmark
    by (unfold ptrs; rewrite Hlen, Hm; apply mark_all_seq).
  split; [done|]. split; [|split].
  - unfold recording_ok in *. simpl. rewrite Hmark. rewrite Hm in Hok2.
    by rewrite !length_app, length_fmap in *.
  - unfold FullRecording. simpl. fold (behind (made r) (records r)).
    change (omap _ (records r2)) with (behind (mark_all f ptrs (made r2)) (records r2)).
    rewrite Hmark, Hr, !behind_app, <- app_assoc.
    rewrite (behind_prefix (made r)) by (try done; by eexists). f_equal. f_equal.
    unfold ptrs. rewrite Hlen, <- (length_fmap f batch), behind_seq. unfold batch. by rewrite <- list_fmap_compose.
  - unfold FullRecording. fold (behind (made r2) (records r2)) (behind (made r) (records r)).
    rewrite Hm, Hr, !behind_app, <- app_assoc.
    rewrite (behind_prefix (made r)) by (try done; by eexists). f_equal. f_equal.
    unfold ptrs. by rewrite Hlen, behind_seq.
Qed.

(** the recorder only watches.  Saving gives what the inner store gives, and
    leaves the rest of the program as the inner store left it.  While it
    records, the recording grows by the batch, with the answer of the inner
    store as its status, followed by what was recorded behind the inner store;
    nothing recorded before changes.  Otherwise the recorder does nothing. *)
Theorem recorder_watches ctx events v r (s : S) :
  recording_ok r ->
  let r1 := if recording r then (record_events events r).2 else r in
  let '(o, (r2, s2)) := es_Save inner ctx events v (r1, s) in
  (recording r = true -> records_more r1 r2) ->
  exists r', Save ctx events v (r, s) = (o, (r', s2)) /\
    (recording r = false -> r' = r2) /\
    (recording r = true -> exists more, records r2 = records r1 ++ more /\ recording_ok r' /\
       FullRecording r' = FullRecording r ++ (record_of o <$> events) ++ behind (made r') more).
Proof.
  intros Hok. unfold Save. rewrite (bind_ok _ _ (r, s) (r, s) r) by done.
  destruct (recording r) eqn:Hrec; cbn [negb].
  2: { destruct (es_Save inner ctx events v (r, s)) as [o [r2 s2]]. intros _. by exists r2. }
  unfold record_events at 1. cbn [snd]. rewrite Hrec.
  destruct (es_Save inner ctx events v _) as [o [r2 s2]] eqn:Hs. intros Hmore. specialize (Hmore eq_refl).
  set (ptrs := seq (length (made r)) (length events)) in *.
  rewrite (bind_ok _ _ (r, s)
    (mkRecording true (made r ++ ((fun e => mkEventRecord e Pending None) <$> events)) (records r ++ ptrs), s) ptrs)
    by (unfold zoom_fst, zoom, record_events; simpl; by rewrite Hrec).
  unfold bind at 1, attempt. rewrite Hs.
  pose proof (fun f => marked_batch f r events r2 Hok Hmore) as Hmb. fold ptrs in Hmb.
  destruct o as [[]|err|p].
  - destruct (Hmb set_succeeded) as (more & Hmr & Hok' & Hfull & _).
    eexists. split; [unfold zoom_fst, zoom; simpl; by rewrite mark_run|]. split; [done|]. intros _.
    exists more. split; [exact Hmr|]. split; [exact Hok'|exact Hfull].
  - destruct (Hmb (set_failed err)) as (more & Hmr & Hok' & Hfull & _).
    eexists. split; [unfold bind, zoom_fst, zoom; simpl; by rewrite mark_run|]. split; [done|]. intros _.
    exists more. split; [exact Hmr|]. split; [exact Hok'|exact Hfull].
  - destruct (Hmb set_succeeded) as (more & Hmr & _ & _ & Hfull). exists r2. split; [done|]. split; [done|]. intros _.
    exists more. split; [exact Hmr|]. split; [apply Hmore|exact Hfull].
Qed.

(** Recording wraps the inner store, whatever it does behind it. *)
#[export] Instance recorder_Wraps : Wraps recorder_EventStore inner.
Proof.
  split; intros; [|apply wraps_op_refl|apply wraps_op_refl].
  intros ctx r s. simpl. exists ctx, (if recording r then (record_events (somes evs) r).2 else r).
  unfold Save. rewrite (bind_ok _ _ (r, s) (r, s) r) by done.
  destruct (recording r) eqn:Hrec; cbn [negb].
  2: { destruct (es_Save inner ctx (somes evs) v (r, s)) as [o [r2 s2]]. intros _. by exists r2. }
  set (ptrs := seq (length (made r)) (length (somes evs))).
  set (r1 := (record_events (somes evs) r).2).
  rewrite (bind_ok _ _ (r, s) (r1, s) ptrs) by done.
  unfold bind at 1, attempt. destruct (es_Save inner ctx (somes evs) v (r1, s)) as [[[]|err|pn] [r2 s2]].
  - intros _. eexists. unfold zoom_fst, zoom. simpl. by rewrite mark_run.
  - intros _. eexists. unfold bind, zoom_fst, zoom. simpl. by rewrite mark_run.
  - done.
Qed.

End Store.

(** A recorder around a lawful store is a lawful store with the same streams:
    whether it records or not cannot be told through the contract. *)
Definition recorder_EventStoreLaws {S} (inner : EventStore (Recording * S)) `{!EventStoreLaws inner}
    `{!Quiet inner} : EventStoreLaws (recorder_EventStore inner) :=
  wrapper_EventStoreLaws (recorder_EventStore inner) inner.

(** ** Around the in-memory store *)

Definition demo_inner : EventStore (Recording * (MemDB * unit)) :=
  beside (memory_EventStore demo_factories copier_assign).

Lemma recorder_watches_witness :
  exists r' s', Save demo_inner bg [Some (demo_event id1 1)] 0 (mkRecording true [] [], (∅, tt)) = (Ok tt, (r', s')) /\
    FullRecording r' = [mkEventRecord (Some (demo_event id1 1)) Succeeded None].
Proof.
  pose proof (recorder_watches demo_inner bg [Some (demo_event id1 1)] 0 (mkRecording true [] []) (∅, tt)
    (Forall_nil_2 _)) as H.
  destruct H as (r' & Hs & _ & Hr).
  - intros _. split; [done|]. split; [done|]. repeat constructor.
  - destruct (Hr eq_refl) as (more & Hm & _ & Hf). exists r'. eexists. split; [exact Hs|].
    destruct more; [exact Hf|discriminate Hm].
Defined.

End Recorder.
