(* ===== verification/ModelStore.v ===== *)
(** * The model aggregate store ([aggregatestore/model])

    Aggregates that are kept as they are in a repository; events they collect
    are handed to an event handler after the save.  [as_aggregate] is the type
    assertion on what the repository finds, [as_entity] the aggregate as an
    entity.  The store is an [AggregateStoreI], so the command handler works
    over it. *)

From stdpp Require Import base gmap strings list numbers option pretty.
From Stdlib Require Import Lia ZArith.
From S2P Require Import Prelude.
From S2P Require Import GoTypes.
From S2P Require Import Event.
From S2P Require Import Command.
From S2P Require Import Errors.
From S2P Require Import Fixtures.
From S2P Require Import CommandCheck.
From S2P Require Import Registry.
From S2P Require Import EventStoreSpec.
From S2P Require Import AggregateBase.
From S2P Require Import AggregateStore.
From S2P Require Import CommandHandler.
From S2P Require Import Repo.
From S2P Require Import Mongo.
From S2P Require Import MongoRepo.
From S2P Require Import MongoRepoSpec.

Module ModelStore.

(** ** [SliceEventSource] ([eventsource.go]) *)

Definition SliceEventSource : Type := list (option event).

Definition AppendEvent (e : option event) (a : SliceEventSource) : SliceEventSource := a ++ [e].

Definition UncommittedEvents (a : SliceEventSource) : list (option event) := a.

Definition ClearUncommittedEvents (a : SliceEventSource) : SliceEventSource := [].

(** ** The store *)

Section Store.
Context {S E A : Type} `{Entity E} `{Aggregate A}.
Context (as_aggregate : E -> option A) (as_entity : A -> E).
(** [aggregate.(eh.EventSource)] succeeds *)
Context (event_source : A -> bool).
Context (aggregates : gmap string (UUID -> option A)).

Definition handler : Type := context -> option event -> M S unit.

Record AggregateStore : Type := mkModelStore {
  repo : ReadWriteRepo S E;
  eventHandler : option handler
}.

Definition NewAggregateStore (repo : option (ReadWriteRepo S E)) (eventHandler : option handler)
  : result AggregateStore :=
  match repo with
  | None => Err (Sentinel ErrInvalidRepo)
  | Some repo => Ok (mkModelStore repo eventHandler)
  end.

Context (r : AggregateStore).

Definition Load (ctx : context) (aggregateType : string) (id : UUID) : M S A :=
  let invalid := Sentinel ErrInvalidAggregate in
  let! found := attempt (Repo.Find (repo r) ctx id) in
  match found with
  | inl item =>
      match as_aggregate item with Some a => ret a | None => throw invalid end
  | inr err =>
      if errors_Is err ErrEntityNotFound then
        let! item := CreateAggregate aggregates aggregateType id in
        match item with Some a => ret a | None => throw invalid end
      else throw err
  end.

(** The aggregate is part of the state: its events are cleared. *)
Definition Save (ctx : context) : M (S * A) unit :=
  let! a := gets snd in
  do! zoom_fst (Repo.Save (repo r) ctx (Some (as_entity a))) in
  match eventHandler r with
  | Some h =>
      if event_source a then
        let events := a_UncommittedEvents a in
        do! zoom_snd (modify a_ClearUncommittedEvents) in
        for_range events (fun e => zoom_fst (h ctx e))
      else ret tt
  | None => ret tt
  end.

(** Behind the interface of the command handler. *)
Definition model_store : AggregateStoreI S A :=
  mkAggregateStore
    (fun ctx t id => let! a := Load ctx t id in ret (Some a))
    (fun ctx a s => let '(o, (s', _)) := Save ctx (s, a) in (o, s')).

(** ** Properties, on a repository that keeps its contract *)

Context `{!RepoLaws (repo r)}.

Definition is_model (a : A) : Prop :=
  as_aggregate (as_entity a) = Some a /\ EntityID (as_entity a) = a_EntityID a /\
  a_EntityID a <> Nil /\ keepable (as_entity a).

Lemma for_range_zoom_fst {X : Type} ctx (h : handler) evs (s : S) (x : X) :
  for_range evs (fun e => zoom_fst (h ctx e)) (s, x) =
  (let '(o, s') := for_range evs (h ctx) s in (o, (s', x))).
Proof.
  revert s. induction evs as [|e evs IH]; intros s; [done|]. cbn [for_range].
  unfold bind, zoom_fst, zoom in *. simpl. destruct (h ctx e s) as [[]]; simpl; [apply IH|done..].
Qed.

Lemma model_Save_run ctx (s : S) (a : A) :
  repo_ok s -> is_model a ->
  exists s1, repo_ok s1 /\ entities s1 = <[a_EntityID a := as_entity a]> (entities s) /\
    Save ctx (s, a) =
    match eventHandler r with
    | Some h =>
        if event_source a then
          let '(o, s2) := for_range (a_UncommittedEvents a) (h ctx) s1 in
          (o, (s2, a_ClearUncommittedEvents a))
        else (Ok tt, (s1, a))
    | None => (Ok tt, (s1, a))
    end.
Proof.
  intros Hok (_ & Hid & Hnil & Hk).
  destruct (law_save ctx s (as_entity a) Hok Hk) as (s1 & Hs & Hok1 & He1); [by rewrite Hid|].
  exists s1. rewrite Hid in He1. split; [done|]. split; [done|]. unfold Save.
  rewrite (bind_ok _ _ (s, a) (s, a) a) by done.
  rewrite (bind_ok _ _ (s, a) (s1, a) tt) by (unfold zoom_fst, zoom; simpl; by rewrite Hs).
  destruct (eventHandler r) as [h|]; [|done]. destruct (event_source a); [|done].
  rewrite (bind_ok _ _ (s1, a) (s1, a_ClearUncommittedEvents a) tt) by done.
  apply for_range_zoom_fst.
Qed.

(** saving keeps the aggregate and then hands its events over.  The repository
    holds the aggregate as it was, with its events, and a load finds it; the
    handler then gets the events once each, in order, until it answers an error,
    which is the error of the save.  The aggregate forgets its events in any
    case, so those after the failing one are handled by nobody. *)
Theorem model_Save_then_events ctx t (s : S) (a : A) :
  repo_ok s -> is_model a ->
  exists s1, repo_ok s1 /\ entities s1 = <[a_EntityID a := as_entity a]> (entities s) /\
    (exists s2, Load ctx t (a_EntityID a) s1 = (Ok a, s2) /\ entities s2 = entities s1) /\
    Save ctx (s, a) =
    match eventHandler r with
    | Some h =>
        if event_source a then
          let '(o, s2) := for_range (a_UncommittedEvents a) (h ctx) s1 in
          (o, (s2, a_ClearUncommittedEvents a))
        else (Ok tt, (s1, a))
    | None => (Ok tt, (s1, a))
    end.
Proof.
  intros Hok Hm. destruct (model_Save_run ctx s a Hok Hm) as (s1 & Hok1 & He1 & Hs).
  exists s1. split; [done|]. split; [done|]. split; [|done].
  destruct Hm as (Hc & Hid & _). destruct (Repo.law_find ctx s1 (a_EntityID a) (as_entity a) Hok1) as (s2 & Hf & _ & He2).
  { rewrite He1. apply lookup_insert_eq. }
  exists s2. split; [|done]. unfold Load. rewrite (bind_ok _ _ _ _ _ (attempt_ok _ _ _ _ Hf)). by rewrite Hc.
Qed.

(** An aggregate that is not in the repository is a new one of its type. *)
Lemma Load_new ctx t id (s : S) factory a :
  repo_ok s -> entities s !! id = None -> aggregates !! t = Some factory -> factory id = Some a ->
  exists s', Load ctx t id s = (Ok a, s') /\ repo_ok s' /\ entities s' = entities s.
Proof.
  intros Hok Hn Ht Hf. destruct (law_find_missing ctx s id Hok Hn) as (err & s' & Hm & Hnf & _ & Hok' & He').
  exists s'. unfold Load. rewrite (bind_ok _ _ _ _ _ (attempt_err _ _ _ _ Hm)), Hnf.
  unfold CreateAggregate. rewrite Ht. unfold bind, ret. by rewrite Hf.
Qed.

End Store.

(** ** Concrete inputs: persons in a MongoDB repository

    A person with a name has one event that says so. *)

Import MongoRepoSpec.MongoRepoSpec.

#[local] Instance Person_Aggregate : Aggregate Person := {
  a_EntityID p := p.1;
  a_AggregateType _ := "person";
  a_HandleCommand _ _ p := (p, None);
  a_versioned _ := false;
  a_AggregateVersion _ := 0;
  a_SetAggregateVersion _ p := p;
  a_UncommittedEvents p := if bool_decide (p.2 = "") then [] else [Some (demo_event p.1 1)];
  a_ClearUncommittedEvents p := (p.1, "");
  a_ApplyEvent _ _ p := (p, None);
  a_snapshotable _ := false;
  a_CreateSnapshot _ := None;
  a_ApplySnapshot _ p := p
}.

Definition person_repo : ReadWriteRepo DB Person :=
  MongoRepo.as_repo person_Marshal person_Unmarshal demo_repo AUUID as_uuid.

#[local] Instance person_repo_laws : RepoLaws person_repo :=
  Mongo_RepoLaws (HE := Person_Entity) (fun _ : DB => True) (fun v : DB => v)
    (fun m => m) (fun m _ => m) person_Marshal person_Unmarshal AUUID as_uuid (fun d => d) (fun _ _ => True)
    is_duplicate_key demo_repo new_person eq_refl (fun _ => eq_refl) (fun _ => eq_refl).

(** A handler that refuses every event. *)
Definition refuse : context -> option event -> M DB unit := fun _ _ => throw (ErrorString "no").

Lemma model_Save_then_events_witness :
  exists s1, Save (fun p => p) (fun _ => true) (mkModelStore person_repo (Some refuse)) bg (∅, (id2, "Bob")) =
    (Err (ErrorString "no"), (s1, (id2, ""))).
Proof.
  destruct (model_Save_then_events Some (fun p => p) (fun _ => true) ∅
    (mkModelStore person_repo (Some refuse)) (RepoLaws0 := person_repo_laws) bg "person" ∅ (id2, "Bob"))
    as (s1 & _ & _ & _ & Hs).
  - split; [exact Logic.I|]. apply map_Forall_empty.
  - split; [reflexivity|]. split; [reflexivity|]. split; [discriminate|]. exact bob_keepable.
  - exists s1. exact Hs.
Defined.

End ModelStore.
