(* ===== verification/Codec.v ===== *)
(** * The event and command codecs ([codec.go], [codec/json], [codec/bson])

    Both formats wrap an event or a command in a struct with its type and the
    supported parts of the context.  [Json] and [Bson] are the two codecs; what
    they share is [EventCodec] and [command_message].  The encoders of
    [encoding/json] and the BSON driver are parameters, as is the text of a
    UUID.  Metadata maps live in the heap. *)

From stdpp Require Import base gmap strings list numbers option pretty.
From Stdlib Require Import Lia ZArith.
From S2P Require Import Prelude.
From S2P Require Import GoTypes.
From S2P Require Import Event.
From S2P Require Import Command.
From S2P Require Import Errors.
From S2P Require Import Fixtures.
From S2P Require Import Registry.
From S2P Require Import Context.

Module Codec.

(** The event on the wire.  [Context] is [None] for the nil map. *)
Record evt : Type := mkEvt {
  EventType : string;
  RawData : string;
  Timestamp : Time;
  AggregateType : string;
  AggregateID : string;
  Version : Z;
  Metadata : option gomap;
  Context_ : option gomap
}.

(** The command on the wire. *)
Record command_message : Type := mkCommandMessage {
  cm_CommandType : string;
  cm_Command : string;
  cm_Context : option gomap
}.

Section Codec.
Context (marshalers : list ContextMarshalFunc) (unmarshalers : list ContextUnmarshalFunc).
Context (eventDataFactories : gmap string (unit -> any)).
Context (commands : gmap string (unit -> option command)).
Context (uuid_String : UUID -> string) (uuid_Parse : string -> option UUID).

(** [eh.MarshalContext]; a duplicate entry panics. *)
Definition marshal_context (ctx : context) : M heap gomap := lift (MarshalContext marshalers ctx).

Section Format.
(** The encoder: of event data, and of the struct above. *)
Context (Marshal_data : any -> string + error) (Unmarshal_data : string -> any -> any + error).
Context (Marshal_evt : evt -> string + error) (Unmarshal_evt : string -> evt + error).

Definition from_sum {A} (r : A + error) : M heap A :=
  match r with inl a => ret a | inr err => throw err end.

Definition MarshalEvent (ctx : context) (ev : option event) : M heap string :=
  let! e := deref ev in
  let! vals := marshal_context ctx in
  let! raw :=
    if is_nil (data e) then ret ""
    else map_err (Errorf "could not marshal event data") (from_sum (Marshal_data (data e))) in
  let! h := gets (fun h => h) in
  let md := match metadata e with Some _ => Some (map_at h (metadata e)) | None => None end in
  map_err (Errorf "could not marshal event")
    (from_sum (Marshal_evt (mkEvt (eventType e) raw (timestamp e) (aggregateType e)
                              (uuid_String (aggregateID e)) (version e) md (Some vals)))).

(** [eh.WithMetadata] of a map that was just decoded. *)
Definition decoded_metadata (md : option gomap) : M heap (option loc) :=
  match md with
  | None => ret None
  | Some m => fun h => let '(h', l) := alloc m h in (Ok (Some l), h')
  end.

Definition UnmarshalEvent (ctx : context) (b : string) : M heap (event * context) :=
  let! e := map_err (Errorf "could not unmarshal event") (from_sum (Unmarshal_evt b)) in
  let! d :=
    if bool_decide (RawData e = "") then ret ANil
    else
      let! d := map_err (Errorf "could not create event data")
                  (CreateEventData eventDataFactories (EventType e)) in
      map_err (Errorf "could not unmarshal event data") (from_sum (Unmarshal_data (RawData e) d)) in
  let aggregateID := default Nil (uuid_Parse (AggregateID e)) in
  let! md := decoded_metadata (Metadata e) in
  fun h =>
    let '(h', ev) := NewEvent (EventType e) d (Timestamp e)
      [Some (ForAggregate (AggregateType e) aggregateID (Version e)); Some (WithMetadata md)] h in
    (Ok (ev, UnmarshalContext unmarshalers ctx (Context_ e)), h').

(** ** Commands *)

Context (Marshal_command : command -> string + error).
Context (Marshal_message : command_message -> string + error).
Context (Unmarshal_message : string -> command_message + error).

Definition MarshalCommand (ctx : context) (cmd : option command) : M heap string :=
  let! c := deref cmd in
  let! vals := marshal_context ctx in
  let! raw := map_err (Errorf "could not marshal command data") (from_sum (Marshal_command c)) in
  map_err (Errorf "could not marshal command")
    (from_sum (Marshal_message (mkCommandMessage (CommandType c) raw (Some vals)))).

(** [decode] puts the encoded command into the one the factory made. *)
Definition UnmarshalCommand (decode : string -> option command -> option command + error)
    (ctx : context) (b : string) : M heap (option command * context) :=
  let! c := map_err (Errorf "could not unmarshal command") (from_sum (Unmarshal_message b)) in
  let! cmd := map_err (Errorf "could not create command") (CreateCommand commands (cm_CommandType c)) in
  let! cmd := map_err (Errorf "could not unmarshal command data") (from_sum (decode (cm_Command c) cmd)) in
  ret (cmd, UnmarshalContext unmarshalers ctx (cm_Context c)).

(** ** Round trips *)

(** What the encoder promises: data comes back in the value its factory makes,
    and of the struct the date and the values of the maps may lose precision. *)
Context (wire_time : Time -> Time) (wire_map : gomap -> gomap).

Definition decodes_events : Prop := forall e b, Marshal_evt e = inl b ->
  Unmarshal_evt b = inl (mkEvt (EventType e) (RawData e) (wire_time (Timestamp e)) (AggregateType e)
    (AggregateID e) (Version e) (wire_map <$> Metadata e) (wire_map <$> Context_ e)).

Definition data_ok (e : event) : Prop :=
  is_nil (data e) = true /\ data e = ANil \/
  is_nil (data e) = false /\ exists factory, eventDataFactories !! eventType e = Some factory /\
    forall raw, Marshal_data (data e) = inl raw ->
      raw <> "" /\ Unmarshal_data raw (factory tt) = inl (data e).

Lemma from_sum_ok {A} (r : A + error) h h' a : from_sum r h = (Ok a, h') -> r = inl a /\ h' = h.
Proof. destruct r; simpl; [|done]. by intros [= -> ->]. Qed.

Lemma map_err_inv {A} w (m : M heap A) h a h' : map_err w m h = (Ok a, h') -> m h = (Ok a, h').
Proof. unfold map_err. destruct (m h) as [[] ?]; by intros [= <- <-]. Qed.

Lemma MarshalEvent_inv ctx e h b h' :
  MarshalEvent ctx (Some e) h = (Ok b, h') ->
  h' = h /\ exists vals raw, MarshalContext marshalers ctx = Ok vals /\
    (if is_nil (data e) then raw = "" else Marshal_data (data e) = inl raw) /\
    Marshal_evt (mkEvt (eventType e) raw (timestamp e) (aggregateType e)
      (uuid_String (aggregateID e)) (version e)
      (match metadata e with Some _ => Some (map_at h (metadata e)) | None => None end) (Some vals)) = inl b.
Proof.
  unfold MarshalEvent. rewrite (bind_ok _ _ h h e) by done.
  intros (vals & h1 & Hc & Hb)%bind_inv_ok. unfold marshal_context, lift in Hc. injection Hc as Hc ->.
  apply bind_inv_ok in Hb as (raw & h2 & Hraw & Hb).
  assert (h2 = h1 /\ (if is_nil (data e) then raw = "" else Marshal_data (data e) = inl raw)) as [-> Hd].
  { destruct (is_nil (data e)); [by injection Hraw as -> ->|].
    apply map_err_inv, from_sum_ok in Hraw as [? ?]. done. }
  rewrite (bind_ok _ _ h1 h1 h1) in Hb by done. apply map_err_inv, from_sum_ok in Hb as [Hb ->].
  split; [done|]. by exists vals, raw.
Qed.

Lemma event_decodes ctx ctx' e h h1 b :
  decodes_events -> (forall id, uuid_Parse (uuid_String id) = Some id) -> data_ok e ->
  MarshalEvent ctx (Some e) h = (Ok b, h1) ->
  exists vals md h2, MarshalContext marshalers ctx = Ok vals /\
    UnmarshalEvent ctx' b h1 =
      (Ok (mkEvent (eventType e) (data e) (wire_time (timestamp e)) (aggregateType e)
             (aggregateID e) (version e) md, UnmarshalContext unmarshalers ctx' (Some (wire_map vals))), h2) /\
    match metadata e with
    | None => md = None /\ h2 = h1
    | Some _ => exists l, md = Some l /\ h1 !! l = None /\ h2 = <[l := wire_map (map_at h (metadata e))]> h1
    end.
Proof.
  intros Hdec Huuid Hdata Hm. apply MarshalEvent_inv in Hm as (-> & vals & raw & Hc & Hraw & Hb).
  apply Hdec in Hb. unfold UnmarshalEvent.
  rewrite (bind_ok _ _ h h _ (map_err_ok _ _ _ _ _ (f_equal (fun r => from_sum r h) Hb))).
  cbn [EventType RawData Timestamp AggregateType AggregateID Version Metadata Context_].
  assert ((if bool_decide (raw = "") then ret ANil
    else let! d := map_err (Errorf "could not create event data") (CreateEventData eventDataFactories (eventType e)) in
      map_err (Errorf "could not unmarshal event data") (from_sum (Unmarshal_data raw d))) h = (Ok (data e), h)) as Hd.
  { destruct Hdata as [[Hn Hnil]|[Hn (factory & Hf & Hu)]]; rewrite Hn in Hraw.
    - by rewrite Hraw, bool_decide_true, Hnil by done.
    - destruct (Hu raw Hraw) as [Hne Hud]. rewrite bool_decide_false by done.
      unfold CreateEventData. rewrite Hf. unfold bind, map_err, ret. simpl. by rewrite Hud. }
  rewrite (bind_ok _ _ _ _ _ Hd), Huuid. cbn [default].
  destruct (metadata e) as [l|]; cbn [fmap option_fmap option_map decoded_metadata].
  - exists vals, (Some (fresh (dom h))), (<[fresh (dom h) := wire_map (map_at h (Some l))]> h).
    split; [done|]. split; [done|]. exists (fresh (dom h)). split; [done|]. split; [|done].
    apply not_elem_of_dom, is_fresh.
  - exists vals, None, h. by split_and!.
Qed.

(** C36: an event that could be encoded is decoded to the event it was: type, data,
    aggregate and version the same, the date and the metadata as far as the
    format keeps them, the metadata in a map of its own.  The context is the
    receiver's with the supported values of the sender's. *)
Theorem event_codec_roundtrip ctx ctx' e h h1 b :
  decodes_events -> (forall id, uuid_Parse (uuid_String id) = Some id) -> data_ok e ->
  MarshalEvent ctx (Some e) h = (Ok b, h1) ->
  exists vals md h2, MarshalContext marshalers ctx = Ok vals /\
    UnmarshalEvent ctx' b h1 =
      (Ok (mkEvent (eventType e) (data e) (wire_time (timestamp e)) (aggregateType e)
             (aggregateID e) (version e) md, UnmarshalContext unmarshalers ctx' (Some (wire_map vals))), h2) /\
    match metadata e with
    | None => md = None /\ h2 = h1
    | Some _ => exists l, md = Some l /\ h1 !! l = None /\ h2 = <[l := wire_map (map_at h (metadata e))]> h1
    end.
Proof. apply event_decodes. Qed.

Lemma command_decodes decode ctx ctx' c factory h h1 b :
  (forall m b, Marshal_message m = inl b ->
     Unmarshal_message b = inl (mkCommandMessage (cm_CommandType m) (cm_Command m) (wire_map <$> cm_Context m))) ->
  commands !! CommandType c = Some factory ->
  (forall raw, Marshal_command c = inl raw -> decode raw (factory tt) = inl (Some c)) ->
  MarshalCommand ctx (Some c) h = (Ok b, h1) ->
  exists vals, MarshalContext marshalers ctx = Ok vals /\
    UnmarshalCommand decode ctx' b h1 =
      (Ok (Some c, UnmarshalContext unmarshalers ctx' (Some (wire_map vals))), h1).
Proof.
  intros Hdec Hf Hcmd. unfold MarshalCommand. rewrite (bind_ok _ _ h h c) by done.
  intros (vals & h0 & Hc & Hb)%bind_inv_ok. unfold marshal_context, lift in Hc. injection Hc as Hc ->.
  apply bind_inv_ok in Hb as (raw & h2 & Hraw & Hb). apply map_err_inv, from_sum_ok in Hraw as [Hraw ->].
  apply map_err_inv, from_sum_ok in Hb as [Hb ->]. exists vals. split; [done|]. apply Hdec in Hb.
  unfold UnmarshalCommand.
  rewrite (bind_ok _ _ h0 h0 _ (map_err_ok _ _ _ _ _ (f_equal (fun r => from_sum r h0) Hb))).
  cbn [cm_CommandType cm_Command cm_Context]. unfold CreateCommand. rewrite Hf.
  rewrite (bind_ok _ _ h0 h0 (factory tt)) by done.
  rewrite (bind_ok _ _ h0 h0 (Some c)); [done|]. apply map_err_ok. by rewrite (Hcmd raw Hraw).
Qed.

(** a command that could be encoded is decoded into the one its factory makes. *)
Theorem command_codec_roundtrip decode ctx ctx' c factory h h1 b :
  (forall m b, Marshal_message m = inl b ->
     Unmarshal_message b = inl (mkCommandMessage (cm_CommandType m) (cm_Command m) (wire_map <$> cm_Context m))) ->
  commands !! CommandType c = Some factory ->
  (forall raw, Marshal_command c = inl raw -> decode raw (factory tt) = inl (Some c)) ->
  MarshalCommand ctx (Some c) h = (Ok b, h1) ->
  exists vals, MarshalContext marshalers ctx = Ok vals /\
    UnmarshalCommand decode ctx' b h1 =
      (Ok (Some c, UnmarshalContext unmarshalers ctx' (Some (wire_map vals))), h1).
Proof. apply command_decodes. Qed.

End Format.

(** ** The two formats *)

(** [json.Unmarshal(raw, &cmd)] decodes into the interface: the text [null] makes
    it nil, any other goes to the command it holds. *)
Definition json_decode (json_Unmarshal : string -> command -> command + error)
    (raw : string) (cmd : option command) : option command + error :=
  if bool_decide (raw = "null") then inl None
  else match cmd with
       | None => inr (ErrorString "json: cannot unmarshal object into nil interface")
       | Some c => match json_Unmarshal raw c with inl c => inl (Some c) | inr err => inr err end
       end.

(** [Unmarshal(raw, cmd)] decodes into the command itself. *)
Definition bson_decode (bson_Unmarshal : string -> command -> command + error)
    (raw : string) (cmd : option command) : option command + error :=
  match cmd with
  | None => inr (ErrorString "argument to Decode must be a pointer or a map, but got <nil>")
  | Some c => match bson_Unmarshal raw c with inl c => inl (Some c) | inr err => inr err end
  end.

(** The codecs are the same code over their own encoders, but for how a command
    is decoded. *)
Definition json_MarshalEvent := MarshalEvent.
Definition json_UnmarshalEvent := UnmarshalEvent.
Definition json_MarshalCommand := MarshalCommand.
Definition json_UnmarshalCommand Unmarshal_message json_Unmarshal :=
  UnmarshalCommand Unmarshal_message (json_decode json_Unmarshal).

Definition bson_MarshalEvent := MarshalEvent.
Definition bson_UnmarshalEvent := UnmarshalEvent.
Definition bson_MarshalCommand := MarshalCommand.
Definition bson_UnmarshalCommand Unmarshal_message bson_Unmarshal :=
  UnmarshalCommand Unmarshal_message (bson_decode bson_Unmarshal).

End Codec.

(** ** A concrete format: it knows one event *)

Definition demo_Marshal (e : evt) : string + error :=
  match e with
  | mkEvt et raw t at' id v None (Some vals) =>
      if bool_decide (et = "removed") && bool_decide (raw = "") && (t =? 1001) && bool_decide (at' = "todo")
         && bool_decide (id = "1") && (v =? 1) && (size vals =? 0)%nat
      then inl "event" else inr (ErrorString "unknown event")
  | _ => inr (ErrorString "unknown event")
  end.

Definition demo_Unmarshal (b : string) : evt + error :=
  if bool_decide (b = "event") then inl (mkEvt "removed" "" 1001 "todo" "1" 1 None (Some ∅))
  else inr (ErrorString "unknown event").

Lemma codec_demo_decodes : decodes_events demo_Marshal demo_Unmarshal (fun t => t) (fun m => m).
Proof.
  intros [et raw t at' id v [md|] [vals|]] b; simpl; try done.
  destruct (_ && _) eqn:Hb; [|done]. intros [= <-].
  repeat (apply andb_true_iff in Hb as [Hb ?]).
  repeat match goal with
  | H : bool_decide _ = true |- _ => apply bool_decide_eq_true in H; subst
  | H : (_ =? _) = true |- _ => apply Z.eqb_eq in H; subst
  | H : (_ =? _)%nat = true |- _ => apply Nat.eqb_eq, map_size_empty_iff in H; subst
  end. reflexivity.
Qed.

Lemma event_codec_roundtrip_witness :
  exists md h2, UnmarshalEvent [] demo_factories uuid_of_bits (fun _ d => inl d) demo_Unmarshal bg "event" ∅ =
    (Ok (mkEvent "removed" ANil 1001 "todo" id1 1 md, bg), h2) /\ md = None /\ h2 = ∅.
Proof.
  destruct (event_codec_roundtrip [] [] demo_factories uuid_to_bits uuid_of_bits (fun _ => inl "") (fun _ d => inl d)
    demo_Marshal demo_Unmarshal (fun t => t) (fun m => m) bg bg (demo_event id1 1) ∅ ∅ "event")
    as (vals & md & h2 & Hc & Hu & Hmd).
  - exact codec_demo_decodes.
  - exact uuid_of_to_bits.
  - left. split; reflexivity.
  - reflexivity.
  - injection Hc as <-. exists md, h2. split; [exact Hu|exact Hmd].
Defined.

End Codec.
