(* ===== verification/BsonUUID.v ===== *)
(** * UUIDs in BSON ([codec/bson/uuid.go])

    The registry that writes UUIDs as text and reads them as text or, from
    older documents, as binary, and the two functions that encode and decode
    with it.  The BSON driver and [google/uuid] are parameters.  A value that
    [reflect] hands to the registered functions is one of the shapes their
    guards tell apart; an array of bytes is the list of its elements. *)

From stdpp Require Import base gmap strings list numbers option pretty.
From Stdlib Require Import Lia ZArith.
From S2P Require Import Prelude.
From S2P Require Import GoTypes.
From S2P Require Import Errors.
From S2P Require Import Fixtures.

Module BsonUUID.

(** ** Bytes of a UUID *)

Abbreviation byte := Byte.byte.

Definition byte_of_N (n : N) : byte :=
  match Byte.of_N (n mod 256) with Some b => b | None => Byte.x00 end.

Lemma to_N_byte_of_N n : Byte.to_N (byte_of_N n) = (n mod 256)%N.
Proof.
  unfold byte_of_N. destruct (Byte.of_N (n mod 256)) as [b|] eqn:Hb; [by apply Byte.to_of_N|].
  apply Byte.of_N_None_iff in Hb. pose proof (N.mod_lt n 256 ltac:(lia)). lia.
Qed.

(** The [k] bytes of a number, the most significant first. *)
Fixpoint bytes_of (k : nat) (n : N) : list byte :=
  match k with
  | 0%nat => []
  | Datatypes.S k => bytes_of k (n / 256) ++ [byte_of_N n]
  end.

Definition number_of (l : list byte) : N := foldl (fun n b => n * 256 + Byte.to_N b)%N 0%N l.

Lemma length_bytes_of k n : length (bytes_of k n) = k.
Proof. revert n. induction k as [|k IH]; intros n; [done|]. simpl. rewrite length_app, IH. simpl. lia. Qed.

Lemma number_of_bytes k n : (n < 256 ^ N.of_nat k)%N -> number_of (bytes_of k n) = n.
Proof.
  revert n. induction k as [|k IH]; intros n Hn; [simpl in *; unfold number_of; simpl; lia|].
  rewrite Nat2N.inj_succ, N.pow_succ_r' in Hn. cbn [bytes_of].
  unfold number_of. rewrite foldl_app. fold (number_of (bytes_of k (n / 256))).
  rewrite IH by (apply N.Div0.div_lt_upper_bound; lia). simpl. rewrite to_N_byte_of_N.
  rewrite (N.div_mod' n 256) at 3. lia.
Qed.

(** The array behind a [uuid.UUID]. *)
Definition uuid_bytes (id : UUID) : list byte := bytes_of 16 (uuid_bits id).

Lemma length_uuid_bytes id : length (uuid_bytes id) = 16%nat.
Proof. apply length_bytes_of. Qed.

Lemma number_of_uuid_bytes id : number_of (uuid_bytes id) = uuid_bits id.
Proof.
  apply number_of_bytes. pose proof (uuid_range id) as H. apply Is_true_true, N.ltb_lt in H.
  eapply N.lt_le_trans; [exact H|]. vm_compute. discriminate.
Qed.

Lemma uuid_bytes_inj a b : uuid_bytes a = uuid_bytes b -> a = b.
Proof. intros H. apply UUID_eq. by rewrite <- !number_of_uuid_bytes, H. Qed.

(** [reflect.Copy] copies as much as fits. *)
Definition reflect_Copy (dst src : list byte) : list byte :=
  take (length dst) src ++ drop (length src) dst.

Lemma reflect_Copy_full dst src : length dst = length src -> reflect_Copy dst src = src.
Proof. intros H. unfold reflect_Copy. rewrite H, firstn_all, <- H, drop_all. apply app_nil_r. Qed.

(** ** The registered functions *)

(** A [reflect.Value] to encode: invalid, a UUID, or of another type. *)
Inductive source_value : Type :=
| NoValue
| UUIDValue (id : UUID)
| OtherValue (ty : string).

(** A [reflect.Value] to decode into.  [Target] is a settable array of bytes. *)
Inductive target_value : Type :=
| NoTarget
| NotSettable
| NotArray (kind : string)
| Target (array : list byte).

(** A BSON value as a [ValueReader] gives it: its type, and what reading it as
    text or binary answers. *)
Inductive bson_type : Type := TypeString | TypeBinary | OtherType (ty : string).

Record ValueReader : Type := mkValueReader {
  vr_Type : bson_type;
  ReadString : string + error;
  ReadBinary : list byte + error
}.

(** What [uuid.go] calls of [google/uuid]. *)
Record google_uuid : Type := mkGoogleUUID {
  uuid_String : UUID -> string;
  uuid_Parse : string -> UUID + error;
  uuid_FromBytes : list byte -> UUID + error
}.

(** Text and bytes of a UUID are read back; nothing but 16 bytes is a UUID. *)
Class UUIDLaws (g : google_uuid) : Prop := {
  law_parse : forall id, uuid_Parse g (uuid_String g id) = inl id;
  law_bytes : forall id, uuid_FromBytes g (uuid_bytes id) = inl id;
  law_length : forall b id, uuid_FromBytes g b = inl id -> length b = 16%nat
}.

Section Registry.
Context (g : google_uuid).
(** The driver's errors, and the text of bytes in an error. *)
Context (ValueEncoderError : source_value -> error) (ValueDecoderError : target_value -> error).
Context (hex : list byte -> string).

Section Functions.
Context {W : Type} (WriteString : string -> M W unit).

Definition encode_UUID (val : source_value) : M W unit :=
  match val with
  | UUIDValue v =>
      let b := reflect_Copy (replicate 16 Byte.x00) (uuid_bytes v) in
      match uuid_FromBytes g b with
      | inl id => WriteString (uuid_String g id)
      | inr err => throw (Errorf ("could not parse UUID bytes (" +:+ hex b +:+ ")") err)
      end
  | _ => throw (ValueEncoderError val)
  end.

Definition read_UUID (vr : ValueReader) : UUID + error :=
  match vr_Type vr with
  | TypeString =>
      match ReadString vr with
      | inr err => inr err
      | inl s =>
          match uuid_Parse g s with
          | inl id => inl id
          | inr _ => inr (ErrorString ("could not parse UUID string: " +:+ s))
          end
      end
  | TypeBinary =>
      match ReadBinary vr with
      | inr err => inr err
      | inl data =>
          match uuid_FromBytes g data with
          | inl id => inl id
          | inr err => inr (Errorf ("could not parse UUID binary (" +:+ hex data +:+ ")") err)
          end
      end
  | OtherType ty => inr (ErrorString ("received invalid BSON type to decode into UUID: " +:+ ty))
  end.

(** The state is the value that is decoded into. *)
Definition decode_UUID (vr : ValueReader) : M target_value unit :=
  let! val := gets (fun v => v) in
  match val with
  | Target array =>
      match read_UUID vr with
      | inl id => modify (fun _ => Target (reflect_Copy array (uuid_bytes id)))
      | inr err => throw err
      end
  | _ => throw (ValueDecoderError val)
  end.

End Functions.

(** ** The registry and its users *)

(** What they call of the driver, which keeps a function per type. *)
Context {Registry : Type} (NewRegistry : Registry).
Abbreviation Encoder := (forall W, (string -> M W unit) -> source_value -> M W unit).
Abbreviation Decoder := (ValueReader -> M target_value unit).
Context (RegisterTypeEncoder : string -> Encoder -> Registry -> Registry).
Context (RegisterTypeDecoder : string -> Decoder -> Registry -> Registry).
Context {V : Type} (Encode : Registry -> V -> string + error) (Decode : Registry -> string -> V -> V + error).

Definition uuidType : string := "uuid.UUID".

Definition newUUIDRegistry : Registry :=
  let reg := NewRegistry in
  let reg := RegisterTypeEncoder uuidType (@encode_UUID) reg in
  RegisterTypeDecoder uuidType decode_UUID reg.

(** [init] sets the package's [Registry]. *)
Definition uuid_Registry : Registry := newUUIDRegistry.

Definition Marshal (val : V) : string + error := Encode uuid_Registry val.

(** [val] is what the caller's pointer points to, before and after. *)
Definition Unmarshal (data : string) (val : V) : V + error := Decode uuid_Registry data val.

(** ** Theorems *)

Context `{!UUIDLaws g}.

Lemma encode_UUID_writes {W} (WriteString : string -> M W unit) id w :
  encode_UUID WriteString (UUIDValue id) w = WriteString (uuid_String g id) w.
Proof.
  unfold encode_UUID. rewrite reflect_Copy_full by (by rewrite length_uuid_bytes).
  by rewrite law_bytes.
Qed.

Lemma decode_UUID_ok vr id array :
  read_UUID vr = inl id -> length array = 16%nat ->
  decode_UUID vr (Target array) = (Ok tt, Target (uuid_bytes id)).
Proof.
  intros Hr Hl. unfold decode_UUID, gets, bind. rewrite Hr. unfold modify.
  by rewrite reflect_Copy_full by (by rewrite length_uuid_bytes).
Qed.

(** UUIDs survive BSON.  The text that is written for a UUID, read as a
    BSON string, and its 16 bytes, as older documents hold it, are both decoded
    to that UUID; decoding that fails leaves the value as it was; and only 16
    bytes of binary, or text that parses, are decoded at all. *)
Theorem bson_UUID_roundtrip :
  (forall W (WriteString : string -> M W unit) id w, exists text,
    encode_UUID WriteString (UUIDValue id) w = WriteString text w /\
    forall vr array, vr_Type vr = TypeString -> ReadString vr = inl text -> length array = 16%nat ->
      decode_UUID vr (Target array) = (Ok tt, Target (uuid_bytes id))) /\
  (forall vr id array, vr_Type vr = TypeBinary -> ReadBinary vr = inl (uuid_bytes id) -> length array = 16%nat ->
     decode_UUID vr (Target array) = (Ok tt, Target (uuid_bytes id))) /\
  (forall vr val err val', decode_UUID vr val = (Err err, val') -> val' = val) /\
  (forall vr val val', decode_UUID vr val = (Ok tt, val') -> exists id,
     (exists s, vr_Type vr = TypeString /\ ReadString vr = inl s /\ uuid_Parse g s = inl id) \/
     (exists b, vr_Type vr = TypeBinary /\ ReadBinary vr = inl b /\ length b = 16%nat)).
Proof.
  split; [|split; [|split]].
  - intros W WriteString id w. exists (uuid_String g id). split; [apply encode_UUID_writes|].
    intros vr array Ht Hs. apply decode_UUID_ok. unfold read_UUID. by rewrite Ht, Hs, law_parse.
  - intros vr id array Ht Hb. apply decode_UUID_ok. unfold read_UUID. by rewrite Ht, Hb, law_bytes.
  - intros vr val err val'. unfold decode_UUID, gets, bind, modify, throw.
    destruct val; try (by intros [= _ <-]). destruct (read_UUID vr); [done|by intros [= _ <-]].
  - intros vr val val'. unfold decode_UUID, gets, bind, modify, throw. destruct val; try done.
    destruct (read_UUID vr) as [id|] eqn:Hr; [|done]. intros _. exists id. unfold read_UUID in Hr.
    destruct (vr_Type vr); [left|right|done].
    + destruct (ReadString vr) as [s|]; [|done]. destruct (uuid_Parse g s) eqn:Hp; [|done].
      injection Hr as ->. by exists s.
    + destruct (ReadBinary vr) as [b|]; [|done]. destruct (uuid_FromBytes g b) eqn:Hb; [|done].
      injection Hr as ->. exists b. split; [done|]. split; [done|]. by eapply law_length.
Qed.

End Registry.

(** ** A concrete UUID package *)

Definition demo_uuid : google_uuid :=
  mkGoogleUUID uuid_to_bits
    (fun s => match uuid_of_bits s with Some id => inl id | None => inr (ErrorString "invalid UUID length") end)
    (fun b => if bool_decide (length b = 16%nat) then inl (uuid_of_N (number_of b))
              else inr (ErrorString "invalid UUID (got bytes)")).

#[export] Instance demo_uuid_laws : UUIDLaws demo_uuid.
Proof.
  split.
  - intros id. cbn [uuid_Parse uuid_String demo_uuid]. by rewrite uuid_of_to_bits.
  - intros id. cbn [uuid_FromBytes demo_uuid]. rewrite bool_decide_eq_true_2 by apply length_uuid_bytes.
    by rewrite number_of_uuid_bytes, uuid_of_N_bits.
  - intros b id. cbn [uuid_FromBytes demo_uuid]. by case_bool_decide.
Qed.

Definition demo_target : target_value := Target (replicate 16 Byte.x00).

Definition demo_decode (vr : ValueReader) : result unit * target_value :=
  decode_UUID demo_uuid (fun _ => ErrorString "cannot decode") (fun _ => "..") vr demo_target.

(** An older document holds the bytes; a number is no UUID, nor are 15 bytes. *)
Example decodes_binary :
  demo_decode (mkValueReader TypeBinary (inr (ErrorString "not a string")) (inl (uuid_bytes id1))) =
    (Ok tt, Target (uuid_bytes id1)).
Proof. vm_compute. reflexivity. Qed.

Example refuses_others :
  demo_decode (mkValueReader (OtherType "double") (inl "1") (inl [])) =
    (Err (ErrorString "received invalid BSON type to decode into UUID: double"), demo_target) /\
  demo_decode (mkValueReader TypeBinary (inl "") (inl (replicate 15 Byte.x01))) =
    (Err (Errorf "could not parse UUID binary (..)" (ErrorString "invalid UUID (got bytes)")), demo_target).
Proof. vm_compute. split; reflexivity. Qed.

End BsonUUID.
