(* ===== verification/CodecAcceptance.v ===== *)
(** * The acceptance tests of codecs ([codec/acceptance_testing.go])

    Both tests as programs over any codec, and the theorem that a codec over an
    encoder that gives back the test's event data, date and maps passes them.
    Go values of the kinds [any] has no case for are structs with the name of
    their type: [reflect.DeepEqual] compares both key by key. *)

From stdpp Require Import base gmap strings list numbers option pretty.
From Stdlib Require Import Lia ZArith.
From S2P Require Import Prelude.
From S2P Require Import GoTypes.
From S2P Require Import Event.
From S2P Require Import Command.
From S2P Require Import Errors.
From S2P Require Import Fixtures.
From S2P Require Import Match.
From S2P Require Import Context.
From S2P Require Import Mocks.
From S2P Require Import Testing.
From S2P Require Import Codec.
Import Mocks.

Module CodecAcceptance.

Definition EventType : string := "CodecEvent".
Definition AggregateType : string := "CodecAggregate".
Definition CommandType : string := "CodecCommand".

Definition fortytwo : any := AFloat64 (SpecFloat.S754_finite false 5910974510923776 (-47)).

(** Slices, maps and times. *)
Definition strings (a b : string) : any := AStruct "[]string" [("0", AString a); ("1", AString b)].
Definition one_key (k v : string) : any := AStruct "map[string]interface {}" [(k, AString v)].
Definition time_value (t : Time) : any := AStruct "time.Time" [("ns", AInt t)].

Definition Nested (b : bool) (s : string) (n : any) : any :=
  AStruct "codec.Nested" [("Bool", ABool b); ("String", AString s); ("Number", n)].

(** The fields both structs have, with the test's values. *)
Definition test_fields : list (string * any) :=
  [("Bool", ABool true); ("String", AString "string"); ("Number", fortytwo); ("Slice", strings "a" "b");
   ("Map", one_key "key" "value"); ("Time", time_value date); ("TimeRef", time_value date); ("NullTime", ANil);
   ("Struct", Nested true "string" fortytwo); ("StructRef", Nested true "string" fortytwo); ("NullStruct", ANil)].

Definition EventData : any := AStruct "codec.EventData" test_fields.

(** [uuid.MustParse("10a7ec0f-7f2b-46f5-bca1-877b6e33c9fd")] *)
Definition test_id : UUID := uuid_of_N 22139549384379784844863267137073170941.

#[global] Opaque test_id.

(** The methods of [*Command], and the test's command.  Nothing asks whether its
    fields are zero. *)
Definition Command : command :=
  mkCommand test_id AggregateType CommandType None
    [mkField "ID" "" "" None (RUUID test_id); mkField "Bool" "" "" None RValueType;
     mkField "String" "" "" None (RString "string"); mkField "Number" "" "" None RValueType;
     mkField "Slice" "" "" None (RSlice false); mkField "Map" "" "" None (RMap false);
     mkField "Time" "" "" (Some false) (RTime date); mkField "TimeRef" "" "" (Some false) RPtr;
     mkField "NullTime" "" "" None RPtr; mkField "Struct" "" "" None (RStruct [(true, RValueType); (true, RString "string"); (true, RValueType)]);
     mkField "StructRef" "" "" None RPtr; mkField "NullStruct" "" "" None RPtr]
    (AStruct "codec.Command" (("ID", AUUID test_id) :: test_fields)).

Definition test_metadata : gomap := {["num" := fortytwo]}.

Section Test.
Context (fmt_time : Time -> string) (uuid_String : UUID -> string) (fmt_any : any -> string) (fmt_map : gomap -> string).

(** A map literal. *)
Definition new_map (m : gomap) : test heap loc := fun '(h, fs) =>
  let '(h', l) := alloc m h in (Ok l, (h', fs)).

Definition test_event (md : loc) : event :=
  (NewEvent EventType EventData date
     [Some (ForAggregate Mocks.AggregateType test_id 1); Some (WithMetadata (Some md))] ∅).2.

Definition testctx : context := WithContextOne Background "testval".

Definition expect_context (ctx : context) : test heap unit :=
  expect (bool_decide (ContextOne ctx = Some "testval")) "the decoded context was incorrect".

Definition EventCodecAcceptanceTest (MarshalEvent : context -> option event -> M heap string)
    (UnmarshalEvent : context -> string -> M heap (event * context)) (expectedBytes : string) : test heap unit :=
  (* Marshaling. *)
  let! md := new_map test_metadata in
  let event := test_event md in
  let! r := call (MarshalEvent testctx (Some event)) in
  do! expect (no_error r) "there should be no error" in
  let b := default "" (value r) in
  do! expect (bool_decide (b = expectedBytes)) "the encoded bytes should be correct" in
  (* Unmarshaling. *)
  let! r := call (UnmarshalEvent Background b) in
  do! expect (no_error r) "there should be no error" in
  let! d := deref (value r) in
  let! h := gets fst in
  do! expect (bool_decide (CompareEvents fmt_time uuid_String fmt_any fmt_map h d.1 event [] = None))
        "the decoded event was incorrect" in
  expect_context d.2.

(** [reflect.DeepEqual] on commands compares their dynamic values. *)
Definition equal_command (c1 c2 : option command) : bool :=
  match c1, c2 with
  | Some c1, Some c2 => DeepEqual (dyn c1) (dyn c2)
  | None, None => true
  | _, _ => false
  end.

(** The values a failed call returns are nil: a nil context panics. *)
Definition CommandCodecAcceptanceTest (MarshalCommand : context -> option command -> M heap string)
    (UnmarshalCommand : context -> string -> M heap (option command * context)) (expectedBytes : string)
  : test heap unit :=
  (* Marshaling. *)
  let! r := call (MarshalCommand testctx (Some Command)) in
  do! expect (no_error r) "there should be no error" in
  let b := default "" (value r) in
  do! expect (bool_decide (b = expectedBytes)) "the encoded bytes should be correct" in
  (* Unmarshaling. *)
  let! r := call (UnmarshalCommand Background b) in
  do! expect (no_error r) "there should be no error" in
  let! d := deref (value r) in
  do! expect (equal_command d.1 (Some Command)) "the decoded command was incorrect" in
  expect_context d.2.

End Test.

(** ** Codecs over an encoder that gives back what it was given *)

Definition test_vals : gomap := {[contextKeyOneStr := AString "testval"]}.

Lemma test_vals_marshaled : MarshalContext [one_marshaler] testctx = Ok test_vals.
Proof. reflexivity. Qed.

Lemma testval_carried : ContextOne (UnmarshalContext [one_unmarshaler] Background (Some test_vals)) = Some "testval".
Proof. reflexivity. Qed.

Lemma event_data_equal : DeepEqual EventData EventData = true.
Proof. vm_compute. reflexivity. Qed.

Lemma command_equal : equal_command (Some Command) (Some Command) = true.
Proof.
  change (bool_decide ("codec.Command" = "codec.Command") && (bool_decide ("ID" = "ID") &&
    bool_decide (test_id = test_id) && DeepEqual EventData EventData) = true).
  rewrite event_data_equal, !bool_decide_true by done. reflexivity.
Qed.

Section Passing.
Context (fmt_time : Time -> string) (uuid_String : UUID -> string) (fmt_any : any -> string) (fmt_map : gomap -> string).
Context (uuid_Parse : string -> option UUID) (Hparse : forall id, uuid_Parse (uuid_String id) = Some id).
Context (wire_time : Time -> Time) (wire_map : gomap -> gomap).
(** The encoder keeps the test's date and maps. *)
Context (Htime : wire_time date = date) (Hmd : wire_map test_metadata = test_metadata) (Hvals : wire_map test_vals = test_vals).

Section Events.
Context (eventDataFactories : gmap string (unit -> any)).
Context (Marshal_data : any -> string + error) (Unmarshal_data : string -> any -> any + error).
Context (Marshal_evt : Codec.evt -> string + error) (Unmarshal_evt : string -> Codec.evt + error).

(** acceptance of event codecs.  A codec over an encoder that round trips its
    struct, and the test's data, date and maps, passes the shared test when the
    expected bytes are the encoder's. *)
Theorem event_codec_acceptance_passes factory raw expectedBytes h :
  Codec.decodes_events Marshal_evt Unmarshal_evt wire_time wire_map ->
  eventDataFactories !! EventType = Some factory ->
  Marshal_data EventData = inl raw -> raw <> "" -> Unmarshal_data raw (factory tt) = inl EventData ->
  Marshal_evt (Codec.mkEvt EventType raw date Mocks.AggregateType (uuid_String test_id) 1
    (Some test_metadata) (Some test_vals)) = inl expectedBytes ->
  passes (EventCodecAcceptanceTest fmt_time uuid_String fmt_any fmt_map
            (Codec.MarshalEvent [one_marshaler] uuid_String Marshal_data Marshal_evt)
            (Codec.UnmarshalEvent [one_unmarshaler] eventDataFactories uuid_Parse Unmarshal_data Unmarshal_evt)
            expectedBytes) h (fun _ _ => True).
Proof.
  intros Hdec Hf Hraw Hne Hun Hb. unfold EventCodecAcceptanceTest.
  destruct (alloc test_metadata h) as [h1 md] eqn:Ha.
  eapply passes_step; [unfold new_map; by rewrite Ha|].
  assert (h1 !! md = Some test_metadata) as Hmdl by (pose proof (alloc_lookup test_metadata h) as Hl; by rewrite Ha in Hl).
  assert (Codec.MarshalEvent [one_marshaler] uuid_String Marshal_data Marshal_evt testctx (Some (test_event md)) h1 =
    (Ok expectedBytes, h1)) as Hm.
  { unfold Codec.MarshalEvent. rewrite (bind_ok _ _ h1 h1 (test_event md)) by done.
    rewrite (bind_ok _ _ h1 h1 test_vals) by done.
    rewrite (bind_ok _ _ h1 h1 raw) by (apply map_err_ok; simpl; by rewrite Hraw).
    rewrite (bind_ok _ _ h1 h1 h1) by done. apply map_err_ok. simpl. rewrite Hmdl. simpl. by rewrite Hb. }
  t_call Hm. apply passes_expect; [done|]. cbn [value default]. apply passes_expect; [by apply bool_decide_true|].
  destruct (Codec.event_decodes [one_marshaler] [one_unmarshaler] eventDataFactories uuid_String uuid_Parse
    Marshal_data Unmarshal_data Marshal_evt Unmarshal_evt wire_time wire_map testctx Background (test_event md)
    h1 h1 expectedBytes Hdec Hparse) as (vals & md' & h2 & Hc & Hu & Hmd2).
  - right. split; [done|]. exists factory. split; [done|]. intros raw' Hr'.
    change (Marshal_data EventData = inl raw') in Hr'. assert (raw' = raw) as -> by congruence. by split.
  - done.
  - change (Ok (E := error) test_vals = Ok vals) in Hc. injection Hc as <-.
    simpl in Hmd2, Hu. destruct Hmd2 as (l & -> & Hfresh & ->). rewrite Hmdl in *. simpl in *. rewrite Hmd, Htime, Hvals in Hu.
    t_call Hu. apply passes_expect; [done|]. eapply passes_step; [reflexivity|]. eapply passes_step; [reflexivity|].
    apply passes_expect; [|by apply passes_expect_last].
    apply bool_decide_true, CompareEvents_agree. unfold agree.
    split; [done|]. split; [exact event_data_equal|]. do 4 (split; [done|]).
    unfold equal_metadata, DeepEqual_map. cbn [apply_compare_options ignorePosition]. apply orb_true_iff. right.
    unfold map_at. cbn [fst metadata test_event NewEvent apply_options WithMetadata with_metadata ForAggregate snd mbind option_bind].
    rewrite lookup_insert_eq, lookup_insert_ne by (intros ->; by rewrite Hmdl in Hfresh). by rewrite Hmdl.
Qed.

End Events.

(** acceptance of command codecs, for the way [decode] puts a command's text
    into the command its factory made. *)
Theorem command_codec_acceptance_passes (commands : gmap string (unit -> option command))
    (Marshal_command : command -> string + error) (Marshal_message : Codec.command_message -> string + error)
    (Unmarshal_message : string -> Codec.command_message + error)
    (decode : string -> option command -> option command + error) factory raw expectedBytes h :
  (forall m b, Marshal_message m = inl b ->
     Unmarshal_message b = inl (Codec.mkCommandMessage (Codec.cm_CommandType m) (Codec.cm_Command m)
       (wire_map <$> Codec.cm_Context m))) ->
  commands !! CommandType = Some factory ->
  Marshal_command Command = inl raw -> decode raw (factory tt) = inl (Some Command) ->
  Marshal_message (Codec.mkCommandMessage CommandType raw (Some test_vals)) = inl expectedBytes ->
  passes (CommandCodecAcceptanceTest (Codec.MarshalCommand [one_marshaler] Marshal_command Marshal_message)
            (Codec.UnmarshalCommand [one_unmarshaler] commands Unmarshal_message decode) expectedBytes) h
    (fun _ _ => True).
Proof.
  intros Hdec Hf Hraw Hdc Hb. unfold CommandCodecAcceptanceTest.
  assert (Codec.MarshalCommand [one_marshaler] Marshal_command Marshal_message testctx (Some Command) h =
    (Ok expectedBytes, h)) as Hm.
  { unfold Codec.MarshalCommand. rewrite (bind_ok _ _ h h Command), (bind_ok _ _ h h test_vals) by done.
    rewrite (bind_ok _ _ h h raw) by (apply map_err_ok; by rewrite Hraw). apply map_err_ok.
    change (Command.CommandType Command) with CommandType. by rewrite Hb. }
  t_call Hm. apply passes_expect; [done|]. cbn [value default]. apply passes_expect; [by apply bool_decide_true|].
  destruct (Codec.command_decodes [one_marshaler] [one_unmarshaler] commands Marshal_command Marshal_message
    Unmarshal_message wire_map decode testctx Background Command factory h h expectedBytes Hdec)
    as (vals & Hc & Hu); [done| |done|].
  { intros raw' Hr'. assert (raw' = raw) as -> by congruence. done. }
  change (Ok (E := error) test_vals = Ok vals) in Hc. injection Hc as <-. rewrite Hvals in Hu.
  t_call Hu. apply passes_expect; [done|]. eapply passes_step; [reflexivity|].
  apply passes_expect; [exact command_equal|by apply passes_expect_last].
Qed.

End Passing.
End CodecAcceptance.
