(* ===== verification/Namespace.v ===== *)
(** * Namespaced stores ([namespace/eventstore.go], [namespace/repo.go])

    One store (or repository) per namespace, made on first use.  [S] is the
    state of one of them; a handle to it is its namespace.  Looking a store up
    and making it are two separately locked steps. *)

From stdpp Require Import base gmap strings list numbers option pretty.
From Stdlib Require Import Lia ZArith.
From S2P Require Import Prelude.
From S2P Require Import GoTypes.
From S2P Require Import Event.
From S2P Require Import Command.
From S2P Require Import Errors.
From S2P Require Import Fixtures.
From S2P Require Import Context.
From S2P Require Import EventStoreSpec.
From S2P Require Import Repo.
From S2P Require Import MemStore.

Section Namespace.
Context {S : Type}.

Abbreviation Stores := (gmap string S).

(** The factory the caller provides. *)
Context (factory : string -> S + error).

Definition NewEventStore : Stores := ∅.

(** The lookup under the read lock. *)
Definition lookup_store (ns : string) : M Stores (option S) := gets (fun m => m !! ns).

(** [s.newEventStore(ns)] and the insertion. *)
Definition make_store (what ns : string) : M Stores unit :=
  match factory ns with
  | inr err => throw (Errorf ("could not create " +:+ what +:+ " for namespace '" +:+ ns +:+ "'") err)
  | inl s => modify (<[ns := s]>)
  end.

(** [eventStore], under the write lock: the second check assigns the outer
    variable, so a store made meanwhile is the one returned. *)
Definition create_eventStore (ns : string) : M Stores (option string) :=
  let! found := gets (fun m => m !! ns) in
  match found with
  | Some _ => ret (Some ns)
  | None => do! make_store "event store" ns in ret (Some ns)
  end.

(** [repo], under the write lock: the second check declares new variables, so
    a repository made meanwhile leaves the outer one nil. *)
Definition create_repo (ns : string) : M Stores (option string) :=
  let! found := gets (fun m => m !! ns) in
  match found with
  | Some _ => ret None
  | None => do! make_store "repo" ns in ret (Some ns)
  end.

Definition lookup_or_create (create : string -> M Stores (option string)) (ctx : context)
  : M Stores (option string) :=
  let ns := NamespaceFromContext ctx in
  let! found := lookup_store ns in
  match found with
  | Some _ => ret (Some ns)
  | None => create ns
  end.

Definition eventStore : context -> M Stores (option string) := lookup_or_create create_eventStore.

Definition repo : context -> M Stores (option string) := lookup_or_create create_repo.

(** A method call on the store of a handle; the nil handle panics. *)
Definition on_store {A} (handle : option string) (m : M S A) : M Stores A :=
  let! ns := deref handle in
  fun stores =>
    match stores !! ns with
    | Some s => let '(o, s') := m s in (o, <[ns := s']> stores)
    | None => (Panic "nil pointer dereference", stores)
    end.

(** ** The event store *)

Section EventStore.
Context (store : EventStore S).

Definition ns_Save (ctx : context) (events : list (option event)) (originalVersion : Z)
  : M Stores unit :=
  let! handle := eventStore ctx in on_store handle (es_Save store ctx events originalVersion).

Definition ns_Load (ctx : context) (id : UUID) : M Stores (list (option event)) :=
  let! handle := eventStore ctx in on_store handle (es_Load store ctx id).

Definition ns_LoadFrom (ctx : context) (id : UUID) (version : Z) : M Stores (list (option event)) :=
  let! handle := eventStore ctx in on_store handle (es_LoadFrom store ctx id version).

Definition PreRegisterNamespace (ns : string) : M Stores unit :=
  do! eventStore (NewContextWithNamespace Background ns) in ret tt.

Definition ns_EventStore (Close : M Stores unit) : EventStore Stores :=
  mkEventStore ns_Save ns_Load ns_LoadFrom Close.

End EventStore.

(** ** The repository *)

Section Repo.
Context {E : Type} (inner : ReadWriteRepo S E).

Definition ns_Find (ctx : context) (id : UUID) : M Stores E :=
  let! handle := repo ctx in on_store handle (Repo.Find inner ctx id).

Definition ns_FindAll (ctx : context) : M Stores (list E) :=
  let! handle := repo ctx in on_store handle (Repo.FindAll inner ctx).

Definition ns_repo_Save (ctx : context) (entity : option E) : M Stores unit :=
  let! handle := repo ctx in on_store handle (Repo.Save inner ctx entity).

Definition ns_Remove (ctx : context) (id : UUID) : M Stores unit :=
  let! handle := repo ctx in on_store handle (Repo.Remove inner ctx id).

End Repo.

(** [Close]: every store is closed, in the order the map iteration takes; the
    texts of the errors are joined. *)
Section Close.
Context (error_String : error -> string) (close : M S unit).

Fixpoint close_all (order : list string) : M Stores (list string) :=
  match order with
  | [] => ret []
  | ns :: order' =>
      let! r := attempt (on_store (Some ns) close) in
      let! errStrs := close_all order' in
      match r with
      | inl _ => ret errStrs
      | inr err => ret (error_String err :: errStrs)
      end
  end.

Definition ns_Close (order : list string) : M Stores unit :=
  let! errStrs := close_all order in
  match errStrs with
  | [] => ret tt
  | _ => throw (ErrorString ("multiple errors: " +:+ String.concat ", " errStrs))
  end.

(** [Repo.Close] is the same code over the repositories. *)
Definition ns_repo_Close : list string -> M Stores unit := ns_Close.

End Close.

(** [NewRepo]: no repository yet. *)
Definition NewRepo : Stores := ∅.

(** [InnerRepo]: the repository of the context's namespace; nil if it cannot be
    made. *)
Definition ns_InnerRepo (value : S -> repo_value) (ctx : context) : M Stores (option repo_value) :=
  let! r := attempt (repo ctx) in
  match r with
  | inr _ => ret None
  | inl handle => gets (fun stores => ns ← handle; value <$> stores !! ns)
  end.

Definition ns_IntoRepo (r : option repo_value) : option repo_value := IntoRepo "namespace.Repo" r.

(** ** Properties *)

(** The state of a namespace as its users see it: a missing store is the one
    the factory would make. *)
Definition ns_state (stores : Stores) (ns : string) : S + error :=
  match stores !! ns with
  | Some s => inl s
  | None => factory ns
  end.

Lemma lookup_or_create_spec create ctx stores s :
  (create = create_eventStore \/ create = create_repo) ->
  ns_state stores (NamespaceFromContext ctx) = inl s ->
  exists stores', lookup_or_create create ctx stores = (Ok (Some (NamespaceFromContext ctx)), stores') /\
    stores' = <[NamespaceFromContext ctx := s]> stores.
Proof.
  intros Hc Hs. unfold lookup_or_create, lookup_store, ns_state in *.
  set (ns := NamespaceFromContext ctx) in *.
  rewrite (bind_ok _ _ stores stores (stores !! ns)) by done.
  destruct (stores !! ns) as [s0|] eqn:Hns.
  - injection Hs as ->. exists stores. split; [done|]. by rewrite insert_id.
  - exists (<[ns := s]> stores). split; [|done].
    destruct Hc as [->| ->]; unfold create_eventStore, create_repo, make_store;
      rewrite (bind_ok _ _ stores stores (stores !! ns)) by done; rewrite Hns, Hs;
      by rewrite (bind_ok _ _ stores (<[ns := s]> stores) tt).
Qed.

(** Any operation on the store of the context's namespace. *)
Lemma ns_operation {A} (create : string -> M Stores (option string)) (op : M S A) ctx stores s :
  (create = create_eventStore \/ create = create_repo) ->
  ns_state stores (NamespaceFromContext ctx) = inl s ->
  exists stores',
    (let! handle := lookup_or_create create ctx in on_store handle op) stores = ((op s).1, stores') /\
    stores' !! NamespaceFromContext ctx = Some (op s).2 /\
    (forall ns, ns <> NamespaceFromContext ctx -> stores' !! ns = stores !! ns).
Proof.
  intros Hc Hs. destruct (lookup_or_create_spec create ctx stores s Hc Hs) as (st1 & Hl & ->).
  rewrite (bind_ok _ _ _ _ _ Hl). unfold on_store.
  rewrite (bind_ok _ _ _ (<[NamespaceFromContext ctx := s]> stores) (NamespaceFromContext ctx)) by done.
  rewrite lookup_insert_eq. destruct (op s) as [o s']. eexists. split; [done|]. simpl.
  split; [apply lookup_insert_eq|]. intros ns Hne. by rewrite !lookup_insert_ne.
Qed.

(** [op] on the namespaced store is [on] on the store of the context's
    namespace, and touches no other. *)
Definition acts_as {A} (ctx : context) (stores : Stores) (s : S) (op : M Stores A) (on : M S A) : Prop :=
  exists stores', op stores = ((on s).1, stores') /\
    ns_state stores' (NamespaceFromContext ctx) = inl (on s).2 /\
    (forall ns, ns <> NamespaceFromContext ctx -> ns_state stores' ns = ns_state stores ns).

(** The first use of a namespace by two goroutines: both miss in the lookup,
    then they take the write lock one after the other. *)
Definition race_outcome (ns : string) (stores : Stores) : Prop :=
  lookup_store ns stores = (Ok None, stores) /\
  (exists st1, create_eventStore ns stores = (Ok (Some ns), st1) /\
     create_eventStore ns st1 = (Ok (Some ns), st1)) /\
  (exists st1, create_repo ns stores = (Ok (Some ns), st1) /\
     create_repo ns st1 = (Ok None, st1) /\
     forall A (op : M S A), exists p, on_store None op st1 = (Panic p, st1)).

Lemma first_use_race ns stores s :
  stores !! ns = None -> factory ns = inl s -> race_outcome ns stores.
Proof.
  intros Hn Hf.
  assert (forall st, create_eventStore ns st = match st !! ns with
    | Some _ => (Ok (Some ns), st)
    | None => (Ok (Some ns), <[ns := s]> st) end) as He.
  { intros st. unfold create_eventStore, make_store. rewrite (bind_ok _ _ st st (st !! ns)) by done.
    destruct (st !! ns); [done|]. by rewrite Hf. }
  assert (forall st, create_repo ns st = match st !! ns with
    | Some _ => (Ok None, st)
    | None => (Ok (Some ns), <[ns := s]> st) end) as Hr.
  { intros st. unfold create_repo, make_store. rewrite (bind_ok _ _ st st (st !! ns)) by done.
    destruct (st !! ns); [done|]. by rewrite Hf. }
  split; [unfold lookup_store, gets; by rewrite Hn|]. split; exists (<[ns := s]> stores).
  - by rewrite !He, Hn, lookup_insert_eq.
  - rewrite !Hr, Hn, lookup_insert_eq. split; [done|]. split; [done|]. intros A op. by eexists.
Qed.

(** C35: namespaces are isolated.  An operation of the namespaced event store
    or repository behaves as the same operation on the store of the context's
    namespace ([default] when the context has none), made by the factory if it
    was not there yet; the stores of all other namespaces are untouched.  Two
    goroutines that use a namespace first at the same time both miss in the
    lookup and then take the write lock one after the other: with the event
    store both get the one store that was made, with the repository the second
    gets nil, and its call panics. *)
Theorem namespaces_isolated {E} (store : EventStore S) (inner : ReadWriteRepo S E)
    ctx events v id from (entity : option E) stores s :
  ns_state stores (NamespaceFromContext ctx) = inl s ->
  acts_as ctx stores s (ns_Save store ctx events v) (es_Save store ctx events v) /\
  acts_as ctx stores s (ns_LoadFrom store ctx id from) (es_LoadFrom store ctx id from) /\
  acts_as ctx stores s (ns_Load store ctx id) (es_Load store ctx id) /\
  acts_as ctx stores s (ns_Find inner ctx id) (Repo.Find inner ctx id) /\
  acts_as ctx stores s (ns_FindAll inner ctx) (Repo.FindAll inner ctx) /\
  acts_as ctx stores s (ns_repo_Save inner ctx entity) (Repo.Save inner ctx entity) /\
  acts_as ctx stores s (ns_Remove inner ctx id) (Repo.Remove inner ctx id) /\
  (stores !! NamespaceFromContext ctx = None -> race_outcome (NamespaceFromContext ctx) stores).
Proof.
  intros Hs.
  assert (forall A (create : string -> M Stores (option string)) (op : M S A),
    create = create_eventStore \/ create = create_repo ->
    acts_as ctx stores s (let! handle := lookup_or_create create ctx in on_store handle op) op) as Hall.
  { intros A create op Hc. destruct (ns_operation create op ctx stores s Hc Hs) as (st' & Ho & Hn & Hoth).
    exists st'. unfold ns_state. rewrite Hn. split_and!; [done..|].
    intros ns Hne. by rewrite Hoth. }
  split_and!; [apply Hall; by auto..|]. intros Hn. apply (first_use_race _ _ s Hn).
  unfold ns_state in Hs. by rewrite Hn in Hs.
Qed.


End Namespace.

(** ** Concrete inputs *)

Definition demo_ns_store : EventStore (MemDB * unit) := memory_EventStore ∅ copier_assign.

(** A repository whose every entity is 1. *)
Definition demo_ns_repo : ReadWriteRepo (MemDB * unit) Z :=
  mkRepo (fun _ _ => ret 1) (fun _ => ret []) (fun _ _ => ret tt) (fun _ _ => ret tt) (ret tt).

Definition demo_factory (ns : string) : (MemDB * unit) + error := inl (∅, tt).

Lemma namespaces_isolated_witness :
  exists stores', ns_Save demo_factory demo_ns_store (NewContextWithNamespace bg "a")
      (somes (demo_events id1 1 1)) 0 ∅ = (Ok tt, stores') /\
    ns_state demo_factory stores' "b" = inl (∅, tt) /\
    race_outcome demo_factory "a" ∅.
Proof.
  destruct (namespaces_isolated demo_factory demo_ns_store demo_ns_repo
    (NewContextWithNamespace bg "a") (somes (demo_events id1 1 1)) 0 id1 1 None ∅ (∅, tt))
    as ((st' & Ho & _ & Hoth) & _ & _ & _ & _ & _ & _ & Hrace); [reflexivity|].
  exists st'. split; [exact Ho|]. split; [apply Hoth; discriminate|]. apply Hrace. reflexivity.
Defined.
