(* ===== verification/DomainModel.v ===== *)
(** * Domains: the commands of an aggregate and what they are for

    What the example domains share: appending events while a command is
    handled, and [CommandSpec], the contract of a domain: when a command is
    allowed, the events it emits, and that applying them is the command's effect
    on the state.  [domain_handler_end_to_end] then says what a command does to
    an event store, for every domain with the contract and every event store
    with its own. *)

From stdpp Require Import base gmap strings list numbers option pretty.
From Stdlib Require Import Lia ZArith.
From S2P Require Import Prelude.
From S2P Require Import GoTypes.
From S2P Require Import Event.
From S2P Require Import Command.
From S2P Require Import Errors.
From S2P Require Import CommandCheck.
From S2P Require Import EventStoreSpec.
From S2P Require Import ErrorText.
From S2P Require Import AggregateBase.
From S2P Require Import AggregateStore.
From S2P Require Import CommandHandler.

Section Emitting.
Context {D : Type}.

(** An aggregate that handles a command, and how often it has asked for the
    time. *)
Definition handling : Type := nat * agg D.

(** [a.AppendEvent(et, d, TimeNow())]; without options it leaves the heap of
    metadata maps alone, so any heap will do. *)
Definition append_event (TimeNow : nat -> Time) (et : string) (d : any) (st : handling) : handling :=
  let '(k, a) := st in
  let '(_, base, _) := AppendEvent et d (TimeNow k) [] ∅ (agg_base a) in
  (S k, mkAgg base (agg_dom a)).

(** An event by its type and data. *)
Definition sig : Type := string * any.

Definition sig_of (e : event) : sig := (eventType e, data e).

(** [st] is [a] with the events [sigs] appended. *)
Definition emits (a : agg D) (sigs : list sig) (st : handling) : Prop :=
  exists evs, sig_of <$> evs = sigs /\
    st.2 = mkAgg (mkBase (base_id (agg_base a)) (base_t (agg_base a)) (base_v (agg_base a))
                    (base_events (agg_base a) ++ somes evs)) (agg_dom a) /\
    base_ok (agg_base st.2).

(** Room for [n] more versions. *)
Definition room (n : Z) (a : agg D) : Prop :=
  is_int (base_v (agg_base a) + len (base_events (agg_base a)) + n).

Lemma emits_nil a : base_ok (agg_base a) -> emits a [] (0%nat, a).
Proof.
  intros Hb. exists []. split; [done|]. split; [|done]. destruct a as [[] d]. simpl.
  by rewrite app_nil_r.
Qed.

Lemma append_event_emits TimeNow a sigs st et d :
  emits a sigs st -> room (len sigs + 1) a ->
  emits a (sigs ++ [(et, d)]) (append_event TimeNow et d st).
Proof.
  destruct st as [k a1]. intros (evs & <- & Ha & Hok) Hr.
  simpl in Ha, Hok. subst a1. unfold append_event, room in *.
  simpl agg_base in *. simpl agg_dom.
  set (b := mkBase _ _ _ _) in *. rewrite len_fmap in Hr.
  pose proof (AppendEvent_base_ok et d (TimeNow k) [] ∅ b Hok) as HA.
  assert (is_int (base_v b + len (base_events b) + 1)) as Hb.
  { subst b. simpl. rewrite len_app, len_somes.
    by replace (_ + (_ + _) + 1) with (base_v (agg_base a) + len (base_events (agg_base a)) + (len evs + 1)) by lia. }
  specialize (HA Hb). unfold AppendEvent, NewEvent in *. simpl in *.
  destruct HA as (HA & _).
  match type of HA with base_ok (mkBase _ _ _ (_ ++ [Some ?e])) => exists (evs ++ [e]) end.
  split; [by rewrite fmap_app|]. split; [|exact HA].
  simpl. by rewrite somes_app, app_assoc.
Qed.

Lemma room_le n m a : base_ok (agg_base a) -> room m a -> 0 <= n <= m -> room n a.
Proof. unfold room. intros [Hv _] Hm Hn. int_lia. Qed.

Lemma append_one_emits TimeNow a et d :
  base_ok (agg_base a) -> room 1 a ->
  emits a [(et, d)] (append_event TimeNow et d (0%nat, a)).
Proof. intros Hb Hr. apply (append_event_emits TimeNow a []); [by apply emits_nil|done]. Qed.

End Emitting.

(** ** Applying events, by type and data *)

Section Applying.
Context {D : Type} `{Domain D}.

Definition apply_sig (s : sig) (d : D) : D * option error :=
  dom_ApplyEvent Background (mkEvent s.1 s.2 0 "" Nil 0 None) d.

Fixpoint apply_sigs (l : list sig) (d : D) : option D :=
  match l with
  | [] => Some d
  | s :: l' =>
      match apply_sig s d with
      | (d', None) => apply_sigs l' d'
      | (_, Some _) => None
      end
  end.

Lemma apply_sigs_cons s l d d' : apply_sig s d = (d', None) -> apply_sigs (s :: l) d = apply_sigs l d'.
Proof. intros Hs. cbn [apply_sigs]. by rewrite Hs. Qed.

(** Only the type and the data of an event matter when it is applied. *)
Class AppliesBySig : Prop := {
  law_apply_sig ctx e d : dom_ApplyEvent ctx e d = apply_sig (sig_of e) d
}.

(** Such a domain does not see how a store keeps its events. *)
#[export] Instance AppliesBySig_AppliesKept `{!AppliesBySig} {S} (store : EventStore S)
    `{!EventStoreLaws store} : AppliesKept store (agg D).
Proof.
  split. intros ctx e e' [b d] (Ht & Hd & _)%law_kept. simpl.
  rewrite !law_apply_sig. unfold sig_of. by rewrite Ht, Hd.
Qed.

(** Replaying events is applying their types and data in order. *)
Lemma replay_apply_sigs `{!AppliesBySig} ctx evs b d d' :
  apply_sigs (sig_of <$> evs) d = Some d' ->
  replay ctx evs (mkAgg b d) =
  Some (mkAgg (SetAggregateVersion (foldl (fun _ e => version e) (base_v b) evs) b) d').
Proof.
  revert b d. induction evs as [|e evs IH]; intros b d Hs.
  - simpl in *. simplify_eq. by destruct b.
  - rewrite fmap_cons in Hs. cbn [apply_sigs] in Hs.
    cbn [replay a_ApplyEvent agg_Aggregate agg_base agg_dom]. rewrite law_apply_sig.
    destruct (apply_sig (sig_of e) d) as [d1 [err|]]; [done|].
    by apply (IH (SetAggregateVersion (version e) b)).
Qed.

End Applying.
Arguments AppliesBySig D {_}.

(** ** The contract of a domain *)

Section Spec.
Context {D C : Type} `{Domain D}.

Class CommandSpec : Type := {
  spec_type : string;
  spec_new : D;
  spec_command : UUID -> C -> command;
  (** when a command is accepted, what it is for, and the events it emits *)
  spec_allowed : C -> D -> Prop;
  spec_effect : C -> D -> D;
  spec_emitted : C -> D -> list sig;
  (** the states and commands this is promised for *)
  spec_ok : C -> D -> Prop;
  (** at most this many events *)
  spec_size : D -> Z;

  spec_allowed_dec :: forall c d, Decision (spec_allowed c d);
  law_spec_id id c : AggregateID (spec_command id c) = id;
  law_spec_size c d : 0 <= len (spec_emitted c d) <= spec_size d;
  law_spec_allowed ctx id c a :
    base_ok (agg_base a) -> room (spec_size (agg_dom a)) a -> spec_allowed c (agg_dom a) ->
    exists st, dom_HandleCommand ctx (spec_command id c) a = (st.2, None) /\
      emits a (spec_emitted c (agg_dom a)) st;
  law_spec_refused ctx id c a :
    ~ spec_allowed c (agg_dom a) ->
    exists err, dom_HandleCommand ctx (spec_command id c) a = (a, Some err) /\ ErrorText.printable err;
  law_spec_effect c d :
    spec_ok c d -> spec_allowed c d -> apply_sigs (spec_emitted c d) d = Some (spec_effect c d)
}.

Context `{!AppliesBySig D} `{!CommandSpec}.

(** The aggregate a factory makes. *)
Definition spec_new_aggregate (id : UUID) : agg D := mkAgg (NewAggregateBase spec_type id) spec_new.

Lemma HandleCommand_emits ctx id c a :
  base_ok (agg_base a) -> room (spec_size (agg_dom a)) a -> spec_allowed c (agg_dom a) ->
  exists a' evs, dom_HandleCommand ctx (spec_command id c) a = (a', None) /\
    base_ok (agg_base a') /\ agg_dom a' = agg_dom a /\
    a' = mkAgg (mkBase (base_id (agg_base a)) (base_t (agg_base a)) (base_v (agg_base a))
                  (base_events (agg_base a) ++ somes evs)) (agg_dom a) /\
    sig_of <$> evs = spec_emitted c (agg_dom a).
Proof.
  intros Hb Hr Ha. destruct (law_spec_allowed ctx id c a Hb Hr Ha) as ([k a'] & Hh & evs & Hs & Ha' & Hok).
  simpl in *. exists a', evs. split; [done|]. split; [done|]. subst a'. done.
Qed.

(** Handling a command and applying what it emitted is its effect. *)
Lemma HandleCommand_effect ctx id c a :
  base_ok (agg_base a) -> room (spec_size (agg_dom a)) a -> spec_ok c (agg_dom a) ->
  let '(a', err) := dom_HandleCommand ctx (spec_command id c) a in
  if decide (spec_allowed c (agg_dom a)) then
    err = None /\ base_ok (agg_base a') /\ agg_dom a' = agg_dom a /\
    exists evs, base_events (agg_base a') = base_events (agg_base a) ++ somes evs /\
      agg_dom <$> replay ctx evs a = Some (spec_effect c (agg_dom a))
  else (exists e, err = Some e) /\ a' = a.
Proof.
  intros Hb Hr Hc. case_decide as Ha.
  - destruct (HandleCommand_emits ctx id c a Hb Hr Ha) as (a' & evs & -> & Hok & Hd & Ha' & Hs).
    split_and!; try done. exists evs. split; [by rewrite Ha'|].
    pose proof (law_spec_effect c (agg_dom a) Hc Ha) as He. rewrite <- Hs in He.
    destruct a as [b d]. by erewrite replay_apply_sigs.
  - destruct (law_spec_refused ctx id c a Ha) as (err & -> & _). split; [by eexists|done].
Qed.

(** An accepted command, saved: the appended events applied, none
    uncommitted. *)
Lemma command_step ctx id c a a' evs a'' :
  base_ok (agg_base a) -> base_events (agg_base a) = [] ->
  room (spec_size (agg_dom a)) a -> spec_ok c (agg_dom a) ->
  dom_HandleCommand ctx (spec_command id c) a = (a', None) ->
  base_events (agg_base a') = somes evs ->
  replay ctx evs (a_ClearUncommittedEvents a') = Some a'' ->
  spec_allowed c (agg_dom a) /\ agg_dom a'' = spec_effect c (agg_dom a) /\
  base_ok (agg_base a'') /\ base_events (agg_base a'') = [] /\ base_id (agg_base a'') = base_id (agg_base a).
Proof.
  intros Hb Hnil Hr Hc Hh He Hrep.
  destruct (decide (spec_allowed c (agg_dom a))) as [Ha|Ha].
  2: { destruct (law_spec_refused ctx id c a Ha) as (err & Herr & _). congruence. }
  destruct (HandleCommand_emits ctx id c a Hb Hr Ha) as (a1 & evs1 & Hh1 & Hok & Hd & Ha1 & Hs).
  rewrite Hh1 in Hh. simplify_eq. rewrite Hnil in He. simpl in He. apply somes_inj in He as ->.
  pose proof (law_spec_effect c (agg_dom a) Hc Ha) as Happ. rewrite <- Hs in Happ.
  unfold a_ClearUncommittedEvents in Hrep. cbn [agg_Aggregate agg_base agg_dom ClearUncommittedEvents base_id base_t base_v] in Hrep.
  rewrite (replay_apply_sigs _ _ _ _ _ Happ) in Hrep. simplify_eq. simpl.
  split_and!; try done. apply base_ok_set_cleared; [|done].
  destruct Hok as [_ (evs' & He' & Hser & _)]. simpl in He', Hser. rewrite Hnil in He'.
  apply somes_inj in He' as <-. rewrite (foldl_version _ _ _ Hser).
  destruct Hb as [Hv _]. pose proof (law_spec_size c (agg_dom a)) as Hl.
  rewrite <- Hs in Hl. unfold room in Hr. rewrite Hnil in Hr. int_lia.
Qed.

(** ** States that commands can lead to *)

(** The new aggregate, and what [Save] leaves of an accepted command: the
    appended events applied, none uncommitted. *)
Inductive spec_reachable (id : UUID) : agg D -> Prop :=
| spec_reachable_new : spec_reachable id (spec_new_aggregate id)
| spec_reachable_command ctx c a a' evs a'' :
    spec_reachable id a -> room (spec_size (agg_dom a)) a -> spec_ok c (agg_dom a) ->
    dom_HandleCommand ctx (spec_command id c) a = (a', None) ->
    base_events (agg_base a') = somes evs ->
    replay ctx evs (a_ClearUncommittedEvents a') = Some a'' ->
    spec_reachable id a''.

(** An invariant of the effects is one of the reachable states. *)
Lemma spec_reachable_inv (P : D -> Prop) id a :
  P spec_new ->
  (forall c d, P d -> spec_ok c d -> spec_allowed c d -> P (spec_effect c d)) ->
  spec_reachable id a ->
  P (agg_dom a) /\ base_ok (agg_base a) /\ base_events (agg_base a) = [] /\ base_id (agg_base a) = id.
Proof.
  intros HP Hstep. induction 1 as [|ctx c a a' evs a'' _ IH Hr Hc Hh He Hrep].
  - split_and!; try done. by apply (base_ok_set_cleared (NewAggregateBase spec_type id) 0).
  - destruct IH as (Hp & Hb & Hnil & Hid).
    destruct (command_step ctx id c a a' evs a'' Hb Hnil Hr Hc Hh He Hrep) as (Ha & Hd & Hb' & Hnil' & Hid').
    rewrite Hd, Hid'. split_and!; try done. by apply Hstep.
Qed.

(** ** End to end *)

(** The stream of [id] replays to the state [d]. *)
Definition spec_represents {S} {store : EventStore S} `{!EventStoreLaws store}
    (ctx : context) (s : S) (id : UUID) (d : D) : Prop :=
  store_ok s /\ typed spec_type (stream s id) /\
  agg_dom <$> replay ctx (stream s id) (spec_new_aggregate id) = Some d.

Lemma kept_sigs {S} (store : EventStore S) `{!EventStoreLaws store} evs evs' :
  Forall2 kept evs evs' -> sig_of <$> evs' = sig_of <$> evs.
Proof.
  induction 1 as [|e e' evs evs' He _ IH]; [done|]. rewrite !fmap_cons, IH. f_equal.
  destruct (law_kept _ _ He) as (Ht & Hd & _). unfold sig_of. by rewrite Ht, Hd.
Qed.

Lemma domain_handler_appends {S} (uuid_String : UUID -> string)
    (aggregates : gmap string (UUID -> option (agg D)))
    (store : EventStore S) `{!EventStoreLaws store} strategy now ctx s id c d :
  aggregates !! spec_type = Some (fun id => Some (spec_new_aggregate id)) ->
  (forall e, sig_of e ∈ spec_emitted c d -> storable e) ->
  ctx_err ctx = None -> CheckCommand (Some (spec_command id c)) = None ->
  spec_represents ctx s id d -> spec_ok c d ->
  is_int (len (stream s id) + spec_size d) -> holds s (len (spec_emitted c d)) ->
  let '(o, s') := CommandHandler.HandleCommand spec_type
                    (events_store uuid_String aggregates store None strategy now)
                    ctx (Some (spec_command id c)) s in
  (forall id', id' <> id -> stream s' id' = stream s id') /\
  if decide (spec_allowed c d) then
    o = Ok tt /\ spec_represents ctx s' id (spec_effect c d) /\
    (exists evs, stream s' id = stream s id ++ evs /\ sig_of <$> evs = spec_emitted c d) /\
    (forall m, holds s (len (spec_emitted c d) + m) -> holds s' m)
  else (exists err, o = Err (AggregateError err) /\ ErrorText.printable err) /\ unchanged 0 s s'.
Proof.
  intros Hagg Hstorable Hctx Hc (Hok & Hty & Hr) Hi Hroom Hholds.
  apply fmap_Some in Hr as (a & Hr & ->).
  assert (registered aggregates spec_type id (spec_new_aggregate id)) as Hreg by (split; [by eexists|done]).
  pose proof (law_spec_id id c) as Hcid.
  assert (a_AggregateVersion (spec_new_aggregate id) = 0) as Hv0 by done.
  destruct (replay_frame ctx id 0 _ _ _ (law_stream_serial s id Hok) Hv0 Hr)
    as (Hid & Hat & Hun & Hv). simpl in Hid, Hat, Hun, Hv.
  destruct a as [[id0 at0 v0 evs0] d]. unfold EntityID, base_AggregateType, UncommittedEvents, AggregateVersion in *.
  simpl in Hid, Hat, Hun, Hv, Hi, Hroom |- *. rewrite Z.add_0_l in Hv. subst id0 at0 evs0 v0.
  set (a := mkAgg _ d) in *. pose proof (len_nonneg (stream s id)). pose proof (law_spec_size c d) as Hsize.
  assert (base_ok (agg_base a)) as Hb
    by (apply (base_ok_set_cleared (NewAggregateBase spec_type id)); [int_lia|done]).
  assert (room (spec_size (agg_dom a)) a) as Hroom' by (unfold room; simpl; int_lia).
  case_decide as Ha.
  - destruct (HandleCommand_emits ctx id c a Hb Hroom' Ha) as (a' & evs & Hh & Hok' & Hd' & Ha' & Hs).
    subst a'. destruct Hok' as (Hint & evs' & He & Hser & Htyp). simpl in He, Hser, Htyp.
    apply somes_inj in He as <-.
    pose proof (law_spec_effect c (agg_dom a) Hi Ha) as Happ. rewrite <- Hs in Happ.
    assert (len evs <= spec_size d) as Hlen
      by (change d with (agg_dom a) in Hsize; rewrite <- Hs, len_fmap in Hsize; apply Hsize).
    destruct (handler_commits uuid_String strategy now aggregates store ctx spec_type
      (spec_command id c) (spec_new_aggregate id) a
      (mkAgg (mkBase id spec_type (len (stream s id)) (somes evs)) d)
      (mkAgg (SetAggregateVersion (foldl (fun _ e => version e) (len (stream s id)) evs) (agg_base a)) (spec_effect c d))
      evs s)
      as (s' & evs' & Hrun & Hok' & Hstr & HF & Hoth & Hrep & Hm); rewrite ?Hcid in *; try done.
    + intros Hne. split; [done|]. split; [done|]. split; [by eexists|]. split; int_lia.
    + apply Forall_forall. intros e He. apply Hstorable. change d with (agg_dom a). rewrite <- Hs.
      by apply list_elem_of_fmap_2.
    + change d with (agg_dom a) in Hholds. by rewrite <- Hs, len_fmap in Hholds.
    + by apply (replay_apply_sigs ctx evs (agg_base a) d).
    + rewrite Hrun. split; [done|]. split; [done|]. split; [split_and!; [done| |by rewrite Hrep]|split].
      * rewrite Hstr. apply Forall_app. split; [done|by eapply kept_typed].
      * exists evs'. split; [done|]. change d with (agg_dom a). rewrite <- Hs. by eapply kept_sigs.
      * change d with (agg_dom a). rewrite <- Hs, len_fmap. done.
  - destruct (law_spec_refused ctx id c a Ha) as (err & Hh & Hpr). rewrite <- Hcid in Hreg, Hty, Hr.
    pose proof (handler_rejects uuid_String strategy now aggregates store ctx spec_type
      (spec_command id c) _ a s Hok Hreg Hty Hr) as Hrej.
    rewrite Hctx, Hc in Hrej. destruct (Hrej err) as (s' & -> & Hu); [simpl; by rewrite Hh|].
    split; [|split; [by eexists|done]]. intros. by apply (unchanged_stream store 0 s).
Qed.

Lemma domain_handler_end_to_end {S} (uuid_String : UUID -> string)
    (aggregates : gmap string (UUID -> option (agg D)))
    (store : EventStore S) `{!EventStoreLaws store} strategy now ctx s id c d :
  aggregates !! spec_type = Some (fun id => Some (spec_new_aggregate id)) ->
  (forall e, sig_of e ∈ spec_emitted c d -> storable e) ->
  ctx_err ctx = None -> CheckCommand (Some (spec_command id c)) = None ->
  spec_represents ctx s id d -> spec_ok c d ->
  is_int (len (stream s id) + spec_size d) -> holds s (len (spec_emitted c d)) ->
  let '(o, s') := CommandHandler.HandleCommand spec_type
                    (events_store uuid_String aggregates store None strategy now)
                    ctx (Some (spec_command id c)) s in
  (forall id', id' <> id -> stream s' id' = stream s id') /\
  if decide (spec_allowed c d) then o = Ok tt /\ spec_represents ctx s' id (spec_effect c d)
  else (exists err, o = Err (AggregateError err)) /\ unchanged 0 s s'.
Proof.
  intros Hagg Hst Hctx Hc Hr Hi Hroom Hh.
  pose proof (domain_handler_appends uuid_String aggregates store strategy now ctx s id c d
    Hagg Hst Hctx Hc Hr Hi Hroom Hh) as Hrun.
  destruct (CommandHandler.HandleCommand _ _ _ _ s) as [o s']. destruct Hrun as [Hoth Hrun].
  split; [done|]. case_decide; [by destruct Hrun as (-> & ? & _)|].
  destruct Hrun as ((err & -> & _) & ?). split; [by eexists|done].
Qed.

End Spec.
Arguments CommandSpec D C {_}.
