(* ===== verification/NamespaceOutbox.v ===== *)
(** * The namespaced outbox ([namespace/outbox.go])

    One outbox per namespace, made on first use, given the handlers known by
    then, and started.  [O] is the state of one outbox and [Outbox_ops] its
    methods; [Mt] and [Hd] are matchers and handlers.  The goroutine that merges
    the error channels is [forward], one error at a time. *)

From stdpp Require Import base gmap strings list numbers option pretty.
From Stdlib Require Import Lia ZArith.
From S2P Require Import Prelude.
From S2P Require Import GoTypes.
From S2P Require Import Event.
From S2P Require Import Command.
From S2P Require Import Errors.
From S2P Require Import Fixtures.
From S2P Require Import Context.
From S2P Require Import Outbox.
From S2P Require Import Namespace.

Module NamespaceOutbox.

(** The interface [eh.Outbox]; [recv] takes an error from the channel that
    [Errors] gives, if there is one. *)
Record Outbox_ops (O Mt Hd : Type) : Type := mkOutbox_ops {
  ob_AddHandler : context -> Mt -> Hd -> M O unit;
  ob_HandleEvent : context -> option event -> M O unit;
  ob_Start : M O unit;
  ob_Close : M O unit;
  ob_recv : M O (option error)
}.
Arguments mkOutbox_ops {O Mt Hd}.
Arguments ob_AddHandler {O Mt Hd}.
Arguments ob_HandleEvent {O Mt Hd}.
Arguments ob_Start {O Mt Hd}.
Arguments ob_Close {O Mt Hd}.
Arguments ob_recv {O Mt Hd}.

Section Outbox.
Context {O Mt Hd : Type} (handler_type : Hd -> string).
Context (ops : Outbox_ops O Mt Hd) (newOutbox : string -> O + error).

(** [handlersByType] has the types of [handlers]. *)
Record Outbox : Type := mkOutbox {
  outboxes : gmap string O;
  handlers : list (Mt * Hd);
  errCh : list error;
  cancelled : bool
}.

Definition NewOutbox : Outbox := mkOutbox ∅ [] [] false.

Definition HandlerType : string := "outbox".

(** Running on the outboxes. *)
Definition on_outboxes {A} (m : M (gmap string O) A) : M Outbox A :=
  zoom outboxes (fun obs o => mkOutbox obs (handlers o) (errCh o) (cancelled o)) m.

Definition has_type (t : string) (hs : list (Mt * Hd)) : bool :=
  existsb (fun mh => bool_decide (handler_type mh.2 = t)) hs.

Definition AddHandler (ctx : context) (m : option Mt) (h : option Hd) : M Outbox unit :=
  match m with
  | None => throw (Sentinel ErrMissingMatcher)
  | Some m =>
      match h with
      | None => throw (Sentinel ErrMissingHandler)
      | Some h =>
          let! o := gets (fun o => o) in
          if has_type (handler_type h) (handlers o) then throw (Sentinel ErrHandlerAlreadyAdded)
          else
            do! modify (fun o => mkOutbox (outboxes o) (handlers o ++ [(m, h)]) (errCh o) (cancelled o)) in
            let ns := NamespaceFromContext ctx in
            match outboxes o !! ns with
            | Some _ => on_outboxes (on_store (Some ns) (ob_AddHandler ops ctx m h))
            | None => ret tt
            end
      end
  end.

(** A new outbox: made, given the handlers, and started. *)
Definition make_outbox (ctx : context) (ns : string) (hs : list (Mt * Hd)) : result O :=
  match newOutbox ns with
  | inr err => Err (Errorf ("could not create outbox for namespace '" +:+ ns +:+ "'") err)
  | inl ob =>
      match (do! map_err (Errorf ("could not add handler for outbox in namespace '" +:+ ns +:+ "'"))
                   (for_range hs (fun mh => ob_AddHandler ops ctx mh.1 mh.2)) in
             ob_Start ops) ob with
      | (Ok _, ob) => Ok ob
      | (Err err, _) => Err err
      | (Panic p, _) => Panic p
      end
  end.

(** The second check, under the write lock, declares new variables: an outbox
    made meanwhile leaves the outer one nil. *)
Definition create_outbox (ctx : context) (ns : string) : M Outbox (option string) :=
  let! o := gets (fun o => o) in
  match outboxes o !! ns with
  | Some _ => ret None
  | None =>
      let! ob := lift (make_outbox ctx ns (handlers o)) in
      do! on_outboxes (modify <[ns := ob]>) in
      ret (Some ns)
  end.

(** [outbox]: the handle is the namespace. *)
Definition outbox (ctx : context) : M Outbox (option string) :=
  let ns := NamespaceFromContext ctx in
  let! found := on_outboxes (lookup_store ns) in
  match found with
  | Some _ => ret (Some ns)
  | None => create_outbox ctx ns
  end.

Definition PreRegisterNamespace (ns : string) : M Outbox unit :=
  do! outbox (NewContextWithNamespace Background ns) in ret tt.

Definition HandleEvent (ctx : context) (ev : option event) : M Outbox unit :=
  let! ob := outbox ctx in
  on_outboxes (on_store ob (ob_HandleEvent ops ctx ev)).

(** The order is that of the map iteration. *)
Definition Start (order : list string) : M Outbox unit :=
  for_range order (fun ns => on_outboxes (on_store (Some ns) (ob_Start ops))).

(** The forwarders end when all outboxes could be closed. *)
Definition Close (error_String : error -> string) (order : list string) : M Outbox unit :=
  do! on_outboxes (ns_Close error_String (ob_Close ops) order) in
  modify (fun o => mkOutbox (outboxes o) (handlers o) (errCh o) true).

(** One turn of the forwarder of a namespace. *)
Definition forward (ns : string) : M Outbox unit :=
  let! o := gets (fun o => o) in
  if cancelled o then ret tt
  else
    let! err := on_outboxes (on_store (Some ns) (ob_recv ops)) in
    match err with
    | None => ret tt
    | Some err =>
        modify (fun o => mkOutbox (outboxes o) (handlers o) (Outbox.send errCh_cap err (errCh o)) (cancelled o))
    end.

(** ** Properties *)

Lemma on_outboxes_store {A} ns (m : M O A) o ob :
  outboxes o !! ns = Some ob ->
  on_outboxes (on_store (Some ns) m) o =
  ((m ob).1, mkOutbox (<[ns := (m ob).2]> (outboxes o)) (handlers o) (errCh o) (cancelled o)).
Proof.
  intros Hob. unfold on_outboxes, zoom, on_store.
  rewrite (bind_ok _ _ (outboxes o) (outboxes o) ns) by done. rewrite Hob. by destruct (m ob).
Qed.

Lemma outbox_there ctx o ob :
  outboxes o !! NamespaceFromContext ctx = Some ob -> outbox ctx o = (Ok (Some (NamespaceFromContext ctx)), o).
Proof.
  intros Hob. unfold outbox, on_outboxes, lookup_store, zoom, bind, gets. simpl. rewrite Hob. by destruct o.
Qed.

Lemma outbox_first ctx o ob :
  outboxes o !! NamespaceFromContext ctx = None ->
  make_outbox ctx (NamespaceFromContext ctx) (handlers o) = Ok ob ->
  outbox ctx o = (Ok (Some (NamespaceFromContext ctx)),
    mkOutbox (<[NamespaceFromContext ctx := ob]> (outboxes o)) (handlers o) (errCh o) (cancelled o)).
Proof.
  intros Hno Hm. unfold outbox, create_outbox, on_outboxes, lookup_store, zoom, bind, gets, lift. simpl.
  rewrite Hno. simpl. rewrite Hno, Hm. simpl. done.
Qed.

(** The outbox of a namespace as its next user finds it. *)
Definition outbox_for (ctx : context) (o : Outbox) : result O :=
  match outboxes o !! NamespaceFromContext ctx with
  | Some ob => Ok ob
  | None => make_outbox ctx (NamespaceFromContext ctx) (handlers o)
  end.

(** an event goes to the outbox of its namespace and to no other, and the first
    event of a namespace makes an outbox with all handlers added so far. *)
Theorem ns_outbox_isolated ctx ev o ob :
  outbox_for ctx o = Ok ob ->
  exists o', HandleEvent ctx ev o = ((ob_HandleEvent ops ctx ev ob).1, o') /\
    outboxes o' !! NamespaceFromContext ctx = Some (ob_HandleEvent ops ctx ev ob).2 /\
    handlers o' = handlers o /\
    (forall ns, ns <> NamespaceFromContext ctx -> outboxes o' !! ns = outboxes o !! ns).
Proof.
  unfold outbox_for, HandleEvent. set (ns := NamespaceFromContext ctx) in *. intros Hob.
  destruct (outboxes o !! ns) as [ob0|] eqn:Hns.
  - injection Hob as ->. rewrite (bind_ok _ _ _ _ _ (outbox_there ctx o ob Hns)).
    rewrite (on_outboxes_store _ _ _ ob) by done. eexists. split; [done|]. simpl.
    split; [apply lookup_insert_eq|]. split; [done|]. intros ns' Hne. by apply lookup_insert_ne.
  - rewrite (bind_ok _ _ _ _ _ (outbox_first ctx o ob Hns Hob)).
    rewrite (on_outboxes_store _ _ _ ob) by apply lookup_insert_eq. eexists. split; [done|]. simpl.
    split; [apply lookup_insert_eq|]. split; [done|]. intros ns' Hne. by rewrite !lookup_insert_ne.
Qed.

(** a handler that is added reaches the namespaces that have no outbox yet, and
    of those that have one only that of the context it is added with: in every
    other one it is never asked for an event, although adding it again is
    refused. *)
Theorem AddHandler_misses_other_namespaces ctx m h o ctx' ob :
  has_type (handler_type h) (handlers o) = false ->
  outboxes o !! NamespaceFromContext ctx' = Some ob ->
  NamespaceFromContext ctx' <> NamespaceFromContext ctx ->
  let '(out, o') := AddHandler ctx (Some m) (Some h) o in
  outbox_for ctx' o' = Ok ob /\
  AddHandler ctx' (Some m) (Some h) o' = (Err (Sentinel ErrHandlerAlreadyAdded), o') /\
  (forall ctx2, outboxes o !! NamespaceFromContext ctx2 = None ->
     NamespaceFromContext ctx2 <> NamespaceFromContext ctx ->
     outbox_for ctx2 o' = make_outbox ctx2 (NamespaceFromContext ctx2) (handlers o ++ [(m, h)])).
Proof.
  intros Ht Hob Hne. unfold AddHandler at 1. rewrite (bind_ok _ _ o o o) by done. rewrite Ht.
  set (o1 := mkOutbox (outboxes o) (handlers o ++ [(m, h)]) (errCh o) (cancelled o)).
  rewrite (bind_ok _ _ o o1 tt) by done.
  assert (forall o', handlers o' = handlers o ++ [(m, h)] ->
    AddHandler ctx' (Some m) (Some h) o' = (Err (Sentinel ErrHandlerAlreadyAdded), o')) as Hagain.
  { intros o' Hh. unfold AddHandler. rewrite (bind_ok _ _ o' o' o') by done. rewrite Hh.
    unfold has_type. rewrite existsb_app. simpl. rewrite bool_decide_true by done. by rewrite orb_true_r. }
  destruct (outboxes o !! NamespaceFromContext ctx) as [ob1|] eqn:Hns.
  - rewrite (on_outboxes_store _ _ o1 ob1) by done. unfold outbox_for. simpl.
    rewrite lookup_insert_ne, Hob by done. split; [done|]. split; [by apply Hagain|].
    intros ctx2 Hno Hne2. by rewrite lookup_insert_ne, Hno.
  - unfold outbox_for, ret. simpl. rewrite Hob. split; [done|]. split; [by apply Hagain|].
    intros ctx2 Hno _. by rewrite Hno.
Qed.

End Outbox.

(** ** Concrete inputs: outboxes that keep the names of their handlers *)

Definition demo_ops : Outbox_ops (list string) unit string :=
  mkOutbox_ops (fun _ _ h => modify (fun l => l ++ [h])) (fun _ _ => modify (fun l => l ++ ["event"]))
    (ret tt) (ret tt) (ret None).

Definition demo_factory (ns : string) : list string + error := inl [].

Definition ctx_a : context := NewContextWithNamespace bg "a".
Definition ctx_b : context := NewContextWithNamespace bg "b".

Definition demo_outboxes : Outbox (O := list string) (Mt := unit) (Hd := string) := mkOutbox {["a" := []; "b" := []]} [] [] false.

Lemma ns_outbox_isolated_witness :
  exists o', HandleEvent demo_ops demo_factory bg None demo_outboxes = (Ok tt, o') /\
    outboxes o' !! "default" = Some ["event"] /\ outboxes o' !! "a" = Some [].
Proof.
  destruct (ns_outbox_isolated demo_ops demo_factory bg None demo_outboxes []) as (o' & Hh & Hd & _ & Hoth).
  - reflexivity.
  - exists o'. split; [exact Hh|]. split; [exact Hd|]. rewrite Hoth by discriminate. reflexivity.
Defined.

Lemma AddHandler_misses_other_namespaces_witness :
  let '(out, o') := AddHandler (fun h => h) demo_ops ctx_a (Some tt) (Some "h") demo_outboxes in
  outboxes o' !! "a" = Some ["h"] /\ outbox_for demo_ops demo_factory ctx_b o' = Ok [].
Proof.
  pose proof (AddHandler_misses_other_namespaces (fun h => h) demo_ops demo_factory ctx_a tt "h" demo_outboxes ctx_b []
    eq_refl eq_refl ltac:(discriminate)) as H.
  split; [reflexivity|exact (proj1 H)].
Defined.

End NamespaceOutbox.
