(* ===== verification/RemoteBus.v ===== *)
(** * What the remote event buses share ([eventbus/kafka], [redis], [nats], [gcp])

    The four buses repeat the same lines: the set of registered handlers, the
    error channel, and what is done with a message's data before it is
    acknowledged in each broker's way.  [EventBus] is the state of a bus;
    [X] that of the rest of the program, the broker and the handlers included;
    [G] is what the goroutine of a handler is started with.

    The codec is any [eh.EventCodec]; when it fails to decode, it also returns a
    context, possibly nil. *)

From stdpp Require Import base gmap strings list numbers option pretty.
From Stdlib Require Import Lia ZArith.
From S2P Require Import Prelude.
From S2P Require Import GoTypes.
From S2P Require Import Event.
From S2P Require Import Command.
From S2P Require Import Errors.
From S2P Require Import Fixtures.
From S2P Require Import Match.
From S2P Require Import Outbox.
From S2P Require Import Handlers.

Module RemoteBus.

Definition HandlerType : string := "eventbus".

Record EventCodec (X : Type) : Type := mkCodec {
  MarshalEvent : context -> option event -> M X string;
  UnmarshalEvent : context -> string -> X -> ((event * context) + (option context * error)) * X
}.
Arguments mkCodec {X}.
Arguments MarshalEvent {X}.
Arguments UnmarshalEvent {X}.

(** Options: the loop of the constructors. *)
Fixpoint apply_options {B} (options : list (option (B -> B + error))) (b : B) : B + error :=
  match options with
  | [] => inl b
  | None :: options' => apply_options options' b
  | Some option :: options' =>
      match option b with
      | inl b' => apply_options options' b'
      | inr err => inr (Errorf "error while applying option" err)
      end
  end.

Section RemoteBus.
Context {X G : Type}.

Record EventBus : Type := mkEventBus {
  registered : gset string;
  errCh : list error;
  goroutines : list G
}.

Definition NewEventBus : EventBus := mkEventBus ∅ [] [].

Abbreviation St := (EventBus * X)%type.

(** Sending on [errCh] (capacity 100), with the [default] case that drops the
    error. *)
Definition report (err : error) : M EventBus unit :=
  modify (fun b => mkEventBus (registered b) (Outbox.send errCh_cap err (errCh b)) (goroutines b)).

(** The checks [AddHandler] begins with. *)
Definition check_handler (m : option EventMatcher) (h : option (EventHandler X))
  : M EventBus (EventMatcher * EventHandler X) :=
  match m with
  | None => throw (Sentinel ErrMissingMatcher)
  | Some m =>
      match h with
      | None => throw (Sentinel ErrMissingHandler)
      | Some h =>
          let! b := gets (fun b => b) in
          if bool_decide (Handlers.HandlerType h ∈ registered b)
          then throw (Sentinel ErrHandlerAlreadyAdded)
          else ret (m, h)
      end
  end.

(** [b.registered[t] = struct{}{}], and the goroutine. *)
Definition register (t : string) (g : G) : M EventBus unit :=
  modify (fun b => mkEventBus ({[t]} ∪ registered b) (errCh b) (goroutines b ++ [g])).

Context (codec : EventCodec X).

(** What comes of a message's data. *)
Inductive verdict : Type :=
| Undecodable (ctx : option context) (err : error)
| Ignored (ctx : context) (e : event)
| Failed (ctx : context) (e : event) (err : error)
| Handled (ctx : context) (e : event).

Definition dispatch (m : EventMatcher) (h : EventHandler X) (ctx : context) (data : string)
  : M X verdict :=
  let! res := fun x => let '(res, x') := UnmarshalEvent codec ctx data x in (Ok res, x') in
  match res with
  | inr (ctx, err) => ret (Undecodable ctx (Errorf "could not unmarshal event" err))
  | inl (e, ctx) =>
      if negb (Match m (Some e)) then ret (Ignored ctx e)
      else
        let! r := attempt (HandleEvent h ctx (Some e)) in
        match r with
        | inr err =>
            ret (Failed ctx e
                   (Errorf ("could not handle event (" +:+ Handlers.HandlerType h +:+ ")") err))
        | inl _ => ret (Handled ctx e)
        end
  end.

(** The [EventBusError] of a message that could not be handled. *)
Definition bus_error (v : verdict) : option error :=
  match v with
  | Undecodable ctx err => Some (EventBusError (Some err) ctx None)
  | Failed ctx e err => Some (EventBusError (Some err) (Some ctx) (Some e))
  | Ignored _ _ | Handled _ _ => None
  end.

Lemma dispatch_undecodable m h ctx data x ctx' err x' :
  UnmarshalEvent codec ctx data x = (inr (ctx', err), x') ->
  dispatch m h ctx data x = (Ok (Undecodable ctx' (Errorf "could not unmarshal event" err)), x').
Proof. intros Hu. unfold dispatch, bind. by rewrite Hu. Qed.

Lemma dispatch_decoded m h ctx data x e ctx' x' :
  UnmarshalEvent codec ctx data x = (inl (e, ctx'), x') ->
  dispatch m h ctx data x =
  if Match m (Some e) then
    match HandleEvent h ctx' (Some e) x' with
    | (Ok _, x1) => (Ok (Handled ctx' e), x1)
    | (Err err, x1) =>
        (Ok (Failed ctx' e (Errorf ("could not handle event (" +:+ Handlers.HandlerType h +:+ ")") err)), x1)
    | (Panic p, x1) => (Panic p, x1)
    end
  else (Ok (Ignored ctx' e), x').
Proof.
  intros Hu. unfold dispatch, bind, attempt. rewrite Hu. destruct (Match m (Some e)); [|done]. simpl.
  by destruct (HandleEvent h ctx' (Some e) x') as [[?|?|?] ?].
Qed.

(** No error leaves [dispatch]; a handler can panic. *)
Lemma dispatch_no_err m h ctx data x err x' : dispatch m h ctx data x <> (Err err, x').
Proof.
  destruct (UnmarshalEvent codec ctx data x) as [[[e ctx']|[ctx' err']] x1] eqn:Hu.
  - rewrite (dispatch_decoded _ _ _ _ _ _ _ _ Hu). repeat case_match; congruence.
  - by rewrite (dispatch_undecodable _ _ _ _ _ _ _ _ Hu).
Qed.

Lemma check_handler_spec m h b :
  check_handler m h b =
  (match m, h with
   | None, _ => Err (Sentinel ErrMissingMatcher)
   | Some _, None => Err (Sentinel ErrMissingHandler)
   | Some m, Some h =>
       if decide (Handlers.HandlerType h ∈ registered b) then Err (Sentinel ErrHandlerAlreadyAdded)
       else Ok (m, h)
   end, b).
Proof.
  destruct m, h; try done. unfold check_handler, bind, gets.
  by destruct (decide _); [rewrite bool_decide_true by done|rewrite bool_decide_false by done].
Qed.

End RemoteBus.

(** ** Concrete inputs: a codec that knows two events, a handler that fails as
    often as the state says *)

Definition demo_codec {X} : EventCodec X :=
  mkCodec
    (fun ctx ev =>
       match ev with
       | Some e => ret (if version e =? 1 then "one" else "two")
       | None => throw (ErrorString "no event")
       end)
    (fun ctx data x =>
       (if bool_decide (data = "one") then inl (demo_event id1 1, bg)
        else if bool_decide (data = "two") then inl (demo_event id1 2, bg)
        else inr (None, ErrorString "bad payload"), x)).

Definition flaky {X} (fails : X -> bool) (count : X -> X) : EventHandler X :=
  mkHandler "h"
    (fun ctx ev => let! x := gets (fun x => x) in
       do! modify count in
       if fails x then throw (ErrorString "not now") else ret tt) false None.

Definition any_event : EventMatcher := MatchFunc (fun _ => true).

End RemoteBus.
