(* ===== verification/KafkaBus.v ===== *)
(** * The Kafka event bus ([eventbus/kafka/eventbus.go])

    The client library is a record of the calls the bus makes, [Kafka]; a call
    that fails returns a nil response.  [R] are readers: consumers of a group,
    started by [NewReader].

    The goroutine of a handler is a state machine: [turn] runs it from one
    [select] on its context to the next and says what it did with the broker's
    messages.  [runs] are its turns with anything the rest of the program, the
    bus and the broker do in between. *)

From stdpp Require Import base gmap strings list numbers option pretty.
From Stdlib Require Import Lia ZArith Ascii.
From S2P Require Import Prelude.
From S2P Require Import GoTypes.
From S2P Require Import Event.
From S2P Require Import Command.
From S2P Require Import Errors.
From S2P Require Import Fixtures.
From S2P Require Import Match.
From S2P Require Import Handlers.
From S2P Require Import RemoteBus.

Module KafkaBus.
Import RemoteBus.

(** [strings.Split(s, ",")] *)
Fixpoint split_commas (cur : string) (s : string) : list string :=
  match s with
  | EmptyString => [cur]
  | String.String c s' =>
      if Ascii.eqb c ","%char then cur :: split_commas "" s'
      else split_commas (cur +:+ String.String c "") s'
  end.

Record message : Type := mkMessage {
  Key : string;
  Value : string;
  Headers : list (string * string)
}.

Definition LastOffset : Z := -1.

Definition FirstOffset : Z := -2.

(** [resp.Errors] and [resp.Topics]; a group listing has its own error. *)
Record Kafka (X R : Type) : Type := mkKafka {
  CreateTopics : string -> Z -> M X (gmap string error);
  Metadata : string -> M X (list string);
  WriteMessages : context -> string -> message -> M X unit;
  NewReader : list string -> string -> string -> Z -> M X R;
  FetchMessage : R -> context -> M X message;
  CommitMessages : R -> context -> message -> M X unit;
  reader_Close : R -> M X unit;
  ListGroups : context -> M X (list string * option error);
  writer_Close : M X unit
}.
Arguments mkKafka {X R}.
Arguments CreateTopics {X R}.
Arguments Metadata {X R}.
Arguments WriteMessages {X R}.
Arguments NewReader {X R}.
Arguments FetchMessage {X R}.
Arguments CommitMessages {X R}.
Arguments reader_Close {X R}.
Arguments ListGroups {X R}.
Arguments writer_Close {X R}.

Section Kafka.
Context {X R : Type} (client : Kafka X R).
(** [errors.Is] for the errors of the client library. *)
Context (IsBrokerNotAvailable IsTopicAlreadyExists : error -> bool).
Context (uuid_String : UUID -> string).

(** What the goroutine of a handler is started with. *)
Record consumer : Type := mkConsumer {
  c_Match : EventMatcher;
  c_Handler : EventHandler X;
  c_Reader : R
}.

Record Bus : Type := mkBus {
  addresses : list string;
  appID : string;
  autoCreateTopic : bool;
  topic : string;
  topicPartitions : Z;
  startOffset : Z;
  codec : EventCodec X
}.

Abbreviation EventBus := (RemoteBus.EventBus (G := consumer)).
Abbreviation St := (EventBus * X)%type.

(** ** Creation *)

Definition Option : Type := Bus -> Bus + error.

Definition WithAutoCreateTopic (autoCreate : bool) : Option := fun b =>
  inl (mkBus (addresses b) (appID b) autoCreate (topic b) (topicPartitions b) (startOffset b) (codec b)).

Definition WithCodec (c : EventCodec X) : Option := fun b =>
  inl (mkBus (addresses b) (appID b) (autoCreateTopic b) (topic b) (topicPartitions b) (startOffset b) c).

Definition WithStartOffset (startOffset : Z) : Option := fun b =>
  inl (mkBus (addresses b) (appID b) (autoCreateTopic b) (topic b) (topicPartitions b) startOffset (codec b)).

Definition WithTopic (topic : string) : Option := fun b =>
  inl (mkBus (addresses b) (appID b) (autoCreateTopic b) topic (topicPartitions b) (startOffset b) (codec b)).

Definition WithTopicPartitions (numPartitions : Z) : Option := fun b =>
  if numPartitions <? 1 then inr (ErrorString "number of partitions must be greater than 0")
  else
    inl (mkBus (addresses b) (appID b) (autoCreateTopic b) (topic b) numPartitions (startOffset b) (codec b)).

(** [for range n] around a call to the broker.  The [break] of the [default]
    case leaves the [switch], not the loop. *)
Fixpoint retry {A} (n : nat) (call : M X A) (fail : string) (last : A + option error)
  : M X (A + option error) :=
  match n with
  | O => ret last
  | S n' =>
      let! r := attempt call in
      match r with
      | inr err =>
          if IsBrokerNotAvailable err then retry n' call fail (inr (Some err))
          else throw (Errorf fail err)
      | inl resp => retry n' call fail (inl resp)
      end
  end.

(** [fmt.Errorf(prefix + ": %w", err)], [err] possibly nil. *)
Definition wrap (prefix : string) (err : option error) : error :=
  match err with
  | Some err => Errorf prefix err
  | None => ErrorString (prefix +:+ ": %!w(<nil>)")
  end.

Definition createTopic (b : Bus) : M X unit :=
  let! resp := retry 10 (CreateTopics client (topic b) (topicPartitions b))
                 "error creating Kafka topic" (inr None) in
  match resp with
  | inr err => throw (wrap "could not create Kafka topic in time" err)
  | inl errors =>
      match errors !! topic b with
      | Some topicErr =>
          if IsTopicAlreadyExists topicErr then ret tt
          else throw (Errorf "invalid Kafka topic" topicErr)
      | None => ret tt
      end
  end.

Definition verifyTopic (b : Bus) : M X unit :=
  let! resp := retry 10 (Metadata client (topic b)) "error getting Kafka topic" (inr None) in
  match resp with
  | inr err => throw (wrap "could not get Kafka topic in time" err)
  | inl topics =>
      if negb (len topics =? 1) then throw (wrap "could not get Kafka topic" None) else ret tt
  end.

Definition NewEventBus (json_codec : EventCodec X) (addressList appID : string)
    (options : list (option Option)) : M X (Bus * EventBus) :=
  match apply_options options
          (mkBus (split_commas "" addressList) appID true (appID +:+ "_events") 5 LastOffset json_codec) with
  | inr err => throw err
  | inl b =>
      do! (if autoCreateTopic b
           then map_err (Errorf "error creating topic") (createTopic b)
           else map_err (Errorf "error verifying topic") (verifyTopic b)) in
      ret (b, RemoteBus.NewEventBus)
  end.

(** topics are created ten times: the [break] of the [default] case does not
    leave the loop. *)
Theorem kafka_creates_topic_ten_times b x (next : X -> X) :
  (forall x', exists r, CreateTopics client (topic b) (topicPartitions b) x' = (Ok r, next x')) ->
  exists r, createTopic b x = (r, Nat.iter 10 next x).
Proof.
  intros Hcall.
  assert (forall n last x', (exists r, last = inl r) \/ n <> O -> exists r,
    retry n (CreateTopics client (topic b) (topicPartitions b)) "error creating Kafka topic" last x' =
      (Ok (inl r), Nat.iter n next x')) as Hretry.
  { induction n as [|n IH]; intros last x' Hl; [destruct Hl as [[r ->]|]; [by exists r|done]|].
    destruct (Hcall x') as (r & Hr). simpl. rewrite (bind_ok _ _ _ _ _ (attempt_ok _ _ _ _ Hr)).
    destruct (IH (inl r) (next x')) as (r' & ->); [left; by exists r|]. exists r'.
    by rewrite <- Nat.iter_succ_r. }
  destruct (Hretry 10%nat (inr None) x) as (r & Hr); [by right|].
  unfold createTopic. rewrite (bind_ok _ _ _ _ _ Hr).
  destruct (r !! topic b) as [e|]; [|by eexists]. destruct (IsTopicAlreadyExists e); by eexists.
Qed.

Section Bus.
Context (b : Bus).

(** ** Publishing *)

Definition HandleEvent (ctx : context) (ev : option event) : M X unit :=
  let! data := map_err (Errorf "could not marshal event") (MarshalEvent (codec b) ctx ev) in
  let! e := deref ev in
  map_err (Errorf "could not publish event")
    (WriteMessages client ctx (topic b)
       (mkMessage (uuid_String (aggregateID e)) data
          [("aggregate_type", aggregateType e); ("event_type", eventType e)])).

(** ** Subscribing *)

Definition groupID (h : EventHandler X) : string := appID b +:+ "_" +:+ Handlers.HandlerType h.

(** The loop that waits for the group. *)
Fixpoint wait_for_group (n : nat) (ctx : context) (group : string) : M X unit :=
  match n with
  | O => throw (ErrorString "did not join group in time")
  | S n' =>
      let! resp := map_err (Errorf "could not list Kafka groups") (ListGroups client ctx) in
      match resp with
      | (_, Some _) => throw (wrap "could not list Kafka groups" None)
      | (groups, None) =>
          if bool_decide (group ∈ groups) then ret tt else wait_for_group n' ctx group
      end
  end.

Definition AddHandler (ctx : context) (m : option EventMatcher) (h : option (EventHandler X))
  : M St unit :=
  let! (m, h) := zoom_fst (check_handler m h) in
  let! r := zoom_snd (NewReader client (addresses b) (topic b) (groupID h) (startOffset b)) in
  do! zoom_fst (register (Handlers.HandlerType h) (mkConsumer m h r)) in
  zoom_snd (wait_for_group 20 ctx (groupID h)).

(** ** The goroutine of a handler *)

Inductive phase : Type :=
| Fetching
| Handling (msg : message)
| Stopped.

(** What a turn did, for the broker and the handler. *)
Inductive obs : Type :=
| Fetched (msg : message)
| Attempted (msg : message) (v : verdict)
| Committed (msg : message) (err : option error).

(** [handler] gives the message to [dispatch]; its result is [bus_error]. *)
Definition handler (c : consumer) (ctx : context) (msg : message) : M X verdict :=
  dispatch (codec b) (c_Match c) (c_Handler c) ctx (Value msg).

(** The deferred [Close] of the reader; its error is logged. *)
Definition stop (c : consumer) : M St (phase * list obs) :=
  do! attempt (zoom_snd (reader_Close client (c_Reader c))) in ret (Stopped, []).

(** One turn of [handle]; [cancelled]: what the [select] saw. *)
Definition turn (c : consumer) (ctx : context) (cancelled : bool) (p : phase)
  : M St (phase * list obs) :=
  match p with
  | Stopped => ret (Stopped, [])
  | Fetching =>
      if cancelled then stop c
      else
        let! res := attempt (zoom_snd (FetchMessage client (c_Reader c) ctx)) in
        match res with
        | inr err =>
            if errors_Is err (CtxErr Canceled) then stop c
            else
              do! zoom_fst (report (EventBusError
                    (Some (Errorf "could not fetch message" err)) None None)) in
              ret (Fetching, [])
        | inl msg => ret (Handling msg, [Fetched msg])
        end
  | Handling msg =>
      if cancelled then stop c
      else
        let! v := zoom_snd (handler c ctx msg) in
        match bus_error v with
        | Some err => do! zoom_fst (report err) in ret (Handling msg, [Attempted msg v])
        | None =>
            let! res := attempt (zoom_snd (CommitMessages client (c_Reader c) Background msg)) in
            match res with
            | inr err =>
                do! zoom_fst (report (EventBusError
                      (Some (Errorf "could not commit message" err)) None None)) in
                ret (Fetching, [Attempted msg v; Committed msg (Some err)])
            | inl _ => ret (Fetching, [Attempted msg v; Committed msg None])
            end
        end
  end.

(** [Close], after the goroutines have ended. *)
Definition Close : M X unit := writer_Close client.

(** ** Runs *)

Section Runs.
Context (c : consumer) (ctx : context).

Inductive runs : phase -> St -> list obs -> phase -> St -> Prop :=
| runs_nil p st : runs p st [] p st
| runs_turn cancelled p st p1 os st1 tr p2 st2 :
    turn c ctx cancelled p st = (Ok (p1, os), st1) ->
    runs p1 st1 tr p2 st2 -> runs p st (os ++ tr) p2 st2
| runs_other p st st1 tr p2 st2 : runs p st1 tr p2 st2 -> runs p st tr p2 st2.

(** The handler was run on the message, with this verdict. *)
Definition ran (msg : message) (v : verdict) : Prop :=
  exists x x', handler c ctx msg x = (Ok v, x').

Definition failed (msg : message) (v : verdict) : Prop := ran msg v /\ bus_error v <> None.

(** A message from the fetch to the commit: failed attempts, then one that did
    not fail, then the commit. *)
Record delivery : Type := mkDelivery {
  d_msg : message;
  d_failed : list verdict;
  d_verdict : verdict;
  d_commit : option error
}.

Definition attempts (msg : message) (vs : list verdict) : list obs := Attempted msg <$> vs.

Definition trace_of (d : delivery) : list obs :=
  Fetched (d_msg d) :: attempts (d_msg d) (d_failed d) ++
    [Attempted (d_msg d) (d_verdict d); Committed (d_msg d) (d_commit d)].

Definition delivered (d : delivery) : Prop :=
  Forall (failed (d_msg d)) (d_failed d) /\ ran (d_msg d) (d_verdict d) /\
  bus_error (d_verdict d) = None.

(** A message that is not committed yet. *)
Definition in_hand (msg : message) (tr : list obs) : Prop :=
  exists vs, tr = Fetched msg :: attempts msg vs /\ Forall (failed msg) vs.

Definition unfinished (p : phase) (tr : list obs) : Prop :=
  match p with
  | Fetching => tr = []
  | Handling msg => in_hand msg tr
  | Stopped => tr = [] \/ exists msg, in_hand msg tr
  end.

Lemma stop_inv st p1 os st1 : stop c st = (Ok (p1, os), st1) -> p1 = Stopped /\ os = [].
Proof.
  unfold stop. intros (r & s & _ & Hr)%bind_inv_ok. by injection Hr as <- <- _.
Qed.

(** What a turn adds to the trace. *)
Lemma turn_inv cancelled p st p1 os st1 :
  turn c ctx cancelled p st = (Ok (p1, os), st1) ->
  (p1 = Stopped /\ os = []) \/
  match p with
  | Stopped => False
  | Fetching => (p1 = Fetching /\ os = []) \/ exists msg, p1 = Handling msg /\ os = [Fetched msg]
  | Handling msg => exists v, ran msg v /\
      match bus_error v with
      | Some _ => p1 = Handling msg /\ os = [Attempted msg v]
      | None => p1 = Fetching /\ exists err, os = [Attempted msg v; Committed msg err]
      end
  end.
Proof.
  destruct p as [|msg|]; unfold turn; [| |intros [= <- <- _]; by left];
    (destruct cancelled; [intros ?%stop_inv; by left|]);
    intros (r & s & Hr & Hk)%bind_inv_ok.
  - destruct r as [msg|err].
    + injection Hk as <- <- _. right. right. by exists msg.
    + destruct (errors_Is err (CtxErr Canceled)); [left; by eapply stop_inv|].
      apply bind_inv_ok in Hk as (? & ? & _ & Hk). injection Hk as <- <- _. right. by left.
  - right. exists r. split.
    { destruct st as [bs x]. unfold zoom_snd, zoom in Hr. simpl in Hr.
      destruct (handler c ctx msg x) as [o x'] eqn:Hh. injection Hr as -> _. by exists x, x'. }
    destruct (bus_error r) as [err|].
    + apply bind_inv_ok in Hk as (? & ? & _ & Hk). by injection Hk as <- <- _.
    + apply bind_inv_ok in Hk as (res & ? & _ & Hk). destruct res as [u|err].
      * injection Hk as <- <- _. split; [done|]. by eexists.
      * apply bind_inv_ok in Hk as (? & ? & _ & Hk). injection Hk as <- <- _.
        split; [done|]. by eexists.
Qed.

Lemma runs_deliveries p st tr p' st' pre :
  runs p st tr p' st' -> unfinished p pre ->
  exists ds rest, pre ++ tr = concat (trace_of <$> ds) ++ rest /\
    Forall delivered ds /\ unfinished p' rest.
Proof.
  intros Hruns. revert pre.
  induction Hruns as [p st|cancelled p st p1 os st1 tr p2 st2 Ht _ IH|p st st1 tr p2 st2 _ IH];
    intros pre Hpre; [|apply turn_inv in Ht|by apply IH].
  { exists [], pre. by rewrite app_nil_r. }
  rewrite app_assoc. destruct Ht as [[-> ->]|Ht].
  { apply IH. rewrite app_nil_r.
    destruct p as [|msg|]; [by left|right; by exists msg|exact Hpre]. }
  destruct p as [|msg|]; [| |done]; simpl in Hpre.
  - rewrite Hpre. destruct Ht as [[-> ->]|(msg & -> & ->)]; apply IH; [done|]. by exists [].
  - destruct Hpre as (vs & -> & Hvs). destruct Ht as (v & Hv & Ht).
    destruct (bus_error v) as [err|] eqn:He.
    + destruct Ht as [-> ->]. apply IH. exists (vs ++ [v]). unfold attempts. rewrite fmap_app.
      split; [done|]. apply Forall_app. split; [done|]. constructor; [|done]. split; [done|congruence].
    + destruct Ht as (-> & err & ->). destruct (IH []) as (ds & rest & Heq & Hds & Hrest); [done|].
      exists (mkDelivery msg vs v err :: ds), rest. rewrite fmap_cons. cbn [concat].
      split; [|split; [by constructor|done]].
      change ([] ++ tr) with tr in Heq. rewrite Heq. unfold trace_of at 2. cbn [d_msg d_failed d_verdict d_commit].
      by rewrite <- !app_assoc, <- !app_comm_cons, <- !app_assoc.
Qed.

(** C24: one message after the other.  Whatever the rest of the program does in
    between, a handler's goroutine fetches a message, runs the handler on it
    until it does not fail, commits it, and only then fetches the next: no
    message is skipped, none is committed that the handler did not accept, and
    at most one is in hand. *)
Theorem kafka_handles_in_order st tr p st' :
  runs Fetching st tr p st' ->
  exists ds rest, tr = concat (trace_of <$> ds) ++ rest /\
    Forall delivered ds /\ unfinished p rest.
Proof. intros Hruns. by apply (runs_deliveries _ _ _ _ _ [] Hruns). Qed.

Lemma runs_blocked msg p st tr p' st' :
  (forall v, ran msg v -> bus_error v <> None) ->
  runs p st tr p' st' -> p = Handling msg \/ p = Stopped ->
  (p' = Handling msg \/ p' = Stopped) /\
  exists vs, tr = attempts msg vs /\ Forall (failed msg) vs.
Proof.
  intros Hfail Hruns.
  induction Hruns as [p st|cancelled p st p1 os st1 tr p2 st2 Ht _ IH|p st st1 tr p2 st2 _ IH];
    intros Hp; [split; [done|by exists []]| |by apply IH].
  apply turn_inv in Ht. destruct Ht as [[-> ->]|Ht]; [apply IH; by right|].
  destruct Hp as [->| ->]; [|done]. destruct Ht as (v & Hv & Ht).
  destruct (bus_error v) as [err|] eqn:He; [|by destruct (Hfail v Hv)].
  destruct Ht as [-> ->]. destruct IH as (Hp2 & vs & -> & Hvs); [by left|].
  split; [done|]. exists (v :: vs). split; [done|]. constructor; [|done]. split; [done|congruence].
Qed.

(** a message that cannot be decoded stops its partition: the goroutine tries it
    for ever, commits nothing and fetches nothing else. *)
Theorem kafka_bad_message_blocks msg st tr p' st' :
  (forall ctx' x, exists e x', UnmarshalEvent (codec b) ctx' (Value msg) x = (inr e, x')) ->
  runs (Handling msg) st tr p' st' ->
  (p' = Handling msg \/ p' = Stopped) /\
  exists vs, tr = attempts msg vs /\ Forall (failed msg) vs.
Proof.
  intros Hbad Hruns. apply (runs_blocked msg _ _ _ _ _) in Hruns; [done| |by left].
  intros v (x & x' & Hv). destruct (Hbad ctx x) as ([ctx' err] & x1 & Hu).
  unfold handler in Hv. rewrite (dispatch_undecodable _ _ _ _ _ _ _ _ _ Hu) in Hv.
  by injection Hv as <- _.
Qed.

(** Turns with nothing in between. *)
Fixpoint turns (n : nat) (p : phase) : M St (phase * list obs) :=
  match n with
  | O => ret (p, [])
  | S n' =>
      let! (p1, os) := turn c ctx false p in
      let! (p2, tr) := turns n' p1 in
      ret (p2, os ++ tr)
  end.

(** The handler fails on the message, once after the other. *)
Fixpoint fails (msg : message) (vs : list verdict) (x x' : X) : Prop :=
  match vs with
  | [] => x' = x
  | v :: vs' => exists x1, handler c ctx msg x = (Ok v, x1) /\ bus_error v <> None /\ fails msg vs' x1 x'
  end.

Lemma turn_failed msg v err x x1 bs :
  handler c ctx msg x = (Ok v, x1) -> bus_error v = Some err ->
  exists bs', turn c ctx false (Handling msg) (bs, x) =
    (Ok (Handling msg, [Attempted msg v]), (bs', x1)).
Proof.
  intros Hv He. eexists. unfold turn, bind, zoom_fst, zoom_snd, zoom, report, modify. cbn [fst snd].
  rewrite Hv, He. reflexivity.
Qed.

Lemma turn_committed msg v x x1 res x2 bs :
  handler c ctx msg x = (Ok v, x1) -> bus_error v = None ->
  CommitMessages client (c_Reader c) Background msg x1 = (res, x2) -> (forall p, res <> Panic p) ->
  exists bs', turn c ctx false (Handling msg) (bs, x) =
    (Ok (Fetching, [Attempted msg v;
       Committed msg (match res with Err err => Some err | _ => None end)]), (bs', x2)).
Proof.
  intros Hv He Hc Hp. unfold turn, bind, attempt, zoom_fst, zoom_snd, zoom, report, modify. cbn [fst snd].
  rewrite Hv, He. cbn [fst snd]. rewrite Hc. destruct res as [u|err|p]; [by eexists|by eexists|by destruct (Hp p)].
Qed.

Lemma turns_step n p st p1 os st1 p2 tr st2 :
  turn c ctx false p st = (Ok (p1, os), st1) -> turns n p1 st1 = (Ok (p2, tr), st2) ->
  turns (S n) p st = (Ok (p2, os ++ tr), st2).
Proof. intros H1 H2. simpl. unfold bind. by rewrite H1, H2. Qed.

Lemma turns_runs n p st p' tr st' : turns n p st = (Ok (p', tr), st') -> runs p st tr p' st'.
Proof.
  revert p st tr. induction n as [|n IH]; intros p st tr Ht.
  - injection Ht as -> <- ->. apply runs_nil.
  - apply bind_inv_ok in Ht as ([p1 os] & st1 & H1 & Ht).
    apply bind_inv_ok in Ht as ([p2 tr2] & st2 & H2 & Ht). injection Ht as -> <- ->.
    eapply runs_turn; [exact H1|by apply IH].
Qed.

(** however often a handler fails: at the first attempt that does not fail the
    message is committed, and the next one is fetched. *)
Theorem kafka_retries_until_handled msg vs v x x1 x2 res x3 bs :
  fails msg vs x x1 -> handler c ctx msg x1 = (Ok v, x2) -> bus_error v = None ->
  CommitMessages client (c_Reader c) Background msg x2 = (res, x3) -> (forall p, res <> Panic p) ->
  exists bs', turns (S (length vs)) (Handling msg) (bs, x) =
    (Ok (Fetching, attempts msg vs ++ [Attempted msg v;
           Committed msg (match res with Err err => Some err | _ => None end)]), (bs', x3)).
Proof.
  intros Hf Hv He Hc Hp. revert x bs Hf. induction vs as [|v1 vs IH]; intros x bs Hf.
  - simpl in Hf. subst x1. destruct (turn_committed msg v x x2 res x3 bs) as (bs' & Ht); try done.
    exists bs'. cbn [length]. by rewrite (turns_step 0 _ _ _ _ _ _ _ _ Ht eq_refl), app_nil_r.
  - destruct Hf as (xa & Ha & Hna & Hf). destruct (bus_error v1) as [err|] eqn:He1; [|done].
    destruct (turn_failed msg v1 err x xa bs) as (bs1 & Ht); try done.
    destruct (IH xa bs1 Hf) as (bs' & IH'). exists bs'. cbn [length].
    by rewrite (turns_step _ _ _ _ _ _ _ _ _ Ht IH').
Qed.

End Runs.

End Bus.
End Kafka.

(** ** Concrete inputs: a broker with a list of messages, a handler that fails
    the first time *)

Record demo_state : Type := mkDemo { queue : list message; log : list message; tries : nat }.

Definition demo_kafka : Kafka demo_state unit :=
  mkKafka
    (fun _ _ s => (Ok ∅, mkDemo (queue s) (log s) (S (tries s))))
    (fun t => ret [t])
    (fun _ _ m => modify (fun s => mkDemo (queue s ++ [m]) (log s) (tries s)))
    (fun _ _ _ _ => ret tt)
    (fun _ _ s =>
       match queue s with
       | m :: q => (Ok m, mkDemo q (log s) (tries s))
       | [] => (Err (Sentinel (CtxErr Canceled)), s)
       end)
    (fun _ _ m => modify (fun s => mkDemo (queue s) (log s ++ [m]) (tries s)))
    (fun _ => ret tt)
    (fun _ => ret ([], None))
    (ret tt).

Definition demo_bus : Bus (X := demo_state) :=
  mkBus ["localhost:9092"] "app" true "app_events" 5 LastOffset demo_codec.

Definition demo_consumer : consumer (X := demo_state) (R := unit) :=
  mkConsumer any_event
    (flaky (fun s => Nat.eqb (tries s) 0) (fun s => mkDemo (queue s) (log s) (S (tries s)))) tt.

Definition msg1 : message := mkMessage "k1" "one" [].

Definition bad_msg : message := mkMessage "k1" "rubbish" [].

Abbreviation demo_turns := (turns demo_kafka demo_bus demo_consumer bg).

Definition failed_once : verdict :=
  Failed bg (demo_event id1 1) (Errorf "could not handle event (h)" (ErrorString "not now")).

Lemma kafka_handles_in_order_witness :
  exists p ds rest,
    [Fetched msg1; Attempted msg1 failed_once; Attempted msg1 (Handled bg (demo_event id1 1));
     Committed msg1 None] = concat (trace_of <$> ds) ++ rest /\
    Forall (delivered demo_bus demo_consumer bg) ds /\
    unfinished demo_bus demo_consumer bg p rest.
Proof.
  destruct (demo_turns 4 Fetching (RemoteBus.NewEventBus, mkDemo [msg1] [] 0)) as [o st'] eqn:Ht.
  assert (o = Ok (Stopped, [Fetched msg1; Attempted msg1 failed_once;
     Attempted msg1 (Handled bg (demo_event id1 1)); Committed msg1 None])) as ->
    by (apply (f_equal fst) in Ht; vm_compute in Ht; by subst o).
  exists Stopped.
  apply (kafka_handles_in_order demo_kafka demo_bus demo_consumer bg _ _ _ _
    (turns_runs demo_kafka demo_bus demo_consumer bg _ _ _ _ _ _ Ht)).
Defined.

Lemma kafka_bad_message_blocks_witness :
  exists p' st' vs, (p' = Handling bad_msg \/ p' = Stopped) /\ len vs = 3 /\
    runs demo_kafka demo_bus demo_consumer bg (Handling bad_msg)
      (RemoteBus.NewEventBus, mkDemo [msg1] [] 0) (attempts bad_msg vs) p' st'.
Proof.
  set (v := Undecodable None (Errorf "could not unmarshal event" (ErrorString "bad payload"))).
  destruct (demo_turns 3 (Handling bad_msg) (RemoteBus.NewEventBus, mkDemo [msg1] [] 0)) as [o st'] eqn:Ht.
  assert (o = Ok (Handling bad_msg, attempts bad_msg [v; v; v])) as ->
    by (apply (f_equal fst) in Ht; vm_compute in Ht; by subst o).
  pose proof (turns_runs demo_kafka demo_bus demo_consumer bg _ _ _ _ _ _ Ht) as Hr.
  destruct (kafka_bad_message_blocks demo_kafka demo_bus demo_consumer bg bad_msg _ _ _ _
    (fun _ x => ex_intro _ (None, ErrorString "bad payload") (ex_intro _ x eq_refl)) Hr) as [Hp _].
  exists (Handling bad_msg), st', [v; v; v]. split; [exact Hp|]. split; [reflexivity|exact Hr].
Defined.

Lemma kafka_retries_until_handled_witness :
  exists bs', demo_turns 2 (Handling msg1) (RemoteBus.NewEventBus, mkDemo [] [] 0) =
    (Ok (Fetching, [Attempted msg1 failed_once; Attempted msg1 (Handled bg (demo_event id1 1));
           Committed msg1 None]), (bs', mkDemo [] [msg1] 2)).
Proof.
  apply (kafka_retries_until_handled demo_kafka demo_bus demo_consumer bg msg1 [failed_once]
    (Handled bg (demo_event id1 1)) (mkDemo [] [] 0) (mkDemo [] [] 1) (mkDemo [] [] 2) (Ok tt)
    (mkDemo [] [msg1] 2) RemoteBus.NewEventBus).
  - exists (mkDemo [] [] 1). split; [reflexivity|]. split; [discriminate|reflexivity].
  - reflexivity.
  - reflexivity.
  - reflexivity.
  - discriminate.
Defined.

Lemma kafka_creates_topic_ten_times_witness :
  exists r, createTopic demo_kafka (fun _ => false) (fun _ => false) demo_bus (mkDemo [] [] 0) =
    (r, mkDemo [] [] 10).
Proof.
  apply (kafka_creates_topic_ten_times demo_kafka (fun _ => false) (fun _ => false) demo_bus
    (mkDemo [] [] 0) (fun s => mkDemo (queue s) (log s) (S (tries s)))).
  intros x'. by exists ∅.
Defined.

End KafkaBus.
