(* ===== verification/RedisBus.v ===== *)
(** * The Redis event bus ([eventbus/redis/eventbus.go])

    [Redis] is the record of the client's calls.  The goroutine of a handler
    reads what is new for its consumer group and gives the messages to the
    handler one by one; [turn] is one read or one message, [runs] are turns with
    anything else in between.

    [GroupLaws] is what the code relies on of [XREADGROUP] with [>]: a group is
    given a message once.  Messages that are not acknowledged stay in the
    group's pending list, which no command of the bus reads. *)

From stdpp Require Import base gmap strings list numbers option pretty.
From Stdlib Require Import Lia ZArith.
From S2P Require Import Prelude.
From S2P Require Import GoTypes.
From S2P Require Import Event.
From S2P Require Import Command.
From S2P Require Import Errors.
From S2P Require Import Fixtures.
From S2P Require Import Match.
From S2P Require Import Handlers.
From S2P Require Import RemoteBus.

Module RedisBus.
Import RemoteBus.

Record XMessage : Type := mkXMessage {
  msg_ID : string;
  Values : gmap string any
}.

(** The streams of a group read are names with messages. *)
Record Redis (X : Type) : Type := mkRedis {
  Ping : M X string;
  XAdd : context -> string -> gmap string any -> M X unit;
  XGroupCreateMkStream : context -> string -> string -> string -> M X string;
  XReadGroup : context -> string -> string -> string -> M X (list (string * list XMessage));
  XAck : context -> string -> string -> string -> M X unit;
  client_Close : M X unit
}.
Arguments mkRedis {X}.
Arguments Ping {X}.
Arguments XAdd {X}.
Arguments XGroupCreateMkStream {X}.
Arguments XReadGroup {X}.
Arguments XAck {X}.
Arguments client_Close {X}.

Definition aggregateTypeKey : string := "aggregate_type".

Definition eventTypeKey : string := "event_type".

Definition dataKey : string := "data".

Section Redis.
(** [Opts]: the options of the client. *)
Context {X Opts : Type}.

Record consumer : Type := mkConsumer {
  c_Match : EventMatcher;
  c_Handler : EventHandler X;
  c_group : string
}.

Record Bus : Type := mkBus {
  appID : string;
  clientID : string;
  streamName : string;
  clientOpts : option Opts;
  codec : EventCodec X
}.

Abbreviation EventBus := (RemoteBus.EventBus (G := consumer)).
Abbreviation St := (EventBus * X)%type.

(** ** Creation *)

Definition Option : Type := Bus -> Bus + error.

Definition WithCodec (c : EventCodec X) : Option := fun b =>
  inl (mkBus (appID b) (clientID b) (streamName b) (clientOpts b) c).

Definition WithRedisOptions (opts : option Opts) : Option := fun b =>
  inl (mkBus (appID b) (clientID b) (streamName b) opts (codec b)).

(** [NewClient] makes the client of some options, [with_Addr] the default ones. *)
Definition NewEventBus (NewClient : Opts -> Redis X) (with_Addr : string -> Opts)
    (json_codec : EventCodec X) (addr appID clientID : string) (options : list (option Option))
  : M X (Bus * Redis X * EventBus) :=
  match apply_options options (mkBus appID clientID (appID +:+ "_events") None json_codec) with
  | inr err => throw err
  | inl b =>
      let client := NewClient (default (with_Addr addr) (clientOpts b)) in
      let! res := map_err (Errorf "could not check Redis server") (Ping client) in
      if negb (bool_decide (res = "PONG"))
      then throw (ErrorString "could not check Redis server: %!w(<nil>)")
      else ret (b, client, RemoteBus.NewEventBus)
  end.

Context (client : Redis X).
(** The text of an error, and that of the Go type of a value. *)
Context (error_String : error -> string) (type_String : any -> string).

Section Bus.
Context (b : Bus).

Definition HandleEvent (ctx : context) (ev : option event) : M X unit :=
  let! data := map_err (Errorf "could not marshal event") (MarshalEvent (codec b) ctx ev) in
  let! e := deref ev in
  map_err (Errorf "could not publish event")
    (XAdd client ctx (streamName b)
       (<[dataKey := AString data]>
         (<[eventTypeKey := AString (eventType e)]>
           {[aggregateTypeKey := AString (aggregateType e)]}))).

Definition groupName (h : EventHandler X) : string := appID b +:+ "_" +:+ Handlers.HandlerType h.

(** [strings.HasPrefix] *)
Definition HasPrefix (s p : string) : bool := String.prefix p s.

Definition AddHandler (ctx : context) (m : option EventMatcher) (h : option (EventHandler X))
  : M St unit :=
  let! (m, h) := zoom_fst (check_handler m h) in
  let! r := attempt (zoom_snd (XGroupCreateMkStream client ctx (streamName b) (groupName h) "$")) in
  do! match r with
      | inr err =>
          if HasPrefix (error_String err) "BUSYGROUP" then ret tt
          else throw (Errorf "could not create consumer group" err)
      | inl res =>
          if bool_decide (res = "OK") then ret tt
          else throw (ErrorString ("could not create consumer group: " +:+ res))
      end in
  zoom_fst (register (Handlers.HandlerType h) (mkConsumer m h (groupName h))).

(** ** The goroutine of a handler *)

Inductive phase : Type :=
| Reading
| Delivering (msgs : list XMessage)
| Stopped.

Inductive obs : Type :=
| Tried (msg : XMessage) (v : option verdict)
| Acked (msg : XMessage).

(** [XAck], with its error on the error channel. *)
Definition ack (c : consumer) (ctx : context) (e : event) (fail : string) (msg : XMessage)
  : M St unit :=
  let! r := attempt (zoom_snd (XAck client ctx (streamName b) (c_group c) (msg_ID msg))) in
  match r with
  | inl _ => ret tt
  | inr err => zoom_fst (report (EventBusError (Some (Errorf fail err)) (Some ctx) (Some e)))
  end.

Definition handler (c : consumer) (ctx : context) (msg : XMessage) : M St (list obs) :=
  match Values msg !! dataKey with
  | Some (AString data) =>
      let! v := zoom_snd (dispatch (codec b) (c_Match c) (c_Handler c) ctx data) in
      match v with
      | Undecodable _ _ | Failed _ _ _ =>
          do! match bus_error v with
              | Some err => zoom_fst (report err)
              | None => ret tt
              end in
          ret [Tried msg (Some v)]
      | Ignored ctx e =>
          do! ack c ctx e "could not ack non-matching event" msg in
          ret [Tried msg (Some v); Acked msg]
      | Handled ctx e =>
          do! ack c ctx e "could not ack handled event" msg in
          ret [Tried msg (Some v); Acked msg]
      end
  | data =>
      do! zoom_fst (report (EventBusError
            (Some (ErrorString ("event data is of incorrect type " +:+ type_String (default ANil data))))
            (Some ctx) None)) in
      ret [Tried msg None]
  end.

(** The messages of the bus's stream. *)
Definition of_stream (streams : list (string * list XMessage)) : list XMessage :=
  concat ((fun s => if bool_decide (s.1 = streamName b) then s.2 else []) <$> streams).

Definition turn (c : consumer) (ctx : context) (p : phase) : M St (phase * list obs) :=
  match p with
  | Stopped => ret (Stopped, [])
  | Delivering (msg :: msgs) =>
      let! os := handler c ctx msg in ret (Delivering msgs, os)
  | Delivering [] => ret (Reading, [])
  | Reading =>
      let! res := attempt (zoom_snd (XReadGroup client ctx (c_group c)
                    (c_group c +:+ "_" +:+ clientID b) (streamName b))) in
      match res with
      | inr err =>
          if errors_Is err (CtxErr Canceled) then ret (Stopped, [])
          else
            do! zoom_fst (report (EventBusError (Some (Errorf "could not receive" err)) None None)) in
            ret (Reading, [])
      | inl streams => ret (Delivering (of_stream streams), [])
      end
  end.

(** [Close], after the goroutines have ended. *)
Definition Close : M X unit := client_Close client.

(** ** Runs *)

Section Runs.
Context (c : consumer) (ctx : context).
(** The IDs of the messages the group was given so far. *)
Context (given : X -> gset string).

Definition ids (msgs : list XMessage) : list string := msg_ID <$> msgs.

(** A call that takes nothing back. *)
Definition keeps {A} (m : M X A) : Prop := forall x o x', m x = (o, x') -> given x ⊆ given x'.

Class GroupLaws : Prop := {
  law_read ctx name x res x' :
    XReadGroup client ctx (c_group c) name (streamName b) x = (res, x') ->
    match res with
    | Ok streams =>
        NoDup (ids (of_stream streams)) /\
        (forall i, i ∈ ids (of_stream streams) -> i ∉ given x) /\
        given x ∪ list_to_set (ids (of_stream streams)) ⊆ given x'
    | _ => given x ⊆ given x'
    end;
  law_ack ctx id : keeps (XAck client ctx (streamName b) (c_group c) id);
  law_dispatch ctx data : keeps (dispatch (codec b) (c_Match c) (c_Handler c) ctx data)
}.

Inductive runs : phase -> St -> list obs -> phase -> St -> Prop :=
| runs_nil p st : runs p st [] p st
| runs_turn p st p1 os st1 tr p2 st2 :
    turn c ctx p st = (Ok (p1, os), st1) -> runs p1 st1 tr p2 st2 -> runs p st (os ++ tr) p2 st2
| runs_other p st st1 tr p2 st2 :
    given st.2 ⊆ given st1.2 -> runs p st1 tr p2 st2 -> runs p st tr p2 st2.

(** The handler was run on the message, with this verdict; [None] when the
    message has no data. *)
Definition ran (msg : XMessage) (o : option verdict) : Prop :=
  match Values msg !! dataKey with
  | Some (AString data) => exists v x x', o = Some v /\
      dispatch (codec b) (c_Match c) (c_Handler c) ctx data x = (Ok v, x')
  | _ => o = None
  end.

Definition accepted (o : option verdict) : bool :=
  match o with
  | Some v => match bus_error v with None => true | Some _ => false end
  | None => false
  end.

(** What is done with a message: acknowledged if and only if the handler
    accepted it. *)
Definition trace_of (t : XMessage * option verdict) : list obs :=
  Tried t.1 t.2 :: (if accepted t.2 then [Acked t.1] else []).

Definition waiting (p : phase) : list XMessage :=
  match p with Delivering msgs => msgs | _ => [] end.

Context `{!GroupLaws}.

Lemma ack_keeps ctx' e fail msg st o st1 :
  ack c ctx' e fail msg st = (o, st1) -> given st.2 ⊆ given st1.2.
Proof.
  unfold ack, bind, attempt, zoom_snd, zoom.
  destruct (XAck client ctx' (streamName b) (c_group c) (msg_ID msg) st.2) as [r x1] eqn:Ha.
  apply law_ack in Ha. by destruct r; intros [= <- <-].
Qed.

(** One message: what is seen of it, and nothing is taken back. *)
Lemma handler_inv msg st os st1 :
  handler c ctx msg st = (Ok os, st1) ->
  given st.2 ⊆ given st1.2 /\ exists o, ran msg o /\ os = trace_of (msg, o).
Proof.
  unfold handler, ran.
  assert (forall e, (do! zoom_fst (report e) in ret [Tried msg None]) st = (Ok os, st1) ->
    given st.2 ⊆ given st1.2 /\ exists o, o = None /\ os = trace_of (msg, o)) as Hbad.
  { intros e [= <- <-]. split; [done|]. by exists None. }
  destruct (Values msg !! dataKey) as [[]|]; try (intros Hh; by eapply Hbad).
  intros (v & st2 & Hd & Hk)%bind_inv_ok. unfold zoom_snd, zoom in Hd.
  destruct (dispatch (codec b) (c_Match c) (c_Handler c) ctx s st.2) as [o x2] eqn:Hv.
  injection Hd as -> <-. pose proof (law_dispatch _ _ _ _ _ Hv) as Hkeep.
  assert (exists v' x x', Some v = Some v' /\
    dispatch (codec b) (c_Match c) (c_Handler c) ctx s x = (Ok v', x')) as Hran by (by exists v, st.2, x2).
  destruct v; apply bind_inv_ok in Hk as (u & st3 & Hk & Hr); injection Hr as <- <-.
  - injection Hk as _ <-. split; [done|]. by eexists.
  - apply ack_keeps in Hk. split; [by trans (given x2)|]. by eexists.
  - injection Hk as _ <-. split; [done|]. by eexists.
  - apply ack_keeps in Hk. split; [by trans (given x2)|]. by eexists.
Qed.

(** One turn: a read gives new messages to deliver, a delivery is one message. *)
Lemma redis_turn_inv p st p1 os st1 :
  turn c ctx p st = (Ok (p1, os), st1) ->
  given st.2 ⊆ given st1.2 /\
  ((os = [] /\ waiting p = [] /\ NoDup (ids (waiting p1)) /\
    forall i, i ∈ ids (waiting p1) -> i ∉ given st.2 /\ i ∈ given st1.2) \/
   exists msg o, waiting p = msg :: waiting p1 /\ ran msg o /\ os = trace_of (msg, o)).
Proof.
  assert (forall q x1, waiting p = [] -> waiting q = [] -> given st.2 ⊆ given x1 ->
    given st.2 ⊆ given x1 /\
    (([] : list obs) = [] /\ waiting p = [] /\ NoDup (ids (waiting q)) /\
     (forall i, i ∈ ids (waiting q) -> i ∉ given st.2 /\ i ∈ given x1) \/
     exists msg o, waiting p = msg :: waiting q /\ ran msg o /\ [] = trace_of (msg, o))) as Hidle.
  { intros q x1 Hp Hq Hg. rewrite Hq. split; [done|]. left. split; [done|]. split; [done|].
    split; [constructor|intros i Hi; inversion Hi]. }
  destruct p as [|[|msg msgs]|]; unfold turn.
  - intros (res & st2 & Hr & Hk)%bind_inv_ok. unfold attempt, zoom_snd, zoom in Hr.
    destruct (XReadGroup _ _ _ _ _ st.2) as [o x2] eqn:Hx. apply law_read in Hx.
    destruct o as [streams|err|]; [| |done]; injection Hr as <- <-.
    + injection Hk as <- <- <-. destruct Hx as (Hnd & Hnew & Hin). cbn [snd waiting].
      split; [set_solver|]. left. split; [done|]. split; [done|]. split; [done|].
      intros i Hi. split; [by apply Hnew|]. apply Hin, elem_of_union_r, elem_of_list_to_set, Hi.
    + destruct (errors_Is err (CtxErr Canceled)); injection Hk as <- <- <-; by apply Hidle.
  - intros [= <- <- <-]. by apply Hidle.
  - intros (os' & st2 & Hh & Hk)%bind_inv_ok. injection Hk as <- <- <-.
    apply handler_inv in Hh as (Hkeep & o & Hran & ->). split; [done|]. right. by exists msg, o.
  - intros [= <- <- <-]. by apply Hidle.
Qed.

Lemma runs_tried p st tr p' st' seen :
  runs p st tr p' st' ->
  NoDup (seen ++ ids (waiting p)) -> (forall i, i ∈ seen ++ ids (waiting p) -> i ∈ given st.2) ->
  exists ts, tr = concat (trace_of <$> ts) /\ NoDup (seen ++ ids ts.*1) /\
    Forall (fun t => ran t.1 t.2) ts.
Proof.
  intros Hruns. revert seen.
  induction Hruns as [p st|p st p1 os st1 tr p2 st2 Ht _ IH|p st st1 tr p2 st2 Hg _ IH]; intros seen Hnd Hin.
  - exists []. split; [done|]. split; [|done].
    apply NoDup_app in Hnd as [Hnd _]. simpl. by rewrite app_nil_r.
  - apply redis_turn_inv in Ht as [Hg [(-> & Hw & Hnd1 & Hnew)|(msg & o & Hw & Hran & ->)]].
    + rewrite Hw, app_nil_r in Hnd, Hin. apply IH.
      * apply NoDup_app. split; [done|]. split; [|done]. intros i Hi Hi1.
        by apply (proj1 (Hnew i Hi1)), Hin.
      * intros i [Hi|Hi]%elem_of_app; [by apply Hg, Hin|by apply Hnew].
    + rewrite Hw in Hnd, Hin. unfold ids in Hnd, Hin. rewrite fmap_cons, app_cons_snoc in Hnd, Hin.
      destruct (IH (seen ++ [msg_ID msg]) Hnd) as (ts & -> & Hnd' & Hts).
      { intros i Hi. by apply Hg, Hin. }
      exists ((msg, o) :: ts). split; [done|]. split; [|by constructor].
      unfold ids. rewrite !fmap_cons, app_cons_snoc. exact Hnd'.
  - apply IH; [done|]. intros i Hi. by apply Hg, Hin.
Qed.

(** C25: every message is tried at most once.  Whatever the rest of the program does
    in between, the messages a handler is run on are all different, and exactly
    those it accepts are acknowledged; a message whose handler fails is neither
    acknowledged nor tried again. *)
Theorem redis_tries_once st tr p' st' :
  runs Reading st tr p' st' ->
  exists ts, tr = concat (trace_of <$> ts) /\ NoDup (ids ts.*1) /\
    Forall (fun t => ran t.1 t.2) ts.
Proof.
  intros Hruns. apply (runs_tried _ _ _ _ _ [] Hruns); [constructor|]. intros i Hi. inversion Hi.
Qed.

End Runs.

End Bus.
End Redis.

(** ** Concrete inputs: a group that is given each message once, a handler that
    fails the first time *)

Record demo_state : Type := mkDemo {
  news : list XMessage;
  given_ids : gset string;
  acked : list string;
  tries : nat
}.

Definition demo_redis : Redis demo_state :=
  mkRedis (ret "PONG") (fun _ _ _ => ret tt) (fun _ _ _ _ => ret "OK")
    (fun _ _ _ t s =>
       match news s with
       | m :: q =>
           if bool_decide (msg_ID m ∈ given_ids s)
           then (Ok [(t, [])], mkDemo q (given_ids s) (acked s) (tries s))
           else (Ok [(t, [m])], mkDemo q ({[msg_ID m]} ∪ given_ids s) (acked s) (tries s))
       | [] => (Err (Sentinel (CtxErr Canceled)), s)
       end)
    (fun _ _ _ i => modify (fun s => mkDemo (news s) (given_ids s) (acked s ++ [i]) (tries s)))
    (ret tt).

Definition demo_bus : Bus (X := demo_state) (Opts := string) :=
  mkBus "app" "client" "app_events" None demo_codec.

Definition demo_consumer : consumer (X := demo_state) :=
  mkConsumer any_event
    (flaky (fun s => Nat.eqb (tries s) 0)
       (fun s => mkDemo (news s) (given_ids s) (acked s) (S (tries s)))) "app_h".

Definition data_msg (id data : string) : XMessage := mkXMessage id {["data" := AString data]}.

#[local] Instance demo_group : GroupLaws demo_redis demo_bus demo_consumer given_ids.
Proof.
  split.
  - intros ctx name x res x'. simpl. unfold of_stream. simpl.
    destruct (news x) as [|m q]; [intros [= <- <-]; simpl; set_solver|].
    case_bool_decide as Hm; intros [= <- <-]; simpl.
    + split; [constructor|]. set_solver.
    + split; [apply NoDup_singleton|]. set_solver.
  - intros ctx id x o x' [= <- <-]. done.
  - intros ctx data x o x'. destruct (UnmarshalEvent (codec demo_bus) ctx data x) as [[[e ctx']|[ctx' err]] x1] eqn:Hu.
    + rewrite (dispatch_decoded _ _ _ _ _ _ _ _ _ Hu). injection Hu as _ <-. simpl.
      unfold bind, gets, modify, throw, ret. by destruct (Nat.eqb (tries x) 0); intros [= <- <-].
    + rewrite (dispatch_undecodable _ _ _ _ _ _ _ _ _ Hu). injection Hu as _ <-. by intros [= <- <-].
Qed.

Abbreviation demo_turn := (turn demo_redis (fun _ => "") demo_bus demo_consumer bg).

Lemma redis_tries_once_witness :
  exists p st' tr, runs demo_redis (fun _ => "") demo_bus demo_consumer bg given_ids Reading
      (RemoteBus.NewEventBus, mkDemo [data_msg "1-0" "one"; data_msg "2-0" "two"] ∅ [] 0) tr p st' /\
    acked st'.2 = ["2-0"] /\ len tr = 3 /\
    exists ts, tr = concat (trace_of <$> ts) /\ NoDup (ids ts.*1) /\
      Forall (fun t => ran demo_bus demo_consumer bg t.1 t.2) ts.
Proof.
  set (st0 := (RemoteBus.NewEventBus, mkDemo [data_msg "1-0" "one"; data_msg "2-0" "two"] ∅ [] 0)).
  assert (exists tr p st', runs demo_redis (fun _ => "") demo_bus demo_consumer bg given_ids Reading st0 tr p st' /\
    acked st'.2 = ["2-0"] /\ len tr = 3) as (tr & p & st' & Hr & Ha & Hl).
  { do 3 eexists. split.
    - eapply runs_turn; [reflexivity|]. eapply runs_turn; [reflexivity|].
      eapply runs_turn; [reflexivity|]. eapply runs_turn; [reflexivity|].
      eapply runs_turn; [reflexivity|]. apply runs_nil.
    - split; reflexivity. }
  exists p, st', tr. split; [exact Hr|]. split; [exact Ha|]. split; [exact Hl|].
  apply (redis_tries_once demo_redis (fun _ => "") demo_bus demo_consumer bg given_ids st0 tr p st' Hr).
Defined.

End RedisBus.
