(* ===== verification/NatsBus.v ===== *)
(** * The NATS event bus ([eventbus/nats/eventbus.go])

    [Nats] is the record of the client's calls; [Sub] are subscriptions, [Msg]
    the messages the server delivers.  The library calls [handler] for each
    message of a subscription; the goroutine of a handler only waits for the
    end.

    [SubjectLaws] is what the code relies on of subjects: tokens between dots,
    of which a filter's [*] stands for any one. *)

From stdpp Require Import base gmap strings list numbers option pretty.
From Stdlib Require Import Lia ZArith Ascii.
From S2P Require Import Prelude.
From S2P Require Import GoTypes.
From S2P Require Import Event.
From S2P Require Import Command.
From S2P Require Import Errors.
From S2P Require Import Fixtures.
From S2P Require Import Match.
From S2P Require Import Handlers.
From S2P Require Import RemoteBus.

Module NatsBus.
Import RemoteBus.

(** What the bus sets of a [nats.StreamConfig]. *)
Record StreamConfig : Type := mkStreamConfig {
  Name : string;
  Subjects : list string;
  FileStorage : bool;
  InterestPolicy : bool
}.

(** The options of a subscription. *)
Record SubOpts : Type := mkSubOpts {
  DeliverNew : bool;
  ManualAck : bool;
  AckExplicit : bool;
  AckWait : Z;
  MaxDeliver : Z
}.

Record Nats (X Msg Sub Opt : Type) : Type := mkNats {
  Connect : string -> list Opt -> M X unit;
  JetStream : M X unit;
  StreamInfo : string -> M X unit;
  AddStream : StreamConfig -> M X unit;
  Publish : string -> string -> M X unit;
  QueueSubscribe : string -> string -> SubOpts -> M X Sub;
  Data : Msg -> string;
  AckSync : Msg -> M X unit;
  Nak : Msg -> M X unit;
  Unsubscribe : Sub -> M X unit;
  conn_Close : M X unit
}.
Arguments mkNats {X Msg Sub Opt}.
Arguments Connect {X Msg Sub Opt}.
Arguments JetStream {X Msg Sub Opt}.
Arguments StreamInfo {X Msg Sub Opt}.
Arguments AddStream {X Msg Sub Opt}.
Arguments Publish {X Msg Sub Opt}.
Arguments QueueSubscribe {X Msg Sub Opt}.
Arguments Data {X Msg Sub Opt}.
Arguments AckSync {X Msg Sub Opt}.
Arguments Nak {X Msg Sub Opt}.
Arguments Unsubscribe {X Msg Sub Opt}.
Arguments conn_Close {X Msg Sub Opt}.

(** [fmt.Sprintf("%s.%s.%s", ..)] *)
Definition dotted (a b c : string) : string := a +:+ "." +:+ b +:+ "." +:+ c.

(** The matchers that fit a subject; all others are wildcards. *)
Definition createConsumerSubject (streamName : string) (m : EventMatcher) : string :=
  match m with
  | MatchEvents [et] => dotted streamName "*" et
  | MatchAggregates [at'] => dotted streamName at' "*"
  | _ => dotted streamName "*" "*"
  end.

Section Nats.
Context {X Msg Sub Opt : Type} (client : Nats X Msg Sub Opt).

Record subscription : Type := mkSubscription {
  s_Match : EventMatcher;
  s_Handler : EventHandler X;
  s_subject : string;
  s_Sub : Sub
}.

Record Bus : Type := mkBus {
  appID : string;
  streamName : string;
  connOpts : list Opt;
  streamConfig : option StreamConfig;
  codec : EventCodec X
}.

(** [unsubscribe]: the subscriptions to end at [Close]. *)
Record local : Type := mkLocal {
  bus : RemoteBus.EventBus (G := subscription);
  unsubscribe : list Sub
}.

Abbreviation St := (local * X)%type.

Definition on_bus {A} (m : M (RemoteBus.EventBus (G := subscription)) A) : M St A :=
  zoom (fun st => bus st.1) (fun bs st => (mkLocal bs (unsubscribe st.1), st.2)) m.

(** ** Creation *)

Definition Option : Type := Bus -> Bus + error.

Definition WithCodec (c : EventCodec X) : Option := fun b =>
  inl (mkBus (appID b) (streamName b) (connOpts b) (streamConfig b) c).

Definition WithNATSOptions (opts : list Opt) : Option := fun b =>
  inl (mkBus (appID b) (streamName b) opts (streamConfig b) (codec b)).

Definition WithStreamConfig (opts : option StreamConfig) : Option := fun b =>
  inl (mkBus (appID b) (streamName b) (connOpts b) opts (codec b)).

(** The stream is made unless it can be found. *)
Definition NewEventBus (json_codec : EventCodec X) (url appID : string)
    (options : list (option Option)) : M X (Bus * local) :=
  match apply_options options (mkBus appID (appID +:+ "_events") [] None json_codec) with
  | inr err => throw err
  | inl b =>
      do! map_err (Errorf "could not create NATS connection") (Connect client url (connOpts b)) in
      do! map_err (Errorf "could not create Jetstream context") (JetStream client) in
      let! info := attempt (StreamInfo client (streamName b)) in
      do! match info with
          | inl _ => ret tt
          | inr _ =>
              let cfg := mkStreamConfig (streamName b) [streamName b +:+ ".*.*"] true true in
              map_err (Errorf "could not create NATS stream")
                (AddStream client (default cfg (streamConfig b)))
          end in
      ret (b, mkLocal RemoteBus.NewEventBus [])
  end.

Section Bus.
Context (b : Bus).

(** The subject an event is published on. *)
Definition subject (e : event) : string := dotted (streamName b) (aggregateType e) (eventType e).

Definition HandleEvent (ctx : context) (ev : option event) : M X unit :=
  let! data := map_err (Errorf "could not marshal event") (MarshalEvent (codec b) ctx ev) in
  let! e := deref ev in
  map_err (Errorf "could not publish event") (Publish client (subject e) data).

(** The loop down the chain of inner handlers.  The one handler that has the
    method [IsEphemeralHandler] answers true. *)
Fixpoint handlerIsEphemeral (h : EventHandler X) : bool :=
  if IsEphemeralHandler h then true
  else match InnerHandler h with
       | Some h' => handlerIsEphemeral h'
       | None => false
       end.

Definition AddHandler (ctx : context) (m : option EventMatcher) (h : option (EventHandler X))
  : M St unit :=
  let! (m, h) := on_bus (check_handler m h) in
  let subject := createConsumerSubject (streamName b) m in
  let consumerName := appID b +:+ "_" +:+ Handlers.HandlerType h in
  let! sub := map_err (Errorf "could not subscribe to queue")
    (zoom_snd (QueueSubscribe client subject consumerName
       (mkSubOpts true true true (60 * 1000000000) 10))) in
  do! (if handlerIsEphemeral h
       then modify (fun st => (mkLocal (bus st.1) (unsubscribe st.1 ++ [sub]), st.2))
       else ret tt) in
  on_bus (register (Handlers.HandlerType h) (mkSubscription m h subject sub)).

(** The errors of [AckSync] and [Nak] are not read. *)
Definition handler (s : subscription) (ctx : context) (msg : Msg) : M St unit :=
  let! v := zoom_snd (dispatch (codec b) (s_Match s) (s_Handler s) ctx (Data client msg)) in
  match bus_error v with
  | Some err =>
      do! on_bus (report err) in
      do! attempt (zoom_snd (Nak client msg)) in ret tt
  | None => do! attempt (zoom_snd (AckSync client msg)) in ret tt
  end.

(** [Close], after the goroutines have ended. *)
Definition Close : M St unit :=
  let! l := gets fst in
  do! for_range (unsubscribe l) (fun sub => do! attempt (zoom_snd (Unsubscribe client sub)) in ret tt) in
  zoom_snd (conn_Close client).

(** ** What is delivered *)

(** [selects f s]: a subscription to [f] gets what is published on [s]. *)
Context (selects : string -> string -> bool).

(** The name of a type that is one token, and no wildcard. *)
Fixpoint plain (s : string) : bool :=
  match s with
  | EmptyString => true
  | String.String c s' =>
      negb (Ascii.eqb c "."%char || Ascii.eqb c "*"%char || Ascii.eqb c ">"%char ||
            Ascii.eqb c " "%char) && plain s'
  end.

Definition token (s : string) : bool := negb (bool_decide (s = "")) && plain s.

Definition token_matches (f t : string) : bool := bool_decide (f = "*" \/ f = t).

Class SubjectLaws : Prop := {
  law_selects stream f1 f2 t1 t2 :
    (f1 = "*" \/ token f1 = true) -> (f2 = "*" \/ token f2 = true) ->
    token t1 = true -> token t2 = true ->
    selects (dotted stream f1 f2) (dotted stream t1 t2) =
    token_matches f1 t1 && token_matches f2 t2
}.

(** The matchers that are a subject. *)
Definition exact (m : EventMatcher) : bool :=
  match m with
  | MatchEvents [t] | MatchAggregates [t] => token t
  | _ => false
  end.

Context `{!SubjectLaws}.

Lemma token_star f t : token f = true -> token_matches f t = bool_decide (f = t).
Proof.
  intros Hf. unfold token_matches. apply bool_decide_ext. split; [|by right].
  intros [->|]; [|done]. by vm_compute in Hf.
Qed.

Lemma wildcard_matches t : token_matches "*" t = true.
Proof. apply bool_decide_eq_true. by left. Qed.

(** the server keeps no matching event from a handler.  A handler's subscription
    gets every event its matcher accepts; and if the matcher is one type of
    event or of aggregate, no other event is sent to it. *)
Theorem nats_subscription_covers m e :
  token (aggregateType e) = true -> token (eventType e) = true ->
  let sent := selects (createConsumerSubject (streamName b) m) (subject e) in
  (Match m (Some e) = true -> sent = true) /\
  (exact m = true -> sent = Match m (Some e)).
Proof.
  intros Hat Het. unfold subject.
  assert (selects (dotted (streamName b) "*" "*") (dotted (streamName b) (aggregateType e) (eventType e)) = true)
    as Hall by (rewrite law_selects; by auto).
  destruct m as [[|t [|? ?]]|[|t [|? ?]]|l|l|f]; cbn [createConsumerSubject exact]; try done.
  - assert (token t = true -> selects (dotted (streamName b) "*" t)
      (dotted (streamName b) (aggregateType e) (eventType e)) = bool_decide (t = eventType e)) as Hs.
    { intros Ht. rewrite law_selects, wildcard_matches, token_star by auto. done. }
    cbn [Match match_events]. destruct (decide (eventType e = t)) as [<-|He].
    + rewrite !bool_decide_true in * by done. split; intros; by rewrite Hs.
    + rewrite (bool_decide_false (eventType e = t)) by done. split; [done|]. intros Ht.
      by rewrite Hs, bool_decide_false by (done || congruence).
  - assert (token t = true -> selects (dotted (streamName b) t "*")
      (dotted (streamName b) (aggregateType e) (eventType e)) = bool_decide (t = aggregateType e)) as Hs.
    { intros Ht. rewrite law_selects, wildcard_matches, token_star by auto. apply andb_true_r. }
    cbn [Match match_aggregates]. destruct (decide (aggregateType e = t)) as [<-|He].
    + rewrite !bool_decide_true in * by done. split; intros; by rewrite Hs.
    + rewrite (bool_decide_false (aggregateType e = t)) by done. split; [done|]. intros Ht.
      by rewrite Hs, bool_decide_false by (done || congruence).
Qed.

(** what becomes of a message.  It is acknowledged if the handler accepted its
    event or does not want it; otherwise the error is reported and the server
    is asked to send it again. *)
Theorem nats_acknowledges s ctx msg l x v x1 :
  dispatch (codec b) (s_Match s) (s_Handler s) ctx (Data client msg) x = (Ok v, x1) ->
  (forall o p x2, AckSync client msg x1 = (o, x2) \/ Nak client msg x1 = (o, x2) -> o <> Panic p) ->
  let after := match bus_error v with None => AckSync client msg x1 | Some _ => Nak client msg x1 end in
  exists l', handler s ctx msg (l, x) = (Ok tt, (l', after.2)) /\
    errCh (bus l') = (match bus_error v with
                      | Some err => Outbox.send Outbox.errCh_cap err (errCh (bus l))
                      | None => errCh (bus l)
                      end) /\
    unsubscribe l' = unsubscribe l.
Proof.
  intros Hv Hp. unfold handler, bind, attempt, zoom_snd, on_bus, zoom, report, modify. cbn [fst snd].
  rewrite Hv. cbn [fst snd]. destruct (bus_error v) as [err|]; cbn [fst snd].
  - destruct (Nak client msg x1) as [[u|e|p] x2] eqn:Hn; [by eexists|by eexists|].
    by destruct (Hp _ p _ (or_intror eq_refl)).
  - destruct (AckSync client msg x1) as [[u|e|p] x2] eqn:Hn; [by eexists|by eexists|].
    by destruct (Hp _ p _ (or_introl eq_refl)).
Qed.

End Bus.
End Nats.

(** ** Concrete inputs: subjects compared token by token *)

Fixpoint tokens (cur : string) (s : string) : list string :=
  match s with
  | EmptyString => [cur]
  | String.String c s' =>
      if Ascii.eqb c "."%char then cur :: tokens "" s' else tokens (cur +:+ String.String c "") s'
  end.

Fixpoint all_match (fs ts : list string) : bool :=
  match fs, ts with
  | [], [] => true
  | f :: fs', t :: ts' => bool_decide (f = "*" \/ f = t) && all_match fs' ts'
  | _, _ => false
  end.

Definition demo_selects (f s : string) : bool := all_match (tokens "" f) (tokens "" s).

Lemma tokens_dot (cur a s : string) : tokens cur (a +:+ "." +:+ s) = tokens cur a ++ tokens "" s.
Proof.
  revert cur. induction a as [|c a IH]; intros cur; [done|].
  change (String.String c a +:+ "." +:+ s) with (String.String c (a +:+ "." +:+ s)). simpl.
  destruct (Ascii.eqb c "."%char); by rewrite IH.
Qed.

Lemma tokens_plain (cur a : string) : plain a = true -> tokens cur a = [cur +:+ a].
Proof.
  revert cur. induction a as [|c a IH]; intros cur; simpl; [by rewrite append_empty|].
  destruct (Ascii.eqb c "."%char); [done|]. simpl. intros [_ Ha]%andb_true_iff.
  rewrite IH by done. by rewrite string_app_assoc.
Qed.

Lemma all_match_app l fs ts : all_match (l ++ fs) (l ++ ts) = all_match fs ts.
Proof. induction l as [|x l IH]; [done|]. simpl. rewrite bool_decide_true by auto. apply IH. Qed.

Lemma tokens_of_part (f : string) : f = "*" \/ token f = true -> tokens "" f = [f].
Proof. intros [->|[_ Hf]%andb_true_iff]; [done|]. by apply tokens_plain. Qed.

#[local] Instance demo_subjects : SubjectLaws demo_selects.
Proof.
  split. intros stream f1 f2 t1 t2 Hf1 Hf2 Ht1 Ht2. unfold demo_selects, dotted.
  rewrite !tokens_dot, (tokens_of_part f1), (tokens_of_part f2), (tokens_of_part t1),
    (tokens_of_part t2), all_match_app by auto. simpl. by rewrite andb_true_r.
Qed.

Definition demo_bus : Bus (X := Z) (Opt := unit) := mkBus "app" "app_events" [] None demo_codec.

Lemma nats_subscription_covers_witness :
  demo_selects (createConsumerSubject "app_events" (MatchEvents ["added"; "removed"]))
    (subject demo_bus (demo_event id1 2)) = true /\
  demo_selects (createConsumerSubject "app_events" (MatchEvents ["removed"]))
    (subject demo_bus (demo_event id1 2)) = false.
Proof.
  split.
  - apply (proj1 (nats_subscription_covers demo_bus demo_selects (MatchEvents ["added"; "removed"])
      (demo_event id1 2) eq_refl eq_refl)). reflexivity.
  - apply (proj2 (nats_subscription_covers demo_bus demo_selects (MatchEvents ["removed"])
      (demo_event id1 2) eq_refl eq_refl)). reflexivity.
Defined.

(** A server that keeps a list of what was acknowledged ([AckSync]) and what is
    to be sent again ([Nak]). *)
Definition demo_nats : Nats (list string * list string) string unit unit :=
  mkNats (fun _ _ => ret tt) (ret tt) (fun _ => ret tt) (fun _ => ret tt) (fun _ _ => ret tt)
    (fun _ _ _ => ret tt) (fun msg => msg)
    (fun msg => modify (fun s => (s.1 ++ [msg], s.2))) (fun msg => modify (fun s => (s.1, s.2 ++ [msg])))
    (fun _ => ret tt) (ret tt).

Lemma nats_acknowledges_witness :
  exists l', handler demo_nats (mkBus "app" "app_events" [] None demo_codec)
      (mkSubscription any_event (flaky (fun _ => true) id) "app_events.*.*" tt) bg "one"
      (mkLocal RemoteBus.NewEventBus [], ([], [])) = (Ok tt, (l', ([], ["one"]))) /\
    len (errCh (bus l')) = 1.
Proof.
  set (e := Errorf "could not handle event (h)" (ErrorString "not now")).
  destruct (nats_acknowledges demo_nats (mkBus "app" "app_events" [] None demo_codec)
    (mkSubscription any_event (flaky (fun _ => true) id) "app_events.*.*" tt) bg "one"
    (mkLocal RemoteBus.NewEventBus []) ([], []) (Failed bg (demo_event id1 1) e) ([], []))
    as (l' & Hl & He & _).
  - reflexivity.
  - intros o p x2 [Ha|Ha]; injection Ha as <- _; discriminate.
  - exists l'. split; [exact Hl|]. rewrite He. reflexivity.
Defined.

End NatsBus.
