(* ===== verification/GcpBus.v ===== *)
(** * The Google Pub/Sub event bus ([eventbus/gcp/eventbus.go])

    [PubSub] is the record of the client's calls, [R] are subscribers, [Msg]
    received messages.  [Receive] runs the callback on messages until its
    context ends or it fails: a [round] is what one call delivered, in the order
    the callbacks ran, and the error it ended with.

    The filter of a subscription is text.  [read_filter] reads it by the
    documented syntax, as far as the bus uses it, as a [filter], whose
    documented meaning is [selects]. *)

From stdpp Require Import base gmap strings list numbers option pretty.
From Stdlib Require Import Lia ZArith Ascii.
From S2P Require Import Prelude.
From S2P Require Import GoTypes.
From S2P Require Import Event.
From S2P Require Import Command.
From S2P Require Import Errors.
From S2P Require Import Fixtures.
From S2P Require Import Match.
From S2P Require Import Handlers.
From S2P Require Import RemoteBus.

Module GcpBus.
Import RemoteBus.

(** ** Filters *)

Definition quote : string := String.String (Ascii.ascii_of_nat 34) EmptyString.

Definition aggregateTypeAttribute : string := "aggregate_type".

(** [strings.Join] *)
Fixpoint Join (l : list string) (sep : string) : string :=
  match l with
  | [] => ""
  | [s] => s
  | s :: l' => s +:+ sep +:+ Join l' sep
  end.

Definition has_key (k : string) : string := "attributes:" +:+ quote +:+ k +:+ quote.

Definition key_is (k v : string) : string := "attributes." +:+ k +:+ "=" +:+ quote +:+ v +:+ quote.

Definition paren (s : string) : string := "(" +:+ s +:+ ")".

Fixpoint createFilter (m : EventMatcher) : string :=
  match m with
  | MatchEvents types => Join (has_key <$> types) " OR "
  | MatchAggregates types => Join (key_is aggregateTypeAttribute <$> types) " OR "
  | MatchAny l => Join ((fun sm => paren (createFilter sm)) <$> l) " OR "
  | MatchAll l => Join ((fun sm => paren (createFilter sm)) <$> l) " AND "
  | MatchFunc _ => ""
  end.

(** A subscription; [Filter] and [EnableMessageOrdering] are read back. *)
Record Subscription : Type := mkSubscription {
  Name : string;
  Topic : string;
  AckDeadlineSeconds : Z;
  Filter : string;
  EnableMessageOrdering : bool;
  MinimumBackoff : Z
}.

Record PubSubMessage : Type := mkMessage {
  m_Data : string;
  Attributes : gmap string string;
  OrderingKey : string
}.

(** [T]: the configuration of topics. *)
Record PubSub (X R Msg T : Type) : Type := mkPubSub {
  GetTopic : string -> M X unit;
  CreateTopic : string -> option T -> M X unit;
  Publish : context -> string -> PubSubMessage -> M X unit;
  GetSubscription : context -> string -> M X Subscription;
  CreateSubscription : context -> Subscription -> M X unit;
  Subscriber : string -> R;
  Data : Msg -> string;
  Ack : Msg -> M X unit;
  Nack : Msg -> M X unit;
  publisher_Stop : M X unit;
  client_Close : M X unit
}.
Arguments mkPubSub {X R Msg T}.
Arguments GetTopic {X R Msg T}.
Arguments CreateTopic {X R Msg T}.
Arguments Publish {X R Msg T}.
Arguments GetSubscription {X R Msg T}.
Arguments CreateSubscription {X R Msg T}.
Arguments Subscriber {X R Msg T}.
Arguments Data {X R Msg T}.
Arguments Ack {X R Msg T}.
Arguments Nack {X R Msg T}.
Arguments publisher_Stop {X R Msg T}.
Arguments client_Close {X R Msg T}.

Section Gcp.
Context {X R Msg T Opt : Type}.

Record consumer : Type := mkConsumer {
  c_Match : EventMatcher;
  c_Handler : EventHandler X;
  c_Sub : R
}.

(** [topicName] is set once the client is there. *)
Record Bus : Type := mkBus {
  appID : string;
  projectID : string;
  clientOpts : list Opt;
  topicConfig : option T;
  codec : EventCodec X
}.

Abbreviation EventBus := (RemoteBus.EventBus (G := consumer)).
Abbreviation St := (EventBus * X)%type.

(** ** Creation *)

Definition Option : Type := Bus -> Bus + error.

Definition WithCodec (c : EventCodec X) : Option := fun b =>
  inl (mkBus (appID b) (projectID b) (clientOpts b) (topicConfig b) c).

Definition WithPubSubOptions (opts : list Opt) : Option := fun b =>
  inl (mkBus (appID b) (projectID b) opts (topicConfig b) (codec b)).

Definition WithTopicOptions (cfg : option T) : Option := fun b =>
  inl (mkBus (appID b) (projectID b) (clientOpts b) cfg (codec b)).

Definition topicName (b : Bus) : string :=
  "projects/" +:+ projectID b +:+ "/topics/" +:+ appID b +:+ "_events".

(** [status.Code(err) == codes.NotFound] *)
Context (IsNotFound : error -> bool).
Context (uuid_String : UUID -> string).

(** [NewClient] makes the client of a project.  A topic is created from a copy
    of the configuration under the bus's name. *)
Definition NewEventBus (NewClient : string -> list Opt -> M X (PubSub X R Msg T))
    (json_codec : EventCodec X) (projectID appID : string) (options : list (option Option))
  : M X (Bus * PubSub X R Msg T * EventBus) :=
  match apply_options options (mkBus appID projectID [] None json_codec) with
  | inr err => throw err
  | inl b =>
      let! client := NewClient projectID (clientOpts b) in
      let! topic := attempt (GetTopic client (topicName b)) in
      do! match topic with
          | inl _ => ret tt
          | inr err =>
              if IsNotFound err then CreateTopic client (topicName b) (topicConfig b) else throw err
          end in
      ret (b, client, RemoteBus.NewEventBus)
  end.

Context (client : PubSub X R Msg T).

Section Bus.
Context (b : Bus).

(** ** Publishing *)

(** The map literal: where the two keys are the same, the later one stays. *)
Definition attributes (e : event) : gmap string string :=
  <[eventType e := ""]> {[aggregateTypeAttribute := aggregateType e]}.

Definition HandleEvent (ctx : context) (ev : option event) : M X unit :=
  let! data := map_err (Errorf "could not marshal event") (MarshalEvent (codec b) ctx ev) in
  let! e := deref ev in
  map_err (Errorf "could not publish event")
    (Publish client ctx (topicName b) (mkMessage data (attributes e) (uuid_String (aggregateID e)))).

(** ** Subscribing *)

Definition subscriptionID (h : EventHandler X) : string :=
  appID b +:+ "_" +:+ Handlers.HandlerType h.

Definition subName (h : EventHandler X) : string :=
  "projects/" +:+ projectID b +:+ "/subscriptions/" +:+ subscriptionID h.

(** Get or create the subscription. *)
Definition get_subscription (ctx : context) (h : EventHandler X) (filter : string) : M X unit :=
  let! cfg := attempt (GetSubscription client ctx (subName h)) in
  match cfg with
  | inr err =>
      if IsNotFound err then
        map_err (Errorf "could not create subscription")
          (CreateSubscription client ctx
             (mkSubscription (subName h) (topicName b) 60 filter true (3 * 1000000000)))
      else throw (Errorf "could not check existing subscription" err)
  | inl cfg =>
      if negb (bool_decide (Filter cfg = filter))
      then throw (ErrorString ("the existing filter for '" +:+ Handlers.HandlerType h +:+
                               "' differs, please remove to recreate"))
      else if negb (EnableMessageOrdering cfg)
      then throw (ErrorString ("message ordering not enabled for subscription '" +:+
                               Handlers.HandlerType h +:+ "', please remove to recreate"))
      else ret tt
  end.

Definition AddHandler (ctx : context) (m : option EventMatcher) (h : option (EventHandler X))
  : M St unit :=
  let! (m, h) := zoom_fst (check_handler m h) in
  let filter := createFilter m in
  if 256 <=? Z.of_nat (String.length filter)
  then throw (ErrorString ("match filter is longer than 256 chars: " +:+
                           pretty (Z.of_nat (String.length filter))))
  else
    do! zoom_snd (get_subscription ctx h filter) in
    zoom_fst (register (Handlers.HandlerType h) (mkConsumer m h (Subscriber client (subName h)))).

(** ** The goroutine of a handler *)

Definition handler (c : consumer) (ctx : context) (msg : Msg) : M St unit :=
  let! v := zoom_snd (dispatch (codec b) (c_Match c) (c_Handler c) ctx (Data client msg)) in
  match bus_error v with
  | Some err => do! zoom_fst (report err) in zoom_snd (Nack client msg)
  | None => zoom_snd (Ack client msg)
  end.

(** [handle], for the rounds of [Receive] until one ends without an error. *)
Fixpoint handle (c : consumer) (ctx : context) (rounds : list (list Msg * option error)) : M St unit :=
  match rounds with
  | [] => ret tt
  | (msgs, res) :: rounds' =>
      do! for_range msgs (handler c ctx) in
      match res with
      | Some err =>
          do! zoom_fst (report (EventBusError (Some (Errorf "could not receive" err)) None None)) in
          handle c ctx rounds'
      | None => ret tt
      end
  end.

(** [Close]; the goroutines end between the two. *)
Definition Close : M X unit :=
  do! publisher_Stop client in client_Close client.

End Bus.
End Gcp.

(** ** What a filter selects *)

(** The part of the documented filter language that the bus uses: tests of an
    attribute, and groups joined by one operator. *)
Inductive filter : Type :=
| HasKey (k : string)
| KeyIs (k v : string)
| Or (l : list filter)
| And (l : list filter).

Fixpoint selects (f : filter) (a : gmap string string) : bool :=
  match f with
  | HasKey k => bool_decide (is_Some (a !! k))
  | KeyIs k v => bool_decide (a !! k = Some v)
  | Or l => existsb id ((fun f => selects f a) <$> l)
  | And l => forallb id ((fun f => selects f a) <$> l)
  end.

(** *** Reading the text of a filter

    [attributes:"key"], [attributes.key="value"], parentheses, and a list
    joined by [OR] or by [AND]: the two are not mixed without parentheses.
    In a string a backslash takes the next character as it is. *)

Definition double_quote : ascii := Ascii.ascii_of_nat 34.
Definition backslash : ascii := Ascii.ascii_of_nat 92.

Fixpoint strip (p s : string) : option string :=
  match p, s with
  | EmptyString, _ => Some s
  | String.String c p', String.String d s' => if Ascii.eqb c d then strip p' s' else None
  | String.String _ _, EmptyString => None
  end.

(** A string up to its closing quote, and what follows. *)
Fixpoint read_string (s : string) : option (string * string) :=
  match s with
  | EmptyString => None
  | String.String c s1 =>
      if Ascii.eqb c double_quote then Some (EmptyString, s1)
      else if Ascii.eqb c backslash then
        match s1 with
        | EmptyString => None
        | String.String d s2 => '(v, r) ← read_string s2; Some (String.String d v, r)
        end
      else '(v, r) ← read_string s1; Some (String.String c v, r)
  end.

(** A key up to the equals sign. *)
Fixpoint read_key (s : string) : option (string * string) :=
  match s with
  | EmptyString => None
  | String.String c s1 =>
      if Ascii.eqb c "=" then Some (EmptyString, s1)
      else '(v, r) ← read_key s1; Some (String.String c v, r)
  end.

(** One test. *)
Definition read_test (s : string) : option (filter * string) :=
  match strip ("attributes:" +:+ quote) s with
  | Some s1 => '(k, r) ← read_string s1; Some (HasKey k, r)
  | None =>
      s1 ← strip "attributes." s; '(k, s2) ← read_key s1; s3 ← strip quote s2;
      '(v, r) ← read_string s3; Some (KeyIs k v, r)
  end.

(** A test or a group; a list joined by [op]; a whole filter.  The text gets
    shorter, so its length is fuel enough. *)
Fixpoint read_clause (n : nat) (s : string) {struct n} : option (filter * string) :=
  match n with
  | O => None
  | S n =>
      match strip "(" s with
      | Some s1 => '(f, s2) ← read_joined n s1; r ← strip ")" s2; Some (f, r)
      | None => read_test s
      end
  end
with read_list (n : nat) (op s : string) {struct n} : option (list filter * string) :=
  match n with
  | O => None
  | S n =>
      '(f, s1) ← read_clause n s;
      match strip op s1 with
      | Some s2 => '(fs, r) ← read_list n op s2; Some (f :: fs, r)
      | None => Some ([f], s1)
      end
  end
with read_joined (n : nat) (s : string) {struct n} : option (filter * string) :=
  match n with
  | O => None
  | S n =>
      '(f, s1) ← read_clause n s;
      match strip " OR " s1, strip " AND " s1 with
      | Some s2, _ => '(fs, r) ← read_list n " OR " s2; Some (Or (f :: fs), r)
      | None, Some s2 => '(fs, r) ← read_list n " AND " s2; Some (And (f :: fs), r)
      | None, None => Some (f, s1)
      end
  end.

Definition read_filter (s : string) : option filter :=
  match read_joined (S (S (String.length s))) s with
  | Some (f, EmptyString) => Some f
  | _ => None
  end.

(** A list of one is its element. *)
Definition joined (mk : list filter -> filter) (l : list filter) : filter :=
  match l with [f] => f | _ => mk l end.

(** The filter of a matcher. *)
Fixpoint filter_of (m : EventMatcher) : filter :=
  match m with
  | MatchEvents types => joined Or (HasKey <$> types)
  | MatchAggregates types => joined Or (KeyIs aggregateTypeAttribute <$> types)
  | MatchAny l => joined Or (filter_of <$> l)
  | MatchAll l => joined And (filter_of <$> l)
  | MatchFunc _ => Or []
  end.

(** The matchers the language can express: all lists have elements. *)
Fixpoint expressible (m : EventMatcher) : bool :=
  match m with
  | MatchEvents types | MatchAggregates types => negb (bool_decide (types = []))
  | MatchAny l | MatchAll l =>
      match l with [] => false | _ :: _ => forallb id (expressible <$> l) end
  | MatchFunc _ => false
  end.

(** Names that [%s] puts between quotes as they are: without quotes and
    backslashes. *)
Fixpoint plain (s : string) : bool :=
  match s with
  | EmptyString => true
  | String.String c s' =>
      negb (Ascii.eqb c double_quote) && negb (Ascii.eqb c backslash) && plain s'
  end.

Fixpoint plain_names (m : EventMatcher) : bool :=
  match m with
  | MatchEvents types | MatchAggregates types => forallb plain types
  | MatchAny l | MatchAll l => forallb id (plain_names <$> l)
  | MatchFunc _ => true
  end.

(** No type of an event is called like the attribute of aggregate types. *)
Fixpoint no_clash (m : EventMatcher) : bool :=
  match m with
  | MatchEvents types => negb (bool_decide (aggregateTypeAttribute ∈ types))
  | MatchAny l | MatchAll l => forallb id (no_clash <$> l)
  | _ => true
  end.

Lemma matcher_ind (P : EventMatcher -> Prop) :
  (forall ts, P (MatchEvents ts)) -> (forall ts, P (MatchAggregates ts)) ->
  (forall l, Forall P l -> P (MatchAny l)) -> (forall l, Forall P l -> P (MatchAll l)) ->
  (forall f, P (MatchFunc f)) -> forall m, P m.
Proof.
  intros He Ha Hany Hall Hf. fix IH 1. intros [ts|ts|l|l|f]; [apply He|apply Ha| | |apply Hf].
  - apply Hany. induction l as [|m l IHl]; constructor; [apply IH|apply IHl].
  - apply Hall. induction l as [|m l IHl]; constructor; [apply IH|apply IHl].
Qed.

Lemma fmap_Forall_eq {A B} (f g : A -> B) l : Forall (fun x => f x = g x) l -> f <$> l = g <$> l.
Proof. induction 1 as [|x l Hx _ IH]; [done|]. rewrite !fmap_cons. by rewrite Hx, IH. Qed.

(** *** The text of [createFilter] is read as the filter of the matcher *)

Lemma strip_app p s : strip p (p +:+ s) = Some s.
Proof.
  induction p as [|c p IH]; [done|].
  change (strip (String.String c p) (String.String c (p +:+ s)) = Some s). simpl. by rewrite Ascii.eqb_refl.
Qed.

Lemma read_string_plain v r :
  plain v = true -> read_string (v +:+ quote +:+ r) = Some (v, r).
Proof.
  induction v as [|c v IH]; [done|]. simpl plain. rewrite !andb_true_iff, !negb_true_iff.
  intros [[Hq Hb] Hv]. change (String.String c v +:+ quote +:+ r) with (String.String c (v +:+ quote +:+ r)).
  simpl read_string. by rewrite Hq, Hb, IH.
Qed.

(** The text of a clause, whatever follows it. *)
Definition clause_reads (t : string) (f : filter) : Prop :=
  forall n r, (String.length t <= n)%nat -> n <> 0%nat -> read_clause n (t +:+ r) = Some (f, r).

Lemma test_reads t f r : strip "(" (t +:+ r) = None -> read_test (t +:+ r) = Some (f, r) ->
  forall n, n <> 0%nat -> read_clause n (t +:+ r) = Some (f, r).
Proof. intros Hp Ht [|n] Hn; [done|]. cbn [read_clause]. by rewrite Hp. Qed.

Lemma has_key_reads k : plain k = true -> clause_reads (has_key k) (HasKey k).
Proof.
  intros Hk n r _ Hn. apply test_reads; [done| |done]. unfold read_test, has_key.
  replace ((("attributes:" +:+ quote +:+ k +:+ quote) +:+ r))
    with (("attributes:" +:+ quote) +:+ k +:+ quote +:+ r) by (by rewrite !string_app_assoc).
  by rewrite strip_app, read_string_plain.
Qed.

Lemma key_is_reads v : plain v = true ->
  clause_reads (key_is aggregateTypeAttribute v) (KeyIs aggregateTypeAttribute v).
Proof.
  intros Hv n r _ Hn. apply test_reads; [done| |done]. unfold key_is.
  unfold read_test, aggregateTypeAttribute. rewrite !string_app_assoc. simpl.
  change ("" +:+ v +:+ quote +:+ r) with (v +:+ quote +:+ r). by rewrite read_string_plain.
Qed.

Lemma clause_not_empty t f : clause_reads t f -> (0 < String.length t)%nat.
Proof.
  intros Ht. destruct t; simpl; [|lia]. by specialize (Ht 1%nat "" ltac:(simpl; lia) ltac:(done)).
Qed.

Definition ends_here (r : string) : Prop := strip " OR " r = None /\ strip " AND " r = None.

Lemma Join_cons a b l op : Join (a :: b :: l) op = a +:+ op +:+ Join (b :: l) op.
Proof. done. Qed.

Lemma read_list_joined op ts fs n r :
  op <> "" -> Forall2 clause_reads ts fs -> ts <> [] -> strip op r = None ->
  (String.length (Join ts op) < n)%nat -> read_list n op (Join ts op +:+ r) = Some (fs, r).
Proof.
  intros Hop HF Hts Hr. revert n. induction HF as [|t f ts fs Ht HF IH]; [done|].
  intros [|n] Hn; [lia|]. destruct HF as [|t' f' ts fs Ht' HF].
  - cbn [Join] in *. pose proof (clause_not_empty _ _ Ht).
    cbn [read_list]. rewrite Ht by lia. cbn [mbind option_bind]. by rewrite Hr.
  - rewrite Join_cons in *. rewrite !string_length_app in Hn.
    assert (0 < String.length op)%nat by (destruct op; simpl; [done|lia]).
    rewrite !string_app_assoc. cbn [read_list]. rewrite Ht by lia. cbn [mbind option_bind].
    rewrite strip_app, IH by (done || lia). done.
Qed.

Lemma read_joined_op mk op ts fs n r :
  (mk = Or /\ op = " OR " \/ mk = And /\ op = " AND ") ->
  Forall2 clause_reads ts fs -> ts <> [] -> ends_here r ->
  (String.length (Join ts op) < n)%nat ->
  read_joined n (Join ts op +:+ r) = Some (joined mk fs, r).
Proof.
  intros Hop HF Hts [Hor Hand] Hn. destruct n as [|n]; [lia|].
  destruct HF as [|t f ts fs Ht HF]; [done|]. pose proof (clause_not_empty _ _ Ht). destruct HF as [|t' f' ts fs Ht' HF].
  - cbn [Join] in *. cbn [read_joined]. rewrite Ht by lia. cbn [mbind option_bind]. by rewrite Hor, Hand.
  - rewrite Join_cons in *. rewrite !string_length_app in Hn.
    rewrite !string_app_assoc. cbn [read_joined]. rewrite Ht by (destruct Hop as [[_ ->]|[_ ->]]; simpl in Hn; lia).
    cbn [mbind option_bind].
    assert (op <> "" -> strip op r = None -> (String.length (Join (t' :: ts) op) < n)%nat ->
      read_list n op (Join (t' :: ts) op +:+ r) = Some (f' :: fs, r)) as Hlist.
    { intros Hs Hr Hl. apply read_list_joined; [done|by constructor|done..]. }
    destruct Hop as [[-> ->]|[-> ->]].
    + rewrite strip_app, Hlist by (done || (cbn [String.length] in Hn; lia)). done.
    + change (strip " OR " (" AND " +:+ Join (t' :: ts) " AND " +:+ r)) with (@None string).
      rewrite strip_app, Hlist by (done || (cbn [String.length] in Hn; lia)). done.
Qed.

(** A filter in parentheses is a clause. *)
Lemma paren_reads t f :
  (forall n r, (String.length t < n)%nat -> ends_here r -> read_joined n (t +:+ r) = Some (f, r)) ->
  clause_reads (paren t) f.
Proof.
  intros Ht n r Hn _. unfold paren in *. rewrite !string_length_app in Hn. simpl in Hn.
  destruct n as [|n]; [lia|]. rewrite !string_app_assoc. cbn [read_clause].
  rewrite strip_app, Ht; [|lia|by split]. cbn [mbind option_bind]. by rewrite strip_app.
Qed.

Lemma createFilter_reads m : expressible m = true -> plain_names m = true ->
  forall n r, (String.length (createFilter m) < n)%nat -> ends_here r ->
  read_joined n (createFilter m +:+ r) = Some (filter_of m, r).
Proof.
  assert (forall A (g : A -> string) (k : A -> filter) (ok : A -> bool) l,
    (forall a, ok a = true -> clause_reads (g a) (k a)) -> forallb ok l = true ->
    Forall2 clause_reads (g <$> l) (k <$> l)) as Hall.
  { intros A g k ok l Hok Hl. induction l as [|a l IH]; [constructor|].
    simpl in Hl. apply andb_true_iff in Hl as [Ha Hl]. constructor; auto. }
  assert (forall mk op l n r,
    (mk = Or /\ op = " OR " \/ mk = And /\ op = " AND ") ->
    Forall (fun m => expressible m = true -> plain_names m = true -> forall n r,
      (String.length (createFilter m) < n)%nat -> ends_here r ->
      read_joined n (createFilter m +:+ r) = Some (filter_of m, r)) l ->
    match l with [] => false | _ :: _ => forallb id (expressible <$> l) end = true ->
    forallb id (plain_names <$> l) = true ->
    (String.length (Join ((fun m => paren (createFilter m)) <$> l) op) < n)%nat -> ends_here r ->
    read_joined n (Join ((fun m => paren (createFilter m)) <$> l) op +:+ r) =
      Some (joined mk (filter_of <$> l), r)) as Hgroup.
  { intros mk op l n r Hop IH Hx Hp Hn Hr.
    assert (forallb id (expressible <$> l) = true) as Hx' by (by destruct l).
    apply read_joined_op; [done| |by destruct l|done..]. clear Hx Hn.
    induction IH as [|m1 l Hm IH IHl]; [constructor|].
    simpl in Hx', Hp. apply andb_true_iff in Hx' as [Hxm Hx'], Hp as [Hpm Hp].
    constructor; [|by apply IHl]. apply paren_reads. intros n' r' ??. by apply Hm. }
  induction m as [ts|ts|l IH|l IH|f] using matcher_ind; intros Hx Hp n r Hn Hr; [| | | |done].
  - apply read_joined_op; [by left| |by destruct ts|done..]. by apply (Hall _ _ _ plain), Hp; apply has_key_reads.
  - apply read_joined_op; [by left| |by destruct ts|done..]. by apply (Hall _ _ _ plain), Hp; apply key_is_reads.
  - apply Hgroup; [by left|done..].
  - apply Hgroup; [by right|done..].
Qed.

Section Selects.
Context (e : event) (Hname : eventType e <> aggregateTypeAttribute).

Lemma has_key_selects t : t <> aggregateTypeAttribute ->
  selects (HasKey t) (attributes e) = bool_decide (eventType e = t).
Proof.
  intros Ht. simpl. apply bool_decide_ext. unfold attributes. rewrite lookup_insert_is_Some.
  split; [|by left]. intros [|[_ [v Hv]]]; [done|]. by rewrite lookup_singleton_ne in Hv by done.
Qed.

Lemma key_is_selects t :
  selects (KeyIs aggregateTypeAttribute t) (attributes e) = bool_decide (aggregateType e = t).
Proof.
  simpl. apply bool_decide_ext. unfold attributes.
  rewrite lookup_insert_ne, lookup_singleton_eq by done. split; [by intros [= ->]|by intros ->].
Qed.

Lemma match_events_existsb ts :
  match_events ts (Some e) = existsb (fun t => bool_decide (eventType e = t)) ts.
Proof. induction ts as [|t ts IH]; [done|]. simpl. rewrite IH. by destruct (bool_decide _). Qed.

Lemma match_aggregates_existsb ts :
  match_aggregates ts (Some e) = existsb (fun t => bool_decide (aggregateType e = t)) ts.
Proof. induction ts as [|t ts IH]; [done|]. simpl. rewrite IH. by destruct (bool_decide _). Qed.

Lemma existsb_fmap {A} (f : A -> bool) l : existsb id (f <$> l) = existsb f l.
Proof. induction l as [|x l IH]; [done|]. rewrite fmap_cons. simpl. by rewrite IH. Qed.

Lemma forallb_fmap {A} (f : A -> bool) l : forallb id (f <$> l) = forallb f l.
Proof. induction l as [|x l IH]; [done|]. rewrite fmap_cons. simpl. by rewrite IH. Qed.

(** The parts of a matcher that can be expressed can be, too. *)
Lemma parts_ok l :
  match l with [] => false | _ :: _ => forallb id (expressible <$> l) end = true ->
  forallb id (no_clash <$> l) = true ->
  Forall (fun m => expressible m = true -> no_clash m = true ->
            selects (filter_of m) (attributes e) = Match m (Some e)) l ->
  (fun m => selects (filter_of m) (attributes e)) <$> l = (fun m => Match m (Some e)) <$> l.
Proof.
  intros Hx Hc HF. apply fmap_Forall_eq.
  assert (forallb expressible l = true) as Hx' by (destruct l; [done|by rewrite <- forallb_fmap]).
  rewrite forallb_fmap in Hc. rewrite forallb_forall in Hx', Hc.
  apply Forall_forall. intros m Hm. rewrite Forall_forall in HF.
  apply HF; [done|apply Hx'|apply Hc]; by apply list_elem_of_In.
Qed.

Lemma selects_or l a : selects (joined Or l) a = existsb id ((fun f => selects f a) <$> l).
Proof. destruct l as [|f [|g l]]; [done| |done]. simpl. by rewrite orb_false_r. Qed.

Lemma selects_and l a : selects (joined And l) a = forallb id ((fun f => selects f a) <$> l).
Proof. destruct l as [|f [|g l]]; [done| |done]. simpl. by rewrite andb_true_r. Qed.

Lemma filter_selects m : expressible m = true -> no_clash m = true ->
  selects (filter_of m) (attributes e) = Match m (Some e).
Proof.
  induction m as [ts|ts|l IH|l IH|f] using matcher_ind; intros Hx Hc; [| | | |done]; cbn [filter_of].
  - cbn [Match]. rewrite selects_or, match_events_existsb, <- list_fmap_compose, existsb_fmap.
    simpl in Hc. apply negb_true_iff, bool_decide_eq_false in Hc. clear Hx.
    induction ts as [|t ts IH]; [done|]. cbn [existsb]. rewrite IH by set_solver.
    f_equal. apply has_key_selects. set_solver.
  - cbn [Match]. rewrite selects_or, match_aggregates_existsb, <- list_fmap_compose, existsb_fmap.
    clear Hx Hc. induction ts as [|t ts IH]; [done|]. cbn [existsb]. rewrite IH.
    f_equal. apply key_is_selects.
  - rewrite Match_any, <- existsb_fmap, selects_or, <- list_fmap_compose.
    f_equal. by apply parts_ok.
  - rewrite Match_all, <- forallb_fmap, selects_and, <- list_fmap_compose.
    f_equal. by apply parts_ok.
Qed.

End Selects.

(** C26: the filter is the matcher.  For every matcher the language can express
    (without functions and empty lists), whose names hold no quote or backslash,
    the text [createFilter] gives is read, by the syntax of the filter language,
    as one filter and no other; and that filter selects, by the attributes
    events are published with, exactly the events that match, as long as
    neither an event nor an event type of the matcher is called
    [aggregate_type]. *)
Theorem gcp_filter_selects m :
  expressible m = true -> plain_names m = true -> no_clash m = true ->
  exists f, read_filter (createFilter m) = Some f /\
    forall e, eventType e <> aggregateTypeAttribute -> selects f (attributes e) = Match m (Some e).
Proof.
  intros Hx Hp Hc. exists (filter_of m). split; [|intros e He; by apply filter_selects].
  unfold read_filter. rewrite <- (string_app_empty (createFilter m)) at 2.
  by rewrite createFilter_reads by (done || lia).
Qed.

(** names are not escaped: a type whose name holds quotes is read as two tests.
    The one type below does not match an event of type [a], but its filter
    selects it. *)
Theorem gcp_filter_names_not_escaped :
  let m := MatchEvents ["a" +:+ quote +:+ " OR attributes:" +:+ quote +:+ "b"] in
  forall e, eventType e = "a" ->
  read_filter (createFilter m) = Some (Or [HasKey "a"; HasKey "b"]) /\
  selects (Or [HasKey "a"; HasKey "b"]) (attributes e) = true /\ Match m (Some e) = false.
Proof.
  intros m e He. split; [reflexivity|]. split.
  - simpl. unfold attributes. rewrite He, lookup_insert_eq. reflexivity.
  - simpl. rewrite He. reflexivity.
Qed.

(** what is refused at subscription: a filter of 256 characters or more, before
    the service is asked anything, and a subscription that exists with another
    filter.  In both cases the handler is not registered. *)
Theorem gcp_refuses_filter {X R Msg T Opt} IsNotFound (client : PubSub X R Msg T)
    (b : Bus (Opt := Opt)) ctx m h bs x :
  Handlers.HandlerType h ∉ registered bs ->
  let add := AddHandler IsNotFound client b ctx (Some m) (Some h) (bs, x) in
  (256 <= Z.of_nat (String.length (createFilter m)) -> exists err, add = (Err err, (bs, x))) /\
  (forall cfg x1, GetSubscription client ctx (subName b h) x = (Ok cfg, x1) ->
     Filter cfg <> createFilter m -> exists err x', add = (Err err, (bs, x'))).
Proof.
  intros Hh. cbv zeta. unfold AddHandler.
  assert (forall k : EventMatcher * EventHandler X -> M (RemoteBus.EventBus * X) unit,
    bind (zoom_fst (check_handler (G := consumer (R := R)) (Some m) (Some h))) k (bs, x) = k (m, h) (bs, x)) as Hcheck.
  { intros k. unfold bind, zoom_fst, zoom. cbn [fst snd]. rewrite check_handler_spec.
    by rewrite decide_False by done. }
  rewrite Hcheck. cbn beta iota. split.
  - intros Hl. destruct (Z.leb_spec 256 (Z.of_nat (String.length (createFilter m)))); [by eexists|lia].
  - intros cfg x1 Hg Hne. destruct (_ <=? _); [by do 2 eexists|].
    unfold get_subscription, bind, attempt, zoom_snd, zoom. cbn [fst snd]. rewrite Hg.
    rewrite bool_decide_false by done. by do 2 eexists.
Qed.

(** ** Concrete inputs *)

Definition demo_matcher : EventMatcher :=
  MatchAll [MatchAggregates ["todo"]; MatchAny [MatchEvents ["added"]; MatchEvents ["renamed"]]].

Definition demo_filter : filter :=
  And [KeyIs "aggregate_type" "todo"; Or [HasKey "added"; HasKey "renamed"]].

Lemma gcp_filter_selects_witness :
  createFilter demo_matcher =
    paren (key_is "aggregate_type" "todo") +:+ " AND " +:+
    paren (paren (has_key "added") +:+ " OR " +:+ paren (has_key "renamed")) /\
  read_filter (createFilter demo_matcher) = Some demo_filter /\
  selects demo_filter (attributes (demo_event id1 2)) = Match demo_matcher (Some (demo_event id1 2)) /\
  Match demo_matcher (Some (demo_event id1 2)) = true.
Proof.
  destruct (gcp_filter_selects demo_matcher eq_refl eq_refl eq_refl) as (f & Hf & Hs).
  assert (read_filter (createFilter demo_matcher) = Some demo_filter) as Hd by reflexivity.
  assert (f = demo_filter) as Heq by congruence.
  split; [reflexivity|]. split; [exact Hd|]. split; [|reflexivity].
  rewrite <- Heq. apply Hs. discriminate.
Defined.

Definition demo_client (cfg : Subscription) : PubSub Z unit string unit :=
  mkPubSub (fun _ => ret tt) (fun _ _ => ret tt) (fun _ _ _ => ret tt) (fun _ _ => ret cfg)
    (fun _ _ => ret tt) (fun _ => tt) id (fun _ => ret tt) (fun _ => ret tt) (ret tt) (ret tt).

Lemma gcp_refuses_filter_witness :
  exists err x', AddHandler (Opt := unit) (fun _ => false) (demo_client (mkSubscription "s" "t" 60 "" true 3))
      (mkBus "app" "project" [] None demo_codec) bg (Some demo_matcher)
      (Some (flaky (fun _ => true) id)) (RemoteBus.NewEventBus, 0) =
    (Err err, (RemoteBus.NewEventBus, x')).
Proof.
  refine (proj2 (gcp_refuses_filter (fun _ => false) (demo_client (mkSubscription "s" "t" 60 "" true 3))
    (mkBus "app" "project" [] None demo_codec) bg demo_matcher (flaky (fun _ => true) id)
    RemoteBus.NewEventBus 0 _) _ 0 eq_refl _).
  - intros Hin. inversion Hin.
  - discriminate.
Defined.

End GcpBus.
