(* ===== verification/EventScheduler.v ===== *)
(** * The event scheduler ([middleware/eventhandler/scheduler])

    The goroutines of the scheduler: one for each schedule, which sleeps until
    the next time and then sends an event to every wrapped handler in turn, and
    one for each wrapped handler, which takes what it is sent.  The channels
    have no buffer, so a send and its receive are one step; [step] is any step
    of any of them, [runs] sequences of steps with the deliveries made.

    The cron expressions are a third-party package's: [Parse] and [Next]. *)

From stdpp Require Import base gmap strings list numbers option pretty.
From Stdlib Require Import Lia ZArith.
From S2P Require Import Prelude.
From S2P Require Import GoTypes.
From S2P Require Import Event.
From S2P Require Import Command.
From S2P Require Import Errors.
From S2P Require Import Fixtures.
From S2P Require Import Handlers.
From S2P Require Import RemoteBus.

Module EventScheduler.

Section Scheduler.
Context {X Expr : Type}.
Context (Parse : string -> Expr + error) (Next : Expr -> Time -> Time).

(** What a schedule's goroutine is doing; [todo] are the channels it has still to
    send to, the first of which it is blocked on. *)
Inductive phase : Type :=
| Sleeping (nextTime : Time)
| Sending (nextTime : Time) (todo : list nat)
| Ended.

Record schedule : Type := mkSchedule {
  sch_ctx : context;
  expr : Expr;
  eventFunc : Time -> option event;
  ph : phase
}.

(** A wrapped handler, and whether its goroutine still runs.  Its channel is
    known by its place in the list, as in [eventChs]. *)
Record eventHandler : Type := mkEventHandler {
  inner : EventHandler X;
  running : bool
}.

Record Scheduler : Type := mkScheduler {
  s_err : option ctx_error;
  handlers : list eventHandler;
  schedules : list schedule
}.

Abbreviation St := (Scheduler * X)%type.

Definition NewScheduler : Scheduler := mkScheduler None [] [].

(** The middleware [NewMiddleware] gives: a channel ([newChannel]) and a
    goroutine for the handler. *)
Definition middleware (h : EventHandler X) : M Scheduler unit :=
  modify (fun s => mkScheduler (s_err s) (handlers s ++ [mkEventHandler h true]) (schedules s)).

Definition ScheduleEvent (now : Time) (ctx : context) (cronLine : string)
    (eventFunc : Time -> option event) : M Scheduler unit :=
  let! s := gets (fun s => s) in
  match s_err s with
  | Some err => throw (Sentinel (CtxErr err))
  | None =>
      match Parse cronLine with
      | inr err => throw err
      | inl expr =>
          modify (fun s => mkScheduler (s_err s) (handlers s)
            (schedules s ++ [mkSchedule ctx expr eventFunc (Sleeping (Next expr now))]))
      end
  end.

(** ** Steps *)

Definition set_phase (p : phase) (sc : schedule) : schedule :=
  mkSchedule (sch_ctx sc) (expr sc) (eventFunc sc) p.

Definition set_schedule (j : nat) (sc : schedule) (s : Scheduler) : Scheduler :=
  mkScheduler (s_err s) (handlers s) (<[j := sc]> (schedules s)).

Definition set_running (i : nat) (r : bool) (s : Scheduler) : Scheduler :=
  mkScheduler (s_err s) (alter (fun h => mkEventHandler (inner h) r) i (handlers s)) (schedules s).

(** After the last channel, the loop looks for the next time. *)
Definition sent (now : Time) (sc : schedule) (t : Time) (todo : list nat) : schedule :=
  set_phase (match todo with [] => Sleeping (Next (expr sc) now) | _ :: _ => Sending t todo end) sc.

Inductive label : Type :=
| Fire (j : nat) (now : Time)
| Deliver (j : nat) (now : Time)
| EndSchedule (j : nat)
| EndHandler (i : nat)
| Stop (err : ctx_error)
| Wrap (h : EventHandler X)
| Schedule (sc : schedule).

(** A delivery: the schedule, the handler and the time it is for. *)
Record delivery : Type := mkDelivery { by_ : nat; to : nat; at_ : Time }.

(** One step, if it is possible.  A schedule ends while it sleeps, when its
    context or the scheduler's is done; a handler's goroutine when it is not
    handling an event. *)
Definition step (l : label) (st : St) : option (list delivery * St) :=
  let '(s, x) := st in
  match l with
  | Fire j now =>
      match schedules s !! j with
      | Some sc =>
          match ph sc with
          | Sleeping t =>
              if t <=? now
              then Some ([], (set_schedule j (sent now sc t (seq 0 (length (handlers s)))) s, x))
              else None
          | _ => None
          end
      | None => None
      end
  | Deliver j now =>
      match schedules s !! j with
      | Some sc =>
          match ph sc with
          | Sending t (i :: todo) =>
              match handlers s !! i with
              | Some h =>
                  if running h then
                    let s' := set_schedule j (sent now sc t todo) s in
                    match HandleEvent (inner h) (sch_ctx sc) (eventFunc sc t) x with
                    | (Ok _, x') => Some ([mkDelivery j i t], (s', x'))
                    | (Err _, x') => Some ([mkDelivery j i t], (set_running i false s', x'))
                    | (Panic _, _) => None
                    end
                  else None
              | None => None
              end
          | _ => None
          end
      | None => None
      end
  | EndSchedule j =>
      match schedules s !! j with
      | Some sc =>
          match ph sc with
          | Sleeping _ => Some ([], (set_schedule j (set_phase Ended sc) s, x))
          | _ => None
          end
      | None => None
      end
  | EndHandler i => Some ([], (set_running i false s, x))
  | Stop err => Some ([], (mkScheduler (Some err) (handlers s) (schedules s), x))
  | Wrap h => Some ([], ((middleware h s).2, x))
  | Schedule sc =>
      match ph sc with
      | Sleeping _ => Some ([], (mkScheduler (s_err s) (handlers s) (schedules s ++ [sc]), x))
      | _ => None
      end
  end.

Fixpoint runs (ls : list label) (st : St) : option (list delivery * St) :=
  match ls with
  | [] => Some ([], st)
  | l :: ls' =>
      match step l st with
      | Some (ds, st1) =>
          match runs ls' st1 with
          | Some (ds', st2) => Some (ds ++ ds', st2)
          | None => None
          end
      | None => None
      end
  end.

(** ** What a step does to one schedule *)

Definition deliveries_of (j : nat) (ds : list delivery) : list delivery :=
  filter (fun d => by_ d = j) ds.

(** The phases of one schedule, with what it delivers to the handlers [hs]. *)
Inductive moves (j : nat) (hs : list eventHandler) : phase -> list delivery -> phase -> Prop :=
| moves_stay p : moves j hs p [] p
| moves_end t : moves j hs (Sleeping t) [] Ended
| moves_fire t t' :
    moves j hs (Sleeping t) []
      (match seq 0 (length hs) with [] => Sleeping t' | _ => Sending t (seq 0 (length hs)) end)
| moves_deliver t t' i todo h :
    hs !! i = Some h -> running h = true ->
    moves j hs (Sending t (i :: todo)) [mkDelivery j i t]
      (match todo with [] => Sleeping t' | _ => Sending t todo end).

Lemma step_handlers l s x ds s' x' i h :
  step l (s, x) = Some (ds, (s', x')) -> handlers s !! i = Some h -> running h = false ->
  exists h', handlers s' !! i = Some h' /\ running h' = false.
Proof.
  intros Hs Hh Hr.
  assert (forall k, exists h', alter (fun h => mkEventHandler (inner h) false) k (handlers s) !! i = Some h' /\
    running h' = false) as Halter.
  { intros k. destruct (decide (k = i)) as [->|Hne].
    - rewrite list_lookup_alter_eq, Hh. by eexists.
    - rewrite list_lookup_alter_ne by done. by exists h. }
  destruct l; simpl in Hs; repeat case_match; simplify_eq/=; try (by exists h); try apply Halter.
  exists h. split; [by apply lookup_app_l_Some|done].
Qed.

Lemma set_lookup j k sc (s : Scheduler) sck :
  schedules s !! j = Some sck -> schedules (set_schedule k sc s) !! j = Some (if decide (k = j) then sc else sck).
Proof.
  intros Hj. unfold set_schedule. simpl. case_decide as Hk.
  - subst k. apply list_lookup_insert_eq. by eapply lookup_lt_Some.
  - by rewrite list_lookup_insert_ne.
Qed.

Lemma step_schedule l s x ds s' x' j sc :
  step l (s, x) = Some (ds, (s', x')) -> schedules s !! j = Some sc ->
  exists sc', schedules s' !! j = Some sc' /\
    moves j (handlers s) (ph sc) (deliveries_of j ds) (ph sc').
Proof.
  intros Hs Hj.
  assert (forall k sck scn d, schedules s !! k = Some sck ->
    moves k (handlers s) (ph sck) d (ph scn) -> Forall (fun e => by_ e = k) d ->
    exists sc', schedules (set_schedule k scn s) !! j = Some sc' /\
      moves j (handlers s) (ph sc) (deliveries_of j d) (ph sc')) as Hset.
  { intros k sck scn d Hk Hm Hd. rewrite (set_lookup _ _ _ _ _ Hj). case_decide as Hkj.
    - subst k. rewrite Hj in Hk. injection Hk as ->. eexists. split; [done|].
      unfold deliveries_of. by rewrite filter_all.
    - exists sc. split; [done|]. replace (deliveries_of j d) with (@nil delivery); [constructor|].
      symmetry. apply filter_none. eapply Forall_impl; [exact Hd|]. simpl. congruence. }
  destruct l as [k now|k now|k|k|err|h|scn]; simpl in Hs.
  - destruct (schedules s !! k) as [sck|] eqn:Hk; [|done].
    destruct (ph sck) as [t| |] eqn:Hp; [|done..]. case_match; [|done]. injection Hs as <- <- <-.
    apply (Hset k sck); [done| |constructor]. rewrite Hp. apply (moves_fire _ _ _ (Next (expr sck) now)).
  - destruct (schedules s !! k) as [sck|] eqn:Hk; [|done].
    destruct (ph sck) as [|t [|i todo]|] eqn:Hp; [done..| |done].
    destruct (handlers s !! i) as [h|] eqn:Hi; [|done]. destruct (running h) eqn:Hrun; [|done].
    destruct (HandleEvent (inner h) (sch_ctx sck) (eventFunc sck t) x) as [[u|e|p] x1]; [| |done];
      injection Hs as <- <- <-; (apply (Hset k sck); [done| |by repeat constructor]);
      rewrite Hp; by apply (moves_deliver _ _ _ (Next (expr sck) now) _ _ h).
  - destruct (schedules s !! k) as [sck|] eqn:Hk; [|done].
    destruct (ph sck) as [t| |] eqn:Hp; [|done..]. injection Hs as <- <- <-.
    apply (Hset k sck); [done| |constructor]. rewrite Hp. constructor.
  - injection Hs as <- <- <-. exists sc. split; [done|constructor].
  - injection Hs as <- <- <-. exists sc. split; [done|constructor].
  - injection Hs as <- <- <-. exists sc. split; [done|constructor].
  - destruct (ph scn); [|done..]. injection Hs as <- <- <-. exists sc.
    split; [by apply lookup_app_l_Some|constructor].
Qed.

(** ** Rounds *)

Definition round (j : nat) (r : Time * nat) : list delivery :=
  (fun i => mkDelivery j i r.1) <$> seq 0 r.2.

(** The deliveries since the last complete round; rounds are sent to [lo] handlers
    at least. *)
Definition partial (lo j : nat) (p : phase) (ds : list delivery) : Prop :=
  match p with
  | Sending t todo => exists a m, todo = seq a (S m) /\ (lo <= a + S m)%nat /\ ds = round j (t, a)
  | _ => ds = []
  end.

Lemma round_next j t a : round j (t, a) ++ [mkDelivery j a t] = round j (t, S a).
Proof. unfold round. cbn [fst snd]. by rewrite seq_S, fmap_app. Qed.

Lemma moves_partial lo j hs p d p' pre :
  moves j hs p d p' -> (lo <= length hs)%nat -> partial lo j p pre ->
  exists rs rest, pre ++ d = concat (round j <$> rs) ++ rest /\
    Forall (fun r => (lo <= r.2)%nat) rs /\ partial lo j p' rest.
Proof.
  intros Hm Hlo Hpre. destruct Hm as [p|t|t t'|t t' i todo h _ _].
  - exists [], pre. by rewrite app_nil_r.
  - exists [], []. simpl in Hpre. by subst.
  - exists [], []. simpl in Hpre. subst. split; [done|]. split; [done|].
    destruct (length hs) as [|n]; [done|]. by exists 0%nat, n.
  - destruct Hpre as (a & m & Hseq & Ha & ->). injection Hseq as -> ->. rewrite round_next.
    destruct m as [|m]; [exists [(t, S a)], []|exists [], (round j (t, S a))]; simpl.
    + rewrite !app_nil_r. split; [done|]. split; [|done]. constructor; [simpl; lia|done].
    + split; [done|]. split; [done|]. exists (S a), m. split; [done|]. split; [lia|done].
Qed.

Lemma step_length l s x ds s' x' :
  step l (s, x) = Some (ds, (s', x')) -> (length (handlers s) <= length (handlers s'))%nat.
Proof.
  intros Hs. destruct l; simpl in Hs; repeat case_match; simplify_eq/=;
    rewrite ?length_alter, ?length_app; simpl; lia.
Qed.

(** An invariant of one schedule and what it delivered, along a run. *)
Lemma runs_schedule (I : list eventHandler -> phase -> list delivery -> Prop) j ls st ds st' sc pre :
  (forall l s x d s' x' p p' pre, step l (s, x) = Some (d, (s', x')) ->
     moves j (handlers s) p (deliveries_of j d) p' -> I (handlers s) p pre ->
     I (handlers s') p' (pre ++ deliveries_of j d)) ->
  schedules st.1 !! j = Some sc -> I (handlers st.1) (ph sc) pre -> runs ls st = Some (ds, st') ->
  exists sc', schedules st'.1 !! j = Some sc' /\
    I (handlers st'.1) (ph sc') (pre ++ deliveries_of j ds).
Proof.
  intros Hstep. revert st sc ds pre. induction ls as [|l ls IH]; intros [s x] sc ds pre Hj HI Hruns;
    cbn [runs] in Hruns.
  - injection Hruns as <- <-. exists sc. split; [done|]. by rewrite app_nil_r.
  - destruct (step l (s, x)) as [[d [s1 x1]]|] eqn:Hs; [|done].
    destruct (runs ls (s1, x1)) as [[ds' st2]|] eqn:Hr; [|done]. injection Hruns as <- <-.
    destruct (step_schedule _ _ _ _ _ _ _ _ Hs Hj) as (sc1 & Hj1 & Hm).
    unfold deliveries_of. rewrite filter_app, app_assoc.
    apply (IH (s1, x1) sc1 ds'); [done| |done]. by apply (Hstep _ _ _ _ _ _ _ _ _ Hs Hm).
Qed.

(** C31: every firing is sent to every handler.  What a schedule delivers is rounds: in
    each, one event for one time to all the handlers there are, in the order
    they were wrapped; the last round may be incomplete. *)
Theorem schedule_delivers_rounds j ls st ds st' sc t :
  schedules st.1 !! j = Some sc -> ph sc = Sleeping t -> runs ls st = Some (ds, st') ->
  let lo := length (handlers st.1) in
  exists rs rest sc', deliveries_of j ds = concat (round j <$> rs) ++ rest /\
    Forall (fun r => (lo <= r.2)%nat) rs /\
    schedules st'.1 !! j = Some sc' /\ partial lo j (ph sc') rest.
Proof.
  intros Hj Ht Hruns lo.
  destruct (runs_schedule (fun hs p pre => (lo <= length hs)%nat /\
    exists rs rest, pre = concat (round j <$> rs) ++ rest /\
      Forall (fun r => (lo <= r.2)%nat) rs /\ partial lo j p rest) j ls st ds st' sc [])
    as (sc' & Hj' & _ & rs & rest & Heq & Hrs & Hp); [|done| |done|by exists rs, rest, sc'].
  - intros l s x d s' x' p p' pre Hs Hm (Hlo & rs & rest & -> & Hrs & Hp).
    apply step_length in Hs. split; [lia|].
    destruct (moves_partial _ _ _ _ _ _ _ Hm Hlo Hp) as (rs' & rest' & Heq & Hrs' & Hp').
    exists (rs ++ rs'), rest'. rewrite fmap_app, concat_app, <- !app_assoc, Heq.
    split; [done|]. split; [by apply Forall_app|done].
  - split; [done|]. exists [], []. rewrite Ht. done.
Qed.

(** A schedule that cannot get past handler [i]. *)
Definition blocked (i j : nat) (p : phase) (ds : list delivery) : Prop :=
  match p with
  | Sending t todo => exists a m, todo = seq a (S m) /\ (a <= i < a + S m)%nat /\ ds = round j (t, a)
  | _ => ds = []
  end.

Lemma moves_blocked i j hs h p d p' pre :
  moves j hs p d p' -> hs !! i = Some h -> running h = false -> blocked i j p pre ->
  blocked i j p' (pre ++ d).
Proof.
  intros Hm Hi Hr Hb. destruct Hm as [p|t|t t'|t t' k todo hk Hk Hrk].
  - by rewrite app_nil_r.
  - simpl in *. by subst.
  - simpl in Hb. subst. apply lookup_lt_Some in Hi. destruct (length hs) as [|n]; [lia|].
    exists 0%nat, n. split; [done|]. split; [lia|done].
  - destruct Hb as (a & m & Hseq & Ha & ->). injection Hseq as -> ->. rewrite round_next.
    assert (a <> i) by congruence. destruct m as [|m]; [lia|].
    exists (S a), m. split; [done|]. split; [lia|done].
Qed.

(** one handler that fails ends it for all.  The goroutine of a handler returns at
    the handler's first error; from then on every schedule that was asleep sends
    one more event to each of the handlers wrapped before it, at most, and none to
    those wrapped after: it waits for the one that is gone, and neither its
    context nor the scheduler's ends it. *)
Theorem failed_handler_blocks_schedules i h j sc t ls st ds st' :
  handlers st.1 !! i = Some h -> running h = false ->
  schedules st.1 !! j = Some sc -> ph sc = Sleeping t -> runs ls st = Some (ds, st') ->
  exists t' a, (a <= i)%nat /\ deliveries_of j ds = round j (t', a).
Proof.
  intros Hi Hr Hj Ht Hruns.
  destruct (runs_schedule (fun hs p pre => (exists h, hs !! i = Some h /\ running h = false) /\
    blocked i j p pre) j ls st ds st' sc []) as (sc' & _ & _ & Hb); [| done| |done|].
  - intros l s x d s' x' p p' pre Hs Hm ((h' & Hi' & Hr') & Hb).
    split; [by eapply step_handlers|]. by eapply moves_blocked.
  - split; [by exists h|]. by rewrite Ht.
  - simpl in Hb. destruct (ph sc') as [t'|t' todo|]; [exists t', 0%nat| |exists t, 0%nat].
    + split; [lia|done].
    + destruct Hb as (a & m & _ & Ha & ->). exists t', a. split; [lia|done].
    + split; [lia|done].
Qed.

(** A goroutine returns at the first error of its handler. *)
Lemma error_ends_handler j now s x i t todo sc h err x' :
  schedules s !! j = Some sc -> ph sc = Sending t (i :: todo) ->
  handlers s !! i = Some h -> running h = true ->
  HandleEvent (inner h) (sch_ctx sc) (eventFunc sc t) x = (Err err, x') ->
  exists s', step (Deliver j now) (s, x) = Some ([mkDelivery j i t], (s', x')) /\
    handlers s' !! i = Some (mkEventHandler (inner h) false).
Proof.
  intros Hj Hp Hi Hr He. simpl. rewrite Hj, Hp, Hi, Hr, He. eexists. split; [done|].
  simpl. by rewrite list_lookup_alter_eq, Hi.
Qed.

End Scheduler.

(** ** Concrete inputs: two handlers, of which the first fails at its second
    event; one schedule, every ten units of time *)

Definition demo_Next (e : unit) (t : Time) : Time := (t / 10 + 1) * 10.

Definition demo_sched (first : bool) : Scheduler (X := Z) (Expr := unit) :=
  mkScheduler None
    [mkEventHandler (RemoteBus.flaky (fun n => 2 <=? n) Z.succ) first; mkEventHandler (RemoteBus.flaky (fun _ => false) Z.succ) true]
    [mkSchedule bg tt (fun t => Some (demo_event id1 t)) (Sleeping 10)].

Definition demo_labels : list (label (X := Z) (Expr := unit)) :=
  [Fire 0 10; Deliver 0 10; Deliver 0 11; Fire 0 20; Deliver 0 20].

Definition demo_deliveries : list delivery := [mkDelivery 0 0 10; mkDelivery 0 1 10; mkDelivery 0 0 20].

Lemma schedule_delivers_rounds_witness :
  exists st', runs demo_Next demo_labels (demo_sched true, 0) = Some (demo_deliveries, st') /\
    exists rs rest sc', deliveries_of 0 demo_deliveries = concat (round 0 <$> rs) ++ rest /\
    Forall (fun r => (2 <= r.2)%nat) rs /\ schedules st'.1 !! 0%nat = Some sc' /\
    partial 2 0 (ph sc') rest.
Proof.
  eexists. split; [reflexivity|].
  eapply (schedule_delivers_rounds demo_Next 0 demo_labels (demo_sched true, 0) demo_deliveries).
  - reflexivity.
  - reflexivity.
  - reflexivity.
Defined.

Lemma failed_handler_blocks_schedules_witness :
  exists st', runs demo_Next [Fire 0 10] (demo_sched false, 0) = Some ([], st') /\
    exists t a, (a <= 0)%nat /\ deliveries_of 0 [] = round 0 (t, a).
Proof.
  eexists. split; [reflexivity|].
  eapply (failed_handler_blocks_schedules demo_Next 0 (mkEventHandler (RemoteBus.flaky (fun n => 2 <=? n) Z.succ) false)
    0 _ 10 [Fire 0 10] (demo_sched false, 0) []).
  - reflexivity.
  - reflexivity.
  - reflexivity.
  - reflexivity.
  - reflexivity.
Defined.

End EventScheduler.
