(* ===== verification/Todo.v ===== *)
(** * The todo list domain ([examples/todomvc/backend/domains/todo])

    A complete client of the library: commands, events, the aggregate, the
    read model and its projector.  [effect] is the specification of the
    commands on the list itself; the theorems show that handling a command
    and applying the events it emits is [effect], on the write side and,
    through the projector, on the read side. *)

From stdpp Require Import base gmap strings list numbers option pretty.
From Stdlib Require Import Lia ZArith.
From S2P Require Import Prelude.
From S2P Require Import GoTypes.
From S2P Require Import Event.
From S2P Require Import Command.
From S2P Require Import Errors.
From S2P Require Import Fixtures.
From S2P Require Import CommandCheck.
From S2P Require Import EventStoreSpec.
From S2P Require Import ErrorText.
From S2P Require Import AggregateBase.
From S2P Require Import AggregateStore.
From S2P Require Import MemStore.
From S2P Require Import CommandHandler.
From S2P Require Import Context.
From S2P Require Import Repo.
From S2P Require Import Projector.
From S2P Require Import DomainModel.

Module Todo.

Definition AggregateType : string := "todolist".

(** ** Commands ([commands.go]) *)

Inductive Command : Type :=
| Create
| Delete
| AddItem (Description : string)
| RemoveItem (ItemID : Z)
| RemoveCompletedItems
| SetItemDescription (ItemID : Z) (Description : string)
| CheckItem (ItemID : Z) (Checked : bool)
| CheckAllItems (Checked : bool).

Definition CommandType (c : Command) : string :=
  match c with
  | Create => "todolist:create"
  | Delete => "todolist:delete"
  | AddItem _ => "todolist:add_item"
  | RemoveItem _ => "todolist:remove_item"
  | RemoveCompletedItems => "todolist:remove_completed_items"
  | SetItemDescription _ _ => "todolist:set_item_description"
  | CheckItem _ _ => "todolist:check_item"
  | CheckAllItems _ => "todolist:check_all_items"
  end.

(** The struct a command is a pointer to: Go type name and fields. *)
Definition struct_of (id : UUID) (c : Command) : any :=
  match c with
  | Create => AStruct "Create" [("ID", AUUID id)]
  | Delete => AStruct "Delete" [("ID", AUUID id)]
  | AddItem d => AStruct "AddItem" [("ID", AUUID id); ("Description", AString d)]
  | RemoveItem i => AStruct "RemoveItem" [("ID", AUUID id); ("ItemID", AInt i)]
  | RemoveCompletedItems => AStruct "RemoveCompletedItems" [("ID", AUUID id)]
  | SetItemDescription i d =>
      AStruct "SetItemDescription" [("ID", AUUID id); ("ItemID", AInt i); ("Description", AString d)]
  | CheckItem i b => AStruct "CheckItem" [("ID", AUUID id); ("ItemID", AInt i); ("Checked", ABool b)]
  | CheckAllItems b => AStruct "CheckAllItems" [("ID", AUUID id); ("Checked", ABool b)]
  end.

(** The cases of [switch cmd := cmd.(type)]. *)
Definition type_switch (v : any) : option Command :=
  match v with
  | AStruct ty fs =>
      let desc := as_string (struct_field "Description" fs) in
      let item := as_int (struct_field "ItemID" fs) in
      let checked := as_bool (struct_field "Checked" fs) in
      if bool_decide (ty = "Create") then Some Create
      else if bool_decide (ty = "Delete") then Some Delete
      else if bool_decide (ty = "AddItem") then AddItem <$> desc
      else if bool_decide (ty = "RemoveItem") then RemoveItem <$> item
      else if bool_decide (ty = "RemoveCompletedItems") then Some RemoveCompletedItems
      else if bool_decide (ty = "SetItemDescription") then
        item ≫= fun i => SetItemDescription i <$> desc
      else if bool_decide (ty = "CheckItem") then item ≫= fun i => CheckItem i <$> checked
      else if bool_decide (ty = "CheckAllItems") then CheckAllItems <$> checked
      else None
  | _ => None
  end.

(** The reflected fields of the struct, for [CheckCommand]. *)
Definition rvalue_of (v : any) : rvalue :=
  match v with
  | AUUID u => RUUID u
  | AString s => RString s
  | _ => RValueType
  end.

Definition reflect_fields (v : any) : list field :=
  match v with
  | AStruct _ fs => (fun '(n, x) => mkField n "" "" None (rvalue_of x)) <$> fs
  | _ => []
  end.

Definition command_of (id : UUID) (c : Command) : command :=
  mkCommand id AggregateType (CommandType c) None
    (reflect_fields (struct_of id c)) (struct_of id c).

(** ** Events ([events.go]) *)

Definition Created : string := "todolist:created".
Definition Deleted : string := "todolist:deleted".
Definition ItemAdded : string := "todolist:item_added".
Definition ItemRemoved : string := "todolist:item_removed".
Definition ItemDescriptionSet : string := "todolist:item_description_set".
Definition ItemChecked : string := "todolist:item_checked".

Definition ItemAddedData (i : Z) (d : string) : any :=
  AStruct "ItemAddedData" [("ItemID", AInt i); ("Description", AString d)].
Definition ItemRemovedData (i : Z) : any := AStruct "ItemRemovedData" [("ItemID", AInt i)].
Definition ItemDescriptionSetData (i : Z) (d : string) : any :=
  AStruct "ItemDescriptionSetData" [("ItemID", AInt i); ("Description", AString d)].
Definition ItemCheckedData (i : Z) (b : bool) : any :=
  AStruct "ItemCheckedData" [("ItemID", AInt i); ("Checked", ABool b)].

(** [event.Data().( *ItemAddedData)] and so on: the fields of a struct of the
    named type. *)
Definition struct_fields (ty : string) (v : any) : option (list (string * any)) :=
  match v with
  | AStruct ty' fs => if bool_decide (ty = ty') then Some fs else None
  | _ => None
  end.
Definition as_ItemAddedData (v : any) : option (Z * string) :=
  fs ← struct_fields "ItemAddedData" v;
  i ← as_int (struct_field "ItemID" fs);
  d ← as_string (struct_field "Description" fs); Some (i, d).
Definition as_ItemRemovedData (v : any) : option Z :=
  fs ← struct_fields "ItemRemovedData" v; as_int (struct_field "ItemID" fs).
Definition as_ItemDescriptionSetData (v : any) : option (Z * string) :=
  fs ← struct_fields "ItemDescriptionSetData" v;
  i ← as_int (struct_field "ItemID" fs);
  d ← as_string (struct_field "Description" fs); Some (i, d).
Definition as_ItemCheckedData (v : any) : option (Z * bool) :=
  fs ← struct_fields "ItemCheckedData" v;
  i ← as_int (struct_field "ItemID" fs);
  b ← as_bool (struct_field "Checked" fs); Some (i, b).

(** What [init] registers. *)
Definition factories : gmap string (unit -> any) :=
  <[ItemAdded := fun _ => ItemAddedData 0 ""]>
  (<[ItemRemoved := fun _ => ItemRemovedData 0]>
  (<[ItemDescriptionSet := fun _ => ItemDescriptionSetData 0 ""]>
  (<[ItemChecked := fun _ => ItemCheckedData 0 false]> ∅))).

(** ** The aggregate ([model.go], [aggregate.go]) *)

Record TodoItem : Type := mkItem {
  ID : Z;
  Description : string;
  Completed : bool
}.

Record Aggregate : Type := mkAggregate {
  created : bool;
  nextItemID : Z;
  items : list TodoItem
}.

Definition NewAggregate : Aggregate := mkAggregate false 0 [].

Definition set_created (b : bool) (a : Aggregate) : Aggregate :=
  mkAggregate b (nextItemID a) (items a).

Definition set_items (l : list TodoItem) (a : Aggregate) : Aggregate :=
  mkAggregate (created a) (nextItemID a) l.

(** [append(items[:i], items[i+1:]...)] at the first item with the ID. *)
Fixpoint remove_item (i : Z) (l : list TodoItem) : list TodoItem :=
  match l with
  | [] => []
  | x :: l' => if ID x =? i then l' else x :: remove_item i l'
  end.

(** The loops that assign a field of every item with the ID. *)
Definition update_item (f : TodoItem -> TodoItem) (i : Z) (l : list TodoItem) : list TodoItem :=
  (fun x => if ID x =? i then f x else x) <$> l.

Definition set_Description (d : string) (x : TodoItem) : TodoItem :=
  mkItem (ID x) d (Completed x).

Definition set_Completed (b : bool) (x : TodoItem) : TodoItem :=
  mkItem (ID x) (Description x) b.

Definition describe_item (i : Z) (d : string) : list TodoItem -> list TodoItem :=
  update_item (set_Description d) i.

Definition check_item (i : Z) (b : bool) : list TodoItem -> list TodoItem :=
  update_item (set_Completed b) i.

(** The search loops: the first item with the ID. *)
Fixpoint find_item (i : Z) (l : list TodoItem) : option TodoItem :=
  match l with
  | [] => None
  | x :: l' => if ID x =? i then Some x else find_item i l'
  end.

Definition invalid_data : error := ErrorString "invalid event data".

Definition ApplyEvent (ctx : context) (e : event) (a : Aggregate)
  : Aggregate * option error :=
  if bool_decide (eventType e = Created) then (set_created true a, None)
  else if bool_decide (eventType e = Deleted) then (set_created false a, None)
  else if bool_decide (eventType e = ItemAdded) then
    match as_ItemAddedData (data e) with
    | None => (a, Some invalid_data)
    | Some (i, d) =>
        (mkAggregate (created a) (iadd (nextItemID a) 1)
           (items a ++ [mkItem i d false]), None)
    end
  else if bool_decide (eventType e = ItemRemoved) then
    match as_ItemRemovedData (data e) with
    | None => (a, Some invalid_data)
    | Some i => (set_items (remove_item i (items a)) a, None)
    end
  else if bool_decide (eventType e = ItemDescriptionSet) then
    match as_ItemDescriptionSetData (data e) with
    | None => (a, Some invalid_data)
    | Some (i, d) => (set_items (describe_item i d (items a)) a, None)
    end
  else if bool_decide (eventType e = ItemChecked) then
    match as_ItemCheckedData (data e) with
    | None => (a, Some invalid_data)
    | Some (i, b) => (set_items (check_item i b (items a)) a, None)
    end
  else (a, Some (ErrorString ("could not apply event: " +:+ eventType e))).

Section HandleCommand.
(** [TimeNow]: the time the [k]-th call made while handling a command gives. *)
Context (TimeNow : nat -> Time).

Abbreviation append_event := (append_event TimeNow).
Abbreviation handling := (handling (D := Aggregate)).

Definition not_found (i : Z) : error :=
  ErrorString ("item does not exist: " +:+ pretty i).

(** The loops over [a.items] of [RemoveCompletedItems] and [CheckAllItems]. *)
Fixpoint append_removed (l : list TodoItem) (st : handling) : handling :=
  match l with
  | [] => st
  | x :: l' =>
      append_removed l'
        (if Completed x then append_event ItemRemoved (ItemRemovedData (ID x)) st else st)
  end.

Fixpoint append_checked (b : bool) (l : list TodoItem) (st : handling) : handling :=
  match l with
  | [] => st
  | x :: l' =>
      append_checked b l'
        (if negb (Bool.eqb (Completed x) b)
         then append_event ItemChecked (ItemCheckedData (ID x) b) st else st)
  end.

(** The first switch: may the command run at all? *)
Definition guard (c : option Command) (a : Aggregate) : option error :=
  match c with
  | Some Create => if created a then Some (ErrorString "already created") else None
  | _ => if negb (created a) then Some (ErrorString "not created") else None
  end.

(** The second switch. *)
Definition dispatch (ct : string) (c : option Command) (a : agg Aggregate)
  : handling * option error :=
  let st : handling := (0%nat, a) in
  let l := items (agg_dom a) in
  match c with
  | Some Create => (append_event Created ANil st, None)
  | Some Delete => (append_event Deleted ANil st, None)
  | Some (AddItem d) =>
      (append_event ItemAdded (ItemAddedData (nextItemID (agg_dom a)) d) st, None)
  | Some (RemoveItem i) =>
      match find_item i l with
      | None => (st, Some (not_found i))
      | Some _ => (append_event ItemRemoved (ItemRemovedData i) st, None)
      end
  | Some RemoveCompletedItems => (append_removed l st, None)
  | Some (SetItemDescription i d) =>
      match find_item i l with
      | None => (st, Some (not_found i))
      | Some x =>
          if bool_decide (Description x = d) then (st, None)
          else (append_event ItemDescriptionSet (ItemDescriptionSetData i d) st, None)
      end
  | Some (CheckItem i b) =>
      match find_item i l with
      | None => (st, Some (not_found i))
      | Some x =>
          if Bool.eqb (Completed x) b then (st, None)
          else (append_event ItemChecked (ItemCheckedData i b) st, None)
      end
  | Some (CheckAllItems b) => (append_checked b l st, None)
  | None => (st, Some (ErrorString ("could not handle command: " +:+ ct)))
  end.

Definition HandleCommand (ctx : context) (cmd : command) (a : agg Aggregate)
  : agg Aggregate * option error :=
  let c := type_switch (dyn cmd) in
  match guard c (agg_dom a) with
  | Some err => (a, Some err)
  | None => let '((_, a'), err) := dispatch (Command.CommandType cmd) c a in (a', err)
  end.

End HandleCommand.

(** ** What the commands are for: their effect on the list *)

Definition effect (c : Command) (a : Aggregate) : Aggregate :=
  match c with
  | Create => set_created true a
  | Delete => set_created false a
  | AddItem d =>
      mkAggregate (created a) (nextItemID a + 1)
        (items a ++ [mkItem (nextItemID a) d false])
  | RemoveItem i => set_items (filter (fun x => ID x <> i) (items a)) a
  | RemoveCompletedItems => set_items (filter (fun x => Completed x = false) (items a)) a
  | SetItemDescription i d => set_items (describe_item i d (items a)) a
  | CheckItem i b => set_items (check_item i b (items a)) a
  | CheckAllItems b => set_items (set_Completed b <$> items a) a
  end.

Definition has_item (i : Z) (a : Aggregate) : Prop := i ∈ (ID <$> items a).

(** When a command is accepted. *)
Definition allowed (c : Command) (a : Aggregate) : Prop :=
  match c with
  | Create => created a = false
  | RemoveItem i | SetItemDescription i _ | CheckItem i _ => created a = true /\ has_item i a
  | _ => created a = true
  end.

#[export] Instance allowed_dec c a : Decision (allowed c a).
Proof. unfold allowed, has_item. destruct c; apply _. Defined.

(** The list invariant: item IDs are distinct and were all handed out. *)
Definition items_ok (a : Aggregate) : Prop :=
  NoDup (ID <$> items a) /\ Forall (fun x => 0 <= ID x < nextItemID a) (items a).

Lemma type_switch_struct_of id c : type_switch (struct_of id c) = Some c.
Proof. by destruct c. Qed.

Lemma find_item_spec i l :
  match find_item i l with
  | Some x => exists pre post, l = pre ++ x :: post /\ ID x = i /\ i ∉ (ID <$> pre)
  | None => i ∉ (ID <$> l)
  end.
Proof.
  induction l as [|y l IH]; simpl; [set_solver|].
  destruct (Z.eqb_spec (ID y) i) as [Hy|Hy].
  - exists [], l. set_solver.
  - destruct (find_item i l).
    + destruct IH as (pre & post & -> & ? & ?). exists (y :: pre), post. set_solver.
    + set_solver.
Qed.

(** ** The write side *)

Section WriteSide.
Context (TimeNow : nat -> Time).

#[local] Instance todo_Domain : Domain Aggregate := {
  dom_ApplyEvent := ApplyEvent;
  dom_HandleCommand := HandleCommand TimeNow
}.

#[local] Instance todo_AppliesBySig : AppliesBySig Aggregate.
Proof. by split. Qed.

(** *** Emitted events, by type and data *)

Definition removed_sigs (l : list TodoItem) : list sig :=
  (fun x => (ItemRemoved, ItemRemovedData (ID x))) <$> filter (fun x => Completed x = true) l.

Definition checked_sigs (b : bool) (l : list TodoItem) : list sig :=
  (fun x => (ItemChecked, ItemCheckedData (ID x) b)) <$> filter (fun x => Completed x <> b) l.

Lemma append_removed_emits a sigs st l :
  base_ok (agg_base a) -> emits a sigs st -> room (len sigs + len l + 1) a ->
  emits a (sigs ++ removed_sigs l) (append_removed TimeNow l st).
Proof.
  intros Hb. revert sigs st. induction l as [|x l IH]; intros sigs st He Hr.
  - by rewrite app_nil_r.
  - rewrite len_cons in Hr. pose proof (len_nonneg l). pose proof (len_nonneg sigs).
    simpl. unfold removed_sigs. destruct (Completed x) eqn:Hx.
    + rewrite filter_cons_True by done. rewrite fmap_cons, app_cons_snoc. apply IH.
      * apply append_event_emits; [done|]. eapply room_le; [done..|lia].
      * eapply room_le; [done..|]. int_lia.
    + rewrite filter_cons_False by congruence. apply IH; [done|].
      eapply room_le; [done..|lia].
Qed.

Lemma append_checked_emits a sigs st b l :
  base_ok (agg_base a) -> emits a sigs st -> room (len sigs + len l + 1) a ->
  emits a (sigs ++ checked_sigs b l) (append_checked TimeNow b l st).
Proof.
  intros Hb. revert sigs st. induction l as [|x l IH]; intros sigs st He Hr.
  - by rewrite app_nil_r.
  - rewrite len_cons in Hr. pose proof (len_nonneg l). pose proof (len_nonneg sigs).
    simpl. unfold checked_sigs. destruct (Bool.eqb (Completed x) b) eqn:Hx; simpl.
    + apply Bool.eqb_prop in Hx. rewrite filter_cons_False by tauto. apply IH; [done|].
      eapply room_le; [done..|lia].
    + apply Bool.eqb_false_iff in Hx.
      rewrite filter_cons_True by done. rewrite fmap_cons, app_cons_snoc. apply IH.
      * apply append_event_emits; [done|]. eapply room_le; [done..|lia].
      * eapply room_le; [done..|]. int_lia.
Qed.

(** *** Applying events, by type and data *)

Lemma apply_created a : apply_sig (Created, ANil) a = (set_created true a, None).
Proof. reflexivity. Qed.
Lemma apply_deleted a : apply_sig (Deleted, ANil) a = (set_created false a, None).
Proof. reflexivity. Qed.
Lemma apply_added i d a :
  apply_sig (ItemAdded, ItemAddedData i d) a =
  (mkAggregate (created a) (iadd (nextItemID a) 1) (items a ++ [mkItem i d false]), None).
Proof. reflexivity. Qed.
Lemma apply_removed i a :
  apply_sig (ItemRemoved, ItemRemovedData i) a = (set_items (remove_item i (items a)) a, None).
Proof. reflexivity. Qed.
Lemma apply_described i d a :
  apply_sig (ItemDescriptionSet, ItemDescriptionSetData i d) a =
  (set_items (describe_item i d (items a)) a, None).
Proof. reflexivity. Qed.
Lemma apply_checked i b a :
  apply_sig (ItemChecked, ItemCheckedData i b) a = (set_items (check_item i b (items a)) a, None).
Proof. reflexivity. Qed.

Lemma remove_item_app i pre l :
  i ∉ (ID <$> pre) -> remove_item i (pre ++ l) = pre ++ remove_item i l.
Proof.
  induction pre as [|y pre IH]; simpl; [done|]. intros Hi.
  destruct (Z.eqb_spec (ID y) i); [set_solver|]. rewrite IH; set_solver.
Qed.

Lemma update_item_other f i l : i ∉ (ID <$> l) -> update_item f i l = l.
Proof.
  unfold update_item. induction l as [|y l IH]; [done|]. rewrite !fmap_cons. intros Hi.
  destruct (Z.eqb_spec (ID y) i); [set_solver|]. f_equal. apply IH. set_solver.
Qed.

Lemma update_item_app f i l k : update_item f i (l ++ k) = update_item f i l ++ update_item f i k.
Proof. apply fmap_app. Qed.

(** Updating the item that is there already changes nothing. *)
Lemma update_item_same f i l x :
  find_item i l = Some x -> f x = x -> NoDup (ID <$> l) -> update_item f i l = l.
Proof.
  intros Hf Hx Hnd. pose proof (find_item_spec i l) as Hs. rewrite Hf in Hs.
  destruct Hs as (pre & post & -> & Hid & Hpre).
  rewrite fmap_app, fmap_cons in Hnd. apply NoDup_app in Hnd as (_ & _ & Hnd).
  apply NoDup_cons in Hnd as [Hpost _]. rewrite Hid in Hpost.
  rewrite update_item_app, (update_item_other _ _ pre) by done. f_equal.
  unfold update_item at 1. rewrite fmap_cons, Hid, Z.eqb_refl, Hx. f_equal.
  by apply update_item_other.
Qed.

Lemma update_item_ids f i l : (forall x, ID (f x) = ID x) -> ID <$> update_item f i l = ID <$> l.
Proof.
  intros Hf. unfold update_item. rewrite <- list_fmap_compose. apply list_fmap_ext.
  intros _ x _. simpl. by destruct (_ =? _).
Qed.

Lemma remove_item_filter i l :
  NoDup (ID <$> l) -> remove_item i l = filter (fun x => ID x <> i) l.
Proof.
  induction l as [|y l IH]; [done|]. rewrite fmap_cons, NoDup_cons. intros [Hy Hnd].
  simpl. destruct (Z.eqb_spec (ID y) i) as [<-|].
  - rewrite filter_cons_False by tauto. symmetry. apply filter_all, Forall_forall.
    intros x Hx Heq. apply Hy. rewrite <- Heq. by apply list_elem_of_fmap_2.
  - rewrite filter_cons_True by done. by rewrite IH.
Qed.

Lemma apply_removed_sigs c n kept l :
  NoDup (ID <$> kept ++ l) ->
  apply_sigs (removed_sigs l) (mkAggregate c n (kept ++ l)) =
  Some (mkAggregate c n (kept ++ filter (fun x => Completed x = false) l)).
Proof.
  revert kept. induction l as [|x l IH]; intros kept Hnd; [done|].
  unfold removed_sigs. destruct (Completed x) eqn:Hx.
  - rewrite filter_cons_True by done. rewrite fmap_cons.
    rewrite filter_cons_False by congruence.
    rewrite (apply_sigs_cons _ _ _ _ (apply_removed _ _)). cbn [items set_items created nextItemID].
    rewrite fmap_app, fmap_cons in Hnd. pose proof Hnd as (_ & Hd & Hnd')%NoDup_app.
    rewrite remove_item_app by (intros Hin; apply (Hd _ Hin); set_solver).
    simpl. rewrite Z.eqb_refl. apply IH. rewrite fmap_app.
    apply NoDup_cons in Hnd' as [_ Hnd']. apply NoDup_app in Hnd as (Hk & _ & _).
    apply NoDup_app. split; [done|]. split; [|done]. intros i Hi Hl. apply (Hd i Hi). set_solver.
  - rewrite filter_cons_False by congruence. rewrite (filter_cons_True (fun x => Completed x = false)) by done.
    rewrite (app_cons_snoc kept x l), (app_cons_snoc kept x (filter _ l)).
    apply IH. by rewrite <- app_cons_snoc.
Qed.

Lemma apply_checked_sigs c n b kept l :
  NoDup (ID <$> kept ++ l) ->
  apply_sigs (checked_sigs b l) (mkAggregate c n (kept ++ l)) =
  Some (mkAggregate c n (kept ++ (set_Completed b <$> l))).
Proof.
  revert kept. induction l as [|x l IH]; intros kept Hnd; [done|].
  unfold checked_sigs. rewrite (fmap_cons (set_Completed b)).
  rewrite (app_cons_snoc kept (set_Completed b x)).
  destruct (decide (Completed x = b)) as [Hx|Hx].
  - rewrite filter_cons_False by tauto. rewrite (app_cons_snoc kept x l).
    replace (set_Completed b x) with x by (destruct x; simpl in *; by subst).
    apply IH. by rewrite <- app_cons_snoc.
  - rewrite filter_cons_True by done. rewrite fmap_cons.
    rewrite (apply_sigs_cons _ _ _ _ (apply_checked _ _ _)). cbn [items set_items created nextItemID].
    rewrite fmap_app, fmap_cons in Hnd. pose proof Hnd as (_ & Hd & Hnd')%NoDup_app.
    apply NoDup_cons in Hnd' as [Hl _].
    unfold check_item. rewrite update_item_app.
    rewrite (update_item_other _ _ kept) by (intros Hin; apply (Hd _ Hin); set_solver).
    unfold update_item. rewrite fmap_cons, Z.eqb_refl. fold (update_item (set_Completed b) (ID x) l).
    rewrite update_item_other by done. rewrite (app_cons_snoc kept (set_Completed b x) l). apply IH.
    rewrite <- app_cons_snoc, fmap_app, fmap_cons. exact Hnd.
Qed.

(** *** What a command emits, and that it amounts to its effect *)

Definition emitted (c : Command) (a : Aggregate) : list sig :=
  match c with
  | Create => [(Created, ANil)]
  | Delete => [(Deleted, ANil)]
  | AddItem d => [(ItemAdded, ItemAddedData (nextItemID a) d)]
  | RemoveItem i => [(ItemRemoved, ItemRemovedData i)]
  | RemoveCompletedItems => removed_sigs (items a)
  | SetItemDescription i d =>
      if decide (Description <$> find_item i (items a) = Some d) then []
      else [(ItemDescriptionSet, ItemDescriptionSetData i d)]
  | CheckItem i b =>
      if decide (Completed <$> find_item i (items a) = Some b) then []
      else [(ItemChecked, ItemCheckedData i b)]
  | CheckAllItems b => checked_sigs b (items a)
  end.

Lemma find_item_has i a : has_item i a -> exists x, find_item i (items a) = Some x.
Proof.
  intros Hi. pose proof (find_item_spec i (items a)) as Hs.
  destruct (find_item i (items a)); [by eexists|done].
Qed.

Lemma guard_allowed c a : allowed c a -> guard (Some c) a = None.
Proof. destruct c; simpl; try (by intros ->); by intros [-> _]. Qed.

Lemma dispatch_allowed ct c a :
  base_ok (agg_base a) -> room (len (items (agg_dom a)) + 1) a -> allowed c (agg_dom a) ->
  exists st, dispatch TimeNow ct (Some c) a = (st, None) /\
    emits a (emitted c (agg_dom a)) st.
Proof.
  intros Hb Hr Ha. pose proof (emits_nil a Hb) as H0.
  pose proof (len_nonneg (items (agg_dom a))) as Hl.
  assert (forall et d, emits a [(et, d)] (append_event TimeNow et d (0%nat, a))) as H1.
  { intros et d. apply (append_event_emits TimeNow a []); [done|].
    eapply room_le; [done..|int_lia]. }
  destruct c as [| |d|i| |i d|i b|b]; simpl; try by eexists.
  - destruct (find_item_has i (agg_dom a)) as [x Hx]; [apply Ha|]. rewrite Hx. by eexists.
  - eexists. split; [done|]. apply (append_removed_emits a []); [done..|].
    by autorewrite with len.
  - destruct (find_item_has i (agg_dom a)) as [x Hx]; [apply Ha|]. rewrite Hx. simpl.
    case_bool_decide; case_decide; try congruence; by eexists.
  - destruct (find_item_has i (agg_dom a)) as [x Hx]; [apply Ha|]. rewrite Hx. simpl.
    destruct (Bool.eqb (Completed x) b) eqn:Hb'.
    + apply Bool.eqb_prop in Hb'. rewrite decide_True by congruence. by eexists.
    + apply Bool.eqb_false_iff in Hb'. rewrite decide_False by congruence. by eexists.
  - eexists. split; [done|]. apply (append_checked_emits a []); [done..|].
    by autorewrite with len.
Qed.

(** A refused command: nothing was appended. *)
Lemma dispatch_refused ct c a :
  ~ allowed c (agg_dom a) -> guard (Some c) (agg_dom a) = None ->
  exists err, dispatch TimeNow ct (Some c) a = ((0%nat, a), Some err) /\ ErrorText.printable err.
Proof.
  intros Hn Hg. destruct (created (agg_dom a)) eqn:Hcr; destruct c as [| |d|i| |i d|i b|b];
    simpl in *; rewrite ?Hcr in Hg; try done; try (exfalso; by apply Hn).
  all: pose proof (find_item_spec i (items (agg_dom a))) as Hs;
    destruct (find_item i (items (agg_dom a))) as [x|]; [|by eexists].
  all: exfalso; apply Hn; split; [done|]; destruct Hs as (pre & post & Hl & <- & _);
    unfold has_item; rewrite Hl, fmap_app, fmap_cons; set_solver.
Qed.

Lemma apply_emitted c a :
  items_ok a -> is_int (nextItemID a + 1) -> allowed c a ->
  apply_sigs (emitted c a) a = Some (effect c a).
Proof.
  intros [Hnd Hids] Hn Ha. destruct c as [| |d|i| |i d|i b|b]; try done; simpl emitted.
  - rewrite (apply_sigs_cons _ _ _ _ (apply_added _ _ _)). simpl. by rewrite iadd_id.
  - rewrite (apply_sigs_cons _ _ _ _ (apply_removed _ _)). simpl.
    by rewrite remove_item_filter.
  - destruct a as [cr n l]. by apply (apply_removed_sigs cr n []).
  - case_decide as Hd.
    + apply fmap_Some in Hd as (x & Hx & ->). simpl.
      unfold describe_item. rewrite (update_item_same _ _ _ x); [by destruct a|done|by destruct x|done].
    + by rewrite (apply_sigs_cons _ _ _ _ (apply_described _ _ _)).
  - case_decide as Hd.
    + apply fmap_Some in Hd as (x & Hx & ->). simpl.
      unfold check_item. rewrite (update_item_same _ _ _ x); [by destruct a|done|by destruct x|done].
    + by rewrite (apply_sigs_cons _ _ _ _ (apply_checked _ _ _)).
  - destruct a as [cr n l]. by apply (apply_checked_sigs cr n b []).
Qed.

Lemma emitted_len c a : len (emitted c a) <= len (items a) + 1.
Proof.
  pose proof (len_nonneg (items a)).
  destruct c; simpl; try case_decide; try (unfold removed_sigs, checked_sigs); try int_lia.
  - rewrite len_fmap. pose proof (len_filter (fun x => Completed x = true) (items a)). lia.
  - rewrite len_fmap. pose proof (len_filter (fun x => Completed x <> Checked) (items a)). lia.
Qed.

Lemma NoDup_filter_ids (P : TodoItem -> Prop) `{!forall x, Decision (P x)} l :
  NoDup (ID <$> l) -> NoDup (ID <$> filter P l).
Proof.
  induction l as [|x l IH]; [done|]. rewrite fmap_cons, NoDup_cons. intros [Hx Hnd].
  rewrite filter_cons. case_decide; [|by apply IH].
  rewrite fmap_cons, NoDup_cons. split; [|by apply IH].
  intros (y & Hy & Hin)%list_elem_of_fmap. apply Hx. rewrite Hy.
  apply list_elem_of_filter in Hin as [_ Hin]. by apply list_elem_of_fmap_2.
Qed.

Lemma Forall_filter (P Q : TodoItem -> Prop) `{!forall x, Decision (P x)} l :
  Forall Q l -> Forall Q (filter P l).
Proof. rewrite !Forall_forall. intros HQ x Hx. apply HQ. by apply list_elem_of_filter in Hx as [_ Hx]. Qed.

Lemma Forall_update_item f i n l :
  (forall x, ID (f x) = ID x) -> Forall (fun x => 0 <= ID x < n) l ->
  Forall (fun x => 0 <= ID x < n) (update_item f i l).
Proof.
  intros Hf H. unfold update_item. apply Forall_fmap. eapply Forall_impl; [exact H|].
  intros x Hx. simpl. destruct (ID x =? i); rewrite ?Hf; done.
Qed.

Lemma effect_items_ok c a : 0 <= nextItemID a -> items_ok a -> items_ok (effect c a).
Proof.
  intros Hn [Hnd Hids]. unfold items_ok.
  destruct c as [| |d|i| |i d|i b|b]; cbn [effect items nextItemID set_items set_created]; try done.
  - rewrite fmap_app. split.
    + apply NoDup_app. split; [done|]. split; [|apply NoDup_singleton].
      intros i (x & Hi & Hx)%list_elem_of_fmap Hi'. apply list_elem_of_singleton in Hi'.
      rewrite Forall_forall in Hids. apply Hids in Hx. simpl in *. lia.
    + apply Forall_app. split; [|repeat constructor; simpl; lia].
      eapply Forall_impl; [done|]. intros x. simpl. lia.
  - split; [by apply NoDup_filter_ids|by apply Forall_filter].
  - split; [by apply NoDup_filter_ids|by apply Forall_filter].
  - split; [by setoid_rewrite update_item_ids|by apply Forall_update_item].
  - split; [by setoid_rewrite update_item_ids|by apply Forall_update_item].
  - split.
    + by rewrite <- list_fmap_compose.
    + by apply Forall_fmap.
Qed.

(** The factory [init] registers. *)
Definition new_aggregate (id : UUID) : agg Aggregate :=
  mkAgg (NewAggregateBase AggregateType id) NewAggregate.

#[local] Program Instance todo_CommandSpec : CommandSpec Aggregate Command := {
  spec_type := AggregateType;
  spec_new := NewAggregate;
  spec_command := command_of;
  spec_allowed := allowed;
  spec_effect := effect;
  spec_emitted := emitted;
  spec_ok _ d := items_ok d /\ is_int (nextItemID d + 1);
  spec_size d := len (items d) + 1
}.
Next Obligation. done. Qed.
Next Obligation. intros c d. split; [apply len_nonneg|apply emitted_len]. Qed.
Next Obligation.
  intros ctx id c a Hb Hr Ha. unfold dom_HandleCommand, todo_Domain, HandleCommand.
  cbn [dyn command_of Command.CommandType]. rewrite type_switch_struct_of, guard_allowed by done.
  destruct (dispatch_allowed (CommandType c) c a Hb Hr Ha) as ([k a'] & -> & He).
  by exists (k, a').
Qed.
Next Obligation.
  intros ctx id c a Ha. unfold dom_HandleCommand, todo_Domain, HandleCommand.
  cbn [dyn command_of Command.CommandType]. rewrite type_switch_struct_of.
  destruct (guard (Some c) (agg_dom a)) as [err|] eqn:Hg.
  { exists err. split; [done|]. by destruct c; simpl in Hg; case_match; simplify_eq. }
  destruct (dispatch_refused (CommandType c) c a Ha Hg) as (err & -> & ?). by eexists.
Qed.
Next Obligation. intros c d [Hi Hn] Ha. by apply apply_emitted. Qed.

(** every todo command does what it is for.  An allowed command appends
    events that are accepted when applied and whose application is the
    command's [effect]; it does not change the list itself.  A command that is
    not allowed is refused with an error and appends nothing. *)
Theorem HandleCommand_refines_effect ctx id c a :
  base_ok (agg_base a) -> items_ok (agg_dom a) -> is_int (nextItemID (agg_dom a) + 1) ->
  room (len (items (agg_dom a)) + 1) a ->
  let '(a', err) := HandleCommand TimeNow ctx (command_of id c) a in
  if decide (allowed c (agg_dom a)) then
    err = None /\ base_ok (agg_base a') /\ agg_dom a' = agg_dom a /\
    exists evs, base_events (agg_base a') = base_events (agg_base a) ++ somes evs /\
      agg_dom <$> replay ctx evs a = Some (effect c (agg_dom a))
  else (exists e, err = Some e) /\ a' = a.
Proof. intros Hb Hi Hn Hr. exact (HandleCommand_effect ctx id c a Hb Hr (conj Hi Hn)). Qed.

(** Aggregates that commands can lead to: the new one, and what [Save] leaves
    of an accepted command (the appended events applied, none uncommitted). *)
Inductive reachable (id : UUID) : agg Aggregate -> Prop :=
| reachable_new : reachable id (new_aggregate id)
| reachable_command ctx c a a' evs a'' :
    reachable id a -> room (len (items (agg_dom a)) + 1) a ->
    nextItemID (agg_dom a) < MaxInt ->
    HandleCommand TimeNow ctx (command_of id c) a = (a', None) ->
    base_events (agg_base a') = somes evs ->
    replay ctx evs (a_ClearUncommittedEvents a') = Some a'' ->
    reachable id a''.

(** in every reachable list the item IDs are distinct, non-negative and
    below the next ID to hand out, and the aggregate is ready for the next
    command (no uncommitted events, its identity unchanged). *)
Theorem reachable_items_ok id a :
  reachable id a ->
  items_ok (agg_dom a) /\ 0 <= nextItemID (agg_dom a) <= MaxInt /\
  base_ok (agg_base a) /\ base_events (agg_base a) = [] /\ base_id (agg_base a) = id.
Proof.
  induction 1 as [|ctx c a a' evs a'' _ IH Hr Hn Hh He Hrep].
  - split_and!; simpl; try done.
    + split; constructor.
    + by apply (base_ok_set_cleared (NewAggregateBase AggregateType id) 0).
  - destruct IH as (Hi & Hnext & Hb & Hnil & Hid).
    assert (is_int (nextItemID (agg_dom a) + 1)) as Hint by (unfold is_int, MinInt, MaxInt in *; lia).
    destruct (@command_step _ _ _ _ todo_CommandSpec ctx id c a a' evs a'' Hb Hnil Hr (conj Hi Hint) Hh He Hrep)
      as (Ha & Hd & Hb' & Hnil' & Hid'). rewrite Hd, Hid'.
    split_and!; try done; [apply effect_items_ok; [lia|done]|destruct c; simpl; lia..].
Qed.

(** The stream of [id] replays to the list [d]. *)
Definition represents {S} {store : EventStore S} `{!EventStoreLaws store}
    (ctx : context) (s : S) (id : UUID) (d : Aggregate) : Prop :=
  store_ok s /\ typed AggregateType (stream s id) /\
  agg_dom <$> replay ctx (stream s id) (new_aggregate id) = Some d.

(** Events a todo command can emit. *)
Definition todo_event (e : event) : Prop := exists c d, sig_of e ∈ emitted c d.

(** C12: the todo service, end to end over any event store that keeps its
    contract.  When the stored stream represents the list [d], handling a
    checked command leaves a stream that represents [effect c d] if the command
    is allowed, and otherwise reports an error and nothing of the store is
    observed to change; no other stream changes. *)
Theorem todo_handler_end_to_end {S} (uuid_String : UUID -> string)
    (aggregates : gmap string (UUID -> option (agg Aggregate)))
    (store : EventStore S) `{!EventStoreLaws store} strategy now ctx s id c d :
  aggregates !! AggregateType = Some (fun id => Some (new_aggregate id)) ->
  (forall e, todo_event e -> storable e) ->
  ctx_err ctx = None -> CheckCommand (Some (command_of id c)) = None ->
  represents ctx s id d -> items_ok d -> is_int (nextItemID d + 1) ->
  is_int (len (stream s id) + (len (items d) + 1)) -> holds s (len (emitted c d)) ->
  let '(o, s') := CommandHandler.HandleCommand AggregateType
                    (events_store uuid_String aggregates store None strategy now)
                    ctx (Some (command_of id c)) s in
  (forall id', id' <> id -> stream s' id' = stream s id') /\
  if decide (allowed c d) then o = Ok tt /\ represents ctx s' id (effect c d)
  else (exists err, o = Err (AggregateError err)) /\ unchanged 0 s s'.
Proof.
  intros Hagg Hstorable Hctx Hc Hr Hi Hn Hroom Hholds.
  refine (@domain_handler_end_to_end _ _ _ _ todo_CommandSpec S uuid_String aggregates store _ strategy now
    ctx s id c d Hagg _ Hctx Hc Hr (conj Hi Hn) Hroom Hholds).
  intros e He. apply Hstorable. by exists c, d.
Qed.

End WriteSide.

(** ** The read side ([model.go], [projector.go]) *)

Record TodoList : Type := mkTodoList {
  list_ID : UUID;
  list_Version : Z;
  list_Items : list TodoItem;
  list_CreatedAt : Time;
  list_UpdatedAt : Time
}.

#[export] Instance TodoList_Entity : Entity TodoList := {
  EntityID := list_ID;
  Versionable t := Some (list_Version t)
}.

Definition new_TodoList : TodoList := mkTodoList Nil 0 [] 0 0.

Section ReadSide.
(** The time the [k]-th call of [TimeNow] gives while projecting an event. *)
Context (TimeNow : nat -> Time).

(** What the switch leaves of the model: its ID, items and creation time, and
    how often it asked for the time. *)
Definition project_switch (e : event) (model : TodoList)
  : option (TodoList * nat) + error :=
  let with_items l :=
    inl (Some (mkTodoList (list_ID model) (list_Version model) l
                 (list_CreatedAt model) (list_UpdatedAt model), 0%nat)) in
  if bool_decide (eventType e = Created)
  then inl (Some (mkTodoList (aggregateID e) (list_Version model) [] (TimeNow 0)
                    (list_UpdatedAt model), 1%nat))
  else if bool_decide (eventType e = Deleted) then inl None
  else if bool_decide (eventType e = ItemAdded) then
    match as_ItemAddedData (data e) with
    | None => inr invalid_data
    | Some (i, d) => with_items (list_Items model ++ [mkItem i d false])
    end
  else if bool_decide (eventType e = ItemRemoved) then
    match as_ItemRemovedData (data e) with
    | None => inr invalid_data
    | Some i => with_items (remove_item i (list_Items model))
    end
  else if bool_decide (eventType e = ItemDescriptionSet) then
    match as_ItemDescriptionSetData (data e) with
    | None => inr invalid_data
    | Some (i, d) => with_items (describe_item i d (list_Items model))
    end
  else if bool_decide (eventType e = ItemChecked) then
    match as_ItemCheckedData (data e) with
    | None => inr invalid_data
    | Some (i, b) => with_items (check_item i b (list_Items model))
    end
  else inr (ErrorString ("could not project event: " +:+ eventType e)).

Definition Project (ctx : context) (e : event) (model : TodoList) : option TodoList + error :=
  match project_switch e model with
  | inl (Some (model, calls)) =>
      inl (Some (mkTodoList (list_ID model) (iadd (list_Version model) 1) (list_Items model)
                   (list_CreatedAt model) (TimeNow calls)))
  | inl None => inl None
  | inr err => inr err
  end.

#[local] Instance todo_Projector : Projector TodoList := {
  ProjectorType := AggregateType;
  Project := Project
}.

Lemma Project_agrees ctx e a a' model :
  ApplyEvent ctx e a = (a', None) -> eventType e <> Deleted ->
  (eventType e = Created -> items a = []) ->
  list_Items model = items a -> is_int (list_Version model + 1) ->
  exists model', Project ctx e model = inl (Some model') /\
    list_Items model' = items a' /\ list_Version model' = list_Version model + 1 /\
    list_ID model' = (if decide (eventType e = Created) then aggregateID e else list_ID model).
Proof.
  intros Ha Hdel Hcr Hit Hv. unfold Project, project_switch, ApplyEvent in *.
  case_bool_decide as H1.
  { simplify_eq. eexists. split; [done|]. rewrite decide_True by done. simpl.
    rewrite iadd_id by done. by rewrite Hcr. }
  rewrite decide_False by done. rewrite bool_decide_false in Ha |- * by done.
  repeat case_bool_decide; simplify_eq;
    [destruct (as_ItemAddedData _) as [[i d]|]|destruct (as_ItemRemovedData _) as [i|]
    |destruct (as_ItemDescriptionSetData _) as [[i d]|]|destruct (as_ItemCheckedData _) as [[i b]|]];
    simplify_eq; eexists; (split; [done|]); simpl; rewrite iadd_id, Hit by done; done.
Qed.

(** read side and write side agree.  Any event the aggregate accepts, other
    than a deletion, is accepted by the projector; it raises the model's version
    by one and leaves the model with the items the aggregate has, provided they
    agreed before and (for the creation event) the aggregate had no items. *)
Theorem Project_agrees_with_ApplyEvent ctx e a a' model :
  ApplyEvent ctx e a = (a', None) -> eventType e <> Deleted ->
  (eventType e = Created -> items a = []) ->
  list_Items model = items a -> is_int (list_Version model + 1) ->
  exists model', Project ctx e model = inl (Some model') /\
    list_Items model' = items a' /\ list_Version model' = list_Version model + 1 /\
    list_ID model' = (if decide (eventType e = Created) then aggregateID e else list_ID model).
Proof. apply Project_agrees. Qed.

Section Deleted.
Context {S : Type} (repo : ReadWriteRepo S TodoList) `{!RepoLaws repo}.
Context (now : Time) (others : S -> S).

(** a deleted list never comes back to the read side.  The write side lets
    a deleted list be created again, and keeps its old items; but the projector
    handler refuses the second creation event, and whatever follows it, with
    [ErrModelRemoved], so the read model stays absent. *)
Theorem recreated_list_stays_removed ctx e a s h :
  h = NewEventHandler [SetEntityFactory (Some (fun _ => new_TodoList))] ->
  created a = true -> version e > 1 ->
  repo_ok s -> entities s !! aggregateID e = None ->
  (let deleted := effect Delete a in
   allowed Create deleted /\ items (effect Create deleted) = items a) /\
  exists s', HandleEvent h repo now others ctx (Some e) s =
      (Err (projector_error (Sentinel ErrModelRemoved) (Some e) (aggregateID e) 0), s') /\
    entities s' !! aggregateID e = None.
Proof.
  intros -> Hcr Hver Hok Hnone. split; [done|].
  set (h := NewEventHandler _).
  destruct (HandleEvent_future h repo now others ctx e s new_TodoList 0)
    as (s' & Hs' & _ & Hent); [done| |done|done|lia|done|done|].
  { unfold current. change (entityLookupFn h e) with (aggregateID e). by rewrite Hnone. }
  exists s'. split; [done|]. by rewrite Hent.
Qed.

End Deleted.

End ReadSide.

End Todo.
