(* ===== verification/TodoDemo.v ===== *)
(** * The todo service on concrete inputs

    A stored list with one item, the memory event store, a JSON stand-in and
    the in-memory repository for the read model: the inputs at which the
    theorems about the write side, the aggregate store and the read side are
    applied. *)

From stdpp Require Import base gmap strings list numbers option pretty.
From Stdlib Require Import Lia ZArith.
From S2P Require Import Prelude.
From S2P Require Import GoTypes.
From S2P Require Import Event.
From S2P Require Import Command.
From S2P Require Import Errors.
From S2P Require Import Fixtures.
From S2P Require Import CommandCheck.
From S2P Require Import EventStoreSpec.
From S2P Require Import MemStore.
From S2P Require Import AggregateBase.
From S2P Require Import AggregateStore.
From S2P Require Import CommandHandler.
From S2P Require Import Context.
From S2P Require Import Repo.
From S2P Require Import VersionRepo.
From S2P Require Import CacheRepo.
From S2P Require Import Projector.
From S2P Require Import DomainModel.
From S2P Require Import Todo.

Import Todo.

Definition time_now (k : nat) : Time := 100 + Z.of_nat k.

#[local] Instance demo_Domain : Domain Aggregate := todo_Domain time_now.
#[local] Instance demo_AppliesBySig : AppliesBySig Aggregate := todo_AppliesBySig time_now.

Definition ev1 : event := mkEvent Created ANil 1 Todo.AggregateType id1 1 None.
Definition ev2 : event := mkEvent ItemAdded (ItemAddedData 0 "milk") 2 Todo.AggregateType id1 2 None.
Definition ev3 : event := mkEvent ItemAdded (ItemAddedData 1 "bread") 3 Todo.AggregateType id1 3 None.
Definition ev3' : event := mkEvent ItemChecked (ItemCheckedData 0 true) 3 Todo.AggregateType id1 3 None.

(** ** The write side *)

Definition st0 : MemDB * unit := ({[id1 := mkRecord id1 2 (somes [ev1; ev2])]}, tt).

Definition todo_store : EventStore (MemDB * unit) := memory_EventStore factories copier_assign.

#[local] Instance todo_store_laws : EventStoreLaws todo_store := memory_EventStoreLaws _ _.

Definition the_list : Aggregate := mkAggregate true 1 [mkItem 0 "milk" false].

Definition todo_aggregates : gmap string (UUID -> option (agg Aggregate)) :=
  {[Todo.AggregateType := fun id => Some (new_aggregate id)]}.

Lemma st0_ok : store_ok st0.
Proof.
  split.
  - apply map_Forall_singleton. split; [done|]. exists [ev1; ev2].
    split; [done|]. split; [done|]. split; [done|]. split; [done|].
    vm_compute. split; discriminate.
  - intros id. destruct (decide (id = id1)) as [->|Hne].
    + change (Forall (copyable factories copier_assign) [ev1; ev2]). by repeat constructor.
    + rewrite events_of_none; [constructor|]. by apply lookup_singleton_ne.
Qed.

Lemma st0_stream : stream st0 id1 = [ev1; ev2].
Proof. reflexivity. Qed.

Lemma todo_event_storable e : todo_event e -> storable e.
Proof.
  intros (c & d & Hs). destruct e as [et dt ts at' id v md]. unfold sig_of in Hs. simpl in Hs.
  change (copy_data factories copier_assign (mkEvent et dt ts at' id v md) = inl dt).
  destruct c; simpl in Hs; unfold removed_sigs, checked_sigs in Hs;
    try (apply list_elem_of_fmap in Hs as (x & [= -> ->] & _); done);
    try case_decide; try (by apply not_elem_of_nil in Hs);
    apply list_elem_of_singleton in Hs; by injection Hs as -> ->.
Qed.

Lemma the_list_ok : items_ok the_list.
Proof. split; simpl; [apply NoDup_singleton|repeat constructor; simpl; lia]. Qed.

Definition the_agg : agg Aggregate :=
  mkAgg (mkBase id1 Todo.AggregateType 2 []) the_list.

Lemma replay_st0 : replay bg (stream st0 id1) (new_aggregate id1) = Some the_agg.
Proof. reflexivity. Qed.

Lemma todo_handler_end_to_end_witness :
  let '(o, s') := CommandHandler.HandleCommand Todo.AggregateType
                    (events_store uuid_print todo_aggregates todo_store None NoSnapshotStrategy 9)
                    bg (Some (command_of id1 (CheckItem 0 true))) st0 in
  (forall id', id' <> id1 -> stream s' id' = stream st0 id') /\
  if decide (allowed (CheckItem 0 true) the_list)
  then o = Ok tt /\ represents time_now bg s' id1 (effect (CheckItem 0 true) the_list)
  else (exists err, o = Err (AggregateError err)) /\ s' = st0.
Proof.
  apply (todo_handler_end_to_end time_now uuid_print todo_aggregates todo_store NoSnapshotStrategy 9
           bg st0 id1 (CheckItem 0 true) the_list).
  - reflexivity.
  - exact todo_event_storable.
  - reflexivity.
  - reflexivity.
  - split; [exact st0_ok|]. split; [by repeat constructor|reflexivity].
  - exact the_list_ok.
  - vm_compute. split; discriminate.
  - vm_compute. split; discriminate.
  - exact Logic.I.
Defined.

Lemma HandleCommand_refines_effect_witness :
  let '(a', err) := HandleCommand time_now bg (command_of id1 RemoveCompletedItems) the_agg in
  if decide (allowed RemoveCompletedItems the_list) then
    err = None /\ base_ok (agg_base a') /\ agg_dom a' = the_list /\
    exists evs, base_events (agg_base a') = [] ++ somes evs /\
      agg_dom <$> replay bg evs the_agg = Some (effect RemoveCompletedItems the_list)
  else (exists e, err = Some e) /\ a' = the_agg.
Proof.
  apply (HandleCommand_refines_effect time_now bg id1 RemoveCompletedItems the_agg).
  - apply (base_ok_set_cleared (mkBase id1 Todo.AggregateType 2 []) 2); [vm_compute; split; discriminate|done].
  - exact the_list_ok.
  - vm_compute. split; discriminate.
  - vm_compute. split; discriminate.
Defined.

Lemma reachable_created : exists a, Todo.reachable time_now id1 a /\ created (agg_dom a) = true.
Proof.
  eexists. split; [|]; [eapply (reachable_command time_now id1 bg Create (new_aggregate id1))|].
  - constructor.
  - vm_compute. split; discriminate.
  - vm_compute. reflexivity.
  - reflexivity.
  - apply (eq_refl (somes [_])).
  - reflexivity.
  - reflexivity.
Qed.

Lemma reachable_items_ok_witness :
  exists a, created (agg_dom a) = true /\ items_ok (agg_dom a) /\ base_id (agg_base a) = id1.
Proof.
  destruct reachable_created as (a & Hr & Hc). exists a. split; [exact Hc|].
  destruct (reachable_items_ok time_now id1 a Hr) as (Hi & _ & _ & _ & Hid). by split.
Defined.

(** ** The aggregate store *)

Lemma todo_registered : registered todo_aggregates Todo.AggregateType id1 (new_aggregate id1).
Proof. split; [by eexists|done]. Qed.

Lemma st0_typed : typed Todo.AggregateType (stream st0 id1).
Proof. by repeat constructor. Qed.

Lemma Load_replays_stream_witness :
  AggregateStore.Load uuid_print todo_aggregates todo_store None bg Todo.AggregateType id1 st0 =
    (Ok the_agg, st0) /\
  a_AggregateVersion the_agg = len (stream st0 id1).
Proof.
  destruct (Load_replays_stream uuid_print todo_aggregates todo_store bg Todo.AggregateType id1
              (new_aggregate id1) the_agg st0) as ((s' & Hl & Hu) & Hv).
  - exact st0_ok.
  - exact todo_registered.
  - exact st0_typed.
  - reflexivity.
  - change (s' = st0) in Hu. subst s'. by split.
Defined.

(** The loaded aggregate after the commands that add bread, or check the milk. *)
Definition with_events (evs : list event) : agg Aggregate :=
  mkAgg (mkBase id1 Todo.AggregateType 2 (somes evs)) the_list.

Lemma demo_batch_for e :
  aggregateID e = id1 -> version e = 3 -> batch_for id1 (len (stream st0 id1)) [e].
Proof.
  intros Hid Hv. split; [done|]. split; [done|]. split; [by exists (aggregateType e); repeat constructor|].
  vm_compute. split; split; discriminate.
Qed.

Lemma Save_then_Load_agree_witness :
  exists a2 s', AggregateStore.Save uuid_print todo_store None NoSnapshotStrategy bg 9
      (st0, with_events [ev3]) = (Ok tt, (s', a2)) /\
    items (agg_dom a2) = [mkItem 0 "milk" false; mkItem 1 "bread" false] /\
    AggregateStore.Load uuid_print todo_aggregates todo_store None bg Todo.AggregateType id1 s' = (Ok a2, s').
Proof.
  destruct (Save_then_Load_agree uuid_print NoSnapshotStrategy todo_aggregates todo_store bg 9
    Todo.AggregateType id1 (new_aggregate id1) the_agg (with_events [ev3])
    (mkAgg (mkBase id1 Todo.AggregateType 3 [])
       (mkAggregate true 2 [mkItem 0 "milk" false; mkItem 1 "bread" false])) [ev3] st0)
    as (s' & evs' & Hs & _ & _ & _ & _ & s'' & Hl & Hu).
  - exact st0_ok.
  - exact todo_registered.
  - exact st0_typed.
  - reflexivity.
  - reflexivity.
  - reflexivity.
  - reflexivity.
  - by apply demo_batch_for.
  - by repeat constructor.
  - by repeat constructor.
  - exact Logic.I.
  - reflexivity.
  - change (s'' = s') in Hu. subst s''. eexists _, s'. split; [exact Hs|]. split; [reflexivity|exact Hl].
Defined.

Lemma Save_second_writer_conflicts_witness :
  exists s' a1', AggregateStore.Save uuid_print todo_store None NoSnapshotStrategy bg 9
      (st0, with_events [ev3]) = (Ok tt, (s', a1')) /\
    exists e, AggregateStore.Save uuid_print todo_store None NoSnapshotStrategy bg 10
      (s', with_events [ev3']) = (Err e, (s', with_events [ev3'])) /\
      errors_Is e ErrEventConflictFromOtherSave = true.
Proof.
  destruct (Save_second_writer_conflicts uuid_print NoSnapshotStrategy todo_store bg 9 10 id1
    (with_events [ev3])
    (mkAgg (mkBase id1 Todo.AggregateType 3 [])
       (mkAggregate true 2 [mkItem 0 "milk" false; mkItem 1 "bread" false]))
    (with_events [ev3']) [ev3] [ev3'] st0)
    as (s' & evs1' & Hs & _ & _ & e & s'' & He & Hu & His).
  - exact st0_ok.
  - discriminate.
  - reflexivity.
  - reflexivity.
  - reflexivity.
  - reflexivity.
  - by apply demo_batch_for.
  - by repeat constructor.
  - by repeat constructor.
  - reflexivity.
  - reflexivity.
  - reflexivity.
  - reflexivity.
  - reflexivity.
  - by apply demo_batch_for.
  - by repeat constructor.
  - exact Logic.I.
  - exact Logic.I.
  - change (s'' = s') in Hu. subst s''. eexists s', _. split; [exact Hs|]. by exists e.
Defined.

(** ** The aggregate command handler *)

Definition demo_handler :=
  CommandHandler.HandleCommand Todo.AggregateType
    (events_store uuid_print todo_aggregates todo_store None NoSnapshotStrategy 9).

Lemma aggregate_handler_commits_witness :
  exists s', demo_handler bg (Some (command_of id1 (AddItem "bread"))) st0 = (Ok tt, s') /\
    len (stream s' id1) = 3.
Proof.
  destruct (aggregate_handler_commits uuid_print NoSnapshotStrategy 9 todo_aggregates todo_store bg
    Todo.AggregateType (command_of id1 (AddItem "bread")) (new_aggregate id1) the_agg
    (with_events [mkEvent ItemAdded (ItemAddedData 1 "bread") 100 Todo.AggregateType id1 3 None])
    (mkAgg (mkBase id1 Todo.AggregateType 3 [])
       (mkAggregate true 2 [mkItem 0 "milk" false; mkItem 1 "bread" false]))
    [mkEvent ItemAdded (ItemAddedData 1 "bread") 100 Todo.AggregateType id1 3 None] st0)
    as (s' & evs' & Hs & _ & Hstr & HF & _).
  - reflexivity.
  - reflexivity.
  - exact st0_ok.
  - exact todo_registered.
  - exact st0_typed.
  - reflexivity.
  - reflexivity.
  - reflexivity.
  - reflexivity.
  - reflexivity.
  - intros _. by apply demo_batch_for.
  - by repeat constructor.
  - by repeat constructor.
  - exact Logic.I.
  - reflexivity.
  - exists s'. split; [exact Hs|]. change id1 with (AggregateID (command_of id1 (AddItem "bread"))).
    rewrite Hstr, len_app. unfold len at 2. by rewrite <- (Forall2_length _ _ _ HF).
Defined.

Lemma aggregate_handler_rejects_witness :
  exists err, demo_handler bg (Some (command_of id1 Create)) st0 = (Err (AggregateError err), st0).
Proof.
  pose proof (aggregate_handler_rejects uuid_print NoSnapshotStrategy 9 todo_aggregates todo_store bg
    Todo.AggregateType (command_of id1 Create) (new_aggregate id1) the_agg st0
    st0_ok todo_registered st0_typed eq_refl) as H.
  exists (ErrorString "already created"). destruct (H _ eq_refl) as (s' & Hr & Hu).
  change (s' = st0) in Hu. by subst s'.
Defined.

(** ** Read models: the in-memory repository with a stand-in for JSON

    The stand-in keeps a list's version as the length of its text, which is
    enough for empty lists. *)

Definition empty_list (v : Z) : TodoList := mkTodoList id1 v [] 0 0.

Definition json_Marshal (t : TodoList) : list Byte.byte + error :=
  inl (replicate (Z.to_nat (list_Version t)) Byte.x00).

Definition json_Unmarshal (b : list Byte.byte) (t : TodoList) : TodoList + error :=
  inl (empty_list (len b)).

Definition demo_repo : ReadWriteRepo MemRepo.Repo TodoList :=
  MemRepo.memory_Repo json_Marshal json_Unmarshal.

#[local] Instance demo_repo_laws : RepoLaws demo_repo :=
  MemRepo.memory_RepoLaws json_Marshal json_Unmarshal (empty_list 0).

Definition r0 : MemRepo.Repo (E := TodoList) :=
  MemRepo.mkMemRepo {[id1 := [Byte.x00; Byte.x00]]} [id1] (Some (fun _ => empty_list 0)).

(** The same repository before the list was projected. *)
Definition r_empty : MemRepo.Repo (E := TodoList) :=
  MemRepo.mkMemRepo ∅ [] (Some (fun _ => empty_list 0)).

Lemma r0_index : MemRepo.index_ok r0.
Proof.
  split; [apply NoDup_singleton|]. intros id. simpl. rewrite list_elem_of_singleton.
  destruct (decide (id = id1)) as [->|Hne].
  - rewrite lookup_singleton_eq. split; [by eexists|done].
  - rewrite lookup_singleton_ne by done. split; [done|by intros []].
Qed.

Lemma r0_ok : repo_ok r0.
Proof.
  split; [exact r0_index|]. split; [by eexists|].
  apply map_Forall_singleton. by exists (empty_list 2).
Qed.

Lemma r_empty_ok : repo_ok r_empty.
Proof.
  split.
  - split; [constructor|]. intros id. simpl. rewrite lookup_empty.
    split; [by intros ?%not_elem_of_nil|by intros []].
  - split; [by eexists|apply map_Forall_empty].
Qed.

Lemma empty_list_keepable v : 0 <= v -> keepable (repo := demo_repo) (empty_list v).
Proof.
  intros Hv. exists (replicate (Z.to_nat v) Byte.x00). split; [done|].
  unfold json_Unmarshal, len. rewrite length_replicate. by rewrite Z2Nat.id.
Qed.

Lemma index_preserved_witness :
  MemRepo.index_ok (MemRepo.Save json_Marshal bg (Some (empty_list 3)) r0).2 /\
  MemRepo.index_ok (MemRepo.Remove bg id2 r0).2 /\
  (MemRepo.Find json_Unmarshal bg id2 r0).2 = r0 /\
  (forall p, (MemRepo.Remove bg id2 r0).1 <> Panic p).
Proof. apply (MemRepo.index_preserved json_Marshal json_Unmarshal bg id2 (Some (empty_list 3)) r0 r0_index). Defined.

(** *** The cache *)

Lemma cache_start : coherent demo_repo (cache_NewRepo r0).
Proof. split; [exact r0_ok|]. intros id e. simpl. by rewrite lookup_empty. Qed.

#[local] Instance demo_repo_refuses : RepoRefuses demo_repo :=
  MemRepo.memory_RepoRefuses json_Marshal json_Unmarshal (empty_list 0).

(** From a repository without entities: the list is looked for, saved for the
    first time, found (and kept), saved again, found, changed behind the cache,
    found, removed, and removed again. *)
Definition cache_story : list (context * cache_call (E := TodoList)) :=
  [(bg, CallFind id1); (bg, CallSave (empty_list 2)); (bg, CallFind id1);
   (bg, CallSave (empty_list 3)); (bg, CallFindAll); (bg, CallFind id1);
   (bg, ChangedInside (empty_list 4) ev3)].

Lemma cache_stays_coherent_witness :
  let st' := perform_all demo_repo cache_story (cache_NewRepo r_empty) in
  let st2 := perform demo_repo bg (CallFind id1) st' in
  (cache_Find demo_repo bg id1 st').1 = Ok (empty_list 4) /\
  st2.2 !! id1 = Some (empty_list 4) /\
  (cache_Remove demo_repo bg id1 st2).1 = Ok tt /\
  exists err, (cache_Remove demo_repo bg id1 (perform demo_repo bg (CallRemove id1) st2)).1 = Err err /\
    errors_Is err ErrEntityNotFound = true.
Proof.
  intros st' st2.
  assert (coherent demo_repo (cache_NewRepo r_empty)) as Hstart.
  { split; [exact r_empty_ok|]. intros id e. simpl. by rewrite lookup_empty. }
  assert (Forall (fun c => call_fits demo_repo c.2) cache_story) as Hfits.
  { repeat constructor; simpl; try (by apply empty_list_keepable); discriminate. }
  destruct (cache_stays_coherent demo_repo cache_story bg (CallFind id1) _ Hstart Hfits I)
    as (_ & _ & [Hf Hk] & _).
  destruct (cache_stays_coherent demo_repo (cache_story ++ [(bg, CallFind id1)]) bg (CallRemove id1) _ Hstart)
    as (_ & _ & Hr & _); [by apply Forall_app; split; [|repeat constructor]|exact I|].
  destruct (cache_stays_coherent demo_repo (cache_story ++ [(bg, CallFind id1); (bg, CallRemove id1)])
              bg (CallRemove id1) _ Hstart) as (_ & _ & Hr2 & _);
    [by apply Forall_app; split; [|repeat constructor]|exact I|].
  split; [exact Hf|]. split; [exact Hk|]. split; [exact Hr|exact Hr2].
Defined.

Lemma cache_Find_race_leaves_stale_entry_witness :
  exists st2 st3, entities st2.1 !! id1 = Some (empty_list 5) /\
    store_cached id1 (empty_list 2) st2 = (Ok tt, st3) /\
    forall ctx, cache_Find demo_repo ctx id1 st3 = (Ok (empty_list 2), st3).
Proof.
  destruct (cache_Find_race_leaves_stale_entry demo_repo bg id1 (empty_list 2) (empty_list 5) r0)
    as (st1 & st2 & st3 & _ & _ & _ & He & Hs & Hf).
  - exact r0_ok.
  - reflexivity.
  - by apply empty_list_keepable.
  - reflexivity.
  - discriminate.
  - exists st2, st3. split; [exact He|]. split; [exact Hs|exact Hf].
Defined.

(** *** The version repository *)

(** After the first attempt the rest of the program stores version 3. *)
Definition catch_up (k : nat) (r : MemRepo.Repo (E := TodoList)) : MemRepo.Repo :=
  (MemRepo.Save json_Marshal bg (Some (empty_list 3)) r).2.

Definition wait_ctx : context := NewContextWithMinVersionWait bg 0 3.

Definition too_old : error := RepoError (Some (Sentinel ErrIncorrectEntityVersion)) "" Nil.

Lemma first_attempt : findMinVersion demo_repo wait_ctx id1 3 r0 = (Err too_old, r0).
Proof. reflexivity. Qed.

Lemma second_attempt :
  findMinVersion demo_repo wait_ctx id1 3 (catch_up 0 r0) = (Ok (empty_list 3), catch_up 0 r0).
Proof. reflexivity. Qed.

Lemma two_attempts :
  version_Find demo_repo (fun _ => None) catch_up 2 wait_ctx id1 r0 =
  Some (Ok (empty_list 3), catch_up 0 r0).
Proof.
  unfold version_Find. change (MinVersionFromContext wait_ctx) with (Some 3).
  change (3 <? 1) with false. cbn [find_loop]. by rewrite first_attempt, second_attempt.
Qed.

Lemma version_Find_min_version_witness :
  (exists v, Versionable (empty_list 3) = Some v /\ 3 <= v) /\
  (exists s0, Find demo_repo wait_ctx id1 s0 = (Ok (empty_list 3), catch_up 0 r0)).
Proof.
  apply (version_Find_min_version demo_repo (fun _ => None) catch_up 2 wait_ctx id1 3 r0).
  - reflexivity.
  - lia.
  - exact two_attempts.
Defined.

Lemma version_Find_retries_witness :
  version_Find demo_repo (fun _ => None) catch_up 5 wait_ctx id1 r0 =
  Some (Ok (empty_list 3), catch_up 0 r0).
Proof.
  pose proof (version_Find_retries demo_repo (fun _ => None) catch_up wait_ctx id1 3 r0 1 5) as H.
  cbn [attempt_state] in H. rewrite first_attempt in H. cbn [snd] in H. rewrite second_attempt in H.
  apply H.
  - reflexivity.
  - lia.
  - lia.
  - intros Hd. discriminate Hd.
  - intros j Hj. assert (j = 0%nat) as -> by lia. split; [reflexivity|].
    exists too_old. cbn [attempt_state]. rewrite first_attempt. by split.
  - left. intros (_ & err & He & _). cbn [attempt_state] in He.
    rewrite first_attempt in He. cbn [snd] in He. rewrite second_attempt in He. discriminate He.
Defined.

(** ** Projecting *)

(** A projector that only follows the version, over the stand-in lists. *)
#[local] Instance version_Projector : Projector TodoList := {
  ProjectorType := "version";
  Project ctx e t := inl (Some (empty_list (version e)))
}.

Definition demo_projector : EventHandler TodoList :=
  NewEventHandler [SetEntityFactory (Some (fun _ => empty_list 0))].

Definition demo_HandleEvent := HandleEvent demo_projector demo_repo 0 (fun r => r).

Lemma HandleEvent_projects_next_witness :
  exists s', demo_HandleEvent bg (Some ev3) r0 = (Ok tt, s') /\ repo_ok s' /\
    entities s' = <[id1 := empty_list 3]> (entities r0).
Proof.
  apply (HandleEvent_projects_next demo_projector demo_repo 0 (fun r => r) bg ev3 r0
           (empty_list 2) (Some (empty_list 3))).
  - exact r0_ok.
  - reflexivity.
  - intros v [= <-]. split; [reflexivity|vm_compute; split; discriminate].
  - reflexivity.
  - split; [reflexivity|]. split; [discriminate|]. split; [by apply empty_list_keepable|].
    by intros v [= <-].
Defined.

Lemma HandleEvent_old_and_future_events_witness :
  (exists s', demo_HandleEvent bg (Some ev2) r0 = (Ok tt, s') /\ entities s' = entities r0) /\
  (exists s' err, demo_HandleEvent bg (Some (mkEvent Created ANil 1 Todo.AggregateType id1 5 None)) r0 =
      (Err err, s') /\ errors_Is err ErrIncorrectEntityVersion = true).
Proof.
  split.
  - apply (HandleEvent_old_and_future_events demo_projector demo_repo 0 (fun r => r) bg ev2 r0
      (empty_list 2) 2 r0_ok eq_refl eq_refl); vm_compute; try split; discriminate.
  - destruct (HandleEvent_old_and_future_events demo_projector demo_repo 0 (fun r => r) bg
      (mkEvent Created ANil 1 Todo.AggregateType id1 5 None) r0 (empty_list 2) 2 r0_ok eq_refl eq_refl)
      as (_ & (s' & Hs' & _) & _); [vm_compute; split; discriminate|reflexivity|reflexivity|reflexivity|].
    eexists s', _. split; [exact Hs'|reflexivity].
Defined.

Lemma HandleEvent_at_least_once_witness :
  exists s', for_range [0%nat; 0%nat; 1%nat; 0%nat; 1%nat; 2%nat]
      (fun k => demo_HandleEvent bg ([ev1; ev2; ev3] !! k)) r_empty = (Ok tt, s') /\
    current demo_projector demo_repo s' id1 = Some (empty_list 3).
Proof.
  destruct (HandleEvent_at_least_once demo_projector demo_repo 0 (fun r => r) bg id1 [ev1; ev2; ev3]
    (fun k => empty_list (Z.of_nat k)) 0 [0%nat; 0%nat; 1%nat; 0%nat; 1%nat; 2%nat] 3 r_empty)
    as (s' & Hs' & _ & Hc & _).
  - exact r_empty_ok.
  - discriminate.
  - by split_and!.
  - vm_compute. split; discriminate.
  - intros e He. repeat (apply elem_of_cons in He as [->|He]; [reflexivity|]). by apply not_elem_of_nil in He.
  - reflexivity.
  - intros [|[|[|k]]] e He; try discriminate He; injection He as <-; reflexivity.
  - intros k Hk. split; [reflexivity|]. apply empty_list_keepable. lia.
  - apply in_order_next, in_order_again; [lia|]. apply in_order_next, in_order_again; [lia|].
    apply in_order_again; [lia|]. apply in_order_next, in_order_nil.
  - simpl. lia.
  - reflexivity.
  - exists s'. split; [exact Hs'|exact Hc].
Defined.

(** ** The todo read model *)

Definition read_list : TodoList := mkTodoList id1 1 [] 5 5.

Lemma Project_agrees_with_ApplyEvent_witness :
  exists model', Todo.Project time_now bg ev2 read_list = inl (Some model') /\
    list_Items model' = [mkItem 0 "milk" false] /\ list_Version model' = 1 + 1 /\
    list_ID model' = id1.
Proof.
  apply (Project_agrees_with_ApplyEvent time_now bg ev2 (mkAggregate true 0 []) the_list read_list).
  - reflexivity.
  - discriminate.
  - reflexivity.
  - reflexivity.
  - vm_compute. split; discriminate.
Defined.

Definition created_again : event := mkEvent Created ANil 9 Todo.AggregateType id1 5 None.

Lemma recreated_list_stays_removed_witness :
  exists s' err,
    HandleEvent (H0 := todo_Projector time_now)
      (NewEventHandler [SetEntityFactory (Some (fun _ => new_TodoList))])
      demo_repo 0 (fun r => r) bg (Some created_again) r_empty = (Err err, s') /\
    errors_Is err ErrModelRemoved = true /\ entities s' !! id1 = None.
Proof.
  destruct (recreated_list_stays_removed time_now demo_repo 0 (fun r => r) bg created_again the_list
    r_empty _ eq_refl) as (_ & s' & Hs' & Hn).
  - reflexivity.
  - reflexivity.
  - exact r_empty_ok.
  - reflexivity.
  - eexists s', _. split; [exact Hs'|]. split; [reflexivity|exact Hn].
Defined.
