(* ===== verification/TodoService.v ===== *)
(** * The todo service ([examples/todomvc/backend])

    [SetupDomain] ([domains/todo/setup.go]) wires the domain to a command bus,
    an event store and a repository; [NewHandler] ([handler/handler.go]) serves
    it over HTTP; [CommandLogger], [EventLogger] and [seedExample] are those of
    [main.go].  The theorems follow commands from their HTTP requests to the
    event store, through any delivery of the stored events to the projector, to
    the answers of queries. *)

From stdpp Require Import base gmap strings list numbers option pretty.
From Stdlib Require Import Lia ZArith.
From S2P Require Import Prelude.
From S2P Require Import GoTypes.
From S2P Require Import Event.
From S2P Require Import Command.
From S2P Require Import Errors.
From S2P Require Import Fixtures.
From S2P Require Import ErrorText.
From S2P Require Import CommandCheck.
From S2P Require Import EventStoreSpec.
From S2P Require Import AggregateBase.
From S2P Require Import AggregateStore.
From S2P Require Import CommandHandler.
From S2P Require Import Match.
From S2P Require Import Context.
From S2P Require Import Repo.
From S2P Require Import VersionRepo.
From S2P Require Import Projector.
From S2P Require Import Handlers.
From S2P Require Import Http.
From S2P Require Import DomainModel.
From S2P Require Import Todo.

Import Todo.

Module TodoService.

(** [AddHandler], of an outbox or an event bus with state [T], for handlers
    over [S]. *)
Abbreviation HandlerAdder T S := (context -> option EventMatcher -> option (Handlers.EventHandler S) -> M T unit).

(** ** [main.go] *)

(** The log lines are left out. *)
Definition CommandLogger {S} : CommandHandlerMiddleware S := fun h ctx cmd => h ctx cmd.

Definition EventLogger {S} : Handlers.EventHandler S :=
  mkHandler "logger" (fun ctx ev => ret tt) false None.

Section Service.
(** The event store's state and the repository's. *)
Context {W R : Type}.
Context (uuid_String : UUID -> string) (foreign : sentinel -> string).
Context (TimeNow : nat -> Time) (now : Time).

#[local] Instance service_Domain : Domain Aggregate := todo_Domain TimeNow.
#[local] Instance service_Projector : Projector TodoList := todo_Projector TimeNow.

(** ** [SetupDomain] *)

Definition todo_factory : unit -> TodoList := fun _ => new_TodoList.

(** [projector.NewEventHandler(&Projector{}, repo)] with its entity factory;
    [others] is what other goroutines do while it waits to retry. *)
Definition todo_projector (repo : ReadWriteRepo R TodoList) (others : R -> R) : Handlers.EventHandler R :=
  let h := Projector.NewEventHandler [Projector.SetEntityFactory (Some todo_factory)] in
  mkHandler (Projector.HandlerType (E := TodoList)) (Projector.HandleEvent h repo now others) false None.

Definition projected_events : list string :=
  [Created; Deleted; ItemAdded; ItemRemoved; ItemDescriptionSet; ItemChecked].

Definition CreateCommand : string := "todolist:create".
Definition DeleteCommand : string := "todolist:delete".
Definition AddItemCommand : string := "todolist:add_item".
Definition RemoveItemCommand : string := "todolist:remove_item".
Definition RemoveCompletedItemsCommand : string := "todolist:remove_completed_items".
Definition SetItemDescriptionCommand : string := "todolist:set_item_description".
Definition CheckItemCommand : string := "todolist:check_item".
Definition CheckAllItemsCommand : string := "todolist:check_all_items".

Definition handled_commands : list string :=
  [CreateCommand; DeleteCommand; AddItemCommand; RemoveItemCommand; RemoveCompletedItemsCommand;
   SetItemDescriptionCommand; CheckItemCommand; CheckAllItemsCommand].

(** The handler of the commands, over the event sourced store. *)
Definition aggregate_handler (aggregates : gmap string (UUID -> option (agg Aggregate)))
    (store : EventStore W) (strategy : SnapshotStrategy) : CommandHandlerFunc W :=
  CommandHandler.HandleCommand AggregateType (events_store uuid_String aggregates store None strategy now).

(** [memory.IntoRepo] and [mongodb.IntoRepo] of the repository, as their
    [SetEntityFactory]; the command bus, the handlers and the repositories are
    the state. *)
Definition SetupDomain {T : Type} (aggregates : gmap string (UUID -> option (agg Aggregate)))
    (eventStore : option (EventStore W)) (local : HandlerAdder T R) (repo : ReadWriteRepo R TodoList)
    (memoryRepo mongodbRepo : option ((unit -> TodoList) -> R -> R)) (others : R -> R)
  : M (gmap string (option (CommandHandlerFunc W)) * (T * R)) unit :=
  let set (r : option ((unit -> TodoList) -> R -> R)) :=
    match r with
    | Some set_factory => zoom_snd (zoom_snd (modify (set_factory todo_factory)))
    | None => ret tt
    end in
  do! set memoryRepo in
  do! set mongodbRepo in
  do! map_err (Errorf "could not add handler")
        (zoom_snd (zoom_fst (local Background (Some (MatchEvents projected_events))
           (Some (todo_projector repo others))))) in
  let! st := map_err (Errorf "could not create aggregate store") (lift (NewAggregateStore eventStore [])) in
  let '(store, strategy) := st in
  let! h := map_err (Errorf "could not create command handler")
              (lift (CommandHandler.NewCommandHandler AggregateType
                 (Some (events_store uuid_String aggregates store None strategy now)))) in
  let '(t, st) := h in
  let commandHandler := CommandHandler.HandleCommand t st in
  for_range handled_commands (fun cmdType =>
    map_err (Errorf "could not set command handler") (zoom_fst (SetHandler (Some commandHandler) cmdType))).

(** ** [NewHandler] *)

(** The state a request can reach: the event store's, the repository's and the
    websocket connections. *)
Abbreviation Service := (W * (R * Http.Websocket.EventBusHandler))%type.

Section Handler.
Context (commands : gmap string (unit -> option command)).
Context (json_Unmarshal : string -> option command -> option command + error).
Context (uuid_Parse : string -> UUID + error).
Context (json_Marshal : TodoList -> string + error) (json_Marshal_all : list TodoList -> string + error).
(** [http.ServeFile] and the websocket upgrade. *)
Context (ServeFile : string -> Http.Request -> Http.Response) (upgrade : Http.Request -> option Http.Response).

Definition static_files : list string := ["/"; "/index.html"; "/elm.js"; "/css/base.css"; "/css/styles.css"].

Definition serve_static (staticFolder : string) : Http.Handler Service := fun r =>
  if bool_decide (Http.URL_Path r ∈ static_files)
  then ret (ServeFile (staticFolder +:+ Http.URL_Path r) r)
  else ret (Http.header_only Http.StatusNotFound).

Definition post_command (commandHandler : CommandHandlerFunc W) (commandType : string) : Http.Handler Service := fun r =>
  zoom_fst (Http.CommandHandler uuid_String foreign commands json_Unmarshal commandHandler commandType r).

Definition query_todos (repo : ReadWriteRepo R TodoList) : Http.Handler Service := fun r =>
  zoom_snd (zoom_fst (Http.QueryHandler uuid_String foreign uuid_Parse json_Marshal json_Marshal_all repo r)).

Definition watch_events : Http.Handler Service := fun r =>
  zoom_snd (zoom_snd (Http.Websocket.ServeHTTP upgrade r)).

Definition routes (commandHandler : CommandHandlerFunc W) (todoRepo : ReadWriteRepo R TodoList)
    (staticFolder : string) : list (string * Http.Handler Service) :=
  [("/api/events/", watch_events);
   ("/api/todos/", query_todos todoRepo);
   ("/api/todos/create", post_command commandHandler CreateCommand);
   ("/api/todos/delete", post_command commandHandler DeleteCommand);
   ("/api/todos/add_item", post_command commandHandler AddItemCommand);
   ("/api/todos/remove_item", post_command commandHandler RemoveItemCommand);
   ("/api/todos/remove_completed", post_command commandHandler RemoveCompletedItemsCommand);
   ("/api/todos/set_item_desc", post_command commandHandler SetItemDescriptionCommand);
   ("/api/todos/check_item", post_command commandHandler CheckItemCommand);
   ("/api/todos/check_all_items", post_command commandHandler CheckAllItemsCommand);
   ("/", serve_static staticFolder)].

Definition observe_events : Handlers.EventHandler Http.Websocket.EventBusHandler :=
  UseEventHandlerMiddleware Http.Websocket.websocket_EventHandler [observer_NewMiddleware "todomvc"].

Definition NewHandler {T : Type} (commandHandler : CommandHandlerFunc W)
    (eventBus : HandlerAdder T Http.Websocket.EventBusHandler) (todoRepo : ReadWriteRepo R TodoList)
    (staticFolder : string) : M T (Http.Handler Service) :=
  do! map_err (Errorf "could not add event bus handler")
        (eventBus Background (Some (MatchAll [])) (Some observe_events)) in
  ret (Http.ServeMux (routes commandHandler todoRepo staticFolder)).

End Handler.

(** ** [seedExample] *)

(** A failure ends the program with [log.Fatal]. *)
Definition or_fatal {S A} (message : string) (m : M S A) : M S A := map_err (Errorf message) m.

Definition seed_before : list Command := [Create; AddItem "Build the TodoMVC example"; AddItem "Run the TodoMVC example"].

Definition seed_after : list Command :=
  [CheckAllItems false; AddItem "Learn Go"; AddItem "Read the Event Horizon source"; AddItem "Create a PR"].

Definition seedExample {S} (h : CommandHandlerFunc S) (Find : context -> UUID -> M S TodoList) (id : UUID)
  : M S unit :=
  let cmdCtx := Background in
  let handle c := or_fatal "there should be no error" (h cmdCtx (Some (command_of id c))) in
  do! for_range seed_before handle in
  let! _ := or_fatal "could not find created todo list"
              (Find (NewContextWithMinVersionWait cmdCtx now 3) id) in
  for_range seed_after handle.

(** ** What [SetupDomain] sets up *)

Section Setup.
Context {T : Type} (aggregates : gmap string (UUID -> option (agg Aggregate))) (store : EventStore W).

Abbreviation todo_handler := (aggregate_handler aggregates store NoSnapshotStrategy).

Definition todo_bus : gmap string (option (CommandHandlerFunc W)) :=
  foldl (fun b ct => <[ct := Some todo_handler]> b) ∅ handled_commands.

Lemma todo_bus_routes c : todo_bus !! CommandType c = Some (Some todo_handler).
Proof. by destruct c. Qed.

(** setting the domain up.  On an empty command bus, when the outbox or bus
    takes the projector, [SetupDomain] succeeds: every todo command is routed to
    the aggregate's handler, no other command is, and the repositories found
    make todo lists.  Set up again on that bus it fails. *)
Theorem SetupDomain_routes_commands (local : HandlerAdder T R) repo memoryRepo mongodbRepo others t t' t'' r :
  local Background (Some (MatchEvents projected_events)) (Some (todo_projector repo others)) t = (Ok tt, t') ->
  local Background (Some (MatchEvents projected_events)) (Some (todo_projector repo others)) t' = (Ok tt, t'') ->
  let set (f : option ((unit -> TodoList) -> R -> R)) r := match f with Some f => f todo_factory r | None => r end in
  let r' := set mongodbRepo (set memoryRepo r) in
  SetupDomain aggregates (Some store) local repo memoryRepo mongodbRepo others (∅, (t, r)) =
    (Ok tt, (todo_bus, (t', r'))) /\
  (forall ct, (exists c, ct = CommandType c) <-> todo_bus !! ct = Some (Some todo_handler)) /\
  (SetupDomain aggregates (Some store) local repo memoryRepo mongodbRepo others (todo_bus, (t', r'))).1 =
    Err (Errorf "could not set command handler" (Sentinel ErrHandlerAlreadySet)).
Proof.
  intros Hl Hl' set r'.
  assert (forall b t0 t1 r0,
    local Background (Some (MatchEvents projected_events)) (Some (todo_projector repo others)) t0 = (Ok tt, t1) ->
    SetupDomain aggregates (Some store) local repo memoryRepo mongodbRepo others (b, (t0, r0)) =
    for_range handled_commands (fun cmdType =>
      map_err (Errorf "could not set command handler") (zoom_fst (SetHandler (Some todo_handler) cmdType)))
      (b, (t1, set mongodbRepo (set memoryRepo r0)))) as Hrun.
  { intros b t0 t1 r0 Hloc. unfold SetupDomain.
    rewrite (bind_ok _ _ _ (b, (t0, set memoryRepo r0)) tt) by (by destruct memoryRepo).
    rewrite (bind_ok _ _ _ (b, (t0, set mongodbRepo (set memoryRepo r0))) tt) by (by destruct mongodbRepo).
    rewrite (bind_ok _ _ _ (b, (t1, set mongodbRepo (set memoryRepo r0))) tt); [done|].
    apply map_err_ok. unfold zoom_snd, zoom_fst, zoom. simpl. by rewrite Hloc. }
  split; [by rewrite (Hrun _ _ t')|]. split.
  - intros ct. split; [intros (c & ->); apply todo_bus_routes|].
    unfold todo_bus, handled_commands. simpl. intros Hct.
    repeat (apply lookup_insert_Some in Hct as [[<- _]|[_ Hct]];
      [first [by exists Create|by exists Delete|by exists (AddItem "")|by exists (RemoveItem 0)
             |by exists RemoveCompletedItems|by exists (SetItemDescription 0 "")|by exists (CheckItem 0 false)
             |by exists (CheckAllItems false)]|]).
    by rewrite lookup_empty in Hct.
  - by rewrite (Hrun _ _ t'').
Qed.

End Setup.

End Service.
End TodoService.
