(* ===== verification/TodoServiceSpec.v ===== *)
(** * What the todo service does, from request to query

    Over any event store and any repository that keep their contracts: POSTed
    commands are answered 200 or 400 as the domain allows them and leave a
    stream that represents their effect ([serves]); once the projector has been
    given the stream, in order and at least once, a GET of the list answers with
    the items the commands amount to, or, for a list that was deleted, that there
    is none, even when it was created again ([todo_service_end_to_end]). *)

From stdpp Require Import base gmap strings list numbers option pretty.
From Stdlib Require Import Lia ZArith.
From S2P Require Import Prelude.
From S2P Require Import GoTypes.
From S2P Require Import Event.
From S2P Require Import Command.
From S2P Require Import Errors.
From S2P Require Import Fixtures.
From S2P Require Import ErrorText.
From S2P Require Import CommandCheck.
From S2P Require Import EventStoreSpec.
From S2P Require Import AggregateBase.
From S2P Require Import AggregateStore.
From S2P Require Import CommandHandler.
From S2P Require Import Match.
From S2P Require Import Context.
From S2P Require Import Repo.
From S2P Require Import Projector.
From S2P Require Import Handlers.
From S2P Require Import Http.
From S2P Require Import DomainModel.
From S2P Require Import Todo.
From S2P Require Import TodoService.

Import Todo.
Import TodoService.TodoService.
Import ErrorText.

Module TodoServiceSpec.

(** ** What the commands amount to *)

(** The events of a list that is never deleted: its creation comes first. *)
Definition ordinary (et : string) : Prop := et <> Created /\ et <> Deleted.

Definition well_shaped (evs : list event) (created : bool) : Prop :=
  match evs with
  | [] => created = false
  | e :: rest => created = true /\ eventType e = Created /\ Forall (fun e => ordinary (eventType e)) rest
  end.

Lemma emitted_ordinary c d :
  c <> Create -> c <> Delete -> Forall (fun s => ordinary s.1) (emitted c d).
Proof.
  intros Hc Hd. unfold ordinary. destruct c; try done; simpl; unfold removed_sigs, checked_sigs;
    try case_decide; rewrite ?Forall_fmap; repeat constructor; try done;
    apply Forall_true; by intros.
Qed.

Lemma effect_created c d : allowed c d -> c <> Delete -> created (effect c d) = true.
Proof. by destruct c; simpl; intros Ha Hd; try (destruct Ha as [Ha _]). Qed.

Lemma shape_append c d evs evs' :
  well_shaped evs (created d) -> allowed c d -> c <> Delete -> sig_of <$> evs' = emitted c d ->
  well_shaped (evs ++ evs') (created (effect c d)).
Proof.
  intros Hs Ha Hd He. rewrite effect_created by done.
  assert (c = Create \/ c <> Create) as [->|Hc] by (destruct c; [by left|by right..]).
  - simpl in Ha. rewrite Ha in Hs. destruct evs as [|e rest]; [|by destruct Hs].
    simpl in He. destruct evs' as [|e' [|? ?]]; try done. by injection He as Hty _.
  - assert (created d = true) as Hcr by (destruct c; simpl in Ha; [done|done|try (by destruct Ha); done..]).
    rewrite Hcr in Hs. destruct evs as [|e rest]; [done|]. destruct Hs as (_ & Hty & HF).
    split; [done|]. split; [done|]. apply Forall_app. split; [done|].
    pose proof (emitted_ordinary c d Hc Hd) as HF'. rewrite <- He, Forall_fmap in HF'. exact HF'.
Qed.

Definition is_delete (c : Command) : bool := match c with Delete => true | _ => false end.

Lemma deletion_shape d evs' : sig_of <$> evs' = emitted Delete d -> exists e, evs' = [e] /\ eventType e = Deleted.
Proof.
  destruct evs' as [|e [|e' evs']]; intros He; try done. exists e. split; [done|]. by injection He.
Qed.

(** A stream in which the list is deleted ([del]) or not: up to the first
    deletion it is well shaped; what follows can be anything, since a deleted
    list can be created again. *)
Definition shaped (del : bool) (evs : list event) (created : bool) : Prop :=
  if del then exists evs1 e rest, evs = evs1 ++ e :: rest /\ well_shaped evs1 true /\ eventType e = Deleted
  else well_shaped evs created.

Lemma shaped_append del c d evs evs' :
  shaped del evs (created d) -> allowed c d -> sig_of <$> evs' = emitted c d ->
  shaped (del || is_delete c) (evs ++ evs') (created (effect c d)).
Proof.
  intros Hs Ha He. destruct del.
  - destruct Hs as (evs1 & e & rest & -> & ? & ?). exists evs1, e, (rest ++ evs').
    by rewrite <- app_assoc.
  - destruct (is_delete c) eqn:Hc; [destruct c; try done|eapply shape_append; [done..|by intros ->|done]].
    destruct (deletion_shape d evs' He) as (e & -> & Hty). simpl in Ha. simpl in Hs. rewrite Ha in Hs.
    by exists evs, e, [].
Qed.

Lemma effect_bounds c d :
  0 <= nextItemID d ->
  nextItemID d <= nextItemID (effect c d) <= nextItemID d + 1 /\ len (items (effect c d)) <= len (items d) + 1.
Proof.
  intros Hn. pose proof (len_nonneg (items d)).
  destruct c; simpl; unfold describe_item, check_item, update_item; autorewrite with len; try (split; lia);
    match goal with |- context [filter ?P (items d)] => pose proof (len_filter P (items d)) end; split; lia.
Qed.

Section Reading.
Context (TimeNow : nat -> Time).

#[local] Instance reading_Domain : Domain Aggregate := todo_Domain TimeNow.
#[local] Instance reading_Projector : Projector TodoList := todo_Projector TimeNow.

(** ** The read model of a stream *)

(** Projecting events one after the other. *)
Fixpoint project_all (evs : list event) (l : TodoList) : option TodoList :=
  match evs with
  | [] => Some l
  | e :: evs =>
      match Todo.Project TimeNow Background e l with
      | inl (Some l') => project_all evs l'
      | _ => None
      end
  end.

Lemma project_all_app evs evs' l : project_all (evs ++ evs') l = project_all evs l ≫= project_all evs'.
Proof.
  revert l. induction evs as [|e evs IH]; intros l; [done|]. simpl.
  destruct (Todo.Project _ _ e l) as [[l'|]|]; [apply IH|done..].
Qed.

Lemma replay_cons ctx e evs (a a' : agg Aggregate) :
  replay ctx (e :: evs) a = Some a' ->
  exists d, ApplyEvent ctx e (agg_dom a) = (d, None) /\
    replay ctx evs (a_SetAggregateVersion (version e) (mkAgg (agg_base a) d)) = Some a'.
Proof.
  destruct a as [b d]. cbn [replay a_ApplyEvent agg_Aggregate agg_base agg_dom].
  change (dom_ApplyEvent ctx e d) with (ApplyEvent ctx e d).
  destruct (ApplyEvent ctx e d) as [d' [err|]]; [done|]. intros Hr. by exists d'.
Qed.

Lemma project_ordinary evs a a' l :
  replay Background evs a = Some a' -> Forall (fun e => ordinary (eventType e)) evs ->
  list_Items l = items (agg_dom a) -> 0 <= list_Version l -> is_int (list_Version l + len evs) ->
  exists l', project_all evs l = Some l' /\ list_Items l' = items (agg_dom a') /\
    list_Version l' = list_Version l + len evs /\ list_ID l' = list_ID l.
Proof.
  revert a l. induction evs as [|e evs IH]; intros a l Hr HF Hi Hv Hint.
  { simpl in Hr. simplify_eq. exists l. rewrite len_nil. by split_and!; [..|lia|]. }
  apply Forall_cons in HF as [[Hc Hd] HF]. apply replay_cons in Hr as (d & Ha & Hr).
  rewrite len_cons in Hint.
  destruct (Project_agrees TimeNow Background e (agg_dom a) d l Ha Hd) as (l1 & Hp & Hi1 & Hv1 & Hid1);
    [done|done|int_lia|].
  destruct (IH _ l1 Hr HF) as (l' & Hp' & Hi' & Hv' & Hid'); [done|lia|rewrite Hv1; int_lia|].
  exists l'. simpl. rewrite Hp. rewrite decide_False in Hid1 by done. rewrite len_cons.
  split_and!; [done..|lia|congruence].
Qed.

Lemma project_stream id evs b a' :
  replay Background evs (new_aggregate id) = Some a' -> serial id 0 evs -> well_shaped evs b ->
  is_int (len evs) ->
  exists l, project_all evs new_TodoList = Some l /\ list_Items l = items (agg_dom a') /\
    list_Version l = len evs /\ (evs <> [] -> list_ID l = id).
Proof.
  intros Hr Hs Hsh Hint. destruct evs as [|e evs].
  { simpl in Hr. simplify_eq. by exists new_TodoList. }
  destruct Hsh as (_ & Hty & HF). apply replay_cons in Hr as (d & Ha & Hr). destruct Hs as (Hid & _).
  rewrite len_cons in Hint.
  destruct (Project_agrees TimeNow Background e NewAggregate d new_TodoList Ha) as (l1 & Hp & Hi1 & Hv1 & Hid1);
    [by rewrite Hty|done|done|by vm_compute|].
  destruct (project_ordinary evs _ a' l1 Hr HF) as (l & Hpl & Hi & Hv & Hidl);
    [done|rewrite Hv1; simpl; lia|rewrite Hv1; simpl; int_lia|].
  exists l. simpl. rewrite Hp. rewrite decide_True in Hid1 by done. rewrite len_cons.
  split_and!; [done..|rewrite Hv, Hv1; simpl; lia|congruence].
Qed.

(** The model after [k] events. *)
Definition model_at (evs : list event) (k : nat) : TodoList :=
  default new_TodoList (project_all (take k evs) new_TodoList).

Lemma well_shaped_take evs b k : well_shaped evs b -> exists b', well_shaped (take k evs) b'.
Proof.
  destruct k as [|k]; [by exists false|]. destruct evs as [|e evs]; [by exists false|].
  intros (_ & ? & ?). exists true. simpl. split_and!; [done..|]. by apply Forall_take.
Qed.

Lemma project_prefix id evs b a' k :
  replay Background evs (new_aggregate id) = Some a' -> serial id 0 evs -> well_shaped evs b ->
  is_int (len evs) -> (k <= length evs)%nat ->
  project_all (take k evs) new_TodoList = Some (model_at evs k) /\
  list_Version (model_at evs k) = Z.of_nat k /\ ((0 < k)%nat -> list_ID (model_at evs k) = id) /\
  (k = length evs -> list_Items (model_at evs k) = items (agg_dom a')).
Proof.
  intros Hr Hs Hsh Hint Hk.
  assert (len (take k evs) = Z.of_nat k) as Hlen by (unfold len; rewrite length_take; lia).
  rewrite <- (take_drop k evs), replay_app in Hr. apply bind_Some in Hr as (a1 & Hr1 & Hr2).
  destruct (well_shaped_take evs b k Hsh) as (b' & Hsh').
  pose proof Hs as Hs'. rewrite <- (take_drop k evs) in Hs'. apply serial_app in Hs' as [Hs1 _].
  destruct (project_stream id (take k evs) b' a1 Hr1 Hs1 Hsh') as (l & Hp & Hi & Hv & Hid).
  { rewrite Hlen. unfold len, is_int, MinInt, MaxInt in *. lia. }
  unfold model_at. rewrite Hp. simpl. split_and!; [done|congruence| |].
  - intros Hpos. apply Hid. intros Hnil. rewrite Hnil in Hlen. rewrite len_nil in Hlen. lia.
  - intros ->. rewrite drop_all in Hr2. simpl in Hr2. by simplify_eq.
Qed.

Context {R : Type} (now : Time) (repo : ReadWriteRepo R TodoList) `{!RepoLaws repo} (others : R -> R).

(** The projector on deliveries of a stream's events, by index. *)
Definition deliver (evs : list event) (ks : list nat) : M R unit :=
  for_range ks (fun k => Handlers.HandleEvent (todo_projector TimeNow now repo others) Background (evs !! k)).

(** Any in-order delivery of the whole stream, repetitions included, leaves the
    list the stream's aggregate has. *)
Lemma deliver_all id evs b a' ks r :
  replay Background evs (new_aggregate id) = Some a' -> serial id 0 evs -> well_shaped evs b ->
  is_int (len evs + 1) -> id <> Nil -> (forall l, keepable l) ->
  repo_ok r -> entities r !! id = None -> in_order 0 ks (length evs) ->
  exists r', deliver evs ks r = (Ok tt, r') /\ repo_ok r' /\
    (forall id', id' <> id -> entities r' !! id' = entities r !! id') /\
    (evs = [] -> entities r' !! id = None) /\
    (evs <> [] -> exists l, entities r' !! id = Some l /\
       list_ID l = id /\ list_Version l = len evs /\ list_Items l = items (agg_dom a')).
Proof.
  intros Hr Hs Hsh Hint Hnil Hkeep Hok Hnone Hord.
  assert (is_int (len evs)) as Hint' by int_lia.
  pose proof (fun k => project_prefix id evs b a' k Hr Hs Hsh Hint') as Hm.
  set (h := Projector.NewEventHandler [Projector.SetEntityFactory (Some todo_factory)]).
  destruct (delivered_at_least_once h repo now others Background id evs (model_at evs) 0 ks (length evs) r)
    as (r' & Hrun & Hok' & Hcur & Hoth); try done.
  - intros e (k & Hk)%list_elem_of_lookup. change (entityLookupFn h e) with (aggregateID e).
    by destruct (serial_lookup _ _ _ _ _ Hs Hk).
  - intros k Hk. destruct (Hm k Hk) as (_ & Hv & _). simpl. by rewrite Hv.
  - intros k e Hk. pose proof (lookup_lt_Some _ _ _ Hk).
    destruct (Hm k ltac:(lia)) as (Hp & _). destruct (Hm (S k) ltac:(lia)) as (Hp' & _).
    rewrite (take_S_r _ _ _ Hk), project_all_app, Hp in Hp'. simpl in Hp'.
    change (Todo.Project TimeNow Background e (model_at evs k) = inl (Some (model_at evs (S k)))).
    destruct (Todo.Project _ _ e _) as [[l|]|]; by simplify_eq.
  - intros k Hk. destruct (Hm k ltac:(lia)) as (_ & _ & Hid & _). split; [apply Hid; lia|apply Hkeep].
  - unfold current. by rewrite Hnone.
  - exists r'. split; [exact Hrun|]. split; [done|]. split; [done|].
    destruct (Hm (length evs) ltac:(lia)) as (_ & Hv & Hid & Hi). unfold current in Hcur. split.
    + intros ->. destruct (entities r' !! id) as [l|] eqn:Hl; [|done].
      pose proof (law_entity_id _ _ _ Hok' Hl) as Heid. injection Hcur as ->. by destruct Hnil.
    + intros Hne. destruct (entities r' !! id) as [l|] eqn:Hl.
      * injection Hcur as ->. exists (model_at evs (length evs)). split_and!; [done| |done|by apply Hi].
        apply Hid. destruct evs; [done|simpl; lia].
      * injection Hcur as Hcur. rewrite <- Hcur in Hv. destruct evs; [done|simpl in Hv; lia].
Qed.

(** Deliveries whose errors are dropped, as a bus drops them. *)
Definition deliver_each (evs : list event) (ks : list nat) (r : R) : R :=
  foldl (fun r k => (Handlers.HandleEvent (todo_projector TimeNow now repo others) Background (evs !! k) r).2) r ks.

Lemma deliver_app evs ks ks' r r1 :
  deliver evs ks r = (Ok tt, r1) -> deliver evs (ks ++ ks') r = deliver evs ks' r1.
Proof.
  revert r. induction ks as [|k ks IH]; intros r; [by intros [= ->]|].
  unfold deliver. cbn [app for_range]. intros ([] & r2 & H1 & H2)%bind_inv_ok.
  rewrite (bind_ok _ _ _ _ _ H1). by apply IH.
Qed.

Lemma deliver_prefix evs1 evs2 a ks : in_order a ks (length evs1) -> deliver (evs1 ++ evs2) ks = deliver evs1 ks.
Proof.
  assert (forall a l b, in_order a l b -> (a <= b)%nat) as Hmono by (induction 1; lia).
  unfold deliver. remember (length evs1) as n eqn:Hn. induction 1 as [m|m k ks n Hk Hord IH|m ks n Hord IH]; [done|..];
    pose proof (Hmono _ _ _ Hord); cbn [for_range]; rewrite IH by done; rewrite lookup_app_l by lia; done.
Qed.

(** A list that is deleted: once everything up to its deletion was delivered,
    in order and at least once, it is gone, and whatever comes later is refused
    and does not bring it back. *)
Lemma deliver_deleted id evs1 e rest a' ks js r :
  replay Background (evs1 ++ e :: rest) (new_aggregate id) = Some a' ->
  serial id 0 (evs1 ++ e :: rest) -> well_shaped evs1 true -> eventType e = Deleted ->
  is_int (len (evs1 ++ e :: rest) + 1) -> id <> Nil -> (forall l, keepable l) ->
  repo_ok r -> entities r !! id = None -> in_order 0 ks (length evs1) ->
  Forall (fun k => length evs1 < k)%nat js ->
  exists r', deliver (evs1 ++ e :: rest) (ks ++ [length evs1]) r = (Ok tt, r') /\
    let r2 := deliver_each (evs1 ++ e :: rest) js r' in
    repo_ok r2 /\ entities r2 !! id = None /\
    (forall id', id' <> id -> entities r2 !! id' = entities r !! id').
Proof.
  intros Hr Hs Hsh Hty Hint Hnil Hkeep Hok Hnone Hks Hjs. set (evs := evs1 ++ e :: rest) in *.
  pose proof (len_nonneg evs1). pose proof (len_nonneg rest).
  assert (len evs = len evs1 + 1 + len rest) as Hlen by (unfold evs; rewrite len_app, len_cons; lia).
  pose proof Hr as Hr1. unfold evs in Hr1. rewrite replay_app in Hr1. apply bind_Some in Hr1 as (a1 & Hr1 & _).
  pose proof Hs as Hs1. unfold evs in Hs1. apply serial_app in Hs1 as [Hs1 (Hide & Hve & _)].
  destruct (deliver_all id evs1 true a1 ks r Hr1 Hs1 Hsh) as (r1 & Hd & Hok1 & Hoth1 & _ & Hsome); try done.
  { unfold is_int, MinInt, MaxInt in *. lia. }
  destruct Hsome as (l & Hl & _ & Hv & _); [by destruct evs1|].
  set (h := Projector.NewEventHandler [Projector.SetEntityFactory (Some todo_factory)]).
  destruct (handle_next h repo now others Background e r1 l None 0) as (r2 & Hh & Hok2 & He2).
  { done. }
  { unfold current. change (entityLookupFn h e) with (aggregateID e). by rewrite Hide, Hl. }
  { intros v. simpl. rewrite Hv. intros [= <-]. split; [lia|]. unfold is_int, MinInt, MaxInt in *. lia. }
  { simpl. unfold Todo.Project, project_switch. by rewrite Hty. }
  { unfold acceptable. change (entityLookupFn h e) with (aggregateID e). rewrite Hide, Hl. by eexists. }
  change (entityLookupFn h e) with (aggregateID e) in He2. rewrite Hide in He2. simpl in He2.
  exists r2. split.
  { rewrite (deliver_app _ _ _ r r1); [|unfold evs; by rewrite (deliver_prefix _ _ 0)].
    unfold deliver. cbn [for_range]. unfold evs. rewrite lookup_app_r, Nat.sub_diag by lia.
    change ((e :: rest) !! 0%nat) with (Some e). by rewrite (bind_ok _ _ r1 r2 tt). }
  assert (entities r2 !! id = None) as Hn2 by (rewrite He2; apply lookup_delete_eq).
  assert (forall id', id' <> id -> entities r2 !! id' = entities r !! id') as Hoth2
    by (intros; rewrite He2, lookup_delete_ne by done; by apply Hoth1).
  clear Hd Hok1 Hoth1 Hl Hv Hh He2. revert r2 Hok2 Hn2 Hoth2.
  induction Hjs as [|k js Hk Hjs IH]; intros r2 Hok2 Hn2 Hoth2; [done|]. cbn zeta.
  change (deliver_each evs (k :: js) r2) with (deliver_each evs js
    (Handlers.HandleEvent (todo_projector TimeNow now repo others) Background (evs !! k) r2).2).
  destruct (evs !! k) as [e'|] eqn:Hek; [|by apply IH].
  destruct (serial_lookup _ _ _ _ _ Hs Hek) as [Hid' Hv'].
  destruct (HandleEvent_future h repo now others Background e' r2 new_TodoList 0) as (r3 & Hh3 & Hok3 & He3).
  { done. }
  { unfold current. change (entityLookupFn h e') with (aggregateID e'). by rewrite Hid', Hn2. }
  1, 2, 4, 5: done.
  { rewrite Hv'. unfold len in *. destruct evs1; [done|simpl in Hk; lia]. }
  assert (Handlers.HandleEvent (todo_projector TimeNow now repo others) Background (Some e') r2 = (_, r3))
    as -> by exact Hh3.
  cbn [snd]. apply IH; [done|by rewrite He3|intros; rewrite He3; by apply Hoth2].
Qed.

End Reading.

(** ** Requests *)

Definition route_of (c : Command) : string :=
  match c with
  | Create => "/api/todos/create"
  | Delete => "/api/todos/delete"
  | AddItem _ => "/api/todos/add_item"
  | RemoveItem _ => "/api/todos/remove_item"
  | RemoveCompletedItems => "/api/todos/remove_completed"
  | SetItemDescription _ _ => "/api/todos/set_item_desc"
  | CheckItem _ _ => "/api/todos/check_item"
  | CheckAllItems _ => "/api/todos/check_all_items"
  end.

(** Whether the service accepts a command: it is complete and allowed. *)
Definition accepts (id : UUID) (c : Command) (d : Aggregate) : bool :=
  match CheckCommand (Some (command_of id c)) with
  | None => bool_decide (allowed c d)
  | Some _ => false
  end.

Definition next (id : UUID) (d : Aggregate) (c : Command) : Aggregate :=
  if accepts id c d then effect c d else d.

(** The list the commands amount to, and the answers. *)
Definition final (id : UUID) (cs : list Command) (d : Aggregate) : Aggregate := foldl (next id) d cs.

Fixpoint statuses (id : UUID) (cs : list Command) (d : Aggregate) : list Z :=
  match cs with
  | [] => []
  | c :: cs => (if accepts id c d then Http.StatusOK else Http.StatusBadRequest) :: statuses id cs (next id d c)
  end.

(** Whether an accepted command deletes the list. *)
Fixpoint deletes (id : UUID) (cs : list Command) (d : Aggregate) : bool :=
  match cs with
  | [] => false
  | c :: cs => (accepts id c d && is_delete c) || deletes id cs (next id d c)
  end.

Lemma CheckCommand_printable cmd err : CheckCommand cmd = Some err -> printable err.
Proof.
  destruct cmd as [c|]; simpl; [|by intros [= <-]]. case_bool_decide; [by intros [= <-]|].
  induction (fields c) as [|f fs IH]; simpl; [done|]. repeat case_bool_decide; try exact IH.
  destruct (field_zero f); [by intros [= <-]|exact IH].
Qed.

Section Serving.
Context {W R : Type} (uuid_String : UUID -> string) (foreign : sentinel -> string).
Context (TimeNow : nat -> Time) (now : Time).
Context (aggregates : gmap string (UUID -> option (agg Aggregate))) (store : EventStore W) `{!EventStoreLaws store}.
Context (repo : ReadWriteRepo R TodoList) `{!RepoLaws repo} (others : R -> R).
Context (commands : gmap string (unit -> option command)).
Context (json_Unmarshal : string -> option command -> option command + error).
Context (uuid_Parse : string -> UUID + error).
Context (json_Marshal : TodoList -> string + error) (json_Marshal_all : list TodoList -> string + error).
Context (ServeFile : string -> Http.Request -> Http.Response) (upgrade : Http.Request -> option Http.Response).
Context (staticFolder : string) (text : UUID -> Command -> string).
(** The aggregate is registered, its events can be kept, and commands decode
    from their text. *)
Context (Hagg : aggregates !! AggregateType = Some (fun id => Some (new_aggregate id))).
Context (Hstorable : forall e, todo_event e -> storable e).
Context (Htext : forall id c, exists factory, commands !! CommandType c = Some factory /\
  json_Unmarshal (text id c) (factory tt) = inl (Some (command_of id c))).

#[local] Instance serving_Domain : Domain Aggregate := todo_Domain TimeNow.
#[local] Instance serving_AppliesBySig : AppliesBySig Aggregate := todo_AppliesBySig TimeNow.
#[local] Instance serving_CommandSpec : CommandSpec Aggregate Command := todo_CommandSpec TimeNow.

Abbreviation bus := (bus_HandleCommand (todo_bus uuid_String TimeNow now aggregates store)).
Abbreviation todo_handler := (aggregate_handler uuid_String TimeNow now aggregates store NoSnapshotStrategy).

(** The handler [NewHandler] returns for the bus that [SetupDomain] filled. *)
Definition service : Http.Handler (W * (R * Http.Websocket.EventBusHandler)) :=
  Http.ServeMux (routes uuid_String foreign commands json_Unmarshal uuid_Parse json_Marshal json_Marshal_all
    ServeFile upgrade bus repo staticFolder).

Definition post (id : UUID) (c : Command) : Http.Request :=
  Http.mkRequest Http.MethodPost (route_of c) (inl (text id c)) Background.

Lemma service_post id c (w : W) rx :
  service (post id c) (w, rx) =
  (Http.command_answer uuid_String foreign (bus Background (Some (command_of id c)) w).1,
   ((bus Background (Some (command_of id c)) w).2, rx)).
Proof.
  destruct (Htext id c) as (factory & Hf & Hj).
  assert (service (post id c) = zoom_fst (Http.CommandHandler uuid_String foreign commands json_Unmarshal bus
    (CommandType c) (post id c))) as -> by (by destruct c).
  unfold zoom_fst, zoom. cbn [fst snd].
  by rewrite (Http.CommandHandler_decoded uuid_String foreign commands json_Unmarshal bus (CommandType c)
    (post id c) factory (text id c) (Some (command_of id c)) w).
Qed.

Lemma bus_handles id c (w : W) :
  bus Background (Some (command_of id c)) w =
  match CheckCommand (Some (command_of id c)) with
  | Some err => (Err err, w)
  | None => todo_handler Background (Some (command_of id c)) w
  end.
Proof.
  unfold bus_HandleCommand, ctx_check, check_error. simpl ctx_err.
  rewrite (bind_ok _ _ w w tt) by done. destruct (CheckCommand _) as [err|]; [done|].
  rewrite (bind_ok _ _ w w tt), (bind_ok _ _ w w (command_of id c)) by done.
  change (Command.CommandType (command_of id c)) with (CommandType c).
  rewrite todo_bus_routes. by rewrite (bind_ok _ _ w w todo_handler).
Qed.

(** ** The write side *)

(** The stream of [id] after [k] of [n] commands: it represents the list [d],
    which was deleted in between or not ([del]), with room for the rest. *)
Record serves (id : UUID) (n k : Z) (w : W) (d : Aggregate) (del : bool) : Prop := mkServes {
  sv_rep : represents TimeNow Background w id d;
  sv_items : items_ok d;
  sv_next : 0 <= nextItemID d <= k;
  sv_len : len (items d) <= k;
  sv_stream : len (stream w id) <= k * (k + 1);
  sv_room : holds w (n * (n + 1) - len (stream w id));
  sv_shape : shaped del (stream w id) (created d)
}.

Lemma serves_later id n k w w' d del :
  0 <= k -> serves id n k w d del -> unchanged 0 w w' -> serves id n (k + 1) w' d del.
Proof.
  intros Hk [Hrep Hi Hn Hl Hs Hr Hsh] Hu. pose proof Hrep as (Hok & Hty & Hre).
  destruct (law_unchanged 0 w w' Hok Hu) as (Hok' & Hstr & Hh).
  split; rewrite ?Hstr; try done; try lia; [|apply Hh; by rewrite Z.add_0_l].
  split; [done|]. by rewrite Hstr.
Qed.

Lemma serves_step id n k w d del c :
  serves id n k w d del -> 0 <= k < n -> n <= 2 ^ 31 ->
  exists o w', bus Background (Some (command_of id c)) w = (o, w') /\
    serves id n (k + 1) w' (next id d c) (del || (accepts id c d && is_delete c)) /\
    (forall id', id' <> id -> stream w' id' = stream w id') /\
    (if accepts id c d then o = Ok tt else exists err, o = Err err /\ printable err).
Proof.
  intros Hsv Hk Hmax. pose proof Hsv as [Hrep Hi Hn Hl Hs Hr Hsh]. rewrite bus_handles.
  unfold next, accepts. destruct (CheckCommand _) as [err|] eqn:Hc.
  { exists (Err err), w. split; [done|]. split; [|split; [done|]].
    - rewrite orb_false_r. apply (serves_later id n k w w d); [lia|done|apply law_unchanged_refl].
    - exists err. split; [done|by eapply CheckCommand_printable]. }
  pose proof (emitted_len c d) as Hem. pose proof (len_nonneg (stream w id)). pose proof (len_nonneg (items d)).
  pose proof (len_nonneg (emitted c d)).
  assert (is_int (nextItemID d + 1)) as Hint by (unfold is_int, MinInt, MaxInt; lia).
  assert (is_int (len (stream w id) + spec_size d)) as Hroom.
  { simpl. assert (k * (k + 1) <= 2 ^ 31 * 2 ^ 31) by nia. unfold is_int, MinInt, MaxInt. lia. }
  assert (holds w (len (emitted c d) + (n * (n + 1) - len (stream w id) - len (emitted c d)))) as Hh
    by (by replace (_ + (_ - _ - _)) with (n * (n + 1) - len (stream w id)) by lia).
  assert (0 <= n * (n + 1) - len (stream w id) - len (emitted c d)) as Hleft by nia.
  pose proof (domain_handler_appends uuid_String aggregates store NoSnapshotStrategy now Background w id c d
    Hagg (fun e He => Hstorable e (ex_intro _ c (ex_intro _ d He))) eq_refl Hc Hrep (conj Hi Hint) Hroom
    (law_holds_le _ _ _ Hh Hleft)) as Hrun.
  change (CommandHandler.HandleCommand spec_type _ Background (Some (spec_command id c)))
    with (todo_handler Background (Some (command_of id c))) in Hrun.
  destruct (todo_handler Background _ w) as [o w'] eqn:Hw. destruct Hrun as [Hoth Hrun].
  exists o, w'. split; [done|]. change (spec_allowed c d) with (allowed c d) in Hrun.
  case_bool_decide as Ha; [rewrite decide_True in Hrun by done|rewrite decide_False in Hrun by done].
  - destruct Hrun as (-> & Hrep' & (evs & Hstr & Hsig) & Hm). simpl in Hsig, Hm.
    assert (len evs = len (emitted c d)) as Hlen by (by rewrite <- Hsig, len_fmap).
    pose proof (effect_bounds c d (proj1 Hn)) as [He1 He2].
    split; [|done]. split; rewrite ?Hstr, ?len_app, ?Hlen; try lia; try done.
    + apply effect_items_ok; [lia|done].
    + replace (n * (n + 1) - (len (stream w id) + len (emitted c d)))
        with (n * (n + 1) - len (stream w id) - len (emitted c d)) by lia. by apply Hm.
    + rewrite andb_true_l. by apply shaped_append.
  - rewrite andb_false_l, orb_false_r. destruct Hrun as ((err & -> & Hp) & Hu). split; [apply (serves_later id n k w w' d); [lia|done|done]|].
    split; [done|]. by exists (AggregateError err).
Qed.

(** Serving requests one after the other: the answers' statuses. *)
Fixpoint serve_all (rs : list Http.Request) : M (W * (R * Http.Websocket.EventBusHandler)) (list Z) :=
  match rs with
  | [] => ret []
  | r :: rs =>
      let! resp := service r in
      let! rest := serve_all rs in
      ret (Http.status resp :: rest)
  end.

Lemma serves_all id n k w d del cs rx :
  serves id n k w d del -> 0 <= k -> k + len cs = n -> n <= 2 ^ 31 ->
  exists w', serve_all (post id <$> cs) (w, rx) = (Ok (statuses id cs d), (w', rx)) /\
    serves id n n w' (final id cs d) (del || deletes id cs d) /\ (forall id', id' <> id -> stream w' id' = stream w id').
Proof.
  revert k w d del. induction cs as [|c cs IH]; intros k w d del Hsv Hk Hn Hmax.
  { rewrite len_nil, Z.add_0_r in Hn. subst. rewrite orb_false_r. by exists w. }
  rewrite len_cons in Hn. pose proof (len_nonneg cs).
  destruct (serves_step id n k w d del c Hsv ltac:(lia) Hmax) as (o & w1 & Hb & Hsv1 & Hoth & Ho).
  destruct (IH (k + 1) w1 (next id d c) _ Hsv1 ltac:(lia) ltac:(lia) Hmax) as (w' & Hrun & Hsv' & Hoth').
  rewrite <- orb_assoc in Hsv'.
  exists w'. split; [|split; [done|intros; by rewrite Hoth', Hoth]].
  rewrite fmap_cons. simpl. pose proof (service_post id c w rx) as Hp. rewrite Hb in Hp. simpl in Hp.
  destruct (accepts id c d) eqn:Hacc.
  - subst o. rewrite (bind_ok _ _ _ (w1, rx) (Http.header_only Http.StatusOK)) by done.
    by rewrite (bind_ok _ _ _ _ _ Hrun).
  - destruct Ho as (err & -> & (t & Ht)%(printable_text uuid_String foreign)). simpl in Hp. rewrite Ht in Hp.
    rewrite (bind_ok _ _ _ _ _ Hp). by rewrite (bind_ok _ _ _ _ _ Hrun).
Qed.

(** ** The read side *)

Context (Hkeep : forall l : TodoList, keepable l) (Hjson : forall l, exists b, json_Marshal l = inl b).

Definition get (id : UUID) : Http.Request :=
  Http.mkRequest Http.MethodGet ("/api/todos/" +:+ uuid_String id) (inl "") Background.

(** What is relied on of an ID's text: it parses back, and it has the length and
    the characters of a UUID. *)
Record text_ok (id : UUID) : Prop := mkTextOk {
  tx_parse : uuid_Parse (uuid_String id) = inl id;
  tx_length : String.length (uuid_String id) = 36%nat;
  tx_slash : Http.has_slash (uuid_String id) = false
}.

(** It is routed to the queries: it is longer than every pattern. *)
Lemma service_get_routed id :
  text_ok id ->
  service (get id) = zoom_snd (zoom_fst (Http.QueryHandler uuid_String foreign uuid_Parse json_Marshal
    json_Marshal_all repo (get id))).
Proof.
  intros [_ Hlen Hs]. unfold service, Http.ServeMux, Http.mux_route.
  change (Http.URL_Path (get id)) with ("/api/todos/" +:+ uuid_String id).
  rewrite (Http.cleanPath_file "/api/todos/" ["api"; "todos"]);
    [|done|done|by repeat constructor|apply Http.plain_long; [done|lia]].
  rewrite !Http.exact_route_long, bool_decide_true.
  - reflexivity.
  - done.
  - rewrite !string_length_app, Hlen. repeat constructor; simpl; lia.
  - rewrite string_length_app, Hlen. repeat constructor; simpl; lia.
Qed.

Lemma service_get id w r x :
  text_ok id -> repo_ok r ->
  exists resp r', service (get id) (w, (r, x)) = (Ok resp, (w, (r', x))) /\
    repo_ok r' /\ entities r' = entities r /\
    match entities r !! id with
    | Some l => exists b, json_Marshal l = inl b /\ resp = Http.mkResponse Http.StatusOK "application/json" b
    | None => resp = Http.http_Error "could not find item" Http.StatusNotFound
    end.
Proof.
  intros Htx Hok. rewrite service_get_routed by done. destruct Htx as [Hp Hlen Hs].
  assert (uuid_String id <> "") as Hne by (intros Heq; by rewrite Heq in Hlen).
  assert (forall resp r', Http.QueryHandler uuid_String foreign uuid_Parse json_Marshal json_Marshal_all repo
      (get id) r = (Ok resp, r') ->
    zoom_snd (zoom_fst (Http.QueryHandler uuid_String foreign uuid_Parse json_Marshal json_Marshal_all repo
      (get id))) (w, (r, x)) = (Ok resp, (w, (r', x)))) as Hzoom.
  { intros resp r' Hq. unfold zoom_snd, zoom_fst, zoom. simpl. by rewrite Hq. }
  assert (Http.path_file (Http.URL_Path (get id)) = uuid_String id) as Hf'
    by (apply (Http.path_file_app "/api/todos/" ["api"; "todos"]); by repeat constructor).
  destruct (entities r !! id) as [l|] eqn:Hl.
  - destruct (Hjson l) as (b & Hb).
    destruct (Http.QueryHandler_one uuid_String foreign uuid_Parse json_Marshal json_Marshal_all repo (get id) id l r)
      as (resp & r' & Hq & Hans & Hok' & He); rewrite ?Hf'; try done; [by rewrite Hb|].
    rewrite Hb in Hans. simpl in Hans. exists resp, r'. split_and!; eauto.
  - destruct (Http.QueryHandler_missing uuid_String foreign uuid_Parse json_Marshal json_Marshal_all repo (get id) id r)
      as (r' & Hq & Hok' & He); rewrite ?Hf'; try done. eexists _, r'. split_and!; eauto.
Qed.

Lemma serve_new_list id cs (w : W) rx :
  store_ok w -> stream w id = [] -> holds w (len cs * (len cs + 1)) -> len cs <= 2 ^ 31 ->
  exists w', serve_all (post id <$> cs) (w, rx) = (Ok (statuses id cs NewAggregate), (w', rx)) /\
    serves id (len cs) (len cs) w' (final id cs NewAggregate) (deletes id cs NewAggregate) /\
    (forall id', id' <> id -> stream w' id' = stream w id').
Proof.
  intros Hok Hempty Hroom Hmax. pose proof (len_nonneg cs).
  apply (serves_all id (len cs) 0 w NewAggregate false cs rx); [|lia..].
  split; rewrite ?Hempty; simpl; try done; try lia.
  - split; [done|]. rewrite Hempty. split; [constructor|done].
  - split; constructor.
  - by rewrite len_nil, Z.sub_0_r.
Qed.

(** The stream of a list fits an [int], is serial and replays. *)
Lemma serves_stream id n w d del :
  serves id n n w d del -> 0 <= n <= 2 ^ 31 ->
  serial id 0 (stream w id) /\ is_int (len (stream w id) + 1) /\ shaped del (stream w id) (created d) /\
  exists a, replay Background (stream w id) (new_aggregate id) = Some a /\ agg_dom a = d.
Proof.
  intros [(Hok & _ & Hrep) _ _ _ Hlen _ Hsh] Hn. split; [by apply law_stream_serial|]. split; [|split; [done|]].
  - pose proof (len_nonneg (stream w id)). assert (n * (n + 1) <= 2 ^ 31 * (2 ^ 31 + 1)) by nia.
    unfold is_int, MinInt, MaxInt. lia.
  - by apply fmap_Some in Hrep as (a & ? & ->); eauto.
Qed.

Lemma get_kept id n w d ks r x :
  serves id n n w d false -> 0 <= n <= 2 ^ 31 -> id <> Nil -> text_ok id ->
  repo_ok r -> entities r !! id = None -> in_order 0 ks (length (stream w id)) ->
  exists r1 resp r2, deliver TimeNow now repo others (stream w id) ks r = (Ok tt, r1) /\
    (forall id', id' <> id -> entities r1 !! id' = entities r !! id') /\
    service (get id) (w, (r1, x)) = (Ok resp, (w, (r2, x))) /\
    if created d then
      exists l b, json_Marshal l = inl b /\ resp = Http.mkResponse Http.StatusOK "application/json" b /\
        list_ID l = id /\ list_Version l = len (stream w id) /\ list_Items l = items d
    else resp = Http.http_Error "could not find item" Http.StatusNotFound.
Proof.
  intros Hsv Hn Hnil Htx Hrok Hnone Hks.
  destruct (serves_stream id n w d false Hsv Hn) as (Hser & Hint & Hsh & a & Hrep & Ha). simpl in Hsh.
  destruct (deliver_all TimeNow now repo others id (stream w id) _ a ks r Hrep Hser Hsh Hint)
    as (r1 & Hd & Hok1 & Hoth1 & Hn1 & Hl1); try done.
  destruct (service_get id w r1 x Htx Hok1) as (resp & r2 & Hg & _ & _ & Hresp).
  exists r1, resp, r2. split; [done|]. split; [done|]. split; [done|]. rewrite <- Ha in Hsh |- *.
  destruct (stream w id) as [|e evs] eqn:Hstr.
  - simpl in Hsh. rewrite Hsh. by rewrite Hn1 in Hresp.
  - destruct Hsh as [-> _]. destruct (Hl1 ltac:(done)) as (l & Hl & Hid & Hv & Hi). rewrite Hl in Hresp.
    destruct Hresp as (b & Hb & ->). by exists l, b.
Qed.

Lemma well_shaped_kept evs b : well_shaped evs b -> Forall (fun e => eventType e <> Deleted) evs.
Proof.
  destruct evs as [|e evs]; [constructor|]. intros (_ & Hty & HF). constructor; [by rewrite Hty|].
  eapply Forall_impl; [exact HF|]. by intros ? [].
Qed.

Lemma get_deleted id n w d r x :
  serves id n n w d true -> 0 <= n <= 2 ^ 31 -> id <> Nil -> text_ok id ->
  repo_ok r -> entities r !! id = None ->
  exists n e, stream w id !! n = Some e /\ eventType e = Deleted /\
    Forall (fun e => eventType e <> Deleted) (take n (stream w id)) /\
    forall ks js, in_order 0 ks n -> Forall (fun k => n < k)%nat js ->
    exists r1 r2, deliver TimeNow now repo others (stream w id) (ks ++ [n]) r = (Ok tt, r1) /\
      let r' := deliver_each TimeNow now repo others (stream w id) js r1 in
      (forall id', id' <> id -> entities r' !! id' = entities r !! id') /\
      service (get id) (w, (r', x)) =
        (Ok (Http.http_Error "could not find item" Http.StatusNotFound), (w, (r2, x))).
Proof.
  intros Hsv Hn Hnil Htx Hrok Hnone.
  destruct (serves_stream id n w d true Hsv Hn) as (Hser & Hint & (evs1 & e & rest & Hstr & Hsh & Hty) & a & Hrep & _).
  rewrite Hstr in *. exists (length evs1), e. split; [by apply list_lookup_middle|]. split; [done|].
  rewrite take_app_length. split; [by eapply well_shaped_kept|]. intros ks js Hks Hjs.
  destruct (deliver_deleted TimeNow now repo others id evs1 e rest a ks js r Hrep Hser Hsh Hty Hint)
    as (r1 & Hd & Hok1 & Hn1 & Hoth1); try done.
  destruct (service_get id w (deliver_each TimeNow now repo others (evs1 ++ e :: rest) js r1) x Htx Hok1)
    as (resp & r2 & Hg & _ & _ & Hresp).
  rewrite Hn1 in Hresp. exists r1, r2. split; [done|]. split; [done|]. by rewrite Hg, Hresp.
Qed.

(** C3: the todo service, from requests to queries.  Any commands are POSTed
    for a list that is new: its ID is not nil, its stream is empty, and the
    repository has no such list.  Each is answered 200 exactly when it is
    complete and the list, as the accepted commands before it left it, allows
    it, and 400 otherwise; no other stream changes.  If none of them deletes the
    list, then for every in-order delivery of the stored events to the
    projector, repetitions included, its GET is answered with the JSON of a list
    with the items the accepted commands amount to, at the version of the last
    event, or 404 when no command was accepted.  If one does, then after any
    in-order delivery, repetitions included, of the events before the first
    deletion, and then of the deletion, its GET is answered 404, and stays so
    whatever later events are delivered, in any order: also when the list was
    created again.  No other list of the repository changes.  The store has room
    for the events, and the commands are at most 2^31. *)
Theorem todo_service_end_to_end id cs (w : W) (r : R) x :
  store_ok w -> stream w id = [] -> holds w (len cs * (len cs + 1)) ->
  id <> Nil -> text_ok id -> len cs <= 2 ^ 31 ->
  repo_ok r -> entities r !! id = None ->
  exists w', serve_all (post id <$> cs) (w, (r, x)) = (Ok (statuses id cs NewAggregate), (w', (r, x))) /\
    (forall id', id' <> id -> stream w' id' = stream w id') /\
    let missing := Http.http_Error "could not find item" Http.StatusNotFound in
    if deletes id cs NewAggregate then
      exists n e, stream w' id !! n = Some e /\ eventType e = Deleted /\
        Forall (fun e => eventType e <> Deleted) (take n (stream w' id)) /\
        forall ks js, in_order 0 ks n -> Forall (fun k => n < k)%nat js ->
        exists r1 r2, deliver TimeNow now repo others (stream w' id) (ks ++ [n]) r = (Ok tt, r1) /\
          let r' := deliver_each TimeNow now repo others (stream w' id) js r1 in
          (forall id', id' <> id -> entities r' !! id' = entities r !! id') /\
          service (get id) (w', (r', x)) = (Ok missing, (w', (r2, x)))
    else
      forall ks, in_order 0 ks (length (stream w' id)) ->
      exists r1 resp r2, deliver TimeNow now repo others (stream w' id) ks r = (Ok tt, r1) /\
        (forall id', id' <> id -> entities r1 !! id' = entities r !! id') /\
        service (get id) (w', (r1, x)) = (Ok resp, (w', (r2, x))) /\
        if created (final id cs NewAggregate) then
          exists l b, json_Marshal l = inl b /\ resp = Http.mkResponse Http.StatusOK "application/json" b /\
            list_ID l = id /\ list_Version l = len (stream w' id) /\
            list_Items l = items (final id cs NewAggregate)
        else resp = missing.
Proof.
  intros Hok Hempty Hroom Hnil Htx Hmax Hrok Hnone.
  destruct (serve_new_list id cs w (r, x) Hok Hempty Hroom Hmax) as (w' & Hrun & Hsv & Hoth).
  exists w'. split; [done|]. split; [done|]. cbv zeta. pose proof (len_nonneg cs).
  destruct (deletes id cs NewAggregate).
  - by apply (get_deleted id (len cs) w' (final id cs NewAggregate) r x).
  - intros ks Hks. by apply (get_kept id (len cs) w' (final id cs NewAggregate) ks r x).
Qed.

End Serving.
End TodoServiceSpec.
