(* ===== verification/TodoServiceDemo.v ===== *)
(** * The todo service on concrete requests

    The in-memory event store and repository under the handler [NewHandler]
    returns: the requests at which the theorem about the whole service is
    applied.  Requests and read models are coded by a generic text of their
    values where the service uses JSON. *)

From stdpp Require Import base gmap strings list numbers option pretty countable.
From Stdlib Require Import Lia ZArith Ascii String.
From S2P Require Import Prelude.
From S2P Require Import GoTypes.
From S2P Require Import Event.
From S2P Require Import Command.
From S2P Require Import Errors.
From S2P Require Import Fixtures.
From S2P Require Import EventStoreSpec.
From S2P Require Import MemStore.
From S2P Require Import AggregateBase.
From S2P Require Import Context.
From S2P Require Import Repo.
From S2P Require Import Projector.
From S2P Require Import Handlers.
From S2P Require Import Http.
From S2P Require Import DomainModel.
From S2P Require Import Todo.
From S2P Require Import TodoDemo.
From S2P Require Import TodoService.
From S2P Require Import TodoServiceSpec.

Import Todo.

Module TodoServiceDemo.

(** ** Texts *)

#[local] Instance Item_eq_dec : EqDecision TodoItem.
Proof. solve_decision. Defined.

#[local] Instance Item_countable : Countable TodoItem.
Proof.
  refine (inj_countable' (fun i => (ID i, Description i, Completed i)) (fun '(i, d, c) => mkItem i d c) _).
  by intros [].
Defined.

#[local] Instance TodoList_eq_dec : EqDecision TodoList.
Proof. solve_decision. Defined.

#[local] Instance TodoList_countable : Countable TodoList.
Proof.
  refine (inj_countable' (fun l => (list_ID l, list_Version l, list_Items l, list_CreatedAt l, list_UpdatedAt l))
            (fun '(i, v, l, c, u) => mkTodoList i v l c u) _).
  by intros [].
Defined.

#[local] Instance Command_eq_dec : EqDecision Command.
Proof. solve_decision. Defined.

(** A command by its number, its item, its text and its mark. *)
Definition command_code (c : Command) : nat * Z * string * bool :=
  match c with
  | Create => (0%nat, 0, "", false)
  | Delete => (1%nat, 0, "", false)
  | AddItem d => (2%nat, 0, d, false)
  | RemoveItem i => (3%nat, i, "", false)
  | RemoveCompletedItems => (4%nat, 0, "", false)
  | SetItemDescription i d => (5%nat, i, d, false)
  | CheckItem i b => (6%nat, i, "", b)
  | CheckAllItems b => (7%nat, 0, "", b)
  end.

Definition command_decode (x : nat * Z * string * bool) : Command :=
  let '(n, i, d, b) := x in
  match n with
  | 0%nat => Create
  | 1%nat => Delete
  | 2%nat => AddItem d
  | 3%nat => RemoveItem i
  | 4%nat => RemoveCompletedItems
  | 5%nat => SetItemDescription i d
  | 6%nat => CheckItem i b
  | _ => CheckAllItems b
  end.

#[local] Instance Command_countable : Countable Command.
Proof. refine (inj_countable' command_code command_decode _). by intros []. Defined.

(** The request body of a command, and the registry that decodes it. *)
Definition body (id : UUID) (c : Command) : string := to_text (id, c).

Definition decode_body (b : string) (cmd : option command) : option command + error :=
  match of_text (A := UUID * Command) b with
  | Some (id, c) => inl (Some (command_of id c))
  | None => inr (ErrorString "invalid character")
  end.

Definition registered_commands : gmap string (unit -> option command) :=
  foldl (fun m ct => <[ct := fun _ => None]> m) ∅ TodoService.handled_commands.

Lemma body_decodes id c : exists factory, registered_commands !! CommandType c = Some factory /\
  decode_body (body id c) (factory tt) = inl (Some (command_of id c)).
Proof.
  exists (fun _ => None). split; [by destruct c|]. unfold decode_body, body. by rewrite of_to_text.
Qed.

(** IDs of 36 characters: their binary digits, lowest first, and zeros. *)
Definition pad36 (s : string) : string :=
  s +:+ string_of_list_ascii (replicate (36 - String.length s) (Ascii.ascii_of_nat 48)).

Definition id_text (id : UUID) : string := pad36 (uuid_to_bits id).

Definition id_parse (s : string) : UUID + error :=
  match uuid_of_bits s with Some id => inl id | None => inr (ErrorString "invalid UUID") end.

Lemma id1_text : TodoServiceSpec.text_ok id_text id_parse id1.
Proof. by split. Qed.

(** ** The read models *)

Definition list_Marshal (l : TodoList) : list Byte.byte + error := inl (to_bytes l).

Definition list_Unmarshal (b : list Byte.byte) (l : TodoList) : TodoList + error :=
  match of_bytes b with
  | Some l => inl l
  | None => inr (ErrorString "invalid character")
  end.

Abbreviation todo_repo := (MemRepo.memory_Repo list_Marshal list_Unmarshal).

#[local] Instance todo_repo_laws : RepoLaws todo_repo :=
  MemRepo.memory_RepoLaws list_Marshal list_Unmarshal new_TodoList.

Definition new_repo : MemRepo.Repo := MemRepo.SetEntityFactory (Some (fun _ => new_TodoList)) MemRepo.NewRepo.

Lemma list_keepable (l : TodoList) : keepable (repo := todo_repo) l.
Proof. exists (to_bytes l). split; [done|]. unfold list_Unmarshal. by rewrite of_to_bytes. Qed.

Definition list_json (l : TodoList) : string + error := inl (to_text l).
Definition lists_json (l : list TodoList) : string + error := inl (to_text l).

(** ** The requests *)

#[local] Instance service_store_laws : EventStoreLaws todo_store := todo_store_laws.

Definition empty_store : MemDB * unit := (∅, tt).

Definition demo_service : Http.Handler ((MemDB * unit) * (MemRepo.Repo * Http.Websocket.EventBusHandler)) :=
  TodoServiceSpec.service id_text (fun _ => "") time_now 9 todo_aggregates todo_store todo_repo
    registered_commands decode_body id_parse list_json lists_json
    (fun _ _ => Http.header_only Http.StatusOK) (fun _ => None) "/static".

Definition demo_serve :=
  TodoServiceSpec.serve_all id_text (fun _ => "") time_now 9 todo_aggregates todo_store todo_repo
    registered_commands decode_body id_parse list_json lists_json
    (fun _ _ => Http.header_only Http.StatusOK) (fun _ => None) "/static".

(** Twice the same list; a command that lacks its text; items checked. *)
Definition demo_commands : list Command :=
  [Create; AddItem "milk"; AddItem ""; Create; CheckItem 0 true; CheckItem 7 true].

Lemma demo_statuses : TodoServiceSpec.statuses id1 demo_commands NewAggregate = [200; 200; 400; 400; 200; 400].
Proof. vm_compute. reflexivity. Qed.

Lemma demo_final : TodoServiceSpec.final id1 demo_commands NewAggregate = mkAggregate true 1 [mkItem 0 "milk" true].
Proof. vm_compute. reflexivity. Qed.

(** The list is deleted and created again. *)
Definition deleting_commands : list Command :=
  [Create; AddItem "milk"; Delete; AddItem "bread"; Create; AddItem "bread"].

Lemma deleting_statuses :
  TodoServiceSpec.statuses id1 deleting_commands NewAggregate = [200; 200; 200; 400; 200; 200].
Proof. vm_compute. reflexivity. Qed.

Lemma demo_not_deleted : TodoServiceSpec.deletes id1 demo_commands NewAggregate = false.
Proof. vm_compute. reflexivity. Qed.

Lemma deleting_deletes : TodoServiceSpec.deletes id1 deleting_commands NewAggregate = true.
Proof. vm_compute. reflexivity. Qed.

Lemma empty_store_ok : store_ok empty_store.
Proof. split; [by apply map_Forall_empty|]. intros id. by constructor. Qed.

Lemma new_repo_ok : repo_ok new_repo.
Proof.
  split; [|split; [by eexists|by apply map_Forall_empty]]. split; [constructor|].
  intros id. split; [by intros ?%not_elem_of_nil|by intros []].
Qed.

Lemma id1_not_nil : id1 <> Nil.
Proof. intros H. by apply (f_equal uuid_bits) in H. Qed.

Abbreviation no_sockets := Http.Websocket.NewEventBusHandler.
Abbreviation demo_deliver := (TodoServiceSpec.deliver time_now 9 todo_repo (fun r => r)).

Lemma todo_service_end_to_end_witness :
  (exists w', demo_serve (TodoServiceSpec.post body id1 <$> demo_commands)
      (empty_store, (new_repo, no_sockets)) =
      (Ok [200; 200; 400; 400; 200; 400], (w', (new_repo, no_sockets))) /\
    forall ks, in_order 0 ks (List.length (stream w' id1)) ->
      exists r1 resp r2,
        demo_deliver (stream w' id1) ks new_repo = (Ok tt, r1) /\
        demo_service (TodoServiceSpec.get id_text id1) (w', (r1, no_sockets)) =
          (Ok resp, (w', (r2, no_sockets))) /\
        exists l, resp = Http.mkResponse Http.StatusOK "application/json" (to_text l) /\
          list_ID l = id1 /\ list_Items l = [mkItem 0 "milk" true]) /\
  (exists w', demo_serve (TodoServiceSpec.post body id1 <$> deleting_commands)
      (empty_store, (new_repo, no_sockets)) =
      (Ok [200; 200; 200; 400; 200; 200], (w', (new_repo, no_sockets))) /\
    exists n, forall ks js, in_order 0 ks n -> Forall (fun k => n < k)%nat js ->
      exists r1 r2, demo_deliver (stream w' id1) (ks ++ [n]) new_repo = (Ok tt, r1) /\
        demo_service (TodoServiceSpec.get id_text id1)
          (w', (TodoServiceSpec.deliver_each time_now 9 todo_repo (fun r => r) (stream w' id1) js r1, no_sockets)) =
          (Ok (Http.http_Error "could not find item" Http.StatusNotFound), (w', (r2, no_sockets)))).
Proof.
  pose proof (TodoServiceSpec.todo_service_end_to_end id_text (fun _ => "") time_now 9 todo_aggregates todo_store
    todo_repo (fun r => r) registered_commands decode_body id_parse list_json lists_json
    (fun _ _ => Http.header_only Http.StatusOK) (fun _ => None) "/static" body
    eq_refl todo_event_storable body_decodes list_keepable (fun l => ex_intro _ (to_text l) eq_refl)
    id1) as Hthm.
  split.
  - destruct (Hthm demo_commands empty_store new_repo no_sockets empty_store_ok eq_refl Logic.I id1_not_nil
      id1_text ltac:(vm_compute; discriminate) new_repo_ok eq_refl) as (w' & Hrun & _ & Hread).
    exists w'. split; [by rewrite <- demo_statuses|]. intros ks Hks. rewrite demo_not_deleted in Hread.
    destruct (Hread ks Hks) as (r1 & resp & r2 & Hd & _ & Hg & Hresp).
    exists r1, resp, r2. split; [exact Hd|]. split; [exact Hg|]. rewrite demo_final in Hresp.
    destruct Hresp as (l & b & Hb & -> & Hid & _ & Hi). apply inl_inj in Hb. change (to_text l = b) in Hb.
    subst b. exists l. split; [reflexivity|]. split; [exact Hid|exact Hi].
  - destruct (Hthm deleting_commands empty_store new_repo no_sockets empty_store_ok eq_refl Logic.I id1_not_nil
      id1_text ltac:(vm_compute; discriminate) new_repo_ok eq_refl) as (w' & Hrun & _ & Hread).
    exists w'. split; [by rewrite <- deleting_statuses|]. rewrite deleting_deletes in Hread.
    destruct Hread as (n & e & _ & _ & _ & Hread). exists n. intros ks js Hks Hjs.
    destruct (Hread ks js Hks Hjs) as (r1 & r2 & Hd & _ & Hg). exists r1, r2. split; [exact Hd|exact Hg].
Defined.

End TodoServiceDemo.
