(* ===== verification/GuestList.v ===== *)
(** * The guest list domain ([examples/guestlist/domains/guestlist])

    Invitations that are accepted or declined and then confirmed or denied; the
    saga that answers accepted invitations until the list is full; the two
    read models.  [GuestList] is a client of [DomainModel], [Projector] and
    [Repo]. *)

From stdpp Require Import base gmap strings list numbers option pretty.
From Stdlib Require Import Lia ZArith.
From S2P Require Import Prelude.
From S2P Require Import GoTypes.
From S2P Require Import Event.
From S2P Require Import Command.
From S2P Require Import Errors.
From S2P Require Import Fixtures.
From S2P Require Import CommandCheck.
From S2P Require Import EventStoreSpec.
From S2P Require Import ErrorText.
From S2P Require Import AggregateBase.
From S2P Require Import AggregateStore.
From S2P Require Import CommandHandler.
From S2P Require Import Repo.
From S2P Require Import Projector.
From S2P Require Import Handlers.
From S2P Require Import DomainModel.

Module GuestList.

Definition InvitationAggregateType : string := "Invitation".

(** ** Commands ([commands.go]) *)

Inductive Command : Type :=
| CreateInvite (Name : string) (Age : Z)
| AcceptInvite
| DeclineInvite
| ConfirmInvite
| DenyInvite.

(** The Go type of a command is also its [CommandType]. *)
Definition CommandType (c : Command) : string :=
  match c with
  | CreateInvite _ _ => "CreateInvite"
  | AcceptInvite => "AcceptInvite"
  | DeclineInvite => "DeclineInvite"
  | ConfirmInvite => "ConfirmInvite"
  | DenyInvite => "DenyInvite"
  end.

Definition struct_of (id : UUID) (c : Command) : any :=
  AStruct (CommandType c)
    (("ID", AUUID id) ::
     match c with
     | CreateInvite n a => [("Name", AString n); ("Age", AInt a)]
     | _ => []
     end).

(** The cases of [switch cmd := cmd.(type)]. *)
Definition type_switch (v : any) : option Command :=
  match v with
  | AStruct ty fs =>
      if bool_decide (ty = "CreateInvite") then
        n ← as_string (struct_field "Name" fs);
        a ← as_int (struct_field "Age" fs); Some (CreateInvite n a)
      else if bool_decide (ty = "AcceptInvite") then Some AcceptInvite
      else if bool_decide (ty = "DeclineInvite") then Some DeclineInvite
      else if bool_decide (ty = "ConfirmInvite") then Some ConfirmInvite
      else if bool_decide (ty = "DenyInvite") then Some DenyInvite
      else None
  | _ => None
  end.

(** The reflected fields, for [CheckCommand]: [Age] is optional. *)
Definition reflect_fields (id : UUID) (c : Command) : list field :=
  mkField "ID" "" "" None (RUUID id) ::
  match c with
  | CreateInvite n _ =>
      [mkField "Name" "" "" None (RString n); mkField "Age" "" "optional" None RValueType]
  | _ => []
  end.

Definition command_of (id : UUID) (c : Command) : command :=
  mkCommand id InvitationAggregateType (CommandType c) None (reflect_fields id c) (struct_of id c).

(** ** Events ([events.go]) *)

Definition InviteCreatedEvent : string := "InviteCreated".
Definition InviteAcceptedEvent : string := "InviteAccepted".
Definition InviteDeclinedEvent : string := "InviteDeclined".
Definition InviteConfirmedEvent : string := "InviteConfirmed".
Definition InviteDeniedEvent : string := "InviteDenied".

Definition InviteCreatedData (n : string) (a : Z) : any :=
  AStruct "InviteCreatedData" [("Name", AString n); ("Age", AInt a)].

(** [event.Data().( *InviteCreatedData)] *)
Definition as_InviteCreatedData (v : any) : option (string * Z) :=
  match v with
  | AStruct ty fs =>
      if bool_decide (ty = "InviteCreatedData") then
        n ← as_string (struct_field "Name" fs);
        a ← as_int (struct_field "Age" fs); Some (n, a)
      else None
  | _ => None
  end.

(** ** The aggregate ([aggregate.go]) *)

Record InvitationAggregate : Type := mkInvitation {
  name : string;
  age : Z;
  accepted : bool;
  declined : bool;
  confirmed : bool;
  denied : bool
}.

Definition NewInvitation : InvitationAggregate := mkInvitation "" 0 false false false false.

Definition NewInvitationAggregate (id : UUID) : agg InvitationAggregate :=
  mkAgg (NewAggregateBase InvitationAggregateType id) NewInvitation.

Definition set_created (n : string) (g : Z) (a : InvitationAggregate) : InvitationAggregate :=
  mkInvitation n g (accepted a) (declined a) (confirmed a) (denied a).
Definition set_accepted (a : InvitationAggregate) : InvitationAggregate :=
  mkInvitation (name a) (age a) true (declined a) (confirmed a) (denied a).
Definition set_declined (a : InvitationAggregate) : InvitationAggregate :=
  mkInvitation (name a) (age a) (accepted a) true (confirmed a) (denied a).
Definition set_confirmed (a : InvitationAggregate) : InvitationAggregate :=
  mkInvitation (name a) (age a) (accepted a) (declined a) true (denied a).
Definition set_denied (a : InvitationAggregate) : InvitationAggregate :=
  mkInvitation (name a) (age a) (accepted a) (declined a) (confirmed a) true.

(** Data of another type is only logged. *)
Definition ApplyEvent (ctx : context) (e : event) (a : InvitationAggregate)
  : InvitationAggregate * option error :=
  if bool_decide (eventType e = InviteCreatedEvent) then
    match as_InviteCreatedData (data e) with
    | Some (n, g) => (set_created n g a, None)
    | None => (a, None)
    end
  else if bool_decide (eventType e = InviteAcceptedEvent) then (set_accepted a, None)
  else if bool_decide (eventType e = InviteDeclinedEvent) then (set_declined a, None)
  else if bool_decide (eventType e = InviteConfirmedEvent) then (set_confirmed a, None)
  else if bool_decide (eventType e = InviteDeniedEvent) then (set_denied a, None)
  else (a, None).

Section HandleCommand.
(** [TimeNow]: what [time.Now] gives. *)
Context (TimeNow : nat -> Time).

Definition HandleCommand (ctx : context) (cmd : command) (a : agg InvitationAggregate)
  : agg InvitationAggregate * option error :=
  let i := agg_dom a in
  let no_invitee := ErrorString "invitee does not exist" in
  let append et d := ((append_event TimeNow et d (0%nat, a)).2, None) in
  match type_switch (dyn cmd) with
  | Some (CreateInvite n g) => append InviteCreatedEvent (InviteCreatedData n g)
  | Some AcceptInvite =>
      if bool_decide (name i = "") then (a, Some no_invitee)
      else if declined i then (a, Some (ErrorString (name i +:+ " already declined")))
      else if accepted i then (a, None)
      else append InviteAcceptedEvent ANil
  | Some DeclineInvite =>
      if bool_decide (name i = "") then (a, Some no_invitee)
      else if accepted i then (a, Some (ErrorString (name i +:+ " already accepted")))
      else if declined i then (a, None)
      else append InviteDeclinedEvent ANil
  | Some ConfirmInvite =>
      if bool_decide (name i = "") then (a, Some no_invitee)
      else if negb (accepted i) || declined i
      then (a, Some (ErrorString "only accepted invites can be confirmed"))
      else append InviteConfirmedEvent ANil
  | Some DenyInvite =>
      if bool_decide (name i = "") then (a, Some no_invitee)
      else if negb (accepted i) || declined i
      then (a, Some (ErrorString "only accepted invites can be denied"))
      else append InviteDeniedEvent ANil
  | None => (a, Some (ErrorString "couldn't handle command"))
  end.

End HandleCommand.

(** ** The saga ([saga.go])

    The state of a [ResponseSaga] are the guests it accepted; the commands it
    issues may change the rest [T] of the program. *)

Section Saga.
Context {T : Type}.

Definition ResponseSagaType : string := "ResponseSaga".

Record ResponseSaga : Type := mkSaga {
  acceptedGuests : gset UUID;
  guestLimit : Z
}.

Definition NewResponseSaga (limit : Z) : ResponseSaga := mkSaga ∅ limit.

Definition RunSaga (ctx : context) (e : event) (h : CommandHandlerFunc (ResponseSaga * T))
  : M (ResponseSaga * T) unit :=
  if bool_decide (eventType e = InviteAcceptedEvent) then
    let! s := gets fst in
    if bool_decide (aggregateID e ∈ acceptedGuests s) then ret tt
    else
      let! s := gets fst in
      if guestLimit s <=? Z.of_nat (size (acceptedGuests s))
      then h ctx (Some (command_of (aggregateID e) DenyInvite))
      else
        do! zoom_fst (modify (fun s =>
              mkSaga ({[aggregateID e]} ∪ acceptedGuests s) (guestLimit s))) in
        h ctx (Some (command_of (aggregateID e) ConfirmInvite))
  else ret tt.

End Saga.

(** ** The invitation read model ([projectors.go]) *)

Record Invitation : Type := mkInvitationModel {
  inv_ID : UUID;
  inv_Version : Z;
  inv_Name : string;
  inv_Age : Z;
  inv_Status : string
}.

#[export] Instance Invitation_Entity : Entity Invitation := {
  EntityID := inv_ID;
  Versionable i := Some (inv_Version i)
}.

Definition with_status (s : string) (i : Invitation) : Invitation :=
  mkInvitationModel (inv_ID i) (inv_Version i) (inv_Name i) (inv_Age i) s.

(** The switch over the event type. *)
Definition project_switch (e : event) (i : Invitation) : Invitation + error :=
  if bool_decide (eventType e = InviteCreatedEvent) then
    match as_InviteCreatedData (data e) with
    | None => inr (ErrorString "projector: invalid event data type")
    | Some (n, g) => inl (mkInvitationModel (aggregateID e) (inv_Version i) n g (inv_Status i))
    end
  else if bool_decide (eventType e = InviteAcceptedEvent) then inl (with_status "accepted" i)
  else if bool_decide (eventType e = InviteDeclinedEvent) then inl (with_status "declined" i)
  else if bool_decide (eventType e = InviteConfirmedEvent) then inl (with_status "confirmed" i)
  else if bool_decide (eventType e = InviteDeniedEvent) then inl (with_status "denied" i)
  else inr (ErrorString ("could not handle event: " +:+ eventType e)).

Definition Project (ctx : context) (e : event) (i : Invitation) : option Invitation + error :=
  match project_switch e i with
  | inr err => inr err
  | inl i => inl (Some (mkInvitationModel (inv_ID i) (iadd (inv_Version i) 1) (inv_Name i) (inv_Age i) (inv_Status i)))
  end.

#[export] Instance InvitationProjector : Projector Invitation := {
  ProjectorType := InvitationAggregateType;
  Projector.Project := Project
}.

(** ** The guest list read model ([projectors.go]) *)

Record GuestList : Type := mkGuestList {
  gl_ID : UUID;
  NumGuests : Z;
  NumAccepted : Z;
  NumDeclined : Z;
  NumConfirmed : Z;
  NumDenied : Z
}.

Definition count_accepted (g : GuestList) : GuestList :=
  mkGuestList (gl_ID g) (iadd (NumGuests g) 1) (iadd (NumAccepted g) 1) (NumDeclined g) (NumConfirmed g) (NumDenied g).
Definition count_declined (g : GuestList) : GuestList :=
  mkGuestList (gl_ID g) (iadd (NumGuests g) 1) (NumAccepted g) (iadd (NumDeclined g) 1) (NumConfirmed g) (NumDenied g).
Definition count_confirmed (g : GuestList) : GuestList :=
  mkGuestList (gl_ID g) (NumGuests g) (NumAccepted g) (NumDeclined g) (iadd (NumConfirmed g) 1) (NumDenied g).
Definition count_denied (g : GuestList) : GuestList :=
  mkGuestList (gl_ID g) (NumGuests g) (NumAccepted g) (NumDeclined g) (NumConfirmed g) (iadd (NumDenied g) 1).

Section GuestListProjector.
(** The repository's entities; [as_GuestList] is [m.( *GuestList)]. *)
Context {S E : Type} `{Entity E} (entity : GuestList -> E) (as_GuestList : E -> option GuestList).
Context (repo : ReadWriteRepo S E) (eventID : UUID).

Definition HandlerType : string := "projector_GuestList".

(** The count of the guests after an event. *)
Definition count (e : event) (g : GuestList) : GuestList + error :=
  if bool_decide (eventType e = InviteAcceptedEvent) then inl (count_accepted g)
  else if bool_decide (eventType e = InviteDeclinedEvent) then inl (count_declined g)
  else if bool_decide (eventType e = InviteConfirmedEvent) then inl (count_confirmed g)
  else if bool_decide (eventType e = InviteDeniedEvent) then inl (count_denied g)
  else inr (ErrorString ("projector: unsupported event type: " +:+ eventType e)).

(** Load or create the guest list. *)
Definition load_guest_list (ctx : context) : M S GuestList :=
  let! m := attempt (Find repo ctx eventID) in
  match m with
  | inr err =>
      if errors_Is err ErrEntityNotFound then ret (mkGuestList eventID 0 0 0 0 0) else throw err
  | inl m =>
      match as_GuestList m with
      | None => throw (ErrorString "projector: incorrect entity type")
      | Some g => ret g
      end
  end.

Definition HandleEvent (ctx : context) (ev : option event) : M S unit :=
  let! g := load_guest_list ctx in
  let! e := deref ev in
  match count e g with
  | inr err => throw err
  | inl g => map_err (Errorf "projector: could not save") (Save repo ctx (Some (entity g)))
  end.

End GuestListProjector.

(** ** What the commands are for *)

Definition effect (c : Command) : InvitationAggregate -> InvitationAggregate :=
  match c with
  | CreateInvite n g => set_created n g
  | AcceptInvite => set_accepted
  | DeclineInvite => set_declined
  | ConfirmInvite => set_confirmed
  | DenyInvite => set_denied
  end.

Definition allowed (c : Command) (a : InvitationAggregate) : Prop :=
  match c with
  | CreateInvite _ _ => True
  | AcceptInvite => name a <> "" /\ declined a = false
  | DeclineInvite => name a <> "" /\ accepted a = false
  | ConfirmInvite | DenyInvite => name a <> "" /\ accepted a = true /\ declined a = false
  end.

#[export] Instance allowed_dec c a : Decision (allowed c a).
Proof. destruct c; apply _. Defined.

Definition emitted (c : Command) (a : InvitationAggregate) : list sig :=
  match c with
  | CreateInvite n g => [(InviteCreatedEvent, InviteCreatedData n g)]
  | AcceptInvite => if accepted a then [] else [(InviteAcceptedEvent, ANil)]
  | DeclineInvite => if declined a then [] else [(InviteDeclinedEvent, ANil)]
  | ConfirmInvite => [(InviteConfirmedEvent, ANil)]
  | DenyInvite => [(InviteDeniedEvent, ANil)]
  end.

(** The guard of the aggregate: accepted or declined but not both, and an
    answer only to an accepted invitation. *)
Definition invitation_ok (a : InvitationAggregate) : Prop :=
  ~ (accepted a = true /\ declined a = true) /\
  (confirmed a = true \/ denied a = true -> accepted a = true).

Lemma type_switch_invitation id c : type_switch (struct_of id c) = Some c.
Proof. by destruct c. Qed.

Section WriteSide.
Context (TimeNow : nat -> Time).

#[local] Instance invitation_Domain : Domain InvitationAggregate := {
  dom_ApplyEvent := ApplyEvent;
  dom_HandleCommand := HandleCommand TimeNow
}.

#[local] Instance invitation_AppliesBySig : AppliesBySig InvitationAggregate.
Proof. by split. Qed.

#[local] Program Instance invitation_CommandSpec : CommandSpec InvitationAggregate Command := {
  spec_type := InvitationAggregateType;
  spec_new := NewInvitation;
  spec_command := command_of;
  spec_allowed := allowed;
  spec_effect := effect;
  spec_emitted := emitted;
  spec_ok _ _ := True;
  spec_size _ := 1
}.
Next Obligation. done. Qed.
Next Obligation. intros [] a; simpl; repeat case_match; done. Qed.
Next Obligation.
  intros ctx id c a Hb Hr Ha. unfold dom_HandleCommand, invitation_Domain, HandleCommand.
  cbn [dyn command_of]. rewrite type_switch_invitation.
  pose proof (fun et d => append_one_emits TimeNow a et d Hb Hr) as H1. pose proof (emits_nil a Hb) as H0.
  destruct c; cbn [allowed emitted] in Ha |- *; try (by eexists); destruct Ha as [Hn Ha].
  - rewrite bool_decide_false, Ha by done. destruct (accepted (agg_dom a)); [by exists (0%nat, a)|by eexists].
  - rewrite bool_decide_false, Ha by done. destruct (declined (agg_dom a)); [by exists (0%nat, a)|by eexists].
  - destruct Ha as [-> ->]. rewrite bool_decide_false by done. by eexists.
  - destruct Ha as [-> ->]. rewrite bool_decide_false by done. by eexists.
Qed.
Next Obligation.
  intros ctx id c a Ha. unfold dom_HandleCommand, invitation_Domain, HandleCommand.
  cbn [dyn command_of]. rewrite type_switch_invitation.
  destruct c; cbn [allowed] in Ha; [by destruct Ha|..]; case_bool_decide as Hn; try by eexists; split.
  - destruct (declined (agg_dom a)); [by eexists; split|by destruct Ha].
  - destruct (accepted (agg_dom a)); [by eexists; split|by destruct Ha].
  - destruct (accepted (agg_dom a)), (declined (agg_dom a)); try (by eexists; split). by destruct Ha.
  - destruct (accepted (agg_dom a)), (declined (agg_dom a)); try (by eexists; split). by destruct Ha.
Qed.
Next Obligation.
  intros c [n g ac de co dn] _ Ha. destruct c; simpl in Ha |- *; try done.
  - destruct ac; [|done]. done.
  - destruct de; [|done]. done.
Qed.

Definition reachable : UUID -> agg InvitationAggregate -> Prop := spec_reachable (C := Command).

(** C23: the guard of the aggregate root.  Whatever commands an invitation has
    handled, it is not both accepted and declined, and only an accepted one is
    confirmed or denied; between commands it has no uncommitted events. *)
Theorem invitation_accepted_or_declined id a :
  reachable id a ->
  invitation_ok (agg_dom a) /\ base_ok (agg_base a) /\ base_events (agg_base a) = [] /\
  base_id (agg_base a) = id.
Proof.
  apply (spec_reachable_inv (C := Command) invitation_ok).
  - split; [by intros [? ?]|]. by intros [?|?].
  - intros c [n g ac de co dn] [Hx Hc] _ Ha. unfold invitation_ok in *.
    destruct c; simpl in *; try done.
    + destruct Ha as [_ ->]. split; [by intros [_ ?]|done].
    + destruct Ha as [_ ->]. split; [by intros [? _]|done].
    + by destruct Ha as (_ & -> & ->).
    + by destruct Ha as (_ & -> & ->).
Qed.

(** the invitation service, end to end over any event store that keeps its
    contract: an allowed command leaves a stream that represents its effect,
    any other is an error, and nothing of the store is observed to change; no
    other stream changes. *)
Theorem guestlist_handler_end_to_end {S} (uuid_String : UUID -> string)
    (aggregates : gmap string (UUID -> option (agg InvitationAggregate)))
    (store : EventStore S) `{!EventStoreLaws store} strategy now ctx s id c d :
  aggregates !! InvitationAggregateType = Some (fun id => Some (NewInvitationAggregate id)) ->
  (forall e, sig_of e ∈ emitted c d -> storable e) ->
  ctx_err ctx = None -> CheckCommand (Some (command_of id c)) = None ->
  spec_represents (C := Command) ctx s id d -> is_int (len (stream s id) + 1) ->
  holds s (len (emitted c d)) ->
  let '(o, s') := CommandHandler.HandleCommand InvitationAggregateType
                    (events_store uuid_String aggregates store None strategy now)
                    ctx (Some (command_of id c)) s in
  (forall id', id' <> id -> stream s' id' = stream s id') /\
  if decide (allowed c d) then o = Ok tt /\ spec_represents (C := Command) ctx s' id (effect c d)
  else (exists err, o = Err (AggregateError err)) /\ unchanged 0 s s'.
Proof.
  intros Hagg Hst Hctx Hc Hr Hroom Hholds.
  exact (@domain_handler_end_to_end _ _ _ _ invitation_CommandSpec S uuid_String aggregates store _ strategy now
    ctx s id c d Hagg Hst Hctx Hc Hr Logic.I Hroom Hholds).
Qed.

End WriteSide.

(** ** The saga *)

(** A command handler that keeps the commands it is given and answers as
    [answer] says. *)
Definition recorder (answer : command -> option error)
  : CommandHandlerFunc (ResponseSaga * list command) := fun ctx cmd =>
  let! c := deref cmd in
  do! zoom_snd (modify (fun l => l ++ [c])) in
  match answer c with Some err => throw err | None => ret tt end.

(** The saga on a sequence of events; the bus goes on after an error. *)
Definition run_saga (answer : command -> option error) (ctx : context) (evs : list event)
  : M (ResponseSaga * list command) unit :=
  for_range evs (fun e =>
    let! res := attempt (saga_HandleEvent ResponseSagaType RunSaga (recorder answer) ctx (Some e)) in
    ret tt).

(** IDs in the order they first appear. *)
Definition first_come (ids : list UUID) : list UUID :=
  foldl (fun l x => if decide (x ∈ l) then l else l ++ [x]) [] ids.

Definition accepted_ids (evs : list event) : list UUID :=
  aggregateID <$> filter (fun e => eventType e = InviteAcceptedEvent) evs.

Definition sent (ty : string) (log : list command) : list UUID :=
  AggregateID <$> filter (fun c => Command.CommandType c = ty) log.

Lemma first_come_snoc ids x :
  first_come (ids ++ [x]) =
  if decide (x ∈ first_come ids) then first_come ids else first_come ids ++ [x].
Proof. unfold first_come. by rewrite foldl_app. Qed.

Lemma first_come_elem ids x : x ∈ first_come ids <-> x ∈ ids.
Proof.
  induction ids as [|y ids IH] using rev_ind; [done|].
  rewrite first_come_snoc, elem_of_app, list_elem_of_singleton, <- IH.
  case_decide as Hy; [|by rewrite elem_of_app, list_elem_of_singleton].
  split; [by left|]. intros [?| ->]; [done|done].
Qed.

Lemma first_come_NoDup ids : NoDup (first_come ids).
Proof.
  induction ids as [|y ids IH] using rev_ind; [constructor|]. rewrite first_come_snoc.
  case_decide as Hy; [done|]. apply NoDup_app. split; [done|]. split; [|apply NoDup_singleton].
  by intros x Hx ->%list_elem_of_singleton.
Qed.

(** The saga after the events [evs]: its seats and the commands it sent. *)
Definition served (limit : Z) (evs : list event) (st : ResponseSaga * list command) : Prop :=
  let ids := accepted_ids evs in
  let seats := take (Z.to_nat limit) (first_come ids) in
  st.1 = mkSaga (list_to_set seats) limit /\
  sent "ConfirmInvite" st.2 = seats /\ sent "DenyInvite" st.2 = filter (fun id => id ∉ seats) ids.

Lemma size_seats k ids : size (list_to_set (take k (first_come ids)) : gset UUID) = length (take k (first_come ids)).
Proof.
  apply size_list_to_set. apply (sublist_NoDup _ (first_come ids)); [apply first_come_NoDup|].
  apply sublist_take.
Qed.

Lemma sent_snoc ty log c :
  sent ty (log ++ [c]) = sent ty log ++ (if decide (Command.CommandType c = ty) then [AggregateID c] else []).
Proof.
  unfold sent. rewrite filter_app, fmap_app. f_equal. rewrite filter_cons, filter_nil. by case_decide.
Qed.

(** What the recorder does in [saga_HandleEvent], after the saga's own step. *)
Lemma saga_records answer ctx c (st : ResponseSaga * list command) :
  exists o, recorder answer ctx (Some c) st = (o, (st.1, st.2 ++ [c])) /\ (forall p, o <> Panic p).
Proof.
  destruct st as [s l]. unfold recorder. rewrite (bind_ok _ _ (s, l) (s, l) c) by done.
  rewrite (bind_ok _ _ (s, l) (s, l ++ [c]) tt) by done.
  destruct (answer c); eexists; (split; [done|done]).
Qed.

Lemma RunSaga_eq {T} ctx e (h : CommandHandlerFunc (ResponseSaga * T)) s t :
  RunSaga ctx e h (s, t) =
  if decide (eventType e = InviteAcceptedEvent) then
    if decide (aggregateID e ∈ acceptedGuests s) then (Ok tt, (s, t))
    else if guestLimit s <=? Z.of_nat (size (acceptedGuests s))
    then h ctx (Some (command_of (aggregateID e) DenyInvite)) (s, t)
    else h ctx (Some (command_of (aggregateID e) ConfirmInvite))
           (mkSaga ({[aggregateID e]} ∪ acceptedGuests s) (guestLimit s), t)
  else (Ok tt, (s, t)).
Proof.
  unfold RunSaga. case_decide; [rewrite bool_decide_true by done|by rewrite bool_decide_false].
  rewrite (bind_ok _ _ (s, t) (s, t) s) by done.
  case_decide; [by rewrite bool_decide_true|rewrite bool_decide_false by done].
  rewrite (bind_ok _ _ (s, t) (s, t) s) by done. by case_match.
Qed.

Lemma run_saga_one answer ctx e (st : ResponseSaga * list command) o st' :
  RunSaga ctx e (recorder answer) st = (o, st') -> (forall p, o <> Panic p) ->
  (let! res := attempt (saga_HandleEvent ResponseSagaType RunSaga (recorder answer) ctx (Some e)) in
   ret tt) st = (Ok tt, st').
Proof.
  intros Hr Hp. unfold bind, attempt, saga_HandleEvent, map_err. rewrite Hr.
  destruct o; [done..|]. by destruct (Hp msg).
Qed.

(** The seats after one more accepted invitation. *)
Lemma take_first_come k ids x :
  take k (first_come (ids ++ [x])) =
  if decide (x ∈ take k (first_come ids) \/ (k <= length (take k (first_come ids)))%nat)
  then take k (first_come ids) else take k (first_come ids) ++ [x].
Proof.
  rewrite first_come_snoc. rewrite length_take. set (l := first_come ids).
  destruct (decide (x ∈ l)) as [Hx|Hx]; case_decide as Hc; try done.
  - exfalso. apply Hc. destruct (decide (k <= length l)%nat); [right; lia|].
    left. rewrite take_ge by lia. done.
  - destruct Hc as [Hc|Hc].
    + exfalso. apply Hx. eapply elem_of_sublist; [exact Hc|apply sublist_take].
    + by rewrite take_app_le by lia.
  - assert (length l < k)%nat by (destruct (decide (length l < k)%nat); [done|exfalso; apply Hc; right; lia]).
    rewrite !take_ge; [done|lia|]. rewrite length_app. simpl. lia.
Qed.

Lemma filter_not_in_snoc (s ids : list UUID) id :
  id ∉ ids -> filter (fun x => x ∉ s ++ [id]) ids = filter (fun x => x ∉ s) ids.
Proof.
  induction ids as [|x ids IH]; [done|]. intros [Hx Hni]%not_elem_of_cons.
  rewrite !filter_cons, IH by done.
  destruct (decide (x ∈ s)); [by rewrite !decide_False by set_solver|by rewrite !decide_True by set_solver].
Qed.

Lemma run_saga_step limit answer ctx evs e st :
  served limit evs st ->
  exists st', (let! res := attempt (saga_HandleEvent ResponseSagaType RunSaga (recorder answer) ctx (Some e)) in
               ret tt) st = (Ok tt, st') /\ served limit (evs ++ [e]) st'.
Proof.
  destruct st as [s log]. intros (Hs & Hconf & Hden). simpl in Hs, Hconf, Hden. subst s.
  unfold served. unfold accepted_ids. rewrite filter_app, fmap_app, filter_cons, filter_nil.
  fold (accepted_ids evs). set (ids := accepted_ids evs) in *. set (k := Z.to_nat limit) in *.
  set (seats := take k (first_come ids)) in *.
  pose proof (RunSaga_eq ctx e (recorder answer) (mkSaga (list_to_set seats) limit) log) as Hr.
  cbn [acceptedGuests guestLimit] in Hr.
  assert (size (list_to_set seats : gset UUID) = length seats) as Hsize by apply size_seats. rewrite Hsize in Hr.
  destruct (decide (eventType e = InviteAcceptedEvent)) as [He|He].
  2: { eexists. split; [by apply (run_saga_one _ _ _ _ _ _ Hr)|]. by rewrite !app_nil_r. }
  rewrite fmap_cons, fmap_nil. set (id := aggregateID e) in *.
  rewrite take_first_come. fold seats.
  destruct (decide (id ∈ (list_to_set seats : gset UUID))) as [Hin|Hin].
  { rewrite elem_of_list_to_set in Hin. eexists. split; [by apply (run_saga_one _ _ _ _ _ _ Hr)|].
    rewrite decide_True by by left. rewrite filter_app, filter_cons, filter_nil, decide_False by tauto.
    by rewrite app_nil_r. }
  rewrite elem_of_list_to_set in Hin.
  destruct (Z.leb_spec limit (Z.of_nat (length seats))) as [Hfull|Hfull].
  - destruct (saga_records answer ctx (command_of id DenyInvite) (mkSaga (list_to_set seats) limit, log))
      as (o & Hrec & Hp). rewrite Hrec in Hr.
    eexists. split; [by apply (run_saga_one _ _ _ _ _ _ Hr)|]. rewrite decide_True by (right; unfold k; lia).
    cbn [fst snd]. rewrite !sent_snoc, Hconf, Hden. simpl. rewrite app_nil_r.
    split; [done|]. split; [done|]. by rewrite filter_app, filter_cons, filter_nil, decide_True.
  - destruct (saga_records answer ctx (command_of id ConfirmInvite)
      (mkSaga ({[id]} ∪ list_to_set seats) limit, log)) as (o & Hrec & Hp). rewrite Hrec in Hr.
    eexists. split; [by apply (run_saga_one _ _ _ _ _ _ Hr)|].
    assert (length seats < k)%nat as Hlt by (unfold k; lia).
    rewrite decide_False by (intros [?|?]; [done|lia]).
    cbn [fst snd]. rewrite !sent_snoc, Hconf, Hden. simpl. rewrite app_nil_r. split; [|split; [done|]].
    + f_equal. rewrite list_to_set_app_L. simpl. set_solver.
    + assert (seats = first_come ids) as Hall.
      { unfold seats in *. rewrite length_take in Hlt. apply take_ge. lia. }
      rewrite filter_app, filter_cons, filter_nil, decide_False by set_solver. rewrite app_nil_r.
      symmetry. apply filter_not_in_snoc. rewrite <- first_come_elem. by rewrite <- Hall.
Qed.

(** C22: first come, first served.  Over any sequence of events, and whatever becomes
    of the commands it sends, the saga confirms the first [limit] different
    guests that accepted, once each and in order, and sends a denial for every
    acceptance of any other guest.  A seat whose confirmation failed stays
    taken. *)
Theorem saga_first_come_first_served limit answer ctx evs :
  exists st, run_saga answer ctx evs (NewResponseSaga limit, []) = (Ok tt, st) /\
    served limit evs st.
Proof.
  unfold run_saga. apply for_range_inv.
  - unfold served. change (first_come (accepted_ids [])) with (@nil UUID). by rewrite take_nil.
  - intros don e rest st _ Hst. by apply run_saga_step.
Qed.


(** ** The guest list *)

Section Counting.
Context {S E : Type} `{HE : Entity E} (entity : GuestList -> E) (as_GuestList : E -> option GuestList).
Context (repo : ReadWriteRepo S E) `{!RepoLaws repo} (eventID : UUID).
Context (Hcast : forall g, as_GuestList (entity g) = Some g).
Context (Hkeep : forall g, gl_ID g = eventID -> keepable (entity g) /\ EntityID (entity g) = eventID).
Context (Hnil : eventID <> Nil).

Definition counted (e : event) : Prop :=
  eventType e ∈ [InviteAcceptedEvent; InviteDeclinedEvent; InviteConfirmedEvent; InviteDeniedEvent].

Definition number (ty : string) (evs : list event) : Z := len (filter (fun e => eventType e = ty) evs).

(** The guest list that counts exactly the events [evs]. *)
Definition totals (evs : list event) : GuestList :=
  mkGuestList eventID (number InviteAcceptedEvent evs + number InviteDeclinedEvent evs)
    (number InviteAcceptedEvent evs) (number InviteDeclinedEvent evs)
    (number InviteConfirmedEvent evs) (number InviteDeniedEvent evs).

(** The repository after handling [evs]. *)
Definition tallied (s0 : S) (evs : list event) (s : S) : Prop :=
  repo_ok s /\
  entities s = match evs with [] => entities s0 | _ => <[eventID := entity (totals evs)]> (entities s0) end.

Lemma number_snoc ty evs e :
  number ty (evs ++ [e]) = number ty evs + (if decide (eventType e = ty) then 1 else 0).
Proof.
  unfold number. rewrite filter_app, len_app, filter_cons, filter_nil. by case_decide.
Qed.

Lemma number_le evs : number InviteAcceptedEvent evs + number InviteDeclinedEvent evs <= len evs.
Proof.
  induction evs as [|e evs IH] using rev_ind; [done|].
  rewrite !number_snoc, len_app. change (len [e]) with 1.
  destruct (decide (eventType e = InviteAcceptedEvent)) as [->|]; [by rewrite decide_False; [lia|]|].
  case_decide; lia.
Qed.

Lemma number_bounds ty evs : 0 <= number ty evs <= len evs.
Proof. unfold number. split; [apply len_nonneg|apply len_filter]. Qed.

Lemma count_totals evs e :
  counted e -> is_int (len evs + 1) -> count e (totals evs) = inl (totals (evs ++ [e])).
Proof.
  intros Hc Hi. pose proof (number_le evs) as Hle. pose proof (fun ty => number_bounds ty evs) as Hb.
  assert (forall n, 0 <= n <= len evs -> iadd n 1 = n + 1) as Hadd by (intros; apply iadd_id; int_lia).
  assert (0 <= number InviteAcceptedEvent evs + number InviteDeclinedEvent evs) as Hpos
    by (pose proof (Hb InviteAcceptedEvent); pose proof (Hb InviteDeclinedEvent); lia).
  unfold count, totals, counted in *. rewrite !number_snoc.
  repeat (apply elem_of_cons in Hc as [Hc|Hc]); [..|by apply elem_of_nil in Hc];
    rewrite Hc; simpl; unfold count_accepted, count_declined, count_confirmed, count_denied; simpl;
    rewrite !Hadd by auto; do 2 f_equal; lia.
Qed.

(** the numbers of the guest list.  Handling events of answers in sequence, on a
    repository that keeps its contract and has no list for the event yet, never
    fails, and leaves a list that counts exactly those events, so that the
    guests are the accepted and the declined ones.  An event that is delivered
    twice is counted twice: nothing in the list tells them apart. *)
Theorem guest_list_counts ctx evs (s : S) :
  repo_ok s -> entities s !! eventID = None -> Forall counted evs -> is_int (len evs) ->
  exists s', for_range evs (fun e => HandleEvent entity as_GuestList repo eventID ctx (Some e)) s = (Ok tt, s') /\
    tallied s evs s'.
Proof.
  intros Hok Hnone Hc Hint. apply (for_range_inv _ (tallied s)); [done|].
  intros don e rest s1 Hevs [Hok1 He1]. unfold HandleEvent.
  assert (counted e) as Hce by (rewrite Hevs in Hc; apply Forall_app in Hc as [_ Hc]; by apply Forall_cons in Hc as [? _]).
  assert (is_int (len don + 1)) as Hi by (rewrite Hevs in Hint; int_lia).
  assert (exists s2, load_guest_list as_GuestList repo eventID ctx s1 = (Ok (totals don), s2) /\
    repo_ok s2 /\ entities s2 = entities s1) as (s2 & Hl & Hok2 & He2).
  { unfold load_guest_list. destruct don as [|d don].
    - destruct (law_find_missing ctx s1 eventID Hok1) as (err & s2 & Hf & Hnf & _ & Hok2 & He2); [by rewrite He1|].
      exists s2. rewrite (bind_ok _ _ _ _ _ (attempt_err _ _ _ _ Hf)). by rewrite Hnf.
    - destruct (law_find ctx s1 eventID (entity (totals (d :: don))) Hok1) as (s2 & Hf & Hok2 & He2);
        [rewrite He1; apply lookup_insert_eq|].
      exists s2. rewrite (bind_ok _ _ _ _ _ (attempt_ok _ _ _ _ Hf)). by rewrite Hcast. }
  rewrite (bind_ok _ _ _ _ _ Hl), (bind_ok _ _ s2 s2 e), count_totals by done.
  destruct (Hkeep (totals (don ++ [e])) eq_refl) as [Hk Hid].
  destruct (law_save ctx s2 (entity (totals (don ++ [e]))) Hok2 Hk) as (s3 & Hs & Hok3 & He3); [by rewrite Hid|].
  exists s3. split; [by apply map_err_ok|]. split; [done|]. rewrite He3, Hid, He2, He1.
  destruct don; [done|]. by rewrite insert_insert_eq.
Qed.

End Counting.
End GuestList.
