(* ===== verification/DomainInit.v ===== *)
(** * What the packages register when they are loaded (the [init] functions)

    The example domains and the mocks put their commands, event data and
    aggregates into the global registries, starting from empty ones.  The
    theorems say what can be created then: what the services assume of the
    registries. *)

From stdpp Require Import base gmap strings list numbers option pretty.
From Stdlib Require Import Lia ZArith.
From S2P Require Import Prelude.
From S2P Require Import GoTypes.
From S2P Require Import Event.
From S2P Require Import Command.
From S2P Require Import Errors.
From S2P Require Import Registry.
From S2P Require Import AggregateBase.
From S2P Require Import AggregateStore.
From S2P Require Import Context.
From S2P Require Import Mocks.
From S2P Require Import DomainModel.
From S2P Require Import Todo.
From S2P Require Import GuestList.

Module DomainInit.

Abbreviation commands := (gmap string (unit -> option command)).
Abbreviation factories := (gmap string (unit -> any)).

Section Init.
(** The text of a type in a panic. *)
Context (quote : string -> string).

(** [RegisterCommand] of a factory for each zero command, in order. *)
Definition register_commands (zeros : list command) : M commands unit :=
  for_range zeros (fun c => RegisterCommand quote (fun _ => Some c)).

Definition register_event_data (l : list (string * any)) : M factories unit :=
  for_range l (fun p => RegisterEventData quote p.1 (fun _ => p.2)).

(** ** The todo domain *)

Definition todo_zero_commands : list Todo.Command :=
  [Todo.Create; Todo.Delete; Todo.AddItem ""; Todo.RemoveItem 0; Todo.RemoveCompletedItems;
   Todo.SetItemDescription 0 ""; Todo.CheckItem 0 false; Todo.CheckAllItems false].

(** [&Create{}] and so on: the zero command of the type of [c]. *)
Definition todo_zero (c : Todo.Command) : Todo.Command :=
  match c with
  | Todo.Create => Todo.Create
  | Todo.Delete => Todo.Delete
  | Todo.AddItem _ => Todo.AddItem ""
  | Todo.RemoveItem _ => Todo.RemoveItem 0
  | Todo.RemoveCompletedItems => Todo.RemoveCompletedItems
  | Todo.SetItemDescription _ _ => Todo.SetItemDescription 0 ""
  | Todo.CheckItem _ _ => Todo.CheckItem 0 false
  | Todo.CheckAllItems _ => Todo.CheckAllItems false
  end.

Definition todo_init_commands : M commands unit :=
  register_commands (Todo.command_of Nil <$> todo_zero_commands).

Definition todo_event_data : list (string * any) :=
  [(Todo.ItemAdded, Todo.ItemAddedData 0 ""); (Todo.ItemRemoved, Todo.ItemRemovedData 0);
   (Todo.ItemDescriptionSet, Todo.ItemDescriptionSetData 0 ""); (Todo.ItemChecked, Todo.ItemCheckedData 0 false)].

Definition todo_init_event_data : M factories unit := register_event_data todo_event_data.

Definition todo_init_aggregate (new : UUID) : M (gmap string (UUID -> option (agg Todo.Aggregate))) unit :=
  RegisterAggregate quote (fun a => base_AggregateType (agg_base a)) new
    (fun id => Some (mkAgg (NewAggregateBase Todo.AggregateType id) Todo.NewAggregate)).

(** ** The guest list domain *)

Definition guest_zero_commands : list GuestList.Command :=
  [GuestList.CreateInvite "" 0; GuestList.AcceptInvite; GuestList.DeclineInvite; GuestList.ConfirmInvite;
   GuestList.DenyInvite].

Definition guest_zero (c : GuestList.Command) : GuestList.Command :=
  match c with GuestList.CreateInvite _ _ => GuestList.CreateInvite "" 0 | c => c end.

Definition guest_init_commands : M commands unit :=
  register_commands (GuestList.command_of Nil <$> guest_zero_commands).

Definition guest_event_data : list (string * any) :=
  [(GuestList.InviteCreatedEvent, GuestList.InviteCreatedData "" 0)].

Definition guest_init_event_data : M factories unit := register_event_data guest_event_data.

Definition guest_init_aggregate (new : UUID)
  : M (gmap string (UUID -> option (agg GuestList.InvitationAggregate))) unit :=
  RegisterAggregate quote (fun a => base_AggregateType (agg_base a)) new
    (fun id => Some (GuestList.NewInvitationAggregate id)).

(** ** The mocks *)

Definition mocks_init_aggregate (new : UUID) : M (gmap string (UUID -> option Mocks.Aggregate)) unit :=
  RegisterAggregate quote (fun _ => Mocks.AggregateType) new (fun id => Some (Mocks.NewAggregate id)).

(** The marshalers, beside those of the other packages. *)
Definition mocks_init_context (fs : list ContextMarshalFunc * list ContextUnmarshalFunc)
  : list ContextMarshalFunc * list ContextUnmarshalFunc :=
  (RegisterContextMarshaler Mocks.one_marshaler fs.1, RegisterContextUnmarshaler Mocks.one_unmarshaler fs.2).

End Init.

(** ** What can be created *)

(** Registering new keys adds them, whatever is there already. *)
Lemma register_all {F} quote name (l : list (string * F)) (reg : gmap string F) :
  NoDup l.*1 -> Forall (fun k => k <> "" /\ reg !! k = None) l.*1 ->
  for_range l (fun p => register "" quote name p.1 p.2) reg = (Ok tt, list_to_map l ∪ reg).
Proof.
  revert reg. induction l as [|[k f] l IH]; intros reg Hnd Hz; [by rewrite list_to_map_nil, (left_id_L ∅ (∪))|].
  csimpl in Hnd. csimpl in Hz. apply NoDup_cons in Hnd as [Hk Hnd]. apply Forall_cons in Hz as [[Hne Hfree] Hz].
  rewrite list_to_map_cons. cbn [for_range].
  rewrite (bind_ok _ _ reg (<[k := f]> reg) tt) by (cbn [fst snd]; by rewrite register_spec, bool_decide_eq_false_2, Hfree).
  rewrite IH; [|done|].
  - f_equal. rewrite <- insert_union_l. symmetry. apply insert_union_r. by apply not_elem_of_list_to_map.
  - rewrite Forall_forall in Hz |- *. intros k' Hk'. destruct (Hz k' Hk'). split; [done|].
    rewrite lookup_insert_ne; [done|]. by intros <-.
Qed.

Lemma for_range_over {E S A B} (f : A -> B) (l : list A) (g : B -> prog E S unit) s :
  for_range l (fun x => g (f x)) s = for_range (f <$> l) g s.
Proof.
  revert s. induction l as [|x l IH]; intros s; [done|]. cbn. unfold bind.
  destruct (g (f x) s) as [[]]; [apply IH|done|done].
Qed.

(** The keys are new to a registry. *)
Definition fresh_keys {F} (l : list string) (reg : gmap string F) : Prop := Forall (fun k => reg !! k = None) l.

Lemma register_commands_adds quote zeros (reg : commands) :
  NoDup (CommandType <$> zeros) -> "" ∉ CommandType <$> zeros -> fresh_keys (CommandType <$> zeros) reg ->
  register_commands quote zeros reg =
    (Ok tt, list_to_map ((fun c => (CommandType c, fun _ => Some c)) <$> zeros) ∪ reg).
Proof.
  intros Hnd Hne Hfree. rewrite <- (register_all quote "command"), <- for_range_over; [done|..];
    rewrite <- list_fmap_compose; [done|].
  apply Forall_forall. intros k Hk. split; [by intros ->|]. unfold fresh_keys in Hfree.
  rewrite Forall_forall in Hfree. by apply Hfree.
Qed.

Lemma register_event_data_adds quote l (reg : factories) :
  NoDup l.*1 -> "" ∉ l.*1 -> fresh_keys l.*1 reg ->
  register_event_data quote l reg = (Ok tt, list_to_map ((fun p => (p.1, fun _ => p.2)) <$> l) ∪ reg).
Proof.
  intros Hnd Hne Hfree. rewrite <- (register_all quote "event"), <- for_range_over; [done|..];
    rewrite <- list_fmap_compose; [done|].
  apply Forall_forall. intros k Hk. split; [by intros ->|]. unfold fresh_keys in Hfree.
  rewrite Forall_forall in Hfree. by apply Hfree.
Qed.

(** Of a key that was added, the registry has the factory. *)
Lemma added_lookup {F} (l : list (string * F)) reg k f :
  NoDup l.*1 -> (k, f) ∈ l -> (list_to_map l ∪ reg : gmap string F) !! k = Some f.
Proof. intros Hnd Hin. apply lookup_union_Some_l. by apply elem_of_list_to_map. Qed.

Lemma others_lookup {F} (l : list (string * F)) reg k :
  k ∉ l.*1 -> (list_to_map l ∪ reg : gmap string F) !! k = reg !! k.
Proof. intros Hk. rewrite lookup_union_r; [done|]. by apply not_elem_of_list_to_map. Qed.

Lemma todo_init_aggregate_eq quote new aggs :
  todo_init_aggregate quote new aggs =
  register "" quote "aggregate" Todo.AggregateType (fun id => Some (Todo.new_aggregate id)) aggs.
Proof. reflexivity. Qed.

Ltac decide_list := apply (bool_decide_eq_true_1 _); vm_compute; reflexivity.

(** loading the todo package.  In registries that do not have its types yet,
    [init] succeeds: every command type makes a zero command of that type, the
    event types with data make a zero value of it, the aggregate type makes a new
    todo list with the ID asked for, and no other type changes.  Loaded again,
    every part of it panics. *)
Theorem todo_init_registers quote new (cmds : commands) (data : factories) aggs :
  fresh_keys (Todo.CommandType <$> todo_zero_commands) cmds -> fresh_keys todo_event_data.*1 data ->
  aggs !! Todo.AggregateType = None ->
  exists cmds' data' aggs',
    todo_init_commands quote cmds = (Ok tt, cmds') /\ todo_init_event_data quote data = (Ok tt, data') /\
    todo_init_aggregate quote new aggs = (Ok tt, aggs') /\
    (forall c, cmds' !! Todo.CommandType c = Some (fun _ => Some (Todo.command_of Nil (todo_zero c)))) /\
    (forall et d, (et, d) ∈ todo_event_data -> data' !! et = Some (fun _ => d)) /\
    aggs' !! Todo.AggregateType = Some (fun id => Some (Todo.new_aggregate id)) /\
    (forall k, k ∉ Todo.CommandType <$> todo_zero_commands -> cmds' !! k = cmds !! k) /\
    (forall k, k ∉ todo_event_data.*1 -> data' !! k = data !! k) /\
    (forall k, k <> Todo.AggregateType -> aggs' !! k = aggs !! k) /\
    Forall (fun r => match r with Panic _ => True | _ => False end)
      [(todo_init_commands quote cmds').1; (todo_init_event_data quote data').1;
       (todo_init_aggregate quote new aggs').1].
Proof.
  intros Hc Hd Ha.
  assert (NoDup (CommandType <$> (Todo.command_of Nil <$> todo_zero_commands))) as Hndc by decide_list.
  assert (NoDup todo_event_data.*1) as Hndd by decide_list.
  pose proof (register_commands_adds quote _ cmds Hndc ltac:(decide_list) Hc) as Hrc.
  pose proof (register_event_data_adds quote _ data Hndd ltac:(decide_list) Hd) as Hrd.
  set (cmds' := list_to_map _ ∪ cmds) in Hrc. set (data' := list_to_map _ ∪ data) in Hrd.
  set (aggs' := <[Todo.AggregateType := fun id => Some (Todo.new_aggregate id)]> aggs).
  assert (forall c, cmds' !! Todo.CommandType c = Some (fun _ => Some (Todo.command_of Nil (todo_zero c)))) as Hcmds.
  { intros c. replace (Todo.CommandType c) with (Todo.CommandType (todo_zero c)) by (by destruct c).
    apply added_lookup; [by rewrite <- list_fmap_compose|]. rewrite <- list_fmap_compose.
    apply (list_elem_of_fmap_2 (fun z => (Todo.CommandType z, fun _ => Some (Todo.command_of Nil z)))).
    destruct c; apply list_elem_of_In; simpl; tauto. }
  assert (forall et d, (et, d) ∈ todo_event_data -> data' !! et = Some (fun _ => d)) as Hdata.
  { intros et d Hin. apply added_lookup; [by rewrite <- list_fmap_compose|].
    by apply (list_elem_of_fmap_2 (fun p => (p.1, fun _ : unit => p.2)) _ (et, d)). }
  assert (aggs' !! Todo.AggregateType = Some (fun id => Some (Todo.new_aggregate id))) as Haggs by apply lookup_insert_eq.
  exists cmds', data', aggs'. split_and!; try done.
  - by rewrite todo_init_aggregate_eq, register_spec, bool_decide_eq_false_2, Ha.
  - intros k Hk. apply others_lookup. by rewrite <- !list_fmap_compose.
  - intros k Hk. apply others_lookup. by rewrite <- !list_fmap_compose.
  - intros k Hk. by apply lookup_insert_ne.
  - repeat constructor.
    + pose proof (Hcmds Todo.Create) as Hz. unfold todo_init_commands, register_commands. cbn.
      unfold bind, RegisterCommand. rewrite register_spec. cbn in Hz |- *. by rewrite Hz.
    + pose proof (Hdata _ _ ltac:(by left)) as Hz. unfold todo_init_event_data, register_event_data. cbn.
      unfold bind, RegisterEventData. rewrite register_spec. cbn in Hz |- *. by rewrite Hz.
    + by rewrite todo_init_aggregate_eq, register_spec, bool_decide_eq_false_2, Haggs.
Qed.

Lemma guest_init_aggregate_eq quote new aggs :
  guest_init_aggregate quote new aggs =
  register "" quote "aggregate" GuestList.InvitationAggregateType
    (fun id => Some (GuestList.NewInvitationAggregate id)) aggs.
Proof. reflexivity. Qed.

(** loading the guest list package, in the same way: every command type
    makes a zero command, the event of a new invitation makes zero data, the
    aggregate type a new invitation. *)
Theorem guest_init_registers quote new (cmds : commands) (data : factories) aggs :
  fresh_keys (GuestList.CommandType <$> guest_zero_commands) cmds -> fresh_keys guest_event_data.*1 data ->
  aggs !! GuestList.InvitationAggregateType = None ->
  exists cmds' data' aggs',
    guest_init_commands quote cmds = (Ok tt, cmds') /\ guest_init_event_data quote data = (Ok tt, data') /\
    guest_init_aggregate quote new aggs = (Ok tt, aggs') /\
    (forall c, cmds' !! GuestList.CommandType c = Some (fun _ => Some (GuestList.command_of Nil (guest_zero c)))) /\
    data' !! GuestList.InviteCreatedEvent = Some (fun _ => GuestList.InviteCreatedData "" 0) /\
    aggs' !! GuestList.InvitationAggregateType = Some (fun id => Some (GuestList.NewInvitationAggregate id)).
Proof.
  intros Hc Hd Ha.
  assert (NoDup (CommandType <$> (GuestList.command_of Nil <$> guest_zero_commands))) as Hndc by decide_list.
  assert (NoDup guest_event_data.*1) as Hndd by decide_list.
  pose proof (register_commands_adds quote _ cmds Hndc ltac:(decide_list) Hc) as Hrc.
  pose proof (register_event_data_adds quote _ data Hndd ltac:(decide_list) Hd) as Hrd.
  do 3 eexists. split; [exact Hrc|]. split; [exact Hrd|]. split; [|split; [|split]].
  - by rewrite guest_init_aggregate_eq, register_spec, bool_decide_eq_false_2, Ha.
  - intros c. replace (GuestList.CommandType c) with (GuestList.CommandType (guest_zero c)) by (by destruct c).
    apply added_lookup; [by rewrite <- list_fmap_compose|]. rewrite <- list_fmap_compose.
    apply (list_elem_of_fmap_2 (fun z => (GuestList.CommandType z, fun _ => Some (GuestList.command_of Nil z)))).
    destruct c; apply list_elem_of_In; simpl; tauto.
  - apply added_lookup; [by rewrite <- list_fmap_compose|]. by left.
  - by apply lookup_insert_eq.
Qed.

(** Both packages together, in empty registries. *)
Example todo_and_guest_commands :
  (fun m => size m) <$>
    (let '(r, cmds) := (do! todo_init_commands (fun s => s) in guest_init_commands (fun s => s)) ∅ in
     match r with Ok _ => Some cmds | _ => None end) = Some 13%nat.
Proof. vm_compute. reflexivity. Qed.

End DomainInit.
