(* ===== verification/GuestListService.v ===== *)
(** * The guest list service ([examples/guestlist])

    [Setup] ([domains/guestlist/setup.go]) wires the domain to a command bus, an
    event store and two repositories; [LoggingMiddleware] and [Logger] are those
    of [logger.go].  The theorems say what it sets up, and that whatever commands
    and events come in, no more guests are confirmed than there are seats. *)

From stdpp Require Import base gmap strings list numbers option pretty.
From Stdlib Require Import Lia ZArith.
From S2P Require Import Prelude.
From S2P Require Import GoTypes.
From S2P Require Import Event.
From S2P Require Import Command.
From S2P Require Import Errors.
From S2P Require Import Fixtures.
From S2P Require Import CommandCheck.
From S2P Require Import EventStoreSpec.
From S2P Require Import AggregateBase.
From S2P Require Import AggregateStore.
From S2P Require Import CommandHandler.
From S2P Require Import Match.
From S2P Require Import Repo.
From S2P Require Import Projector.
From S2P Require Import Handlers.
From S2P Require Import DomainModel.
From S2P Require Import GuestList.

Import GuestList.GuestList.

Module GuestListService.

(** The log lines are left out. *)
Definition LoggingMiddleware {S} : CommandHandlerMiddleware S := fun h ctx cmd => h ctx cmd.

Definition Logger {S} : Handlers.EventHandler S := mkHandler "logger" (fun ctx ev => ret tt) false None.

(** [guestlist.HandlerAdder], with state [T], for handlers over [S]. *)
Abbreviation HandlerAdder T S := (context -> option EventMatcher -> option (Handlers.EventHandler S) -> M T unit).

Section Service.
(** The event store's state, the repositories', and their entities. *)
Context {W R E : Type} `{Entity E} (entity : GuestList -> E) (as_GuestList : E -> option GuestList).
Context (uuid_String : UUID -> string) (TimeNow : nat -> Time) (now : Time).
Context (aggregates : gmap string (UUID -> option (agg InvitationAggregate))).

#[local] Instance service_Domain : Domain InvitationAggregate := invitation_Domain TimeNow.
#[local] Instance service_AppliesBySig : AppliesBySig InvitationAggregate := invitation_AppliesBySig TimeNow.
#[local] Instance service_CommandSpec : CommandSpec InvitationAggregate Command := invitation_CommandSpec TimeNow.

(** [bus.CommandHandler]: a pointer, which the saga keeps; its table is a part
    of the state. *)
Abbreviation Bus := (gmap string (option (CommandHandlerFunc W))).

Definition commandBus_HandleCommand : CommandHandlerFunc (Bus * W) := fun ctx cmd st =>
  let '(r, w) := bus_HandleCommand st.1 ctx cmd st.2 in (r, (st.1, w)).

(** ** [Setup] *)

Definition handled_commands : list string :=
  ["CreateInvite"; "AcceptInvite"; "DeclineInvite"; "ConfirmInvite"; "DenyInvite"].

Definition invitation_events : list string :=
  [InviteCreatedEvent; InviteAcceptedEvent; InviteDeclinedEvent; InviteConfirmedEvent; InviteDeniedEvent].

Definition guest_list_events : list string :=
  [InviteAcceptedEvent; InviteDeclinedEvent; InviteConfirmedEvent; InviteDeniedEvent].

Definition invitation_handler (store : EventStore W) (strategy : SnapshotStrategy) : CommandHandlerFunc W :=
  UseCommandHandlerMiddleware
    (CommandHandler.HandleCommand InvitationAggregateType (events_store uuid_String aggregates store None strategy now))
    [LoggingMiddleware].

Definition new_Invitation : unit -> Invitation := fun _ => mkInvitationModel Nil 0 "" 0 "".

(** [projector.NewEventHandler(NewInvitationProjector(), invitationRepo)] with
    its entity factory; [others] is what other goroutines do while it waits to
    retry. *)
Definition invitation_projector (repo : ReadWriteRepo R Invitation) (others : R -> R) : Handlers.EventHandler R :=
  let h := Projector.NewEventHandler [Projector.SetEntityFactory (Some new_Invitation)] in
  mkHandler (Projector.HandlerType (E := Invitation)) (Projector.HandleEvent h repo now others) false None.

Definition NewGuestListProjector (repo : ReadWriteRepo R E) (eventID : UUID) : Handlers.EventHandler R :=
  mkHandler HandlerType (GuestList.HandleEvent entity as_GuestList repo eventID) false None.

(** The saga's events and commands act on its own state and, through the
    command bus, on the event store. *)
Abbreviation Saga := (ResponseSaga * (Bus * W))%type.

Definition response_saga_HandleEvent : context -> option event -> M Saga unit :=
  saga_HandleEvent ResponseSagaType RunSaga (fun ctx cmd => zoom_snd (commandBus_HandleCommand ctx cmd)).

Definition response_saga : Handlers.EventHandler Saga :=
  mkHandler (saga_HandlerType ResponseSagaType) response_saga_HandleEvent false None.

(** The state of [Setup]: the table of the command bus and what the handlers
    are added to; it gives the state of the new saga.  [group] is the random
    UUID of the logger's observer group. *)
Definition Setup {L G : Type} (ctx : context) (eventStore : option (EventStore W))
    (local : HandlerAdder L R) (global : HandlerAdder G Saga)
    (invitationRepo : ReadWriteRepo R Invitation) (guestListRepo : ReadWriteRepo R E) (others : R -> R)
    (eventID group : UUID) : M (Bus * (L * G)) ResponseSaga :=
  let! st := map_err (Errorf "could not create aggregate store") (lift (NewAggregateStore eventStore [])) in
  let '(store, strategy) := st in
  let! h := map_err (Errorf "could not create command handler")
              (lift (CommandHandler.NewCommandHandler InvitationAggregateType
                 (Some (events_store uuid_String aggregates store None strategy now)))) in
  let '(t, st) := h in
  let commandHandler := UseCommandHandlerMiddleware (CommandHandler.HandleCommand t st) [LoggingMiddleware] in
  do! for_range handled_commands (fun cmd =>
    map_err (Errorf ("could not add command handler for '" +:+ cmd +:+ "'"))
      (zoom_fst (SetHandler (Some commandHandler) cmd))) in
  do! map_err (Errorf "could not add invitation projector")
        (zoom_snd (zoom_fst (local ctx (Some (MatchEvents invitation_events))
           (Some (invitation_projector invitationRepo others))))) in
  do! map_err (Errorf "could not add guest list projector")
        (zoom_snd (zoom_fst (local ctx (Some (MatchEvents guest_list_events))
           (Some (NewGuestListProjector guestListRepo eventID))))) in
  do! map_err (Errorf "could not add response saga to event bus")
        (zoom_snd (zoom_snd (global ctx (Some (MatchEvents [InviteAcceptedEvent])) (Some response_saga)))) in
  do! map_err (Errorf "could not add logger to event bus")
        (zoom_snd (zoom_snd (global ctx (Some (MatchAll []))
           (Some (UseEventHandlerMiddleware Logger [observer_Middleware uuid_String group]))))) in
  ret (NewResponseSaga 2).

(** ** What is set up *)

Section Setup.
Context (store : EventStore W).

Abbreviation handler := (invitation_handler store NoSnapshotStrategy).

Definition guest_bus : Bus := foldl (fun b ct => <[ct := Some handler]> b) ∅ handled_commands.

Lemma guest_bus_routes c : guest_bus !! CommandType c = Some (Some handler).
Proof. by destruct c. Qed.

(** setting the guest list up.  On an empty command bus, when the handlers can
    be added, [Setup] succeeds: exactly the commands of invitations are routed,
    to the aggregate's handler, and the saga has two seats to give. *)
Theorem Setup_routes_commands {L G : Type} ctx (local : HandlerAdder L R) (global : HandlerAdder G Saga)
    invitationRepo guestListRepo others eventID group l l1 l2 g g1 g2 :
  local ctx (Some (MatchEvents invitation_events)) (Some (invitation_projector invitationRepo others)) l = (Ok tt, l1) ->
  local ctx (Some (MatchEvents guest_list_events)) (Some (NewGuestListProjector guestListRepo eventID)) l1 = (Ok tt, l2) ->
  global ctx (Some (MatchEvents [InviteAcceptedEvent])) (Some response_saga) g = (Ok tt, g1) ->
  global ctx (Some (MatchAll [])) (Some (UseEventHandlerMiddleware Logger [observer_Middleware uuid_String group])) g1
    = (Ok tt, g2) ->
  Setup ctx (Some store) local global invitationRepo guestListRepo others eventID group (∅, (l, g)) =
    (Ok (NewResponseSaga 2), (guest_bus, (l2, g2))) /\
  (forall ct, (exists c, ct = CommandType c) <-> guest_bus !! ct = Some (Some handler)).
Proof.
  intros Hl1 Hl2 Hg1 Hg2. split.
  - unfold Setup.
    rewrite (bind_ok _ _ _ (∅, (l, g)) (store, NoSnapshotStrategy)) by done. cbn beta iota.
    rewrite (bind_ok _ _ _ (∅, (l, g))
      (InvitationAggregateType, events_store uuid_String aggregates store None NoSnapshotStrategy now)) by done.
    cbn beta iota.
    rewrite (bind_ok _ _ _ (guest_bus, (l, g)) tt) by done.
    rewrite (bind_ok _ _ _ (guest_bus, (l1, g)) tt)
      by (apply map_err_ok; unfold zoom_snd, zoom_fst, zoom; simpl; by rewrite Hl1).
    rewrite (bind_ok _ _ _ (guest_bus, (l2, g)) tt)
      by (apply map_err_ok; unfold zoom_snd, zoom_fst, zoom; simpl; by rewrite Hl2).
    rewrite (bind_ok _ _ _ (guest_bus, (l2, g1)) tt)
      by (apply map_err_ok; unfold zoom_snd, zoom_fst, zoom; simpl; by rewrite Hg1).
    rewrite (bind_ok _ _ _ (guest_bus, (l2, g2)) tt); [done|].
    apply map_err_ok. unfold zoom_snd, zoom_fst, zoom. simpl. by rewrite Hg2.
  - intros ct. split; [intros (c & ->); apply guest_bus_routes|].
    unfold guest_bus, handled_commands. simpl. intros Hct.
    repeat (apply lookup_insert_Some in Hct as [[<- _]|[_ Hct]];
      [first [by exists (CreateInvite "" 0)|by exists AcceptInvite|by exists DeclineInvite
             |by exists ConfirmInvite|by exists DenyInvite]|]).
    by rewrite lookup_empty in Hct.
Qed.

(** ** No more guests than seats *)

Context `{!EventStoreLaws store} (ctx : context).

Abbreviation represents := (spec_represents (C := Command) (store := store) ctx).

(** What happens to the running service: a client sends a command to the
    command bus, or the event bus hands an event to the saga, possibly twice or
    out of order.  Errors go to the client or to a log. *)
Inductive service_step : Type :=
| Issue (id : UUID) (c : Command)
| Deliver (e : event).

Definition service_run (st : service_step) : M Saga unit :=
  do! attempt (match st with
      | Issue id c => zoom_snd (commandBus_HandleCommand ctx (Some (command_of id c)))
      | Deliver e => response_saga_HandleEvent ctx (Some e)
      end) in
  ret tt.

(** Confirming is left to the saga. *)
Definition from_guests (st : service_step) : Prop :=
  match st with Issue _ ConfirmInvite => False | _ => True end.

(** The service with room for [n] more events: only guests of the saga are
    confirmed, and the saga has no more of them than seats. *)
Record booked (limit n : Z) (saga : ResponseSaga) (w : W) : Prop := {
  booked_limit : guestLimit saga = limit;
  booked_seats : Z.of_nat (size (acceptedGuests saga)) <= limit;
  booked_ok : store_ok w;
  booked_guests id : exists d, represents w id d /\ (confirmed d = true -> id ∈ acceptedGuests saga);
  booked_holds : holds w n;
  booked_room id : is_int (len (stream w id) + n)
}.

Context (Hagg : aggregates !! InvitationAggregateType = Some (fun id => Some (NewInvitationAggregate id))).
Context (Hctx : ctx_err ctx = None).
Context (Hstorable : forall c d e, sig_of e ∈ emitted c d -> storable e).

Lemma represents_functional w id d d' : represents w id d -> represents w id d' -> d' = d.
Proof. intros (_ & _ & Hd) (_ & _ & Hd'). congruence. Qed.

Lemma represents_stream w w' id d : stream w' id = stream w id -> store_ok w' -> represents w id d -> represents w' id d.
Proof. intros Hs Hok (_ & ? & ?). unfold spec_represents. rewrite Hs. done. Qed.

Lemma len_emitted c d : 0 <= len (emitted c d) <= 1.
Proof. destruct c; simpl; repeat case_match; done. Qed.

Lemma booked_less limit n saga w : 0 <= n -> booked limit (n + 1) saga w -> booked limit n saga w.
Proof.
  intros Hn [? ? ? ? Hh Hr]. split; try done.
  - by apply (law_holds_le w n 1).
  - intros id. specialize (Hr id). pose proof (len_nonneg (stream w id)). int_lia.
Qed.

Lemma confirmed_effect c d : confirmed (effect c d) = true -> c = ConfirmInvite \/ confirmed d = true.
Proof. destruct c; simpl; auto. Qed.

(** A command that reaches the aggregate. *)
Lemma handler_booked limit n saga w id c :
  0 <= n -> booked limit (n + 1) saga w -> (c = ConfirmInvite -> id ∈ acceptedGuests saga) ->
  CheckCommand (Some (command_of id c)) = None ->
  let '(o, w') := handler ctx (Some (command_of id c)) w in
  (forall p, o <> Panic p) /\ booked limit n saga w'.
Proof.
  intros Hn Hb Hc Hcheck. pose proof Hb as [Hlim Hseats Hok Hg Hh Hroom].
  destruct (Hg id) as (d & Hr & Hd). pose proof (len_emitted c d) as Hlen.
  assert (holds w (len (emitted c d))) as Hh1.
  { apply (law_holds_le w _ (n + 1 - len (emitted c d))); [|lia].
    by replace (len (emitted c d) + (n + 1 - len (emitted c d))) with (n + 1) by lia. }
  assert (is_int (len (stream w id) + 1)) as Hint
    by (specialize (Hroom id); pose proof (len_nonneg (stream w id)); int_lia).
  pose proof (domain_handler_appends (C := Command) uuid_String aggregates store NoSnapshotStrategy now ctx w id c d
    Hagg (Hstorable c d) Hctx Hcheck Hr Logic.I Hint Hh1) as Hrun.
  change (spec_emitted c d) with (emitted c d) in Hrun.
  unfold invitation_handler, UseCommandHandlerMiddleware, applyMiddleware, LoggingMiddleware. simpl.
  destruct (CommandHandler.HandleCommand _ _ _ _ w) as [o w']. destruct Hrun as [Hoth Hrun].
  case_decide as Ha.
  - destruct Hrun as (-> & Hr' & (evs & Hs & Hsigs) & Hm). split; [done|]. split; [done|done|exact (proj1 Hr')| | |].
    + intros id'. destruct (decide (id' = id)) as [->|Hne].
      * exists (effect c d). split; [exact Hr'|]. intros [?|?]%confirmed_effect; auto.
      * destruct (Hg id') as (d' & Hr2 & Hd'). exists d'. split; [|done].
        apply (represents_stream w); [by apply Hoth|exact (proj1 Hr')|done].
    + apply (law_holds_le w' n (1 - len (emitted c d))); [|lia]. apply Hm.
      by replace (len (emitted c d) + (n + (1 - len (emitted c d)))) with (n + 1) by lia.
    + intros id'. pose proof (Hroom id'). pose proof (len_nonneg (stream w id')).
      destruct (decide (id' = id)) as [->|Hne]; [|rewrite Hoth by done; int_lia].
      rewrite Hs, len_app. assert (len evs = len (emitted c d)) as -> by (by rewrite <- Hsigs, len_fmap).
      int_lia.
  - destruct Hrun as ((err & -> & _) & Hu). split; [done|].
    pose proof (unchanged_ok store 0 w w' Hok Hu) as Hok'.
    apply booked_less in Hb as [? ? _ Hg' Hh' Hroom']; [|done]. split; try done.
    + intros id'. destruct (Hg' id') as (d' & Hr' & Hd'). exists d'. split; [|done].
      apply (represents_stream w); [|done|done]. by apply (unchanged_stream store 0 w w').
    + by apply (unchanged_holds store w w').
    + intros id'. rewrite (unchanged_stream store 0 w w' id' Hok Hu). done.
Qed.

Lemma bus_booked limit n saga w id c :
  0 <= n -> booked limit (n + 1) saga w -> (c = ConfirmInvite -> id ∈ acceptedGuests saga) ->
  exists o w', commandBus_HandleCommand ctx (Some (command_of id c)) (guest_bus, w) = (o, (guest_bus, w')) /\
    (forall p, o <> Panic p) /\ booked limit n saga w'.
Proof.
  intros Hn Hb Hc. unfold commandBus_HandleCommand, bus_HandleCommand, ctx_check, check_error. cbn [fst snd].
  rewrite Hctx. rewrite (bind_ok _ _ w w tt) by done.
  destruct (CheckCommand (Some (command_of id c))) as [err|] eqn:Hcheck.
  - eexists _, w. split; [done|]. split; [done|]. by apply booked_less.
  - rewrite (bind_ok _ _ w w tt) by done. rewrite (bind_ok _ _ w w (command_of id c)) by done.
    cbn [Command.CommandType command_of]. rewrite guest_bus_routes.
    rewrite (bind_ok _ _ w w handler) by done. fold (command_of id c).
    pose proof (handler_booked limit n saga w id c Hn Hb Hc Hcheck) as Hrun.
    destruct (handler ctx _ w) as [o w']. by exists o, w'.
Qed.

(** One more seat is taken. *)
Lemma booked_seat limit n saga w id :
  id ∉ acceptedGuests saga -> guestLimit saga <=? Z.of_nat (size (acceptedGuests saga)) = false ->
  booked limit n saga w ->
  booked limit n (mkSaga ({[id]} ∪ acceptedGuests saga) (guestLimit saga)) w.
Proof.
  intros Hnew Hlt [Hlim Hseats ? Hg ? ?]. apply Z.leb_gt in Hlt. split; try done; simpl.
  - rewrite size_union, size_singleton by set_solver. lia.
  - intros id'. destruct (Hg id') as (d & ? & ?). exists d. split; [done|]. set_solver.
Qed.

Lemma service_step_booked limit n st saga w :
  0 <= n -> from_guests st -> booked limit (n + 1) saga w ->
  exists saga' w', service_run st (saga, (guest_bus, w)) = (Ok tt, (saga', (guest_bus, w'))) /\ booked limit n saga' w'.
Proof.
  intros Hn Hf Hb.
  assert (forall saga id c, booked limit (n + 1) saga w -> (c = ConfirmInvite -> id ∈ acceptedGuests saga) ->
    exists o w', zoom_snd (commandBus_HandleCommand ctx (Some (command_of id c))) (saga, (guest_bus, w)) =
      (o, (saga, (guest_bus, w'))) /\ (forall p, o <> Panic p) /\ booked limit n saga w') as Hcmd.
  { intros saga0 id c Hb0 Hc. destruct (bus_booked limit n saga0 w id c Hn Hb0 Hc) as (o & w' & Hrun & ?).
    exists o, w'. split; [|done]. unfold zoom_snd, zoom. simpl. by rewrite Hrun. }
  assert (forall (m : M Saga unit) o saga' w', m (saga, (guest_bus, w)) = (o, (saga', (guest_bus, w'))) ->
    (forall p, o <> Panic p) ->
    (do! attempt m in ret tt) (saga, (guest_bus, w)) = (Ok tt, (saga', (guest_bus, w')))) as Hatt.
  { intros m o saga' w' Hm Hp. unfold bind, attempt. rewrite Hm. destruct o; [done..|]. by destruct (Hp msg). }
  destruct st as [id c|e]; unfold service_run.
  - destruct (Hcmd saga id c Hb) as (o & w' & Hrun & Hp & Hb'); [by intros ->|].
    exists saga, w'. split; [by eapply Hatt|done].
  - assert (exists o saga' w', RunSaga ctx e (fun ctx cmd => zoom_snd (commandBus_HandleCommand ctx cmd))
      (saga, (guest_bus, w)) = (o, (saga', (guest_bus, w'))) /\ (forall p, o <> Panic p) /\ booked limit n saga' w')
      as (o & saga' & w' & Hrun & Hp & Hb').
    { rewrite RunSaga_eq. apply booked_less in Hb as Hb0; [|done].
      case_decide; [|by exists (Ok tt), saga, w]. case_decide; [by exists (Ok tt), saga, w|].
      destruct (guestLimit saga <=? _) eqn:Hfull.
      - destruct (Hcmd saga (aggregateID e) DenyInvite Hb) as (o & w' & ? & ? & ?); [done|]. by exists o, saga, w'.
      - destruct (Hcmd (mkSaga ({[aggregateID e]} ∪ acceptedGuests saga) (guestLimit saga)) (aggregateID e)
          ConfirmInvite) as (o & w' & ? & ? & ?); [by apply booked_seat|set_solver|]. by eexists o, _, w'. }
    exists saga', w'. split; [|done].
    eapply (Hatt _ (match o with Err err => Err (SagaError err ResponseSagaType) | _ => o end)).
    + unfold response_saga_HandleEvent, saga_HandleEvent, map_err. rewrite Hrun. by destruct o.
    + destruct o; [done..|]. by destruct (Hp msg).
Qed.

Lemma service_booked limit steps saga w :
  Forall from_guests steps -> booked limit (len steps) saga w ->
  exists saga' w', for_range steps service_run (saga, (guest_bus, w)) = (Ok tt, (saga', (guest_bus, w'))) /\
    booked limit 0 saga' w'.
Proof.
  intros Hf. revert saga w. induction Hf as [|st steps Hst Hf IH]; intros saga w Hb; [by exists saga, w|].
  rewrite len_cons, Z.add_comm in Hb. pose proof (len_nonneg steps).
  destruct (service_step_booked limit (len steps) st saga w) as (saga1 & w1 & Hrun & Hb1); [done..|].
  destruct (IH saga1 w1 Hb1) as (saga' & w' & Hrun' & Hb'). exists saga', w'. split; [|done].
  cbn [for_range]. by rewrite (bind_ok _ _ _ _ _ Hrun).
Qed.

(** C6: no overbooking.  Whatever commands clients send to the service that [Setup]
    made, and whatever events its bus delivers to the saga, in any order and
    however often, nothing panics, and if no guest was confirmed before, no more
    guests than the saga has seats are confirmed by the event store, as long as
    only the saga confirms guests. *)
Theorem guest_list_never_overbooked limit steps w :
  0 <= limit -> Forall from_guests steps -> store_ok w ->
  (forall id, exists d, represents w id d /\ confirmed d = false) ->
  holds w (len steps) -> (forall id, is_int (len (stream w id) + len steps)) ->
  exists saga' w', for_range steps service_run (NewResponseSaga limit, (guest_bus, w)) =
      (Ok tt, (saga', (guest_bus, w'))) /\
    forall guests, NoDup guests -> Forall (fun id => exists d, represents w' id d /\ confirmed d = true) guests ->
      len guests <= limit.
Proof.
  intros Hlim Hf Hok Hg Hh Hr.
  destruct (service_booked limit steps (NewResponseSaga limit) w Hf) as (saga' & w' & Hrun & [Hl Hseats _ Hg' _ _]).
  { split; try done. intros id. destruct (Hg id) as (d & Hd & Hc). exists d. split; [done|]. by rewrite Hc. }
  exists saga', w'. split; [done|]. intros guests Hnd Hall.
  assert (list_to_set guests ⊆ acceptedGuests saga') as Hsub.
  { intros id Hid%elem_of_list_to_set. rewrite Forall_forall in Hall. destruct (Hall id Hid) as (d & Hd & Hc).
    destruct (Hg' id) as (d' & Hd' & Hin). apply Hin. by rewrite (represents_functional w' id d d' Hd Hd'). }
  apply subseteq_size in Hsub. rewrite size_list_to_set in Hsub by done. unfold len. lia.
Qed.

End Setup.
End Service.
End GuestListService.
