(* ===== verification/GuestListDemo.v ===== *)
(** * The guest list on concrete inputs

    An invitation in a traced MongoDB event store over a database of finite
    maps, and the guest list in a MongoDB repository over another. *)

From stdpp Require Import base gmap strings list numbers option pretty.
From Stdlib Require Import Lia ZArith.
From S2P Require Import Prelude.
From S2P Require Import GoTypes.
From S2P Require Import Event.
From S2P Require Import Command.
From S2P Require Import Errors.
From S2P Require Import Fixtures.
From S2P Require Import CommandCheck.
From S2P Require Import EventStoreSpec.
From S2P Require Import MemStore.
From S2P Require Import AggregateBase.
From S2P Require Import AggregateStore.
From S2P Require Import CommandHandler.
From S2P Require Import Repo.
From S2P Require Import Wrappers.
From S2P Require Import Tracing.
From S2P Require Import Mongo.
From S2P Require Import MongoStoreV2.
From S2P Require Import MongoStoreV2Spec.
From S2P Require Import MongoStoreV2Laws.
From S2P Require Import MongoStoreV2Demo.
From S2P Require Import MongoRepo.
From S2P Require Import MongoRepoSpec.
From S2P Require Import DomainModel.
From S2P Require Import GuestList.
From S2P Require Import GuestListService.

Import GuestList.GuestList.

Module GuestListDemo.

Definition time_now (k : nat) : Time := 100 + Z.of_nat k.

#[local] Instance demo_Domain : Domain InvitationAggregate := invitation_Domain time_now.
#[local] Instance demo_AppliesBySig : AppliesBySig InvitationAggregate := invitation_AppliesBySig time_now.
#[local] Instance demo_CommandSpec : CommandSpec InvitationAggregate Command := invitation_CommandSpec time_now.

Definition created_event (id : UUID) : event :=
  mkEvent InviteCreatedEvent (InviteCreatedData "Ann" 30) 1 InvitationAggregateType id 1 None.

Definition factories : gmap string (unit -> any) :=
  {[InviteCreatedEvent := fun _ => InviteCreatedData "" 0]}.

(** ** The write side *)

(** A codec that knows one invitation. *)
Definition bson_Marshal (d : any) : string + error :=
  match d with AStruct _ _ => inl "ann" | _ => inr (ErrorString "unsupported type") end.

Definition bson_Unmarshal (raw : string) (_ : any) : any + error := inl (InviteCreatedData "Ann" 30).

#[local] Existing Instance V2Demo.demo_StoreLaws.

Abbreviation mongo_v2 := (V2Demo.demo_store None true V2.GlobalPositionInTX).

(** The MongoDB store, with a tracer that writes down its calls around it. *)
Definition mongo_store : EventStore (V2Demo.DB * (heap * unit)) :=
  V2Laws.mongo_EventStore uuid_print factories bson_Marshal bson_Unmarshal is_duplicate_key mongo_v2.

#[local] Instance mongo_store_laws : EventStoreLaws mongo_store :=
  V2Laws.mongo_EventStoreLaws (fun _ => True) (fun v => v) (fun e => e) (fun d => d) (fun r => r) uuid_print
    factories bson_Marshal bson_Unmarshal is_duplicate_key mongo_v2 eq_refl eq_refl
    (fun evs => V2Demo.no_handlers true V2.GlobalPositionInTX (somes evs))
    (fun e md (H : V2.Metadata e = Some md) => ex_intro _ md H).

Definition guest_store : EventStore (list Tracing.call * (V2Demo.DB * (heap * unit))) :=
  Tracing.traced_EventStore Tracing.log_tracer (beside mongo_store).

#[local] Instance guest_store_laws : EventStoreLaws guest_store :=
  @Tracing.traced_EventStoreLaws _ _ _ Tracing.log_tracer (beside mongo_store)
    (beside_EventStoreLaws mongo_store) (beside_Quiet mongo_store).

(** The database after the invitation was sent. *)
Definition invited_db : V2Demo.DB :=
  V2Spec.saved (fun e => e) id1 (V2.mkStream id1 1 InvitationAggregateType 1 5) 0
    (V2Spec.record_of bson_Marshal ∅ <$> [created_event id1]) V2Demo.fresh_db.

Definition st0 : list Tracing.call * (V2Demo.DB * (heap * unit)) := ([], (invited_db, (∅, tt))).

Definition guest_aggregates : gmap string (UUID -> option (agg InvitationAggregate)) :=
  {[InvitationAggregateType := fun id => Some (NewInvitationAggregate id)]}.

Definition invited : InvitationAggregate := mkInvitation "Ann" 30 false false false false.

Lemma invited_repr :
  V2Spec.repr invited_db 1 (<[id1 := V2Spec.place 0 (V2Spec.record_of bson_Marshal ∅ <$> [created_event id1])]>
                              V2Demo.no_history).
Proof.
  pose proof (V2Spec.repr_saved (fun _ => True) (fun v : V2Demo.DB => v) (fun e => e) (fun d => d) (fun r => r)
    is_duplicate_key mongo_v2 V2Demo.fresh_db 0 V2Demo.no_history id1
    (V2.mkStream id1 1 InvitationAggregateType 1 5)
    (V2Spec.record_of bson_Marshal ∅ <$> [created_event id1])) as H.
  apply H.
  - exact V2Demo.fresh_repr.
  - by repeat constructor.
  - done.
  - reflexivity.
  - done.
  - done.
Qed.

Lemma guest_st0_ok : store_ok st0.
Proof.
  split; [done|]. split; [exists 1; by eapply V2Laws.repr_canonical, invited_repr|].
  intros id. simpl. rewrite <- (V2Laws.repr_history _ _ _ id invited_repr).
  destruct (decide (id = id1)) as [->|Hne].
  - rewrite functions.fn_lookup_insert. apply Forall_singleton. split; [|by eexists].
    exists (InviteCreatedData "Ann" 30). right. split; [done|]. by eexists.
  - rewrite functions.fn_lookup_insert_ne by done. constructor.
Qed.

Lemma answer_storable e : sig_of e ∈ emitted AcceptInvite invited -> storable e.
Proof.
  destruct e as [et dt ts at' id v md]. unfold sig_of. simpl.
  intros [= -> ->]%list_elem_of_singleton. by left.
Qed.

Lemma st0_room : holds st0 1.
Proof. intros last Hl. vm_compute in Hl. injection Hl as <-. vm_compute. discriminate. Qed.

Lemma guestlist_handler_end_to_end_witness :
  let '(o, s') := CommandHandler.HandleCommand InvitationAggregateType
                    (events_store uuid_print guest_aggregates guest_store None NoSnapshotStrategy 9)
                    bg (Some (command_of id1 AcceptInvite)) st0 in
  (forall id', id' <> id1 -> stream s' id' = stream st0 id') /\
  if decide (allowed AcceptInvite invited)
  then o = Ok tt /\ spec_represents (C := Command) bg s' id1 (effect AcceptInvite invited)
  else (exists err, o = Err (AggregateError err)) /\ unchanged 0 st0 s'.
Proof.
  apply (guestlist_handler_end_to_end time_now uuid_print guest_aggregates guest_store NoSnapshotStrategy 9
           bg st0 id1 AcceptInvite invited).
  - reflexivity.
  - exact answer_storable.
  - reflexivity.
  - reflexivity.
  - split; [exact guest_st0_ok|]. split; [by repeat constructor|vm_compute; reflexivity].
  - vm_compute. split; discriminate.
  - exact st0_room.
Defined.

Lemma reachable_accepted :
  exists a, reachable time_now id1 a /\ accepted (agg_dom a) = true.
Proof.
  eexists. split.
  - eapply (spec_reachable_command id1 bg AcceptInvite).
    + eapply (spec_reachable_command id1 bg (CreateInvite "Ann" 30)); [constructor|..].
      * vm_compute. split; discriminate.
      * exact Logic.I.
      * vm_compute. reflexivity.
      * apply (eq_refl (somes [_])).
      * reflexivity.
    + vm_compute. split; discriminate.
    + exact Logic.I.
    + vm_compute. reflexivity.
    + apply (eq_refl (somes [_])).
    + reflexivity.
  - reflexivity.
Qed.

Lemma invitation_accepted_or_declined_witness :
  exists a, accepted (agg_dom a) = true /\ invitation_ok (agg_dom a) /\ base_id (agg_base a) = id1.
Proof.
  destruct reachable_accepted as (a & Hr & Ha). exists a. split; [exact Ha|].
  destruct (invitation_accepted_or_declined time_now id1 a Hr) as (Hi & _ & _ & Hid). by split.
Defined.

(** ** The guest list *)

#[export] Instance GuestList_Entity : Entity GuestList := {
  EntityID := gl_ID;
  Versionable _ := None
}.

Definition gl_Marshal (g : GuestList) : gmap string any + error :=
  inl {["_id" := AUUID (gl_ID g);
        "counts" := AStruct "counts" [("g", AInt (NumGuests g)); ("a", AInt (NumAccepted g));
          ("d", AInt (NumDeclined g)); ("c", AInt (NumConfirmed g)); ("n", AInt (NumDenied g))]]}.

Definition gl_Unmarshal (d : gmap string any) (g : GuestList) : GuestList * option error :=
  match d !! "_id", d !! "counts" with
  | Some (AUUID id), Some (AStruct _ [(_, AInt n); (_, AInt a); (_, AInt e); (_, AInt c); (_, AInt x)]) =>
      (mkGuestList id n a e c x, None)
  | _, _ => (g, Some (ErrorString "not a guest list"))
  end.

Abbreviation DB := (gmap UUID (gmap string any)).

Definition gl_coll : Collection DB UUID (gmap string any) unit :=
  map_collection (fun m => m) (fun m _ => m) (fun d => MongoRepo.MongoRepo.key as_uuid d) (fun _ d => d) (fun d => d)
    (fun _ => Nil) (fun _ => tt).

Definition new_list : unit -> GuestList := fun _ => mkGuestList Nil 0 0 0 0 0.

Definition gl_repo : MongoRepo.MongoRepo.Repo (S := DB) (E := GuestList) (B := any) (I := unit) :=
  MongoRepo.MongoRepo.mkMongoRepo (map_client DB) externalClient gl_coll (Some new_list) false.

#[local] Instance gl_coll_laws :
  CollectionLaws (fun _ : DB => True) (fun v : DB => v) (fun m => m) (fun m _ => m)
    (MongoRepo.MongoRepo.key as_uuid) (fun d => d) (fun _ _ => True) is_duplicate_key
    (MongoRepo.MongoRepo.entities gl_repo).
Proof. by apply map_CollectionLaws. Qed.

Definition repo : ReadWriteRepo DB GuestList :=
  MongoRepo.MongoRepo.as_repo gl_Marshal gl_Unmarshal gl_repo AUUID as_uuid.

#[local] Instance gl_repo_laws : RepoLaws repo :=
  MongoRepoSpec.MongoRepoSpec.Mongo_RepoLaws (HE := GuestList_Entity) (fun _ : DB => True) (fun v : DB => v)
    (fun m => m) (fun m _ => m) gl_Marshal gl_Unmarshal AUUID as_uuid (fun d => d) (fun _ _ => True)
    is_duplicate_key gl_repo new_list eq_refl (fun _ => eq_refl) (fun _ => eq_refl).

Lemma gl_keepable g : keepable (RepoLaws := gl_repo_laws) g.
Proof.
  eexists. split; [reflexivity|]. split.
  - intros v [= <-]. reflexivity.
  - intros old. unfold gl_Unmarshal.
    rewrite (lookup_union_Some_l _ _ "_id" (AUUID (gl_ID g))) by done.
    erewrite (lookup_union_Some_l _ _ "counts") by done. by destruct g.
Qed.

Definition answers : list event :=
  [mkEvent InviteAcceptedEvent ANil 1 InvitationAggregateType id1 2 None;
   mkEvent InviteDeclinedEvent ANil 2 InvitationAggregateType id2 2 None;
   mkEvent InviteConfirmedEvent ANil 3 InvitationAggregateType id1 3 None].

Lemma guest_list_counts_witness :
  exists s', for_range answers (fun e => HandleEvent (fun g => g) Some repo id3 bg (Some e)) ∅ = (Ok tt, s') /\
    (Repo.Find repo bg id3 s').1 = Ok (mkGuestList id3 2 1 1 1 0).
Proof.
  destruct (guest_list_counts (fun g => g) Some repo id3 (fun _ => eq_refl)
    (fun g Hg => conj (gl_keepable g) Hg) ltac:(discriminate) bg answers ∅) as (s' & Hrun & Hok & He).
  - split; [exact Logic.I|]. apply map_Forall_empty.
  - reflexivity.
  - unfold answers, counted. repeat constructor.
  - vm_compute. split; discriminate.
  - exists s'. split; [exact Hrun|].
    destruct (Repo.law_find bg s' id3 (totals id3 answers) Hok) as (s2 & Hf & _).
    + rewrite He. apply lookup_insert_eq.
    + rewrite Hf. reflexivity.
Defined.

(** ** The service, over the in-memory store *)

Import GuestListService.

Definition memory : EventStore (MemDB * unit) := memory_EventStore factories copier_assign.

#[local] Instance memory_laws : EventStoreLaws memory := memory_EventStoreLaws _ _.

Definition accepted_event (id : UUID) : event :=
  mkEvent InviteAcceptedEvent ANil 1 InvitationAggregateType id 2 None.

(** Three guests accept; their events come twice, the last first. *)
Definition party : list service_step :=
  ((fun id => Issue id (CreateInvite "Ann" 30)) <$> [id1; id2; id3]) ++
  ((fun id => Issue id AcceptInvite) <$> [id1; id2; id3]) ++
  ((fun id => Deliver (accepted_event id)) <$> [id3; id1; id1; id2; id3]).

Abbreviation party_bus := (guest_bus uuid_print time_now 9 guest_aggregates memory).

Lemma guest_events_storable c d e : sig_of e ∈ emitted c d -> storable (st := memory) e.
Proof.
  destruct e as [et dt ts at' id v md]. unfold sig_of. intros Hin.
  assert (dt = ANil \/ et = InviteCreatedEvent /\ exists n a, dt = InviteCreatedData n a) as [->|(-> & n & a & ->)]; [|reflexivity..].
  destruct c; simpl in Hin; repeat case_match; try by apply elem_of_nil in Hin.
  all: apply list_elem_of_singleton in Hin; simplify_eq; eauto.
Qed.

Lemma empty_memory_ok : store_ok (st := memory) ((∅, tt) : MemDB * unit).
Proof. split; [apply map_Forall_empty|]. intros id. constructor. Qed.

Definition service_end : result unit * (ResponseSaga * (_ * (MemDB * unit))) :=
  for_range party (service_run bg) (NewResponseSaga 2, (party_bus, (∅, tt))).

Lemma guest_list_never_overbooked_witness :
  exists saga' w', service_end = (Ok tt, (saga', (party_bus, w'))) /\
    forall guests, NoDup guests ->
      Forall (fun id => exists d, spec_represents (C := Command) (store := memory) bg w' id d /\ confirmed d = true) guests ->
      len guests <= 2.
Proof.
  apply (guest_list_never_overbooked uuid_print time_now 9 guest_aggregates memory bg eq_refl eq_refl
           guest_events_storable 2 party (∅, tt)).
  - discriminate.
  - repeat constructor.
  - exact empty_memory_ok.
  - intros id. exists NewInvitation. split; [|reflexivity]. split; [exact empty_memory_ok|].
    split; [constructor|reflexivity].
  - exact Logic.I.
  - intros id. vm_compute. split; discriminate.
Defined.

(** The two seats go to the guests whose events came first. *)
Example party_answers :
  (fun id => eventType <$> stream service_end.2.2.2 id) <$> [id1; id2; id3] =
  [[InviteCreatedEvent; InviteAcceptedEvent; InviteConfirmedEvent];
   [InviteCreatedEvent; InviteAcceptedEvent; InviteDeniedEvent];
   [InviteCreatedEvent; InviteAcceptedEvent; InviteConfirmedEvent]].
Proof. vm_compute. reflexivity. Qed.

End GuestListDemo.
