(* ===== verification/AcceptanceDemo.v ===== *)
(** * The event stores pass their acceptance tests

    The in-memory store, recorded and traced, at which the theorem of
    [EventStoreAcceptance] is applied, and runs of the maintenance and snapshot
    tests on the in-memory store and on both MongoDB stores. *)

From stdpp Require Import base gmap strings list numbers option pretty.
From Stdlib Require Import Lia ZArith.
From S2P Require Import Prelude.
From S2P Require Import GoTypes.
From S2P Require Import Event.
From S2P Require Import Command.
From S2P Require Import Errors.
From S2P Require Import Fixtures.
From S2P Require Import EventStoreSpec.
From S2P Require Import MemStore.
From S2P Require Import Match.
From S2P Require Import Context.
From S2P Require Import Wrappers.
From S2P Require Import Tracing.
From S2P Require Import Mocks.
From S2P Require Import Testing.
From S2P Require Import EventStoreAcceptance.
From S2P Require Import Benchmarks.
From S2P Require Import Mongo.
From S2P Require Import MongoStoreV2.
From S2P Require Import MongoStoreV2Spec.
From S2P Require Import MongoStoreV2Laws.
From S2P Require Import MongoStoreV2Demo.
From S2P Require Import MongoStoreV1.
From S2P Require Import MongoStoreV1Spec.
From S2P Require Import MongoStoreV1Laws.
From S2P Require Import Recorder.

Import EventStoreAcceptance.
Import Recorder.

Module AcceptanceDemo.

(** What the mocks register. *)
Definition mock_factories : gmap string (unit -> any) := {[Mocks.EventType := fun _ => Mocks.EventData ""]}.

(** The heap with the map of the second event. *)
Definition md2 : loc := 1%positive.
Definition heap0 : heap := {[md2 := event2_metadata]}.

(** ** In memory *)

Definition memory : EventStoreSpec.EventStore (MemDB * heap) := memory_EventStore mock_factories copier_assign.

Definition recorded : EventStoreSpec.EventStore (Recording * (MemDB * heap)) := recorder_EventStore (beside memory).

Definition traced : EventStoreSpec.EventStore (list Tracing.call * (Recording * (MemDB * heap))) :=
  Tracing.traced_EventStore Tracing.log_tracer (beside recorded).

#[local] Existing Instance beside_EventStoreLaws.
#[local] Existing Instance beside_Quiet.
#[local] Existing Instance beside_EventStoreRefuses.
#[local] Existing Instance beside_KeepsDetails.

#[local] Instance memory_laws : EventStoreLaws memory := memory_EventStoreLaws _ _.
#[local] Instance memory_refuses : EventStoreRefuses memory := memory_EventStoreRefuses _ _.
#[local] Instance memory_details : KeepsDetails memory (fun st => st.2) := memory_KeepsDetails _ _ (fun h => h).
#[local] Instance recorded_laws : EventStoreLaws recorded := wrapper_EventStoreLaws recorded (beside memory).
#[local] Instance recorded_refuses : EventStoreRefuses recorded := wrapper_EventStoreRefuses recorded (beside memory).
#[local] Instance recorded_details : KeepsDetails recorded (fun st => st.2.2) :=
  @wrapper_KeepsDetails _ _ recorded (beside memory) _ _ _ (fun st => st.2.2)
    (beside_KeepsDetails memory (fun st => st.2)).
#[local] Instance traced_wraps : Wraps traced (beside recorded) := Tracing.traced_Wraps Tracing.log_tracer (beside recorded).
#[local] Instance traced_laws : EventStoreLaws traced := wrapper_EventStoreLaws traced (beside recorded).
#[local] Instance traced_refuses : EventStoreRefuses traced := wrapper_EventStoreRefuses traced (beside recorded).
#[local] Instance traced_details : KeepsDetails traced (fun st => st.2.2.2) :=
  @wrapper_KeepsDetails _ _ traced (beside recorded) _ _ _ (fun st => st.2.2.2)
    (beside_KeepsDetails recorded (fun st => st.2.2)).

Definition mem0 : MemDB * heap := (∅, heap0).
Definition st0 : list Tracing.call * (Recording * (MemDB * heap)) := ([], (mkRecording true [] [], mem0)).

Definition no_text {A} (a : A) : string := "".

Abbreviation event_test store heap_of :=
  (AcceptanceTest store heap_of no_text uuid_print no_text no_text bg id1 (uuid_of_N 4) id2 id3 md2).

(** The in-memory store passes, recorded and traced. *)
Lemma event_store_acceptance_passes_witness :
  passes (event_test traced (fun st => st.2.2.2)) st0
    (fun saved st => Forall2 same_event saved (stream st id1 ++ stream st id2) /\ len saved = 7).
Proof.
  eapply passes_weaken.
  - apply (event_store_acceptance_passes traced (fun st => st.2.2.2) no_text uuid_print no_text no_text [id1; id2; id3] md2
      bg id1 (uuid_of_N 4) id2 id3 st0).
    + reflexivity.
    + apply (bool_decide_eq_true_1 (NoDup [id1; id2; id3])). vm_compute. reflexivity.
    + intros H. by apply (f_equal uuid_bits) in H.
    + split; [by apply map_Forall_empty|]. intros id. by constructor.
    + intros id _. reflexivity.
    + exact Logic.I.
    + reflexivity.
    + by repeat constructor.
  - intros saved st (_ & H & Hl). by split.
Defined.

(** The benchmark, with as many iterations as fit an [int]. *)
Lemma store_benchmark_passes_witness (N : nat) :
  Z.of_nat N <= MaxInt ->
  passes (Benchmarks.store_Benchmark traced (fun _ => 0) N id1) st0 (fun _ st => len (stream st id1) = Z.of_nat N).
Proof.
  intros HN. eapply passes_weaken.
  - apply (Benchmarks.store_benchmark_passes traced (fun _ => 0) N id1 st0).
    + split; [by apply map_Forall_empty|]. intros id. by constructor.
    + reflexivity.
    + exact Logic.I.
    + unfold is_int, MinInt in *. lia.
    + intros n. vm_compute. eauto.
  - intros [] st [_ H]. exact H.
Defined.

(** ** Maintenance *)

Abbreviation maintenance_test store heap_of Replace RenameEvent :=
  (MaintenanceAcceptanceTest store heap_of no_text uuid_print no_text no_text Replace RenameEvent bg
     id1 (uuid_of_N 4) id2 id3).

Lemma memory_maintenance_passes :
  passes (maintenance_test memory (fun st => st.2)
      (fun ctx ev => zoom_fst (MemStore.Replace mock_factories copier_assign ctx ev))
      (fun ctx from to => zoom_fst (MemStore.RenameEvent ctx from to))) mem0
    (fun _ st => (es_Load memory bg id1 st).1 = Panic "nil pointer dereference").
Proof. apply passes_run. vm_compute. reflexivity. Qed.

(** *** MongoDB *)

Definition mock_Marshal (d : any) : string + error :=
  match d with
  | AStruct _ [(_, AString text)] => inl ("#" +:+ text)
  | _ => inr (ErrorString "unsupported type")
  end.

Definition mock_Unmarshal (raw : string) (_ : any) : any + error :=
  match raw with
  | EmptyString => inr (ErrorString "invalid document length")
  | String.String _ text => inl (Mocks.EventData text)
  end.

Abbreviation v2 := (V2Demo.demo_store None true V2.GlobalPositionInTX).

Definition mongo_v2 : EventStoreSpec.EventStore (V2Demo.DB * (heap * unit)) :=
  V2Laws.mongo_EventStore uuid_print mock_factories mock_Marshal mock_Unmarshal is_duplicate_key v2.

Definition v2_0 : V2Demo.DB * (heap * unit) := (V2Demo.fresh_db, (heap0, tt)).

Lemma v2_acceptance_passes : passes (event_test mongo_v2 (fun st => st.2.1)) v2_0 (fun saved _ => len saved = 7).
Proof. apply passes_run. vm_compute. reflexivity. Qed.

Lemma v2_maintenance_passes :
  passes (maintenance_test mongo_v2 (fun st => st.2.1)
      (fun ctx ev => V2.Replace mock_Marshal v2 ctx ev)
      (fun ctx from to => zoom_fst (V2.RenameEvent v2 ctx from to))) v2_0
    (fun _ st => exists evs, (es_Load mongo_v2 bg id1 st).1 = Ok (somes evs) /\ len evs = 3).
Proof. apply passes_run. vm_compute. eexists [_; _; _]. split; reflexivity. Qed.

(** *** Snapshots *)

Definition snap_Marshal (sn : Snapshot) : string + error :=
  match snap_State sn with
  | AStruct _ [(_, AString text)] => inl (to_text (snap_Version sn, snap_AggregateType sn, snap_Timestamp sn, text))
  | _ => inr (ErrorString "unsupported type")
  end.

Definition snap_Unmarshal (raw : string) (_ : Snapshot) : Snapshot + error :=
  match of_text (A := Z * string * Z * string) raw with
  | Some (v, at', ts, text) => inl (mkSnapshot v at' ts (TestData text))
  | None => inr (ErrorString "invalid character")
  end.

Definition v2_snapshots : SnapshotStore (V2Demo.DB * (heap * unit)) :=
  V2Laws.mongo_SnapshotStore v2 {["test" := fun _ => TestData ""]} snap_Marshal snap_Unmarshal
    V2Demo.demo_pack V2Demo.demo_pack 9.

Lemma v2_snapshot_passes :
  passes (SnapshotAcceptanceTest (Some v2_snapshots) bg id1 id2 100 101) v2_0 (fun _ _ => True).
Proof. apply passes_run. vm_compute. exact Logic.I. Qed.

Abbreviation v1 := V1Spec.demo_store.

Definition mongo_v1 : EventStoreSpec.EventStore (V1Spec.DB * (heap * unit)) :=
  V1Laws.v1_EventStore mock_factories mock_Marshal mock_Unmarshal v1.

Definition v1_0 : V1Spec.DB * (heap * unit) := (∅, (heap0, tt)).

Lemma v1_acceptance_passes : passes (event_test mongo_v1 (fun st => st.2.1)) v1_0 (fun saved _ => len saved = 7).
Proof. apply passes_run. vm_compute. reflexivity. Qed.

Lemma v1_maintenance_passes :
  passes (maintenance_test mongo_v1 (fun st => st.2.1)
      (fun ctx ev => V1.Replace mock_Marshal v1 ctx ev)
      (fun ctx from to => zoom_fst (V1.RenameEvent v1 ctx from to))) v1_0
    (fun _ st => exists evs, (es_Load mongo_v1 bg id1 st).1 = Ok (somes evs) /\ len evs = 3).
Proof. apply passes_run. vm_compute. eexists [_; _; _]. split; reflexivity. Qed.

End AcceptanceDemo.
