(* ===== verification/BusAcceptanceDemo.v ===== *)
(** * The local event bus and the in-memory outbox pass their acceptance tests
      and a small load test *)

From stdpp Require Import base gmap strings list numbers option pretty.
From Stdlib Require Import Lia ZArith.
From S2P Require Import Prelude.
From S2P Require Import GoTypes.
From S2P Require Import Event.
From S2P Require Import Command.
From S2P Require Import Errors.
From S2P Require Import Fixtures.
From S2P Require Import Match.
From S2P Require Import Context.
From S2P Require Import Outbox.
From S2P Require Import LocalBus.
From S2P Require Import Mocks.
From S2P Require Import Testing.
From S2P Require Import EventStoreAcceptance.
From S2P Require Import EventBusAcceptance.
From S2P Require Import OutboxAcceptance.
From S2P Require Import Benchmarks.
From S2P Require Import Codec.

Import EventBusAcceptance.

Module BusAcceptanceDemo.

(** ** A codec: the JSON codec over encoders that know the mocks *)

Definition mock_factories : gmap string (unit -> any) := {[Mocks.EventType := fun _ => Mocks.EventData ""]}.

Definition encode_data (d : any) : string + error :=
  match d with
  | AStruct _ [(_, AString content)] => inl (String.append "#" content)
  | _ => inr (ErrorString "unsupported type")
  end.

Definition decode_data (raw : string) (_ : any) : any + error :=
  match raw with
  | String.String _ content => inl (Mocks.EventData content)
  | EmptyString => inr (ErrorString "unexpected end of JSON input")
  end.

(** The time, the aggregate's type and what is in the maps are those of the
    test. *)
Definition encode_evt (e : Codec.evt) : string + error :=
  inl (to_text (Codec.EventType e, Codec.RawData e, Codec.AggregateID e, Codec.Version e,
                bool_decide (Codec.Metadata e = None))).

Definition decode_evt (b : string) : Codec.evt + error :=
  match of_text b : option (string * string * string * Z * bool) with
  | Some (et, raw, id, v, no_metadata) =>
      inl (Codec.mkEvt et raw date Mocks.AggregateType id v
             (if no_metadata then None else Some EventStoreAcceptance.event2_metadata)
             (Some {[Mocks.contextKeyOneStr := AString "testval"]}))
  | None => inr (ErrorString "unexpected end of JSON input")
  end.

Definition json_MarshalEvent (ctx : context) (ev : option event) : M rest string :=
  zoom_fst (Codec.MarshalEvent [Mocks.one_marshaler] uuid_to_bits encode_data encode_evt ctx ev).

Definition json_UnmarshalEvent (ctx : context) (b : string) (x : rest)
    : ((event * context) + (option context * error)) * rest :=
  match Codec.UnmarshalEvent [Mocks.one_unmarshaler] mock_factories uuid_of_bits decode_data decode_evt ctx b x.1 with
  | (Ok r, h) => (inl r, (h, x.2))
  | (Err err, h) => (inr (None, err), (h, x.2))
  | (Panic _, h) => (inr (None, ErrorString "panic"), (h, x.2))
  end.

(** ** Two buses on a group *)

Abbreviation Buses := (LocalBus.Buses (X := rest)).

Definition handler_text (err : error) : string := match err with ErrorString msg => msg | _ => "" end.

Definition local_bus (b : nat) : EventBus Buses := mkEventBus
  (fun ctx e => LocalBus.HandleEvent json_MarshalEvent ctx e)
  (fun _ m h => zoom_fst (LocalBus.AddHandler b m h))
  (zoom_fst (LocalBus.receive_error b))
  (zoom_fst (modify (LocalBus.Close b))).

Definition handle_one := LocalBus.handle_one json_UnmarshalEvent handler_text.

(** The goroutines: whenever the test waits, each takes a turn in this order. *)
Definition goroutines : list (nat * string) :=
  [(0%nat, "other-handler"); (0%nat, "handler"); (1%nat, "handler"); (1%nat, "another_handler");
   (0%nat, "observer_0"); (1%nat, "observer_1"); (0%nat, "error_handler")].

Definition take_turns (order : list (nat * string)) (k : nat) : M (Buses * rest) unit :=
  for_range order (fun g => handle_one g.1 g.2).

Definition group_start : Buses * rest :=
  (LocalBus.mkBuses LocalBus.NewGroup [LocalBus.mkEventBus ∅ []; LocalBus.mkEventBus ∅ []], (∅, [])).

Definition bus_test (order : list (nat * string)) : test (Buses * rest) unit :=
  AcceptanceTest (take_turns order) pretty uuid_print (fun _ => "") (fun _ => "") (fun _ => "") 7
    (local_bus 0) (local_bus 1) id1 id2 (uuid_of_N 0) (uuid_of_N 1).

(** Whoever of the three handlers of events with data is faster, the test
    passes. *)
Definition contenders : list (nat * string) := [(0%nat, "handler"); (1%nat, "handler"); (1%nat, "another_handler")].

Definition others : list (nat * string) :=
  [(0%nat, "other-handler"); (0%nat, "observer_0"); (1%nat, "observer_1"); (0%nat, "error_handler")].

Lemma local_bus_passes order : order ≡ₚ contenders -> passes (bus_test (order ++ others)) group_start (fun _ _ => True).
Proof.
  intros Ho%symmetry%permutations_Permutation. revert order Ho. apply Forall_forall.
  let l := eval vm_compute in (permutations contenders) in change (permutations contenders) with l.
  repeat (apply Forall_cons; split; [apply passes_run; vm_compute; exact I|]). by apply Forall_nil.
Qed.

(** A handler that gets no turn did not receive its event in time. *)
Example starved_handler :
  (bus_test contenders (group_start, [])).2.2 =
  ["did not receive event in time"; "the events were incorrect"; "did not receive event in time";
   "the context should be correct"; "did not receive event in time"; "the context should be correct";
   "there should be an async error"].
Proof. vm_compute. reflexivity. Qed.

Lemma local_bus_refuses : passes (TestAddHandler 7 (local_bus 0) bg) group_start (fun _ _ => True).
Proof. apply passes_run. vm_compute. exact I. Qed.

(** ** The load test of the bus, with two aggregates, two handlers and five events *)

Definition load_goroutines : list (nat * string) := [(0%nat, "handler-0"); (0%nat, "handler-1")].

Definition load_test (order : list (nat * string)) (rounds : nat) : test (Buses * rest) unit :=
  Benchmarks.benchmark (take_turns order) 7 (fun n => uuid_of_N (N.of_nat n + 1)) (fun n => Nat.modulo n 2)
    (local_bus 0) 2 2 5 rounds.

Lemma local_bus_carries_load : passes (load_test load_goroutines 0) group_start (fun _ _ => True).
Proof. apply passes_run. vm_compute. exact I. Qed.

(** A handler that is behind gets its events in the rounds that follow; when
    there are none, its goroutine runs out of time. *)
Definition late (k : nat) : M (Buses * rest) unit :=
  take_turns (if Nat.ltb k 4 then [(0%nat, "handler-0")] else load_goroutines) k.

Definition late_test (rounds : nat) : test (Buses * rest) unit :=
  Benchmarks.benchmark late 7 (fun n => uuid_of_N (N.of_nat n + 1)) (fun n => Nat.modulo n 2) (local_bus 0) 2 2 5 rounds.

Lemma late_handler_catches_up : passes (late_test 3) group_start (fun _ _ => True).
Proof. apply passes_run. vm_compute. exact I. Qed.

Example late_handler_times_out :
  (late_test 2 (group_start, [])).2.2 = ["did not receive message within timeout"].
Proof. vm_compute. reflexivity. Qed.

(** ** The in-memory outbox *)

Abbreviation MemOutbox := (Outbox.Outbox (X := rest)).

(** Everything happens at the test's date, until the last wait, at which the
    sweep age has passed.  IDs are fresh ones. *)
Definition new_id (o : MemOutbox) : UUID := uuid_of_N (N.of_nat (size (Outbox.docs o))).

Definition memory_outbox : EventBus MemOutbox := mkEventBus
  (fun ctx e => zoom_fst (fun o => Outbox.HandleEvent mock_factories copier_assign (new_id o) date ctx e o))
  (fun _ m h => zoom_fst (Outbox.AddHandler m h))
  (zoom_fst Outbox.receive_error)
  (ret tt).

Definition outbox_goroutines (k : nat) : M (MemOutbox * rest) unit :=
  do! Outbox.watch_loop [date; date] in
  if Nat.eqb k 4
  then let! o := gets fst in
       Outbox.processFullOutbox (elements (Outbox.db o)) (date + Outbox.PeriodicSweepAge + 1)
  else ret tt.

Definition outbox_start : MemOutbox * rest := (Outbox.NewOutbox, (∅, [])).

Lemma memory_outbox_passes :
  passes (OutboxAcceptance.AcceptanceTest outbox_goroutines pretty uuid_print (fun _ => "") (fun _ => "") (fun _ => "") 7
            memory_outbox bg "none" id1 id2) outbox_start
    (fun _ st => Outbox.errCh st.1 = []).
Proof. apply passes_run. vm_compute. reflexivity. Qed.

Lemma memory_outbox_refuses : passes (OutboxAcceptance.TestAddHandler 7 memory_outbox bg) outbox_start (fun _ _ => True).
Proof. apply passes_run. vm_compute. exact I. Qed.

Lemma memory_outbox_carries_load :
  passes (Benchmarks.outbox_Benchmark outbox_goroutines 7 (fun n => uuid_of_N (N.of_nat n + 1)) (fun n => Nat.modulo n 50)
            memory_outbox 4 3) outbox_start
    (fun _ st => Outbox.errCh st.1 = []).
Proof. apply passes_run. vm_compute. reflexivity. Qed.

End BusAcceptanceDemo.
